(** * ai_experiment_assistant: the analysis engine and the record editor

    A shallow embedding of [analyzer.py], [recorder.py], [reagent_calc.py],
    [models.py] and [config.py].  Python floats are IEEE 754 binary64 numbers and are
    modelled by Rocq's primitive floats, so every arithmetic step rounds
    as it does in the program and the scenarios can be evaluated.
    The statistics are compared with their definitions over the real
    numbers that the floats denote.  Dictionaries are stdpp [gmap]s,
    exceptions are an error monad. *)

From Stdlib Require Import Reals Lra Psatz.
From Stdlib Require Import Floats ZArith List Bool Lia Sorted Permutation.
From stdpp Require Import base option list gmap strings.
Import ListNotations.

#[local] Set Warnings "-inexact-float".

(** ** Python values, exceptions and float operators *)

Module Py.

Inductive exn :=
| ZeroDivisionError
| KeyError (key : string)
| TypeError
| ValueError
| ValidationError (what : string)
| MultipleResultsFound
| IntegrityError
| OtherError (name : string).

Inductive result (A : Type) :=
| Ok (a : A)
| Raise (e : exn).
Arguments Ok {A} a.
Arguments Raise {A} e.

#[global] Instance result_ret : MRet result := fun A a => Ok a.
#[global] Instance result_bind : MBind result := fun A B k r =>
  match r with
  | Ok a => k a
  | Raise e => Raise e
  end.

(** [for x in xs: body], where the body may raise. *)
Fixpoint for_each {A S} (xs : list A) (body : S -> A -> result S) (s : S)
  : result S :=
  match xs with
  | [] => Ok s
  | x :: xs' => s' ← body s x; for_each xs' body s'
  end.

(** Comparison and arithmetic of Python floats. *)
Definition ge (x y : float) : bool := PrimFloat.leb y x.
Definition ne (x y : float) : bool := negb (PrimFloat.eqb x y).

(** [x / y] on Python floats raises on a zero divisor. *)
Definition truediv (x y : float) : result float :=
  if PrimFloat.eqb y 0 then Raise ZeroDivisionError
  else Ok (PrimFloat.div x y).

(** [d[key]] *)
Definition getitem {V} (d : gmap string V) (key : string) : result V :=
  match d !! key with
  | Some v => Ok v
  | None => Raise (KeyError key)
  end.

End Py.

Import Py.

(** ** The part of pandas and numpy used by the analyzer

    A float Series is a list of floats in row order.  Reductions skip
    missing values (NaN) the way [pandas.core.nanops] does: a NaN is
    replaced by a neutral value before the numpy reduction and left out
    of the count.  Sums are numpy's pairwise sums. *)

Module pd.

Abbreviation Series := (list float).

Definition isna (x : float) : bool := negb (PrimFloat.eqb x x).
Definition notna (x : float) : bool := PrimFloat.eqb x x.

Definition fillna (v : float) (s : Series) : Series :=
  map (fun x => if isna x then v else x) s.

Definition count (s : Series) : nat := length (List.filter notna s).

(** The integer count converted to float64; a count is below 2^63. *)
Definition float_of_count (n : nat) : float :=
  PrimFloat.of_uint63 (Uint63.of_Z (Z.of_nat n)).

(** *** [ndarray.sum()]

    numpy adds a float64 array with [pairwise_sum]: fewer than 8
    elements are added in order; up to 128 elements are added into 8
    interleaved accumulators that are then combined; a longer array is
    split in two at a multiple of 8. *)

Definition acc8 := (float * float * float * float * float * float * float * float)%type.

(** The loop [for (i = 8; i < n - (n % 8); i += 8) r[j] += a[i + j]];
    it returns the accumulators and the elements left over. *)
Fixpoint accumulate8 (r : acc8) (a : list float) : acc8 * list float :=
  match a with
  | x0 :: x1 :: x2 :: x3 :: x4 :: x5 :: x6 :: x7 :: a' =>
      let '(r0, r1, r2, r3, r4, r5, r6, r7) := r in
      accumulate8
        (PrimFloat.add r0 x0, PrimFloat.add r1 x1, PrimFloat.add r2 x2,
         PrimFloat.add r3 x3, PrimFloat.add r4 x4, PrimFloat.add r5 x5,
         PrimFloat.add r6 x6, PrimFloat.add r7 x7)
        a'
  | _ => (r, a)
  end.

(** The branch for 8 to 128 elements. *)
Definition block_sum (a : list float) : float :=
  match a with
  | x0 :: x1 :: x2 :: x3 :: x4 :: x5 :: x6 :: x7 :: a' =>
      let '((r0, r1, r2, r3, r4, r5, r6, r7), rest) :=
        accumulate8 (x0, x1, x2, x3, x4, x5, x6, x7) a' in
      let res :=
        PrimFloat.add
          (PrimFloat.add (PrimFloat.add r0 r1) (PrimFloat.add r2 r3))
          (PrimFloat.add (PrimFloat.add r4 r5) (PrimFloat.add r6 r7)) in
      fold_left PrimFloat.add rest res
  | _ => fold_left PrimFloat.add a 0%float
  end.

Definition PW_BLOCKSIZE : nat := 128.

(** [depth] bounds the number of halvings; the length of the array is
    always enough. *)
Fixpoint pairwise_sum_rec (depth : nat) (a : list float) : float :=
  let n := length a in
  if (n <? 8)%nat then fold_left PrimFloat.add a 0%float
  else if (n <=? PW_BLOCKSIZE)%nat then block_sum a
  else
    match depth with
    | O => block_sum a
    | S depth' =>
        let n2 := (n / 2 - (n / 2) mod 8)%nat in
        PrimFloat.add (pairwise_sum_rec depth' (take n2 a))
                      (pairwise_sum_rec depth' (drop n2 a))
    end.

Definition pairwise_sum (a : list float) : float := pairwise_sum_rec (length a) a.

(** The reduction starts from the identity of addition. *)
Definition np_sum (s : Series) : float := PrimFloat.add 0%float (pairwise_sum s).

(** [Series.mean()], that is [nanops.nanmean]. *)
Definition mean (s : Series) : float :=
  let n := count s in
  let the_sum := np_sum (fillna 0 s) in
  if (0 <? n)%nat then PrimFloat.div the_sum (float_of_count n) else nan.

(** [Series.std(ddof)], that is the square root of [nanops.nanvar]. *)
Definition var (ddof : nat) (s : Series) : float :=
  let n := count s in
  let '(cnt, d) :=
    if (n <=? ddof)%nat then (nan, nan)
    else (float_of_count n, PrimFloat.sub (float_of_count n) (float_of_count ddof)) in
  let values := fillna 0 s in
  let avg := PrimFloat.div (np_sum values) cnt in
  let sqr :=
    zip_with (fun v x => if isna x then 0%float
                         else PrimFloat.mul (PrimFloat.sub avg v) (PrimFloat.sub avg v))
             values s in
  PrimFloat.div (np_sum sqr) d.

Definition std (ddof : nat) (s : Series) : float := PrimFloat.sqrt (var ddof s).

(** One step of the [maximum] and [minimum] reductions over a float64
    array, [io1 = (io1 > in2 || isnan(io1)) ? io1 : in2]: a NaN on
    either side is kept, and of two values that compare equal (zeros of
    either sign) the later one is kept. *)
Definition np_maximum (a b : float) : float :=
  if PrimFloat.ltb b a || isna a then a else b.
Definition np_minimum (a b : float) : float :=
  if PrimFloat.ltb a b || isna a then a else b.

(** [Series.max()] and [Series.min()]: NaN is replaced by the neutral
    infinity, and an all-NaN (or empty) Series gives NaN. *)
Definition max (s : Series) : float :=
  match fillna neg_infinity s with
  | [] => nan
  | v :: vs => if (0 <? count s)%nat then fold_left np_maximum vs v else nan
  end.

Definition min (s : Series) : float :=
  match fillna infinity s with
  | [] => nan
  | v :: vs => if (0 <? count s)%nat then fold_left np_minimum vs v else nan
  end.

Definition abs (s : Series) : Series := map PrimFloat.abs s.

(** [Series.replace(to_replace, value)] *)
Definition replace (to_replace value : float) (s : Series) : Series :=
  map (fun x => if PrimFloat.eqb x to_replace then value else x) s.

(** Element-wise division of two Series with the same index; a zero
    divisor gives an infinity or NaN, never an exception. *)
Definition div (a b : Series) : Series := zip_with PrimFloat.div a b.

End pd.

(** ** models.py *)

Record Experiment := mkExperiment {
  pk_id : Z;                               (* column [id] *)
  date_time : Z;
  experiment_id : string;
  mode : string;
  voltage_V : option float;
  current_A : option float;
  electrolyte : string;
  duration_min : option float;
  initial_mass_positive_g : float;
  final_mass_positive_g : float;
  delta_mass_positive_g : float;
  initial_mass_negative_g : float;
  final_mass_negative_g : float;
  delta_mass_negative_g : float;
  notes : string
}.

(** The text of a message is a fixed template around the values it
    formats; a message is kept as its template and those values, before
    they are rendered to two or three decimals. *)
Inductive Message :=
| MsgCathodeLoss (ratio limit : float)
    (* 陰極質量變化過大，|Δm-|/|Δm+| = {ratio:.2f} 超過門檻 {limit} *)
| MsgAnodeLoss (delta limit : float)
    (* 陽極質量流失 {delta:.3f} g 超過門檻 {limit} g *)
| MsgUnstable (electrolyte mode : string) (std_anode limit : float).
    (* 條件({electrolyte}, {mode}) 下陽極 Δm 標準差 {std_anode:.3f} g 超過 {limit} g *)

Record Anomaly := mkAnomaly {
  anomaly_experiment_id : string;
  anomaly_type : string;
  message : Message
}.

(** ** config.py *)

Module config.

Definition DEFAULT_ANALYSIS_CONFIG : gmap string float :=
  <["cathode_loss_ratio_threshold" := 0.5%float]>
  (<["anode_loss_threshold_g" := 0.1%float]>
  (<["std_dev_instability_threshold_g" := 0.05%float]> ∅)).

End config.

(** ** analyzer.py *)

(** One row of the DataFrame built by [experiments_to_dataframe]. *)
Record Row := mkRow {
  col_id : Z;
  col_date_time : Z;
  col_experiment_id : string;
  col_mode : string;
  col_voltage_V : option float;
  col_current_A : option float;
  col_electrolyte : string;
  col_duration_min : option float;
  col_delta_mass_positive_g : float;
  col_delta_mass_negative_g : float;
  col_notes : string
}.

(** A DataFrame is its rows in index order; [pd.DataFrame()] is [[]]. *)
Abbreviation DataFrame := (list Row).

Definition df_empty (df : DataFrame) : bool :=
  match df with
  | [] => true
  | _ => false
  end.

Definition column (c : Row -> float) (df : DataFrame) : pd.Series := map c df.

Definition experiments_to_dataframe (experiments : list Experiment) : DataFrame :=
  let records :=
    map (fun exp =>
           {| col_id := pk_id exp;
              col_date_time := date_time exp;
              col_experiment_id := experiment_id exp;
              col_mode := mode exp;
              col_voltage_V := voltage_V exp;
              col_current_A := current_A exp;
              col_electrolyte := electrolyte exp;
              col_duration_min := duration_min exp;
              col_delta_mass_positive_g := delta_mass_positive_g exp;
              col_delta_mass_negative_g := delta_mass_negative_g exp;
              col_notes := notes exp |})
        experiments in
  match records with
  | [] => []
  | _ => records
  end.

(** *** Grouping by (electrolyte, mode)

    [df.groupby(["electrolyte", "mode"])] yields the distinct keys in
    sorted order, each with the rows that carry it, in row order. *)

Abbreviation GroupKey := (string * string)%type.

Definition key_eqb (a b : GroupKey) : bool :=
  String.eqb (fst a) (fst b) && String.eqb (snd a) (snd b).

Definition key_ltb (a b : GroupKey) : bool :=
  String.ltb (fst a) (fst b)
  || (String.eqb (fst a) (fst b) && String.ltb (snd a) (snd b)).

Fixpoint insert_key (k : GroupKey) (ks : list GroupKey) : list GroupKey :=
  match ks with
  | [] => [k]
  | k' :: ks' =>
      if key_eqb k k' then ks
      else if key_ltb k k' then k :: ks
      else k' :: insert_key k ks'
  end.

Definition row_key (r : Row) : GroupKey := (col_electrolyte r, col_mode r).

Definition group_keys (df : DataFrame) : list GroupKey :=
  fold_left (fun ks r => insert_key (row_key r) ks) df [].

Definition groupby (df : DataFrame) : list (GroupKey * DataFrame) :=
  map (fun k => (k, List.filter (fun r => key_eqb (row_key r) k) df))
      (group_keys df).

(** *** Statistics *)

(** The values of the statistics dictionary: a float or a nested
    dictionary of floats. *)
Inductive StatValue :=
| StatFloat (x : float)
| StatDict (d : gmap string float).

Abbreviation Stats := (gmap string StatValue).

Definition basic_statistics (df : DataFrame) : Stats :=
  if df_empty df then ∅
  else
    let stats :=
      fold_left
        (fun (stats : Stats) '(label, col) =>
           let series := column col df in
           <[label := StatDict
               (<["mean" := pd.mean series]>
               (<["std" := pd.std 0 series]>
               (<["max" := pd.max series]>
               (<["min" := pd.min series]> ∅))))]> stats)
        [("anode"%string, col_delta_mass_positive_g);
         ("cathode"%string, col_delta_mass_negative_g)]
        ∅ in
    <["ratio_mean_abs" := StatFloat
        (pd.mean
           (pd.div (pd.abs (column col_delta_mass_negative_g df))
                   (pd.replace 0 nan (pd.abs (column col_delta_mass_positive_g df)))))]>
      stats.

Definition grouped_statistics (df : DataFrame) : gmap GroupKey Stats :=
  if df_empty df then ∅
  else
    fold_left
      (fun (results : gmap GroupKey Stats) '((electrolyte, mode), group) =>
         <[(electrolyte, mode) := basic_statistics group]> results)
      (groupby df) ∅.

(** *** Anomaly detection *)

Definition HIGH_CATHODE_LOSS : string := "HIGH_CATHODE_LOSS".
Definition HIGH_ANODE_LOSS : string := "HIGH_ANODE_LOSS".
Definition UNSTABLE_RESULTS : string := "UNSTABLE_RESULTS".

Definition group_id (electrolyte mode : string) : string :=
  String.append "GROUP-" (String.append electrolyte (String.append "-" mode)).

(** [thresholds or {}] *)
Definition or_empty (thresholds : option (gmap string float)) : gmap string float :=
  match thresholds with
  | Some t => t
  | None => ∅
  end.

(** The body of the loop over the experiments. *)
Definition check_experiment (cathode_ratio_limit anode_loss_limit : float)
    (anomalies : list Anomaly) (exp : Experiment) : result (list Anomaly) :=
  anomalies ←
    (if ne (delta_mass_positive_g exp) 0 then
       ratio ← truediv (PrimFloat.abs (delta_mass_negative_g exp))
                       (PrimFloat.abs (delta_mass_positive_g exp));
       if ge ratio cathode_ratio_limit then
         Ok (anomalies ++
             [ {| anomaly_experiment_id := experiment_id exp;
                  anomaly_type := HIGH_CATHODE_LOSS;
                  message := MsgCathodeLoss ratio cathode_ratio_limit |} ])
       else Ok anomalies
     else Ok anomalies);
  if ge (delta_mass_positive_g exp) anode_loss_limit then
    Ok (anomalies ++
        [ {| anomaly_experiment_id := experiment_id exp;
             anomaly_type := HIGH_ANODE_LOSS;
             message := MsgAnodeLoss (delta_mass_positive_g exp) anode_loss_limit |} ])
  else Ok anomalies.

(** The body of the loop over the groups. *)
Definition check_group (instability_std_limit : float)
    (anomalies : list Anomaly) (g : GroupKey * DataFrame) : list Anomaly :=
  let '((electrolyte, mode), group) := g in
  let std_anode := pd.std 0 (column col_delta_mass_positive_g group) in
  if ge std_anode instability_std_limit then
    anomalies ++
    [ {| anomaly_experiment_id := group_id electrolyte mode;
         anomaly_type := UNSTABLE_RESULTS;
         message := MsgUnstable electrolyte mode std_anode instability_std_limit |} ]
  else anomalies.

Definition detect_anomalies (experiments : list Experiment)
    (thresholds : option (gmap string float)) : result (list Anomaly) :=
  let thresholds := or_empty thresholds ∪ config.DEFAULT_ANALYSIS_CONFIG in
  cathode_ratio_limit ← getitem thresholds "cathode_loss_ratio_threshold";
  anode_loss_limit ← getitem thresholds "anode_loss_threshold_g";
  instability_std_limit ← getitem thresholds "std_dev_instability_threshold_g";
  let anomalies : list Anomaly := [] in
  let experiments_list := experiments in
  match experiments_list with
  | [] => Ok anomalies
  | _ =>
      anomalies ← for_each experiments_list
                    (check_experiment cathode_ratio_limit anode_loss_limit)
                    anomalies;
      let df := experiments_to_dataframe experiments_list in
      if negb (df_empty df) then
        Ok (fold_left (check_group instability_std_limit) (groupby df) anomalies)
      else Ok anomalies
  end.

(** *** The combined summary *)

(** [dataclasses.asdict] of an [Anomaly]. *)
Inductive FieldValue :=
| FStr (s : string)
| FMessage (m : Message).

Definition asdict (a : Anomaly) : gmap string FieldValue :=
  <["experiment_id" := FStr (anomaly_experiment_id a)]>
  (<["anomaly_type" := FStr (anomaly_type a)]>
  (<["message" := FMessage (message a)]> ∅)).

Record Summary := mkSummary {
  overall_stats : Stats;
  grouped_stats : gmap string Stats;
  anomalies : list (gmap string FieldValue)
}.

Section Summarize.

(** [repr] of a string: which quotes it prints and what it escapes is
    Python's choice, and is not fixed here. *)
Variable repr : string -> string.

(** [str(k)] of a key tuple, [(repr(electrolyte), repr(mode))] between
    parentheses. *)
Definition str_of_key (k : GroupKey) : string :=
  String.append "("
    (String.append (repr (fst k))
       (String.append ", " (String.append (repr (snd k)) ")"))).

(** The comprehension over [grouped_stats.items()] visits the keys in
    the order in which [grouped_statistics] inserted them, that of
    [groupby]; a later key that renders to the same string replaces the
    earlier entry. *)
Definition summarize_analysis (experiments : list Experiment) : result Summary :=
  let exp_list := experiments in
  let df := experiments_to_dataframe exp_list in
  let stats_all := if negb (df_empty df) then basic_statistics df else ∅ in
  let grouped_stats := if negb (df_empty df) then grouped_statistics df else ∅ in
  let keys := if negb (df_empty df) then map fst (groupby df) else [] in
  anomalies ← detect_anomalies exp_list None;
  Ok {| overall_stats := stats_all;
        grouped_stats :=
          fold_left
            (fun (acc : gmap string Stats) k =>
               match grouped_stats !! k with
               | Some v => <[str_of_key k := v]> acc
               | None => acc
               end)
            keys ∅;
        anomalies := map asdict anomalies |}.

End Summarize.

(** ** recorder.py

    An [Experiment] instance is handled here through [setattr] and
    keyword arguments, so it is modelled by the values of its mapped
    columns; a column that was never set reads [None].  The session is
    the list of the stored rows.  What an attribute outside the mapped
    columns does, and what the database does with a value of an
    unexpected type, is not fixed by the sources: it is left to the
    fields of [Orm]. *)

Module Recorder.

Inductive pyval :=
| PyNone
| PyStr (s : string)
| PyFloat (x : float)
| PyDatetime (t : Z)
| PyTimedelta (d : Z).

Abbreviation obj := (gmap string pyval).

Definition getattr (o : obj) (name : string) : pyval :=
  match o !! name with
  | Some v => v
  | None => PyNone
  end.

Definition NUMERIC_FIELDS : list string :=
  [ "voltage_V"; "current_A"; "duration_min";
    "initial_mass_positive_g"; "final_mass_positive_g";
    "initial_mass_negative_g"; "final_mass_negative_g" ]%string.

(** The mapped columns of [models.Experiment]. *)
Definition COLUMNS : list string :=
  [ "id"; "date_time"; "experiment_id"; "mode"; "voltage_V"; "current_A";
    "electrolyte"; "duration_min";
    "initial_mass_positive_g"; "final_mass_positive_g"; "delta_mass_positive_g";
    "initial_mass_negative_g"; "final_mass_negative_g"; "delta_mass_negative_g";
    "notes" ]%string.

(** The columns declared [nullable=False] that have no default, and the
    [Float] columns that may be null. *)
Definition TEXT_NOT_NULL : list string := [ "experiment_id"; "mode"; "electrolyte" ]%string.
Definition FLOAT_NOT_NULL : list string :=
  [ "initial_mass_positive_g"; "final_mass_positive_g"; "delta_mass_positive_g";
    "initial_mass_negative_g"; "final_mass_negative_g"; "delta_mass_negative_g" ]%string.
Definition FLOAT_NULLABLE : list string := [ "voltage_V"; "current_A"; "duration_min" ]%string.

Definition mem (k : string) (ks : list string) : bool := existsb (String.eqb k) ks.

(** [key in changes] for a keyword dictionary. *)
Definition has_key (key : string) (kwargs : list (string * pyval)) : bool :=
  existsb (fun kv => String.eqb key (fst kv)) kwargs.

(** *** Dictionaries

    A Python dict keeps its keys in insertion order: it is the list of
    its items.  Assigning to a key that is present replaces the value
    where it stands. *)

Fixpoint dict_get (d : list (string * pyval)) (key : string) : option pyval :=
  match d with
  | [] => None
  | (k, v) :: d' => if String.eqb k key then Some v else dict_get d' key
  end.

Fixpoint dict_set (d : list (string * pyval)) (key : string) (value : pyval)
  : list (string * pyval) :=
  match d with
  | [] => [(key, value)]
  | (k, v) :: d' =>
      if String.eqb k key then (k, value) :: d' else (k, v) :: dict_set d' key value
  end.

(** [d.get(key)] and [d[key]] *)
Definition get (d : list (string * pyval)) (key : string) : pyval :=
  match dict_get d key with
  | Some v => v
  | None => PyNone
  end.

Definition dict_getitem (d : list (string * pyval)) (key : string) : result pyval :=
  match dict_get d key with
  | Some v => Ok v
  | None => Raise (KeyError key)
  end.

Definition is_none (v : pyval) : bool :=
  match v with
  | PyNone => true
  | _ => false
  end.

(** [isinstance(value, float)] and [isinstance(value, str)] *)
Definition is_float (v : pyval) : bool :=
  match v with
  | PyFloat _ => true
  | _ => false
  end.

Definition is_str (v : pyval) : bool :=
  match v with
  | PyStr _ => true
  | _ => false
  end.

(** A float other than NaN, which SQLite would store as NULL. *)
Definition is_number (v : pyval) : bool :=
  match v with
  | PyFloat x => PrimFloat.eqb x x
  | _ => false
  end.

Definition is_experiment (experiment_id : string) (o : obj) : bool :=
  match getattr o "experiment_id" with
  | PyStr s => String.eqb s experiment_id
  | _ => false
  end.

(** The rows other than the one being edited. *)
Definition others_of (experiment_id : string) (session : list obj) : list obj :=
  List.filter (fun o => negb (is_experiment experiment_id o)) session.

(** *** What the commit of [get_session] does with a row

    A row is plain when each column is unset, [None], or holds a value
    of the type of the column: a string for the text columns, a float
    for the [Float] columns (not NaN where the column is NOT NULL), a
    datetime for [date_time]; [id] is left to the database. *)

Definition unset_or (p : pyval -> bool) (row : obj) (key : string) : bool :=
  match row !! key with
  | None | Some PyNone => true
  | Some v => p v
  end.

Definition well_kinded (row : obj) : bool :=
  forallb (unset_or is_str row) (TEXT_NOT_NULL ++ ["notes"%string])
  && forallb (unset_or is_number row) FLOAT_NOT_NULL
  && forallb (unset_or is_float row) FLOAT_NULLABLE
  && match row !! "date_time"%string with
     | None | Some (PyDatetime _) => true
     | _ => false
     end
  && match row !! "id"%string with
     | None => true
     | _ => false
     end.

(** A NOT NULL column without a value. *)
Definition null_violation (row : obj) : bool :=
  existsb (fun key => is_none (getattr row key)) (TEXT_NOT_NULL ++ FLOAT_NOT_NULL).

(** The UNIQUE constraint on [experiment_id]. *)
Definition duplicate_id (others : list obj) (row : obj) : bool :=
  match getattr row "experiment_id" with
  | PyStr s => existsb (is_experiment s) others
  | _ => false
  end.

(** [not foreign]: no attribute outside the columns was set. *)
Definition plain (foreign : list (string * pyval)) : bool :=
  match foreign with
  | [] => true
  | _ => false
  end.

(** What is left to SQLAlchemy, to Python's object model and to SQLite:
    - which names other than the mapped columns are attributes of the
      class [Experiment] and of a loaded instance ([metadata],
      [registry], [__class__], [_sa_instance_state], ...);
    - whether [setattr] raises, asked whenever the attribute is not a
      mapped column or such an attribute was set on the instance before
      (the list holds these earlier assignments);
    - whether [session.add] and the commit raise for a row that is not
      plain or an instance on which such an attribute was set. *)
Record Orm := mkOrm {
  class_attribute : string -> bool;
  instance_attribute : string -> bool;
  setattr_raises : list (string * pyval) -> string -> pyval -> option exn;
  flush_raises : list obj -> obj -> list (string * pyval) -> option exn
}.

Section Builtins.

(** [float(s)] and [datetime.fromisoformat(s)] on a string, [None] where
    Python raises [ValueError]. *)
Variable float_of_str : string -> option float.
Variable fromisoformat : string -> option Z.
Variable orm : Orm.

Definition _parse_float (value : pyval) : result pyval :=
  match value with
  | PyNone => Ok PyNone
  | PyStr EmptyString => Ok PyNone
  | PyStr s =>
      match float_of_str s with
      | Some x => Ok (PyFloat x)
      | None => Raise (ValidationError "Invalid numeric value")
      end
  | PyFloat x => Ok (PyFloat x)
  | PyDatetime _ | PyTimedelta _ => Raise (ValidationError "Invalid numeric value")
  end.

(** [final - initial] *)
Definition _calculate_delta (initial final : pyval) : result pyval :=
  match initial, final with
  | PyFloat i, PyFloat f => Ok (PyFloat (PrimFloat.sub f i))
  | PyDatetime i, PyDatetime f => Ok (PyTimedelta (f - i))
  | PyTimedelta i, PyTimedelta f => Ok (PyTimedelta (f - i))
  | PyTimedelta i, PyDatetime f => Ok (PyDatetime (f - i))
  | _, _ => Raise TypeError
  end.

Definition required_fields : list string :=
  [ "initial_mass_positive_g"; "final_mass_positive_g";
    "initial_mass_negative_g"; "final_mass_negative_g" ]%string.

(** [hasattr(Experiment, key)] and [hasattr(experiment, key)] *)
Definition hasattr_class (key : string) : bool :=
  mem key COLUMNS || class_attribute orm key.
Definition hasattr (key : string) : bool :=
  mem key COLUMNS || instance_attribute orm key.

(** [setattr(experiment, key, value)] on an instance given by its
    columns and by the assignments made so far to attributes that are
    not columns.  Assigning to a column stores the value. *)
Definition setattr (instance : obj * list (string * pyval)) (key : string) (value : pyval)
  : result (obj * list (string * pyval)) :=
  let '(experiment, foreign) := instance in
  let assigned :=
    if mem key COLUMNS then (<[key := value]> experiment, foreign)
    else (experiment, foreign ++ [(key, value)]) in
  if mem key COLUMNS && plain foreign then Ok assigned
  else
    match setattr_raises orm foreign key value with
    | Some e => Raise e
    | None => Ok assigned
    end.

(** The constructor that [declarative_base] gives [Experiment]: for
    each keyword in turn, [TypeError] unless it is an attribute of the
    class, then [setattr]. *)
Definition Experiment_init (kwargs : list (string * pyval))
  : result (obj * list (string * pyval)) :=
  for_each kwargs
    (fun instance '(k, v) =>
       if hasattr_class k then setattr instance k v else Raise TypeError)
    (∅, []).

(** The flush and commit of one new or changed row, [others] being the
    rest of the table: [IntegrityError] when a NOT NULL column has no
    value or the identifier is in use. *)
Definition commit (others : list obj) (row : obj) (foreign : list (string * pyval))
  : option exn :=
  if negb (plain foreign && well_kinded row) then flush_raises orm others row foreign
  else if null_violation row || duplicate_id others row then Some IntegrityError
  else None.

(** The body of the loop over [data.items()]. *)
Definition parse_item (parsed : list (string * pyval)) (item : string * pyval)
  : result (list (string * pyval)) :=
  let '(key, value) := item in
  if mem key NUMERIC_FIELDS then
    v ← _parse_float value; Ok (dict_set parsed key v)
  else Ok (dict_set parsed key value).

(** The result pairs the row that was stored with the session after the
    call.  (The Python object that is returned stands for that row, but
    comes back expired and detached from its session.)  When the commit
    raises, the session is rolled back and nothing is stored. *)
Definition add_experiment (session : list obj) (data : list (string * pyval))
  : result (obj * list obj) :=
  parsed ← for_each data parse_item [];
  _ ← for_each required_fields
        (fun (_ : unit) field =>
           if is_none (get parsed field) then
             Raise (ValidationError "Missing required numeric field")
           else Ok tt)
        tt;
  ip ← dict_getitem parsed "initial_mass_positive_g";
  fp ← dict_getitem parsed "final_mass_positive_g";
  dp ← _calculate_delta ip fp;
  let parsed := dict_set parsed "delta_mass_positive_g" dp in
  ineg ← dict_getitem parsed "initial_mass_negative_g";
  fneg ← dict_getitem parsed "final_mass_negative_g";
  dn ← _calculate_delta ineg fneg;
  let parsed := dict_set parsed "delta_mass_negative_g" dn in
  parsed ←
    match get parsed "date_time" with
    | PyStr s =>
        match fromisoformat s with
        | Some t => Ok (dict_set parsed "date_time" (PyDatetime t))
        | None => Raise ValueError
        end
    | _ => Ok parsed
    end;
  instance ← Experiment_init parsed;
  let '(experiment, foreign) := instance in
  match commit session experiment foreign with
  | Some e => Raise e
  | None => Ok (experiment, session ++ [experiment])
  end.

(** The stored instance is mutated in place and committed. *)
Fixpoint store (experiment_id : string) (updated : obj) (session : list obj)
  : list obj :=
  match session with
  | [] => []
  | o :: session' =>
      if is_experiment experiment_id o then updated :: session'
      else o :: store experiment_id updated session'
  end.

(** The body of the loop over [changes.items()]. *)
Definition apply_change (instance : obj * list (string * pyval)) (item : string * pyval)
  : result (obj * list (string * pyval)) :=
  let '(key, value) := item in
  value ← (if mem key NUMERIC_FIELDS then _parse_float value else Ok value);
  if hasattr key then setattr instance key value
  else Ok instance.

(** [experiment.delta = _calculate_delta(experiment.initial, experiment.final)]
    when one of the two masses is a key of [changes]. *)
Definition recompute (changes : list (string * pyval)) (initial final delta : string)
    (instance : obj * list (string * pyval)) : result (obj * list (string * pyval)) :=
  if existsb (fun k => has_key k changes) [initial; final] then
    d ← _calculate_delta (getattr (fst instance) initial) (getattr (fst instance) final);
    setattr instance delta d
  else Ok instance.

(** The keyword [experiment_id] cannot be among [changes]: Python
    refuses the call, the name being that of the first parameter.  The
    commit has nothing to flush when no attribute was assigned. *)
Definition edit_experiment (session : list obj) (experiment_id : string)
    (changes : list (string * pyval)) : result (obj * list obj) :=
  if has_key "experiment_id" changes then Raise TypeError
  else
    match List.filter (is_experiment experiment_id) session with
    | [] => Raise (ValidationError "Experiment not found")
    | _ :: _ :: _ => Raise MultipleResultsFound
    | [experiment] =>
        instance ← for_each changes apply_change (experiment, []);
        instance ← recompute changes "initial_mass_positive_g" "final_mass_positive_g"
                     "delta_mass_positive_g" instance;
        instance ← recompute changes "initial_mass_negative_g" "final_mass_negative_g"
                     "delta_mass_negative_g" instance;
        let '(experiment, foreign) := instance in
        match
          (if existsb (fun kv => hasattr (fst kv)) changes
           then commit (others_of experiment_id session) experiment foreign else None)
        with
        | Some e => Raise e
        | None => Ok (experiment, store experiment_id experiment session)
        end
    end.

End Builtins.

(** The delta-mass invariant of one record. *)
Definition delta_invariant (o : obj) : Prop :=
  exists ip fp ineg fneg,
    o !! "initial_mass_positive_g" = Some (PyFloat ip) /\
    o !! "final_mass_positive_g" = Some (PyFloat fp) /\
    o !! "initial_mass_negative_g" = Some (PyFloat ineg) /\
    o !! "final_mass_negative_g" = Some (PyFloat fneg) /\
    o !! "delta_mass_positive_g" = Some (PyFloat (PrimFloat.sub fp ip)) /\
    o !! "delta_mass_negative_g" = Some (PyFloat (PrimFloat.sub fneg ineg)).

(** What a numeric attribute can hold after [_parse_float]. *)
Definition numeric_ok (v : option pyval) : Prop :=
  v = None \/ v = Some PyNone \/ exists x, v = Some (PyFloat x).

(** The invariant of one electrode. *)
Definition delta_ok (initial final delta : string) (o : obj) : Prop :=
  exists i f,
    o !! initial = Some (PyFloat i) /\ o !! final = Some (PyFloat f) /\
    o !! delta = Some (PyFloat (PrimFloat.sub f i)).

(** A sample record, and the same record after a direct edit of its
    positive delta. *)
Definition sample_data : list (string * pyval) :=
  [ ("experiment_id", PyStr "E1"); ("mode", PyStr "CV"); ("electrolyte", PyStr "KOH");
    ("initial_mass_positive_g", PyFloat 1.0); ("final_mass_positive_g", PyFloat 0.9);
    ("initial_mass_negative_g", PyFloat 2.0); ("final_mass_negative_g", PyFloat 2.05)
  ]%string.

(** The record that [add_experiment] builds from [sample_data]. *)
Definition sample_record : obj :=
  list_to_map
    (sample_data ++
     [ ("delta_mass_positive_g", PyFloat (PrimFloat.sub 0.9 1.0));
       ("delta_mass_negative_g", PyFloat (PrimFloat.sub 2.05 2.0)) ]%string).

(** The same record with its positive delta overwritten. *)
Definition drifted_record : obj :=
  <["delta_mass_positive_g"%string := PyFloat 5.0]> sample_record.

(** [session.delete(experiment)] removes the stored instance. *)
Fixpoint session_delete (experiment_id : string) (session : list obj) : list obj :=
  match session with
  | [] => []
  | o :: session' =>
      if is_experiment experiment_id o then session'
      else o :: session_delete experiment_id session'
  end.

(** [delete_experiment] looks the record up as [edit_experiment] does
    and returns nothing; the result here is the session after it. *)
Definition delete_experiment (session : list obj) (experiment_id : string)
  : result (list obj) :=
  match List.filter (is_experiment experiment_id) session with
  | [] => Raise (ValidationError "Experiment not found")
  | _ :: _ :: _ => Raise MultipleResultsFound
  | [experiment] => Ok (session_delete experiment_id session)
  end.

(** [value is None or value == ""], the values that [_parse_float]
    turns into [None]. *)
Definition blank (v : pyval) : bool :=
  match v with
  | PyNone | PyStr EmptyString => true
  | _ => false
  end.

(** The sample record after its final positive mass is edited to 0.8. *)
Definition edited_record : obj :=
  <["delta_mass_positive_g"%string := PyFloat (PrimFloat.sub 0.8 1.0)]>
  (<["final_mass_positive_g"%string := PyFloat 0.8]> sample_record).

(** The dictionary of the keyword arguments: a later item wins. *)
Definition dict_of (kwargs : list (string * pyval)) : obj :=
  fold_left (fun (d : obj) kv => <[fst kv := snd kv]> d) kwargs ∅.

(** A record with its two deltas set from the four masses. *)
Definition with_deltas (parsed : obj) (ip fp ineg fneg : float) : obj :=
  <["delta_mass_negative_g"%string := PyFloat (PrimFloat.sub fneg ineg)]>
  (<["delta_mass_positive_g"%string := PyFloat (PrimFloat.sub fp ip)]> parsed).

(** A row that the commit stores: plain, complete, and under an
    identifier that no other row uses. *)
Definition storable (others : list obj) (row : obj) : bool :=
  well_kinded row && negb (null_violation row) && negb (duplicate_id others row).

(** Parsers that accept no string, for samples that hold floats already,
    and an [Experiment] class without attributes besides its columns. *)
Definition no_float : string -> option float := fun _ => None.
Definition no_datetime : string -> option Z := fun _ => None.
Definition columns_only : Orm :=
  {| class_attribute := fun _ => false;
     instance_attribute := fun _ => false;
     setattr_raises := fun _ _ _ => None;
     flush_raises := fun _ _ _ => None |}.

End Recorder.

(** ** reagent_calc.py *)

Module reagent_calc.

Definition MOLAR_MASSES : gmap string float :=
  list_to_map
    [ ("K2CO3", 138.205); ("Na2CO3", 105.9888); ("Na2CO3·10H2O", 286.141);
      ("KNO3", 101.1032); ("Sr(NO3)2", 211.629); ("Mg(NO3)2", 148.313);
      ("Mg(NO3)2·6H2O", 256.41); ("Na2SO4", 142.04); ("Na2SO4·10H2O", 322.20);
      ("H2SO4", 98.079) ]%string%float.

Definition H2SO4_PURITY : float := 0.98.
Definition H2SO4_DENSITY_G_ML : float := 1.84.

(** [key in d] *)
Definition contains (d : gmap string float) (key : string) : bool :=
  match d !! key with
  | Some _ => true
  | None => false
  end.

Definition calc_solid_mass (formula : string) (volume_ml molarity : float)
  : result float :=
  if negb (contains MOLAR_MASSES formula) then Raise ValueError
  else
    litres ← truediv volume_ml 1000.0;
    let moles := PrimFloat.mul litres molarity in
    molar_mass ← getitem MOLAR_MASSES formula;
    Ok (PrimFloat.mul moles molar_mass).

Definition calc_h2so4_volume (volume_ml molarity : float) : result float :=
  litres ← truediv volume_ml 1000.0;
  let moles := PrimFloat.mul litres molarity in
  molar_mass ← getitem MOLAR_MASSES "H2SO4";
  let grams_needed := PrimFloat.mul moles molar_mass in
  grams_solution ← truediv grams_needed H2SO4_PURITY;
  truediv grams_solution H2SO4_DENSITY_G_ML.

End reagent_calc.

(** * Specification-side definitions *)

(** ** Classes of binary64 values *)

(** [math.isfinite]: neither an infinity nor NaN. *)
Definition isfinite (x : float) : bool :=
  match Prim2SF x with
  | S754_zero _ | S754_finite _ _ _ => true
  | _ => false
  end.

Definition SFzero (X : spec_float) : Prop := exists s, X = S754_zero s.

Definition SFpositive (X : spec_float) : Prop :=
  match X with
  | S754_finite s _ _ | S754_infinity s => s = false
  | _ => False
  end.

(** Every one of the eight accumulators of a block sum is in [P]. *)
Definition acc8_all (P : float -> Prop) (r : pd.acc8) : Prop :=
  let '(r0, r1, r2, r3, r4, r5, r6, r7) := r in
  P r0 /\ P r1 /\ P r2 /\ P r3 /\ P r4 /\ P r5 /\ P r6 /\ P r7.

(** A rank that orders the values other than NaN as the comparison
    of floats does. *)
Definition SFkey (X : spec_float) : Z * Z * Z :=
  match X with
  | S754_nan => (0, 0, 0)
  | S754_zero _ => (0, 0, 0)
  | S754_infinity true => (-2, 0, 0)
  | S754_infinity false => (2, 0, 0)
  | S754_finite true m e => (-1, - e, - Zpos m)
  | S754_finite false m e => (1, e, Zpos m)
  end%Z.

Definition lex_le (k1 k2 : Z * Z * Z) : Prop :=
  let '(a1, b1, c1) := k1 in
  let '(a2, b2, c2) := k2 in
  (a1 < a2 \/ (a1 = a2 /\ (b1 < b2 \/ (b1 = b2 /\ c1 <= c2))))%Z.

(** ** The rules as the specification words them *)

(** A caller-supplied override wins, an unspecified key keeps its default. *)
Definition merged_threshold (overrides : option (gmap string float))
    (key : string) (default : float) : float :=
  match or_empty overrides !! key with
  | Some v => v
  | None => default
  end.

Definition cathode_loss_ratio_threshold overrides : float :=
  merged_threshold overrides "cathode_loss_ratio_threshold" 0.5%float.
Definition anode_loss_threshold_g overrides : float :=
  merged_threshold overrides "anode_loss_threshold_g" 0.1%float.
Definition std_dev_instability_threshold_g overrides : float :=
  merged_threshold overrides "std_dev_instability_threshold_g" 0.05%float.

Definition cathode_ratio (e : Experiment) : float :=
  PrimFloat.div (PrimFloat.abs (delta_mass_negative_g e))
                (PrimFloat.abs (delta_mass_positive_g e)).

(** Rule A fires on a record with a non-zero anode delta whose ratio
    reaches the limit. *)
Definition fires_rule_a (limit : float) (e : Experiment) : bool :=
  negb (PrimFloat.eqb (delta_mass_positive_g e) 0)
  && PrimFloat.leb limit (cathode_ratio e).

Definition finding_a (limit : float) (e : Experiment) : Anomaly :=
  {| anomaly_experiment_id := experiment_id e;
     anomaly_type := HIGH_CATHODE_LOSS;
     message := MsgCathodeLoss (cathode_ratio e) limit |}.

Definition fires_rule_b (limit : float) (e : Experiment) : bool :=
  PrimFloat.leb limit (delta_mass_positive_g e).

Definition finding_b (limit : float) (e : Experiment) : Anomaly :=
  {| anomaly_experiment_id := experiment_id e;
     anomaly_type := HIGH_ANODE_LOSS;
     message := MsgAnodeLoss (delta_mass_positive_g e) limit |}.

Definition group_std (g : GroupKey * DataFrame) : float :=
  pd.std 0 (column col_delta_mass_positive_g (snd g)).

Definition fires_rule_c (limit : float) (g : GroupKey * DataFrame) : bool :=
  PrimFloat.leb limit (group_std g).

Definition finding_c (limit : float) (g : GroupKey * DataFrame) : Anomaly :=
  {| anomaly_experiment_id := group_id (fst (fst g)) (snd (fst g));
     anomaly_type := UNSTABLE_RESULTS;
     message := MsgUnstable (fst (fst g)) (snd (fst g)) (group_std g) limit |}.

(** The findings of one record, Rule A's before Rule B's. *)
Definition record_findings (limit_a limit_b : float) (e : Experiment) : list Anomaly :=
  (if fires_rule_a limit_a e then [finding_a limit_a e] else [])
  ++ (if fires_rule_b limit_b e then [finding_b limit_b e] else []).

Definition group_findings (limit_c : float) (g : GroupKey * DataFrame) : list Anomaly :=
  if fires_rule_c limit_c g then [finding_c limit_c g] else [].

Definition has_type (t : string) (a : Anomaly) : bool := String.eqb (anomaly_type a) t.

(** ** The numbers that floats denote *)

(** Two to the power [e]. *)
Definition bpow (e : Z) : R := powerRZ 2 e.

(** The real number that a binary64 value denotes: mantissa times two
    to the exponent.  The infinities and NaN denote no number and are
    sent to zero; statements about them go through [isfinite]. *)
Definition SF2R (X : spec_float) : R :=
  match X with
  | S754_finite s m e => (IZR (cond_Zopp s (Zpos m)) * bpow e)%R
  | _ => 0%R
  end.

Definition F2R (x : float) : R := SF2R (Prim2SF x).

(** A zero or a finite non-zero value. *)
Definition SFfinite (X : spec_float) : bool :=
  match X with
  | S754_zero _ | S754_finite _ _ _ => true
  | _ => false
  end.

(** The unit roundoff of binary64 and the largest error of a result in
    the subnormal range. *)
Definition u_ : R := bpow (-53).
Definition eta : R := bpow (-1075).

(** The real number [w] that a shifted mantissa with its round and
    sticky bits stands for. *)
Definition Rep (mrs : shr_record) (w : R) : Prop :=
  match shr_r mrs, shr_s mrs with
  | false, false => w = IZR (shr_m mrs)
  | false, true => (IZR (shr_m mrs) < w < IZR (shr_m mrs) + /2)%R
  | true, false => w = (IZR (shr_m mrs) + /2)%R
  | true, true => (IZR (shr_m mrs) + /2 < w < IZR (shr_m mrs) + 1)%R
  end.

(** ** numpy's summation for any addition *)

(** numpy's pairwise summation for any addition: [pd.np_sum] is its
    instance at the addition of floats. *)
Section Pairwise.

Context {X : Type} (add : X -> X -> X) (zero : X).

Fixpoint accumulate8_with (r : X * X * X * X * X * X * X * X) (a : list X)
  : (X * X * X * X * X * X * X * X) * list X :=
  match a with
  | x0 :: x1 :: x2 :: x3 :: x4 :: x5 :: x6 :: x7 :: a' =>
      let '(r0, r1, r2, r3, r4, r5, r6, r7) := r in
      accumulate8_with
        (add r0 x0, add r1 x1, add r2 x2, add r3 x3, add r4 x4, add r5 x5,
         add r6 x6, add r7 x7)
        a'
  | _ => (r, a)
  end.

Definition block_sum_with (a : list X) : X :=
  match a with
  | x0 :: x1 :: x2 :: x3 :: x4 :: x5 :: x6 :: x7 :: a' =>
      let '((r0, r1, r2, r3, r4, r5, r6, r7), rest) :=
        accumulate8_with (x0, x1, x2, x3, x4, x5, x6, x7) a' in
      let res :=
        add (add (add r0 r1) (add r2 r3)) (add (add r4 r5) (add r6 r7)) in
      fold_left add rest res
  | _ => fold_left add a zero
  end.

Fixpoint pairwise_sum_with (depth : nat) (a : list X) : X :=
  let n := length a in
  if (n <? 8)%nat then fold_left add a zero
  else if (n <=? pd.PW_BLOCKSIZE)%nat then block_sum_with a
  else
    match depth with
    | O => block_sum_with a
    | S depth' =>
        let n2 := (n / 2 - (n / 2) mod 8)%nat in
        add (pairwise_sum_with depth' (firstn n2 a))
            (pairwise_sum_with depth' (skipn n2 a))
    end.

Definition np_sum_with (a : list X) : X := add zero (pairwise_sum_with (length a) a).

(** The eight accumulators added up in order. *)
Definition sum8_with (r : X * X * X * X * X * X * X * X) : X :=
  let '(r0, r1, r2, r3, r4, r5, r6, r7) := r in
  add r0 (add r1 (add r2 (add r3 (add r4 (add r5 (add r6 r7)))))).

End Pairwise.

(** The sum of a list of real numbers. *)
Definition Rsum (xs : list R) : R := fold_right Rplus 0%R xs.

(** What is known of a partial sum [s]: the exact sum [total] of the
    terms it adds up, the sum [A] of their magnitudes and their number
    [k] (zeros that the summation starts from are not counted).  While
    [(1 + u)^k * A] stays below the largest float, [s] is finite and
    within [((1 + u)^(k - 1) - 1) * A] of [total]. *)
Definition tracked (s : float) (t : R * R * nat) : Prop :=
  let '(total, A, k) := t in
  (Rabs total <= A)%R /\
  (k = 0%nat -> A = 0%R) /\
  (((1 + u_) ^ k * A < bpow 1024)%R ->
   isfinite s = true /\ (Rabs (F2R s - total) <= ((1 + u_) ^ (k - 1) - 1) * A)%R).

(** The record of the sum of two partial sums, and of one term. *)
Definition tracked_add (t1 t2 : R * R * nat) : R * R * nat :=
  let '(S1, A1, k1) := t1 in
  let '(S2, A2, k2) := t2 in
  ((S1 + S2)%R, (A1 + A2)%R, (k1 + k2)%nat).

Definition tracked_leaf (x : float) : R * R * nat := (F2R x, Rabs (F2R x), 1%nat).

(** ** The statistics as the specification words them *)

(** The sum of the values divided by their count. *)
Definition arithmetic_mean (xs : list R) : R := (Rsum xs / INR (length xs))%R.

(** Population variance and standard deviation: the denominator is the
    count. *)
Definition population_variance (xs : list R) : R :=
  (Rsum (map (fun x => (x - arithmetic_mean xs) * (x - arithmetic_mean xs)) xs)
   / INR (length xs))%R.

Definition population_std (xs : list R) : R := R_sqrt.sqrt (population_variance xs).

(** A bound on the relative error that [k] roundings accumulate. *)
Definition rounding (k : nat) : R := (2 * INR k * u_)%R.

(** How far the computed mean may be from the arithmetic mean. *)
Definition mean_error (xs : list R) : R :=
  (rounding (length xs) * arithmetic_mean (map Rabs xs) + eta)%R.

(** Between which numbers the computed standard deviation lies. *)
Definition std_lower (xs : list R) : R :=
  ((1 - u_) * R_sqrt.sqrt ((1 - rounding (length xs + 3)) * population_variance xs - 3 * eta)
   - eta)%R.

Definition std_upper (xs : list R) : R :=
  ((1 + u_)
   * R_sqrt.sqrt ((1 + rounding (length xs + 3))
                  * (population_variance xs + mean_error xs * mean_error xs)
                  + 3 * eta)
   + eta)%R.

Definition is_maximum (m : float) (xs : list float) : Prop :=
  In m xs /\ Forall (fun x => PrimFloat.leb x m = true) xs.

Definition is_minimum (m : float) (xs : list float) : Prop :=
  In m xs /\ Forall (fun x => PrimFloat.leb m x = true) xs.

Definition abs_ratio (r : Row) : float :=
  PrimFloat.div (PrimFloat.abs (col_delta_mass_negative_g r))
                (PrimFloat.abs (col_delta_mass_positive_g r)).

Definition anode_nonzero (r : Row) : bool :=
  negb (PrimFloat.eqb (col_delta_mass_positive_g r) 0).

Definition finite_row (r : Row) : bool :=
  isfinite (col_delta_mass_positive_g r) && isfinite (col_delta_mass_negative_g r).

(** What a row adds to the sum of the ratios: nothing when its anode
    delta is zero. *)
Definition ratio_contribution (r : Row) : float :=
  if PrimFloat.eqb (col_delta_mass_positive_g r) 0 then 0%float else abs_ratio r.

(** The ratio Series of [basic_statistics], row by row. *)
Definition ratio_entry (r : Row) : float :=
  if PrimFloat.eqb (col_delta_mass_positive_g r) 0 then nan else abs_ratio r.

(** A row whose anode delta compares equal to zero. *)
Definition anode_zero (r : Row) : bool := PrimFloat.eqb (col_delta_mass_positive_g r) 0.

(** A delta of at most 1e100 in magnitude. *)
Definition moderate (x : float) : bool := PrimFloat.leb (PrimFloat.abs x) 1e100.

(** A row of moderate deltas whose anode delta is zero or at least
    1e-100 in magnitude. *)
Definition in_range (r : Row) : bool :=
  moderate (col_delta_mass_positive_g r) && moderate (col_delta_mass_negative_g r)
  && (PrimFloat.eqb (col_delta_mass_positive_g r) 0
      || PrimFloat.leb 1e-100 (PrimFloat.abs (col_delta_mass_positive_g r))).

(** The ratios |cathode delta| / |anode delta| of the rows whose anode
    delta is not zero. *)
Definition abs_ratios (df : DataFrame) : list R :=
  map (fun r => (Rabs (F2R (col_delta_mass_negative_g r))
                 / Rabs (F2R (col_delta_mass_positive_g r)))%R)
      (List.filter anode_nonzero df).

(** The mean of the ratios with the zero-anode rows excluded. *)
Definition mean_abs_ratio (df : DataFrame) : R := arithmetic_mean (abs_ratios df).

(** The mean and the standard deviation entries of one column: finite
    floats that denote the arithmetic mean and the population standard
    deviation of the column up to rounding. *)
Definition summarises (s : pd.Series) (m sd : float) : Prop :=
  let xs := map F2R s in
  isfinite m = true /\
  (Rabs (F2R m - arithmetic_mean xs) <= mean_error xs)%R /\
  isfinite sd = true /\
  (std_lower xs <= F2R sd <= std_upper xs)%R.

(** The [ratio_mean_abs] entry: NaN when every anode delta is zero,
    else a finite float that denotes the mean of the ratios of the
    other rows up to rounding. *)
Definition summarises_ratio (df : DataFrame) (r : float) : Prop :=
  if forallb anode_zero df then r = nan
  else
    isfinite r = true /\
    (Rabs (F2R r - mean_abs_ratio df)
     <= rounding (length df + 1) * mean_abs_ratio df + 3 * eta)%R.

(** ** Orders, signs and keys used by the further properties *)

(** The strict order in which [groupby] yields the keys. *)
Definition key_lt (a b : GroupKey) : Prop := key_ltb a b = true.

(** The rows that carry a key, in row order. *)
Definition rows_of (k : GroupKey) (df : DataFrame) : DataFrame :=
  List.filter (fun r => key_eqb (row_key r) k) df.

(** What identifies a finding: whom it is about and its type. *)
Definition finding_key (a : Anomaly) : string * string :=
  (anomaly_experiment_id a, anomaly_type a).

(** Two records that agree on what the analysis reads: the identifier,
    the (electrolyte, mode) key and the two deltas. *)
Definition same_evidence (e1 e2 : Experiment) : Prop :=
  experiment_id e1 = experiment_id e2 /\
  electrolyte e1 = electrolyte e2 /\ mode e1 = mode e2 /\
  delta_mass_positive_g e1 = delta_mass_positive_g e2 /\
  delta_mass_negative_g e1 = delta_mass_negative_g e2.

Definition same_row (r1 r2 : Row) : Prop :=
  row_key r1 = row_key r2 /\
  col_delta_mass_positive_g r1 = col_delta_mass_positive_g r2 /\
  col_delta_mass_negative_g r1 = col_delta_mass_negative_g r2.

(** NaN, a zero, or a value with a clear sign bit. *)
Definition SFnot_negative (X : spec_float) : Prop :=
  match X with
  | S754_finite s _ _ | S754_infinity s => s = false
  | _ => True
  end.

(** NaN, or a value with a clear sign bit. *)
Definition SFplus (X : spec_float) : Prop :=
  match X with
  | S754_zero s | S754_finite s _ _ | S754_infinity s => s = false
  | S754_nan => True
  end.

(** NaN, or a value that compares at or above zero. *)
Definition not_negative (x : float) : bool := pd.isna x || PrimFloat.leb 0 x.

(** ** Sample inputs *)

Definition sample_experiment (i el mo : string) (anode cathode : float) : Experiment :=
  {| pk_id := 0; date_time := 0; experiment_id := i; mode := mo;
     voltage_V := None; current_A := None; electrolyte := el;
     duration_min := None;
     initial_mass_positive_g := 0; final_mass_positive_g := anode;
     delta_mass_positive_g := anode;
     initial_mass_negative_g := 0; final_mass_negative_g := cathode;
     delta_mass_negative_g := cathode;
     notes := "" |}.

Definition sample_table : DataFrame :=
  experiments_to_dataframe
    [ sample_experiment "E1" "KOH" "CV" 0.12 (-0.02);
      sample_experiment "E2" "KOH" "CV" 0.02 (-0.03);
      sample_experiment "E3" "KOH" "CC" 0 0.01 ].

Definition zero_anode_table : DataFrame :=
  experiments_to_dataframe
    [ sample_experiment "E1" "KOH" "CV" 0 0.02;
      sample_experiment "E2" "KOH" "CV" 0 (-0.03) ].

Definition overflow_table : DataFrame :=
  experiments_to_dataframe
    [ sample_experiment "E1" "KOH" "CV" 0 1.5e308;
      sample_experiment "E2" "KOH" "CV" 0 1.5e308 ].

Definition tenths_table : DataFrame :=
  experiments_to_dataframe
    [ sample_experiment "E1" "KOH" "CV" 0.1 (-0.05);
      sample_experiment "E2" "KOH" "CV" 0.1 (-0.05);
      sample_experiment "E3" "KOH" "CV" 0.1 (-0.05) ].

Definition tiny_anode_table : DataFrame :=
  experiments_to_dataframe [ sample_experiment "E1" "KOH" "CV" 1e-320 1 ].

(** Closed equations are settled by evaluation. *)
Ltac by_vm :=
  lazymatch goal with
  | |- ?l = ?r => exact (@eq_refl _ r <: l = r)
  end.

(** * Properties *)

(** ** Facts about binary64 arithmetic

    Derived from the specification of the primitive operations in
    [FloatAxioms] and [SpecFloat]. *)

Module FloatFacts.

Local Open Scope Z_scope.

Lemma bounded_inv (m : positive) (e : Z) :
  bounded prec emax m e = true ->
  Z.max (Zpos (digits2_pos m) + e - 53) (-1074) = e /\ e <= 971.
Proof.
  unfold bounded, canonical_mantissa, fexp, SpecFloat.emin, prec, emax.
  intros H. apply andb_prop in H as [H1 H2].
  apply Z.eqb_eq in H1. apply Z.leb_le in H2. split; [exact H1 | lia].
Qed.

(** Rounding a mantissa that is already canonical leaves it unchanged. *)
Lemma round_canonical (s : bool) (m : positive) (e : Z) :
  bounded prec emax m e = true ->
  binary_round_aux prec emax s (Zpos m) e loc_Exact = S754_finite s m e.
Proof.
  intros Hb. destruct (bounded_inv m e Hb) as [Hc He].
  unfold binary_round_aux.
  assert (Hs : shr_fexp prec emax (Zpos m) e loc_Exact
               = ({| shr_m := Zpos m; shr_r := false; shr_s := false |}, e)).
  { unfold shr_fexp, fexp, SpecFloat.emin, prec, emax. simpl Zdigits2.
    replace (Z.max (Zpos (digits2_pos m) + e - 53) (3 - 1024 - 53) - e) with 0 by lia.
    reflexivity. }
  rewrite Hs. simpl shr_m. simpl loc_of_shr_record. simpl round_nearest_even.
  rewrite Hs. simpl shr_m.
  replace (e <=? emax - prec) with true; [reflexivity|].
  symmetry. apply Z.leb_le. unfold emax, prec. lia.
Qed.


Lemma div_eucl_exact (a b : Z) : 0 < b -> Z.div_eucl (a * b) b = (a, 0).
Proof.
  intros Hb. pose proof (Z.div_mul a b ltac:(lia)) as Hq.
  pose proof (Z.mod_mul a b ltac:(lia)) as Hr.
  unfold Z.div, Z.modulo in *. destruct (Z.div_eucl (a * b) b). congruence.
Qed.

(** Rounding twice a full 53-bit mantissa one exponent lower gives the
    mantissa back. *)
Lemma round_double (s : bool) (m : positive) (e : Z) :
  Zpos (digits2_pos m) = 53 -> -1074 < e -> e <= 971 ->
  binary_round_aux prec emax s (Zpos m~0) (e - 1) loc_Exact = S754_finite s m e.
Proof.
  intros Hd Hlo Hhi.
  unfold binary_round_aux.
  assert (Hs : shr_fexp prec emax (Zpos m~0) (e - 1) loc_Exact
               = ({| shr_m := Zpos m; shr_r := false; shr_s := false |}, e)).
  { unfold shr_fexp, fexp, SpecFloat.emin, prec, emax.
    change (Zdigits2 (Zpos m~0)) with (Zpos (Pos.succ (digits2_pos m))).
    rewrite Pos2Z.inj_succ, Hd.
    replace (Z.max (Z.succ 53 + (e - 1) - 53) (3 - 1024 - 53) - (e - 1)) with 1 by lia.
    unfold shr. simpl. f_equal. lia. }
  rewrite Hs. simpl shr_m. simpl loc_of_shr_record. simpl round_nearest_even.
  assert (Hs' : shr_fexp prec emax (Zpos m) e loc_Exact
               = ({| shr_m := Zpos m; shr_r := false; shr_s := false |}, e)).
  { unfold shr_fexp, fexp, SpecFloat.emin, prec, emax. simpl Zdigits2. rewrite Hd.
    replace (Z.max (53 + e - 53) (3 - 1024 - 53) - e) with 0 by lia.
    reflexivity. }
  rewrite Hs'. simpl shr_m.
  replace (e <=? emax - prec) with true; [reflexivity|].
  symmetry. apply Z.leb_le. unfold emax, prec. lia.
Qed.

Lemma SFdiv_one (s : bool) (m : positive) (e : Z) :
  bounded prec emax m e = true ->
  SFdiv prec emax (S754_finite s m e) (Prim2SF 1) = S754_finite s m e.
Proof.
  intros Hb. destruct (bounded_inv m e Hb) as [Hc He].
  change (Prim2SF 1) with (S754_finite false 4503599627370496 (-52)).
  unfold SFdiv, SFdiv_core_binary.
  change (Zdigits2 (Zpos 4503599627370496)) with 53.
  change (Zdigits2 (Zpos m)) with (Zpos (digits2_pos m)).
  rewrite xorb_false_r.
  unfold fexp, SpecFloat.emin, prec, emax.
  destruct (Z.eq_dec e (-1074)) as [E | E].
  - replace (Z.min (Z.max (Zpos (digits2_pos m) + e - (53 + -52) - 53) (3 - 1024 - 53))
                   (e - -52)) with e by lia.
    replace (e - -52 - e) with 52 by lia.
    rewrite Z.shiftl_mul_pow2 by lia.
    change (Zpos 4503599627370496) with (2 ^ 52).
    rewrite div_eucl_exact by lia.
    change (new_location (2 ^ 52) 0) with loc_Exact.
    apply round_canonical. exact Hb.
  - assert (Hd : Zpos (digits2_pos m) = 53) by lia.
    rewrite Hd.
    replace (Z.min (Z.max (53 + e - (53 + -52) - 53) (3 - 1024 - 53)) (e - -52))
      with (e - 1) by lia.
    replace (e - -52 - (e - 1)) with 53 by lia.
    rewrite Z.shiftl_mul_pow2 by lia.
    change (Zpos 4503599627370496) with (2 ^ 52).
    replace (Zpos m * 2 ^ 53) with (Zpos m~0 * 2 ^ 52) by (rewrite (Pos2Z.inj_xO m); change (2^53) with (2 * 2^52); lia).
    rewrite div_eucl_exact by lia.
    change (new_location (2 ^ 52) 0) with loc_Exact.
    apply round_double; lia.
Qed.


Lemma SFsub_diag (s : bool) (m : positive) (e : Z) :
  SFsub prec emax (S754_finite s m e) (S754_finite s m e) = S754_zero false.
Proof.
  unfold SFsub. rewrite Z.min_id. unfold shl_align. rewrite Z.sub_diag.
  reflexivity.
Qed.

(** *** Rounding never loses a positive mantissa above the least exponent *)

Lemma shr_1_lower (mrs : shr_record) (k : Z) :
  0 <= k -> 2 ^ (1 + k) <= shr_m mrs -> 2 ^ k <= shr_m (shr_1 mrs).
Proof.
  intros Hk. rewrite Z.pow_add_r by lia. change (2 ^ 1) with 2.
  pose proof (Z.pow_pos_nonneg 2 k ltac:(lia) Hk) as Hp.
  destruct mrs as [m r s]. simpl shr_m.
  destruct m as [|[q|q|]|q]; simpl; lia.
Qed.

Lemma iter_shr_1_lower (p : positive) :
  forall (mrs : shr_record) (k : Z),
    0 <= k -> 2 ^ (Zpos p + k) <= shr_m mrs ->
    2 ^ k <= shr_m (SpecFloat.iter_pos shr_1 p mrs).
Proof.
  induction p as [p IH | p IH |]; intros mrs k Hk H; simpl.
  - apply IH; [lia|]. apply IH; [lia|]. apply shr_1_lower; [lia|].
    replace (1 + (Zpos p + (Zpos p + k))) with (Zpos p~1 + k) by lia. exact H.
  - apply IH; [lia|]. apply IH; [lia|].
    replace (Zpos p + (Zpos p + k)) with (Zpos p~0 + k) by lia. exact H.
  - apply shr_1_lower; assumption.
Qed.

Lemma digits2_lower (p : positive) : 2 ^ (Zpos (digits2_pos p) - 1) <= Zpos p.
Proof.
  induction p as [p IH | p IH |]; simpl digits2_pos.
  - rewrite Pos2Z.inj_succ. replace (Z.succ (Zpos (digits2_pos p)) - 1)
      with (1 + (Zpos (digits2_pos p) - 1)) by lia.
    rewrite Z.pow_add_r by lia. change (2 ^ 1) with 2. lia.
  - rewrite Pos2Z.inj_succ. replace (Z.succ (Zpos (digits2_pos p)) - 1)
      with (1 + (Zpos (digits2_pos p) - 1)) by lia.
    rewrite Z.pow_add_r by lia. change (2 ^ 1) with 2. lia.
  - simpl. lia.
Qed.

Lemma shr_m_of_loc (m : Z) (l : location) : shr_m (shr_record_of_loc m l) = m.
Proof. destruct l as [|[ | | ]]; reflexivity. Qed.

Lemma shr_fexp_pos (m e : Z) (l : location) :
  0 < m -> -1074 <= e ->
  0 < shr_m (fst (shr_fexp prec emax m e l)) /\ -1074 <= snd (shr_fexp prec emax m e l).
Proof.
  intros Hm He. unfold shr_fexp, fexp, SpecFloat.emin, prec, emax.
  destruct m as [|p|p]; try lia. simpl Zdigits2.
  set (n := Z.max (Zpos (digits2_pos p) + e - 53) (3 - 1024 - 53) - e).
  assert (Hn : n <= 0 \/ n = Zpos (digits2_pos p) - 53) by lia.
  unfold shr. destruct n as [|q|q] eqn:En; simpl fst; simpl snd;
    rewrite ?shr_m_of_loc; try (split; lia).
  destruct Hn as [Hn | Hn]; [lia|]. split; [|lia].
  pose proof (digits2_lower p) as Hd.
  assert (2 ^ 52 <= shr_m (SpecFloat.iter_pos shr_1 q (shr_record_of_loc (Zpos p) l))).
  { apply iter_shr_1_lower; [lia|]. rewrite shr_m_of_loc.
    replace (Zpos q + 52) with (Zpos (digits2_pos p) - 1) by lia. exact Hd. }
  assert (0 < 2 ^ 52) by (apply Z.pow_pos_nonneg; lia). lia.
Qed.

Lemma round_nearest_even_pos (m : Z) (l : location) :
  0 < m -> 0 < round_nearest_even m l.
Proof.
  intros Hm. destruct l as [|[ | | ]]; simpl; try lia.
  destruct (Z.even m); lia.
Qed.

Lemma binary_round_aux_pos (s : bool) (m e : Z) (l : location) :
  0 < m -> -1074 <= e ->
  exists r, binary_round_aux prec emax s m e l = r /\
    match r with
    | S754_finite s' _ _ | S754_infinity s' => s' = s
    | _ => False
    end.
Proof.
  intros Hm He. unfold binary_round_aux.
  pose proof (shr_fexp_pos m e l Hm He) as [H1 H1'].
  destruct (shr_fexp prec emax m e l) as [mrs' e']. simpl fst in H1. simpl snd in H1'.
  pose proof (round_nearest_even_pos _ (loc_of_shr_record mrs') H1) as H2.
  pose proof (shr_fexp_pos _ e' loc_Exact H2 H1') as [H3 _].
  destruct (shr_fexp prec emax _ e' loc_Exact) as [mrs'' e'']. simpl fst in H3.
  destruct (shr_m mrs'') as [|q|q]; try lia.
  destruct (e'' <=? emax - prec); eexists; split; reflexivity.
Qed.


(** *** Comparisons, NaN and zero *)

Lemma valid_finite (x : float) (s : bool) (m : positive) (e : Z) :
  Prim2SF x = S754_finite s m e -> bounded prec emax m e = true.
Proof.
  intros H. pose proof (Prim2SF_valid x) as Hv. rewrite H in Hv. exact Hv.
Qed.

Lemma SFeqb_refl (X : spec_float) : X <> S754_nan -> SFeqb X X = true.
Proof.
  intros HX. destruct X as [s|s| |s m e]; try congruence.
  - reflexivity.
  - destruct s; reflexivity.
  - unfold SFeqb, SFcompare. rewrite Z.compare_refl, Pos.compare_cont_refl.
    destruct s; reflexivity.
Qed.

Lemma isna_true (x : float) : pd.isna x = true <-> x = nan.
Proof.
  unfold pd.isna. rewrite FloatAxioms.eqb_spec. split.
  - intros H. apply Prim2SF_inj. change (Prim2SF nan) with S754_nan.
    destruct (Prim2SF x) as [s|s| |s m e] eqn:E; try reflexivity;
      rewrite SFeqb_refl in H by congruence; discriminate.
  - intros ->. reflexivity.
Qed.

Lemma isna_false (x : float) : pd.isna x = false <-> Prim2SF x <> S754_nan.
Proof.
  split.
  - intros H E. assert (x = nan) as -> by (apply Prim2SF_inj; exact E). discriminate.
  - intros H. destruct (pd.isna x) eqn:E; [|reflexivity].
    apply isna_true in E. subst x. exfalso. apply H. reflexivity.
Qed.

Lemma eqb_zero_true (x : float) :
  PrimFloat.eqb x 0 = true <-> exists s, Prim2SF x = S754_zero s.
Proof.
  rewrite FloatAxioms.eqb_spec. change (Prim2SF 0) with (S754_zero false). split.
  - destruct (Prim2SF x) as [s|s| |s m e]; intros H.
    + eauto.
    + destruct s; discriminate.
    + discriminate.
    + destruct s; discriminate.
  - intros [s ->]. reflexivity.
Qed.

(** [abs] neither creates nor removes a zero. *)
Lemma eqb_abs_zero (x : float) :
  PrimFloat.eqb (PrimFloat.abs x) 0 = PrimFloat.eqb x 0.
Proof.
  rewrite !FloatAxioms.eqb_spec, abs_spec. change (Prim2SF 0) with (S754_zero false).
  destruct (Prim2SF x) as [s|s| |s m e]; try reflexivity; destruct s; reflexivity.
Qed.

Lemma div_nan_r (x : float) : PrimFloat.div x nan = nan.
Proof.
  apply Prim2SF_inj. rewrite div_spec. change (Prim2SF nan) with S754_nan.
  unfold SF64div, SFdiv. destruct (Prim2SF x); reflexivity.
Qed.

Lemma leb_nan_r (x : float) : PrimFloat.leb x nan = false.
Proof.
  rewrite leb_spec. change (Prim2SF nan) with S754_nan.
  unfold SFleb, SFcompare. destruct (Prim2SF x); reflexivity.
Qed.

(** *** The count of a non-empty column is a positive float *)

Lemma binary_round_pos (s : bool) (p : positive) :
  match binary_round prec emax s p 0 with
  | S754_finite s' _ _ | S754_infinity s' => s' = s
  | _ => False
  end.
Proof.
  unfold binary_round.
  destruct (shl_align p 0 (fexp prec emax (Zpos (digits2_pos p) + 0))) as [mz ez] eqn:E.
  assert (Hez : -1074 <= ez).
  { revert E. unfold shl_align, fexp, SpecFloat.emin, prec, emax.
    destruct (Z.max (Zpos (digits2_pos p) + 0 - 53) (3 - 1024 - 53) - 0) eqn:E';
      intros [= <- <-]; lia. }
  destruct (binary_round_aux_pos s (Zpos mz) ez loc_Exact ltac:(lia) Hez) as (r & -> & Hr).
  exact Hr.
Qed.

Lemma float_of_count_pos (n : nat) :
  (0 < n)%nat -> Z.of_nat n < Uint63.wB ->
  match Prim2SF (pd.float_of_count n) with
  | S754_finite s _ _ | S754_infinity s => s = false
  | _ => False
  end.
Proof.
  intros Hn Hb. unfold pd.float_of_count.
  rewrite of_uint63_spec, Uint63.of_Z_spec, Z.mod_small by lia.
  destruct (Z.of_nat n) as [|p|p] eqn:E; try lia.
  apply (binary_round_pos false p).
Qed.

(** *** The standard deviation of at most one value *)

Lemma float_of_count_1 : pd.float_of_count 1 = 1%float.
Proof. reflexivity. Qed.

Lemma np_sum_1 (x : float) :
  pd.np_sum [x] = PrimFloat.add 0 (PrimFloat.add 0 x).
Proof. reflexivity. Qed.

Lemma std_nil : pd.std 0 [] = nan.
Proof. reflexivity. Qed.

Lemma std_singleton (x : float) :
  pd.std 0 [x] = 0%float \/ pd.std 0 [x] = nan.
Proof.
  destruct (pd.isna x) eqn:Ena.
  - apply isna_true in Ena. subst x. right. reflexivity.
  - assert (Hn : pd.notna x = true).
    { unfold pd.isna in Ena. unfold pd.notna. now destruct (PrimFloat.eqb x x). }
    unfold pd.std, pd.var, pd.count, pd.fillna.
    cbn [List.filter map]. rewrite Hn, Ena. cbn [length zip_with].
    change (1 <=? 0)%nat with false. cbv iota beta. rewrite Ena, !np_sum_1.
    change (pd.float_of_count 1) with 1%float.
    change (PrimFloat.sub 1 (pd.float_of_count 0)) with 1%float.
    apply isna_false in Ena.
    destruct (Prim2SF x) as [s|s| |s m e] eqn:E; [| | congruence |].
    + left. apply Prim2SF_inj.
      rewrite sqrt_spec, div_spec, !add_spec, mul_spec, sub_spec, div_spec, !add_spec, E.
      destruct s; reflexivity.
    + right. apply Prim2SF_inj.
      rewrite sqrt_spec, div_spec, !add_spec, mul_spec, sub_spec, div_spec, !add_spec, E.
      destruct s; reflexivity.
    + left. apply Prim2SF_inj.
      rewrite sqrt_spec, div_spec, !add_spec, mul_spec, sub_spec, div_spec, !add_spec, E.
      change (SF64add (Prim2SF 0) (SF64add (Prim2SF 0) (S754_finite s m e)))
        with (S754_finite s m e).
      unfold SF64div, SF64sub.
      rewrite (SFdiv_one s m e) by (eapply valid_finite; exact E).
      rewrite (SFsub_diag s m e). reflexivity.
Qed.

Lemma std_short (s : pd.Series) :
  (length s <= 1)%nat -> pd.std 0 s = 0%float \/ pd.std 0 s = nan.
Proof.
  destruct s as [|x [|y s]]; simpl; intros H.
  - right. apply std_nil.
  - apply std_singleton.
  - lia.
Qed.

Lemma ltb_zero_not_leb (x : float) :
  PrimFloat.ltb 0 x = true -> PrimFloat.leb x 0 = false.
Proof.
  rewrite ltb_spec, leb_spec. change (Prim2SF 0) with (S754_zero false).
  destruct (Prim2SF x) as [s|s| |s m e]; try discriminate;
    destruct s; try discriminate; reflexivity.
Qed.

(** *** A quotient of finite numbers is a number *)

Lemma iter_pos_invariant {A} (P : A -> Prop) (f : A -> A) :
  (forall x, P x -> P (f x)) ->
  forall (n : positive) (x : A), P x -> P (SpecFloat.iter_pos f n x).
Proof.
  intros Hf. induction n as [n IH | n IH |]; intros x Hx; simpl; auto.
Qed.

Lemma shr_1_nonneg (mrs : shr_record) : 0 <= shr_m mrs -> 0 <= shr_m (shr_1 mrs).
Proof.
  destruct mrs as [m r s]. simpl shr_m. destruct m as [|[q|q|]|q]; simpl; lia.
Qed.

Lemma shr_fexp_nonneg (m e : Z) (l : location) :
  0 <= m -> 0 <= shr_m (fst (shr_fexp prec emax m e l)).
Proof.
  intros Hm. unfold shr_fexp, shr.
  destruct (fexp prec emax (Zdigits2 m + e) - e) as [|n|n]; simpl fst;
    rewrite ?shr_m_of_loc; try exact Hm.
  apply (iter_pos_invariant (fun mrs => 0 <= shr_m mrs)); [apply shr_1_nonneg|].
  now rewrite shr_m_of_loc.
Qed.

Lemma round_nearest_even_nonneg (m : Z) (l : location) :
  0 <= m -> 0 <= round_nearest_even m l.
Proof.
  intros Hm. destruct l as [|[ | | ]]; simpl; try lia.
  destruct (Z.even m); lia.
Qed.

Lemma binary_round_aux_not_nan (s : bool) (m e : Z) (l : location) :
  0 <= m -> binary_round_aux prec emax s m e l <> S754_nan.
Proof.
  intros Hm. unfold binary_round_aux.
  pose proof (shr_fexp_nonneg m e l Hm) as H1.
  destruct (shr_fexp prec emax m e l) as [mrs' e']. simpl fst in H1.
  pose proof (round_nearest_even_nonneg _ (loc_of_shr_record mrs') H1) as H2.
  pose proof (shr_fexp_nonneg _ e' loc_Exact H2) as H3.
  destruct (shr_fexp prec emax _ e' loc_Exact) as [mrs'' e'']. simpl fst in H3.
  destruct (shr_m mrs'') as [|q|q]; try lia; try discriminate.
  destruct (e'' <=? emax - prec); discriminate.
Qed.

Lemma SFdiv_core_nonneg (m1 : positive) (e1 : Z) (m2 : positive) (e2 : Z) :
  0 <= fst (fst (SFdiv_core_binary prec emax (Zpos m1) e1 (Zpos m2) e2)).
Proof.
  unfold SFdiv_core_binary.
  set (sh := e1 - e2 - _).
  set (m' := match sh with Z0 => Zpos m1 | Zpos _ => Z.shiftl (Zpos m1) sh | Zneg _ => 0 end).
  assert (Hm' : 0 <= m').
  { subst m'. destruct sh; try lia. apply Z.shiftl_nonneg. lia. }
  pose proof (Z.div_pos m' (Zpos m2) Hm' ltac:(lia)) as Hq.
  unfold Z.div in Hq. destruct (Z.div_eucl m' (Zpos m2)) as [q r]. exact Hq.
Qed.

Lemma div_finite_not_nan (c a : float) :
  isfinite c = true -> isfinite a = true -> PrimFloat.eqb a 0 = false ->
  pd.isna (PrimFloat.div (PrimFloat.abs c) (PrimFloat.abs a)) = false.
Proof.
  unfold isfinite. intros Hc Ha Hz. apply isna_false.
  rewrite FloatAxioms.eqb_spec in Hz. change (Prim2SF 0) with (S754_zero false) in Hz.
  rewrite div_spec, !abs_spec.
  destruct (Prim2SF c) as [sc|sc| |sc mc ec]; try discriminate;
    destruct (Prim2SF a) as [sa|sa| |sa ma ea]; try discriminate; simpl.
  - pose proof (SFdiv_core_nonneg mc ec ma ea) as Hq.
    destruct (SFdiv_core_binary _ _ _ _ _ _) as [[mz ez] lz]. simpl in Hq.
    now apply binary_round_aux_not_nan.
Qed.

(** *** The order of floats that are not NaN *)

Lemma SFleb_key (X Y : spec_float) :
  X <> S754_nan -> Y <> S754_nan ->
  (SFleb X Y = true <-> lex_le (SFkey X) (SFkey Y)).
Proof.
  intros HX HY. unfold SFleb, SFcompare.
  destruct X as [sx|sx| |sx mx ex], Y as [sy|sy| |sy my ey]; try congruence;
    try destruct sx; try destruct sy; simpl;
    try (split; [intros _; lia | reflexivity]);
    try (split; [discriminate | lia]).
  - change (Pos.compare_cont Eq mx my) with (Pos.compare mx my).
    destruct (Z.compare_spec ex ey), (Pos.compare_spec mx my); simpl;
      split; intros Hle; try lia; try reflexivity; try discriminate.
  - change (Pos.compare_cont Eq mx my) with (Pos.compare mx my).
    destruct (Z.compare_spec ex ey), (Pos.compare_spec mx my); simpl;
      split; intros Hle; try lia; try reflexivity; try discriminate.
Qed.

Lemma leb_key (x y : float) :
  pd.isna x = false -> pd.isna y = false ->
  (PrimFloat.leb x y = true <-> lex_le (SFkey (Prim2SF x)) (SFkey (Prim2SF y))).
Proof.
  intros Hx Hy. rewrite leb_spec. apply SFleb_key; now apply isna_false.
Qed.

Lemma leb_refl (x : float) : pd.isna x = false -> PrimFloat.leb x x = true.
Proof.
  intros Hx. apply (leb_key x x Hx Hx).
  destruct (SFkey (Prim2SF x)) as [[a b] c]. simpl. lia.
Qed.

Lemma leb_total (x y : float) :
  pd.isna x = false -> pd.isna y = false ->
  PrimFloat.leb x y = false -> PrimFloat.leb y x = true.
Proof.
  intros Hx Hy H. apply (leb_key y x Hy Hx).
  assert (Hn : ~ lex_le (SFkey (Prim2SF x)) (SFkey (Prim2SF y))).
  { intros Hl. apply (leb_key x y Hx Hy) in Hl. congruence. }
  destruct (SFkey (Prim2SF x)) as [[a b] c], (SFkey (Prim2SF y)) as [[a' b'] c'].
  simpl in *. lia.
Qed.

Lemma leb_trans (x y z : float) :
  pd.isna x = false -> pd.isna y = false -> pd.isna z = false ->
  PrimFloat.leb x y = true -> PrimFloat.leb y z = true -> PrimFloat.leb x z = true.
Proof.
  intros Hx Hy Hz Hxy Hyz.
  apply (leb_key x y Hx Hy) in Hxy. apply (leb_key y z Hy Hz) in Hyz.
  apply (leb_key x z Hx Hz).
  destruct (SFkey (Prim2SF x)) as [[a b] c], (SFkey (Prim2SF y)) as [[a' b'] c'],
           (SFkey (Prim2SF z)) as [[a'' b''] c''].
  simpl in *. lia.
Qed.

Lemma classic_lex (k1 k2 : Z * Z * Z) : lex_le k1 k2 \/ ~ lex_le k1 k2.
Proof.
  destruct k1 as [[a b] c], k2 as [[a' b'] c']. simpl. lia.
Qed.

Lemma SFltb_key (X Y : spec_float) :
  X <> S754_nan -> Y <> S754_nan ->
  (SFltb X Y = true <-> ~ lex_le (SFkey Y) (SFkey X)).
Proof.
  intros HX HY. unfold SFltb, SFcompare.
  destruct X as [sx|sx| |sx mx ex], Y as [sy|sy| |sy my ey]; try congruence;
    try destruct sx; try destruct sy; simpl;
    try (split; [intros _; lia | reflexivity]);
    try (split; [discriminate | lia]).
  - change (Pos.compare_cont Eq mx my) with (Pos.compare mx my).
    destruct (Z.compare_spec ex ey), (Pos.compare_spec mx my); simpl;
      split; intros Hle; try lia; try reflexivity; try discriminate.
  - change (Pos.compare_cont Eq mx my) with (Pos.compare mx my).
    destruct (Z.compare_spec ex ey), (Pos.compare_spec mx my); simpl;
      split; intros Hle; try lia; try reflexivity; try discriminate.
Qed.

Lemma ltb_key (x y : float) :
  pd.isna x = false -> pd.isna y = false ->
  (PrimFloat.ltb x y = true <-> ~ lex_le (SFkey (Prim2SF y)) (SFkey (Prim2SF x))).
Proof.
  intros Hx Hy. rewrite ltb_spec. apply SFltb_key; now apply isna_false.
Qed.

Lemma ltb_leb (x y : float) :
  pd.isna x = false -> pd.isna y = false ->
  PrimFloat.ltb x y = true -> PrimFloat.leb x y = true.
Proof.
  intros Hx Hy H. apply (ltb_key x y Hx Hy) in H. apply (leb_key x y Hx Hy).
  destruct (SFkey (Prim2SF x)) as [[a b] c], (SFkey (Prim2SF y)) as [[a' b'] c'].
  simpl in *. lia.
Qed.

Lemma not_ltb_leb (x y : float) :
  pd.isna x = false -> pd.isna y = false ->
  PrimFloat.ltb y x = false -> PrimFloat.leb x y = true.
Proof.
  intros Hx Hy H. apply (leb_key x y Hx Hy).
  destruct (classic_lex (SFkey (Prim2SF x)) (SFkey (Prim2SF y))) as [Hl | Hl];
    [exact Hl|].
  apply (ltb_key y x Hy Hx) in Hl. congruence.
Qed.

(** *** Arithmetic on zeros *)

Lemma is_zero_spec (x : float) : PrimFloat.eqb x 0 = true <-> SFzero (Prim2SF x).
Proof. apply eqb_zero_true. Qed.

Lemma zero_notna (x : float) : PrimFloat.eqb x 0 = true -> pd.isna x = false.
Proof.
  intros H. apply is_zero_spec in H as [s H]. apply isna_false. congruence.
Qed.

Lemma add_zero (x y : float) :
  PrimFloat.eqb x 0 = true -> PrimFloat.eqb y 0 = true ->
  PrimFloat.eqb (PrimFloat.add x y) 0 = true.
Proof.
  rewrite !is_zero_spec, add_spec. intros [sx ->] [sy ->].
  destruct sx, sy; eexists; reflexivity.
Qed.

Lemma sub_zero (x y : float) :
  PrimFloat.eqb x 0 = true -> PrimFloat.eqb y 0 = true ->
  PrimFloat.eqb (PrimFloat.sub x y) 0 = true.
Proof.
  rewrite !is_zero_spec, sub_spec. intros [sx ->] [sy ->].
  destruct sx, sy; eexists; reflexivity.
Qed.

Lemma mul_zero (x y : float) :
  PrimFloat.eqb x 0 = true -> PrimFloat.eqb y 0 = true ->
  PrimFloat.eqb (PrimFloat.mul x y) 0 = true.
Proof.
  rewrite !is_zero_spec, mul_spec. intros [sx ->] [sy ->].
  eexists; reflexivity.
Qed.

Lemma sqrt_zero (x : float) :
  PrimFloat.eqb x 0 = true -> PrimFloat.eqb (PrimFloat.sqrt x) 0 = true.
Proof.
  rewrite !is_zero_spec, sqrt_spec. intros [sx ->]. eexists; reflexivity.
Qed.

Lemma div_zero_positive (x y : float) :
  PrimFloat.eqb x 0 = true -> SFpositive (Prim2SF y) ->
  PrimFloat.eqb (PrimFloat.div x y) 0 = true.
Proof.
  rewrite !is_zero_spec, div_spec. intros [sx ->] Hy.
  destruct (Prim2SF y) as [s|s| |s m e]; simpl in Hy; try contradiction;
    eexists; reflexivity.
Qed.

Lemma sub_zero_r (x : float) : PrimFloat.sub x 0 = x.
Proof.
  apply Prim2SF_inj. rewrite sub_spec. change (Prim2SF 0) with (S754_zero false).
  destruct (Prim2SF x) as [s|s| |s m e]; try reflexivity. destruct s; reflexivity.
Qed.

(** *** Sums stay inside a class closed under addition *)

Section SumClosed.

Variable P : float -> Prop.
Hypothesis P_zero : P 0%float.
Hypothesis P_add : forall x y, P x -> P y -> P (PrimFloat.add x y).

Lemma fold_add_closed (a : list float) :
  Forall P a -> forall acc, P acc -> P (fold_left PrimFloat.add a acc).
Proof.
  induction 1 as [|x a Hx Ha IH]; intros acc Hacc; simpl; auto.
Qed.

Lemma accumulate8_closed (n : nat) :
  forall (a : list float) (r : pd.acc8),
    (length a <= n)%nat -> Forall P a -> acc8_all P r ->
    acc8_all P (fst (pd.accumulate8 r a)) /\ Forall P (snd (pd.accumulate8 r a)).
Proof.
  induction n as [|n IH]; intros a r Hlen Ha Hr.
  - destruct a; [|simpl in Hlen; lia]. simpl. auto.
  - destruct a as [|x0 [|x1 [|x2 [|x3 [|x4 [|x5 [|x6 [|x7 a']]]]]]]];
      try (simpl; split; assumption).
    destruct r as [[[[[[[r0 r1] r2] r3] r4] r5] r6] r7].
    cbn [pd.accumulate8].
    repeat match goal with H : Forall P (_ :: _) |- _ => apply Forall_cons_1 in H as [? H] end.
    destruct Hr as (? & ? & ? & ? & ? & ? & ? & ?).
    apply IH; [simpl in Hlen; lia | assumption |].
    repeat split; apply P_add; assumption.
Qed.

Lemma block_sum_closed (a : list float) : Forall P a -> P (pd.block_sum a).
Proof.
  intros Ha. unfold pd.block_sum.
  destruct a as [|x0 [|x1 [|x2 [|x3 [|x4 [|x5 [|x6 [|x7 a']]]]]]]];
    try (apply fold_add_closed; assumption).
  repeat match goal with H : Forall P (_ :: _) |- _ => apply Forall_cons_1 in H as [? H] end.
  destruct (accumulate8_closed (length a') a' (x0, x1, x2, x3, x4, x5, x6, x7)
              ltac:(lia) Ha ltac:(repeat split; assumption)) as [Hr Hrest].
  destruct (pd.accumulate8 _ a') as [[[[[[[[r0 r1] r2] r3] r4] r5] r6] r7] rest].
  simpl in Hr, Hrest. destruct Hr as (? & ? & ? & ? & ? & ? & ? & ?).
  apply fold_add_closed; [exact Hrest|]. repeat apply P_add; assumption.
Qed.

Lemma pairwise_sum_rec_closed (depth : nat) :
  forall a : list float, Forall P a -> P (pd.pairwise_sum_rec depth a).
Proof.
  induction depth as [|depth IH]; intros a Ha; cbn [pd.pairwise_sum_rec];
    destruct (length a <? 8)%nat;
    try (apply fold_add_closed; assumption);
    destruct (length a <=? pd.PW_BLOCKSIZE)%nat;
    try (apply block_sum_closed; assumption).
  apply P_add; apply IH; [now apply Forall_take | now apply Forall_drop].
Qed.

Lemma np_sum_closed (a : list float) : Forall P a -> P (pd.np_sum a).
Proof.
  intros Ha. unfold pd.np_sum, pd.pairwise_sum.
  apply P_add; [exact P_zero | now apply pairwise_sum_rec_closed].
Qed.

End SumClosed.

Lemma sum_zero (s : list float) :
  forallb (fun x => PrimFloat.eqb x 0) s = true ->
  PrimFloat.eqb (pd.np_sum s) 0 = true.
Proof.
  intros H. apply (np_sum_closed (fun x => PrimFloat.eqb x 0 = true)).
  - reflexivity.
  - apply add_zero.
  - apply List.Forall_forall. intros x Hx. apply forallb_forall with (x := x) in H; auto.
Qed.

Lemma count_positive (n : nat) :
  (0 < n)%nat -> (Z.of_nat n < 2 ^ 63)%Z -> SFpositive (Prim2SF (pd.float_of_count n)).
Proof.
  intros Hn Hb. pose proof (float_of_count_pos n Hn Hb) as H.
  unfold SFpositive. destruct (Prim2SF (pd.float_of_count n)); auto.
Qed.

End FloatFacts.

Import FloatFacts.

(** ** The shape of the result of [detect_anomalies] *)

Section DetectAnomalies.

Lemma getitem_merged (overrides : option (gmap string float)) (key : string) (d : float) :
  config.DEFAULT_ANALYSIS_CONFIG !! key = Some d ->
  getitem (or_empty overrides ∪ config.DEFAULT_ANALYSIS_CONFIG) key
  = Ok (merged_threshold overrides key d).
Proof.
  intros Hd. unfold getitem, merged_threshold.
  rewrite lookup_union, Hd.
  destruct (or_empty overrides !! key); reflexivity.
Qed.

Lemma experiments_to_dataframe_length (exps : list Experiment) :
  length (experiments_to_dataframe exps) = length exps.
Proof.
  unfold experiments_to_dataframe. destruct exps; simpl; [reflexivity|].
  now rewrite length_map.
Qed.

Lemma check_experiment_spec (la lb : float) (acc : list Anomaly) (e : Experiment) :
  check_experiment la lb acc e = Ok (acc ++ record_findings la lb e).
Proof.
  unfold check_experiment, record_findings, fires_rule_a, fires_rule_b, ne, ge, truediv.
  fold (cathode_ratio e).
  destruct (PrimFloat.eqb (delta_mass_positive_g e) 0) eqn:E0; simpl.
  - destruct (PrimFloat.leb lb (delta_mass_positive_g e));
      rewrite ?app_nil_r; reflexivity.
  - rewrite FloatFacts.eqb_abs_zero, E0. simpl. fold (cathode_ratio e).
    destruct (PrimFloat.leb la (cathode_ratio e)); simpl;
      destruct (PrimFloat.leb lb (delta_mass_positive_g e)); simpl;
      rewrite <- ?app_assoc, ?app_nil_r; reflexivity.
Qed.

Lemma for_each_check_experiment (la lb : float) (exps : list Experiment) :
  forall acc,
    for_each exps (check_experiment la lb) acc
    = Ok (acc ++ flat_map (record_findings la lb) exps).
Proof.
  induction exps as [|e exps IH]; intros acc; simpl.
  - now rewrite app_nil_r.
  - rewrite check_experiment_spec. simpl. rewrite IH, <- app_assoc. reflexivity.
Qed.

Lemma check_group_spec (lc : float) (acc : list Anomaly) (g : GroupKey * DataFrame) :
  check_group lc acc g = acc ++ group_findings lc g.
Proof.
  destruct g as [[el mo] group].
  unfold check_group, group_findings, fires_rule_c, finding_c, group_std, ge. simpl.
  destruct (PrimFloat.leb lc _); [reflexivity | now rewrite app_nil_r].
Qed.

Lemma fold_check_group (lc : float) (gs : list (GroupKey * DataFrame)) :
  forall acc,
    fold_left (check_group lc) gs acc = acc ++ flat_map (group_findings lc) gs.
Proof.
  induction gs as [|g gs IH]; intros acc; simpl.
  - now rewrite app_nil_r.
  - rewrite IH, check_group_spec, <- app_assoc. reflexivity.
Qed.

(** [detect_anomalies] never raises, and its list is the per-record
    findings in input order followed by the per-group findings in
    partition order. *)
Lemma detect_anomalies_shape (exps : list Experiment) (th : option (gmap string float)) :
  detect_anomalies exps th
  = Ok (flat_map (record_findings (cathode_loss_ratio_threshold th)
                                  (anode_loss_threshold_g th)) exps
        ++ flat_map (group_findings (std_dev_instability_threshold_g th))
                    (groupby (experiments_to_dataframe exps))).
Proof.
  unfold detect_anomalies.
  rewrite (getitem_merged th "cathode_loss_ratio_threshold" 0.5%float) by reflexivity.
  rewrite (getitem_merged th "anode_loss_threshold_g" 0.1%float) by reflexivity.
  rewrite (getitem_merged th "std_dev_instability_threshold_g" 0.05%float) by reflexivity.
  simpl mbind. cbv beta.
  fold (cathode_loss_ratio_threshold th) (anode_loss_threshold_g th)
       (std_dev_instability_threshold_g th).
  destruct exps as [|e exps]; [reflexivity|].
  rewrite for_each_check_experiment. simpl mbind. cbv beta.
  rewrite fold_check_group. reflexivity.
Qed.

(** Selecting one anomaly type from the result. *)
Lemma filter_flat_map {A B} (p : B -> bool) (f : A -> list B) (l : list A) :
  List.filter p (flat_map f l) = flat_map (fun x => List.filter p (f x)) l.
Proof.
  induction l as [|x l IH]; simpl; [reflexivity|].
  now rewrite List.filter_app, IH.
Qed.

Lemma flat_map_nil {A B} (f : A -> list B) (l : list A) :
  (forall x, f x = []) -> flat_map f l = [].
Proof.
  intros H. induction l as [|x l IH]; simpl; [reflexivity|]. now rewrite H, IH.
Qed.

Lemma flat_map_if {A B} (p : A -> bool) (f : A -> B) (l : list A) :
  flat_map (fun x => if p x then [f x] else []) l = map f (List.filter p l).
Proof.
  induction l as [|x l IH]; simpl; [reflexivity|].
  destruct (p x); simpl; now rewrite IH.
Qed.

Lemma filter_type_a (la lb lc : float) exps gs :
  List.filter (has_type HIGH_CATHODE_LOSS)
    (flat_map (record_findings la lb) exps ++ flat_map (group_findings lc) gs)
  = map (finding_a la) (List.filter (fires_rule_a la) exps).
Proof.
  rewrite List.filter_app, !filter_flat_map.
  rewrite (flat_map_nil (fun g => List.filter _ (group_findings lc g))), app_nil_r.
  - rewrite <- flat_map_if. apply flat_map_ext. intros e.
    unfold record_findings. rewrite List.filter_app.
    destruct (fires_rule_a la e), (fires_rule_b lb e); reflexivity.
  - intros g. unfold group_findings. destruct (fires_rule_c lc g); reflexivity.
Qed.

Lemma filter_type_b (la lb lc : float) exps gs :
  List.filter (has_type HIGH_ANODE_LOSS)
    (flat_map (record_findings la lb) exps ++ flat_map (group_findings lc) gs)
  = map (finding_b lb) (List.filter (fires_rule_b lb) exps).
Proof.
  rewrite List.filter_app, !filter_flat_map.
  rewrite (flat_map_nil (fun g => List.filter _ (group_findings lc g))), app_nil_r.
  - rewrite <- flat_map_if. apply flat_map_ext. intros e.
    unfold record_findings. rewrite List.filter_app.
    destruct (fires_rule_a la e), (fires_rule_b lb e); reflexivity.
  - intros g. unfold group_findings. destruct (fires_rule_c lc g); reflexivity.
Qed.

Lemma filter_type_c (la lb lc : float) exps gs :
  List.filter (has_type UNSTABLE_RESULTS)
    (flat_map (record_findings la lb) exps ++ flat_map (group_findings lc) gs)
  = map (finding_c lc) (List.filter (fires_rule_c lc) gs).
Proof.
  rewrite List.filter_app, !filter_flat_map.
  rewrite (flat_map_nil (fun e => List.filter _ (record_findings la lb e))). simpl.
  - rewrite <- flat_map_if. apply flat_map_ext. intros g.
    unfold group_findings. destruct (fires_rule_c lc g); reflexivity.
  - intros e. unfold record_findings. rewrite List.filter_app.
    destruct (fires_rule_a la e), (fires_rule_b lb e); reflexivity.
Qed.

End DetectAnomalies.

(** ** The pandas reductions on columns of numbers *)

Section ColumnStatistics.

Lemma isfinite_notna (x : float) : isfinite x = true -> pd.isna x = false.
Proof.
  unfold isfinite. intros H. apply isna_false. intros E. rewrite E in H. discriminate.
Qed.

Lemma notna_isna (x : float) : pd.notna x = negb (pd.isna x).
Proof. unfold pd.notna, pd.isna. now rewrite negb_involutive. Qed.

Lemma fillna_id (v : float) (s : pd.Series) :
  forallb (fun x => negb (pd.isna x)) s = true -> pd.fillna v s = s.
Proof.
  unfold pd.fillna. induction s as [|x s IH]; simpl; [reflexivity|].
  intros H. apply andb_prop in H as [Hx Hs].
  destruct (pd.isna x); [discriminate|]. now rewrite IH.
Qed.

Lemma count_all (s : pd.Series) :
  forallb (fun x => negb (pd.isna x)) s = true -> pd.count s = length s.
Proof.
  unfold pd.count. induction s as [|x s IH]; simpl; [reflexivity|].
  intros H. apply andb_prop in H as [Hx Hs]. rewrite notna_isna, Hx. simpl.
  now rewrite IH.
Qed.

(** On a Series without NaN, [mean] divides the sum by the length. *)
Lemma mean_arithmetic (s : pd.Series) :
  forallb (fun x => negb (pd.isna x)) s = true ->
  pd.mean s = PrimFloat.div (pd.np_sum s) (pd.float_of_count (length s)).
Proof.
  intros H. unfold pd.mean. rewrite count_all, fillna_id by exact H.
  destruct s as [|x s]; [reflexivity|].
  change (0 <? length (x :: s))%nat with true. reflexivity.
Qed.

Lemma zip_with_self {A B} (f : A -> A -> B) (l : list A) :
  zip_with f l l = map (fun x => f x x) l.
Proof. induction l as [|x l IH]; simpl; [reflexivity|]. now rewrite IH. Qed.

(** On a Series without NaN, [std(ddof=0)] is the square root of the
    sum of the squared deviations from the mean divided by the length. *)
Lemma std_population (s : pd.Series) :
  forallb (fun x => negb (pd.isna x)) s = true ->
  pd.std 0 s
  = PrimFloat.sqrt
      (PrimFloat.div
         (pd.np_sum (map (fun x => PrimFloat.mul (PrimFloat.sub (pd.mean s) x)
                                                 (PrimFloat.sub (pd.mean s) x)) s))
         (pd.float_of_count (length s))).
Proof.
  intros H. rewrite (mean_arithmetic s H).
  unfold pd.std, pd.var. rewrite count_all, fillna_id by exact H.
  destruct s as [|x s]; [reflexivity|].
  change (length (x :: s) <=? 0)%nat with false. cbv iota beta.
  change (pd.float_of_count 0) with 0%float.
  rewrite sub_zero_r, zip_with_self.
  do 3 f_equal. apply map_ext_in. intros y Hy.
  apply forallb_forall with (x := y) in H; [|exact Hy].
  now destruct (pd.isna y).
Qed.

Lemma fold_maximum (vs : list float) :
  forall v,
    pd.isna v = false -> forallb (fun x => negb (pd.isna x)) vs = true ->
    In (fold_left pd.np_maximum vs v) (v :: vs) /\
    pd.isna (fold_left pd.np_maximum vs v) = false /\
    PrimFloat.leb v (fold_left pd.np_maximum vs v) = true /\
    Forall (fun x => PrimFloat.leb x (fold_left pd.np_maximum vs v) = true) vs.
Proof.
  induction vs as [|b vs IH]; intros v Hv Hvs.
  - simpl. split; [now left|]. split; [exact Hv|]. split; [now apply leb_refl|constructor].
  - simpl in Hvs. apply andb_prop in Hvs as [Hb Hvs].
    apply negb_true_iff in Hb.
    assert (E : pd.np_maximum v b = if PrimFloat.ltb b v then v else b)
      by (unfold pd.np_maximum; now rewrite Hv, orb_false_r).
    cbn [fold_left]. rewrite E. destruct (PrimFloat.ltb b v) eqn:Hbv.
    + destruct (IH v Hv Hvs) as (Hin & Hm & Hle & Hall).
      split; [|split; [exact Hm|split; [exact Hle|]]].
      * destruct Hin as [Hin | Hin]; [left; exact Hin | right; right; exact Hin].
      * constructor; [|exact Hall]. apply (leb_trans b v); auto.
        now apply ltb_leb.
    + destruct (IH b Hb Hvs) as (Hin & Hm & Hle & Hall).
      split; [|split; [exact Hm|split]].
      * right. exact Hin.
      * apply (leb_trans v b); auto. now apply not_ltb_leb.
      * constructor; assumption.
Qed.

Lemma fold_minimum (vs : list float) :
  forall v,
    pd.isna v = false -> forallb (fun x => negb (pd.isna x)) vs = true ->
    In (fold_left pd.np_minimum vs v) (v :: vs) /\
    pd.isna (fold_left pd.np_minimum vs v) = false /\
    PrimFloat.leb (fold_left pd.np_minimum vs v) v = true /\
    Forall (fun x => PrimFloat.leb (fold_left pd.np_minimum vs v) x = true) vs.
Proof.
  induction vs as [|b vs IH]; intros v Hv Hvs.
  - simpl. split; [now left|]. split; [exact Hv|]. split; [now apply leb_refl|constructor].
  - simpl in Hvs. apply andb_prop in Hvs as [Hb Hvs].
    apply negb_true_iff in Hb.
    assert (E : pd.np_minimum v b = if PrimFloat.ltb v b then v else b)
      by (unfold pd.np_minimum; now rewrite Hv, orb_false_r).
    cbn [fold_left]. rewrite E. destruct (PrimFloat.ltb v b) eqn:Hbv.
    + destruct (IH v Hv Hvs) as (Hin & Hm & Hle & Hall).
      split; [|split; [exact Hm|split; [exact Hle|]]].
      * destruct Hin as [Hin | Hin]; [left; exact Hin | right; right; exact Hin].
      * constructor; [|exact Hall]. apply (leb_trans _ v); auto.
        now apply ltb_leb.
    + destruct (IH b Hb Hvs) as (Hin & Hm & Hle & Hall).
      split; [|split; [exact Hm|split]].
      * right. exact Hin.
      * apply (leb_trans _ b); auto. now apply not_ltb_leb.
      * constructor; assumption.
Qed.

Lemma max_is_maximum (s : pd.Series) :
  s <> [] -> forallb (fun x => negb (pd.isna x)) s = true ->
  is_maximum (pd.max s) s.
Proof.
  intros Hne H. unfold pd.max. rewrite count_all, fillna_id by exact H.
  destruct s as [|x s]; [congruence|]. change (0 <? length (x :: s))%nat with true.
  cbv iota. simpl in H. apply andb_prop in H as [Hx Hs]. apply negb_true_iff in Hx.
  destruct (fold_maximum s x Hx Hs) as (Hin & _ & Hle & Hall).
  split; [exact Hin | now constructor].
Qed.

Lemma min_is_minimum (s : pd.Series) :
  s <> [] -> forallb (fun x => negb (pd.isna x)) s = true ->
  is_minimum (pd.min s) s.
Proof.
  intros Hne H. unfold pd.min. rewrite count_all, fillna_id by exact H.
  destruct s as [|x s]; [congruence|]. change (0 <? length (x :: s))%nat with true.
  cbv iota. simpl in H. apply andb_prop in H as [Hx Hs]. apply negb_true_iff in Hx.
  destruct (fold_minimum s x Hx Hs) as (Hin & _ & Hle & Hall).
  split; [exact Hin | now constructor].
Qed.

Lemma ratio_series (df : DataFrame) :
  pd.div (pd.abs (column col_delta_mass_negative_g df))
         (pd.replace 0 nan (pd.abs (column col_delta_mass_positive_g df)))
  = map ratio_entry df.
Proof.
  unfold pd.div, pd.abs, pd.replace, column.
  induction df as [|r df IH]; simpl; [reflexivity|]. rewrite IH. f_equal.
  unfold ratio_entry, abs_ratio. rewrite eqb_abs_zero.
  destruct (PrimFloat.eqb (col_delta_mass_positive_g r) 0); [apply div_nan_r | reflexivity].
Qed.

Lemma ratio_entry_zero (r : Row) :
  PrimFloat.eqb (col_delta_mass_positive_g r) 0 = true ->
  ratio_entry r = nan /\ anode_nonzero r = false /\ ratio_contribution r = 0%float.
Proof. intros E. unfold ratio_entry, anode_nonzero, ratio_contribution. now rewrite E. Qed.

Lemma ratio_entry_nonzero (r : Row) :
  finite_row r = true ->
  PrimFloat.eqb (col_delta_mass_positive_g r) 0 = false ->
  ratio_entry r = abs_ratio r /\ anode_nonzero r = true /\
  ratio_contribution r = abs_ratio r /\ pd.isna (abs_ratio r) = false.
Proof.
  intros Hr E. apply andb_prop in Hr as [Ha Hc].
  unfold ratio_entry, anode_nonzero, ratio_contribution. rewrite E. repeat split.
  now apply div_finite_not_nan.
Qed.

(** Filling the missing ratios with zero gives each row's contribution. *)
Lemma ratio_fillna (df : DataFrame) :
  forallb finite_row df = true ->
  pd.fillna 0 (map ratio_entry df) = map ratio_contribution df.
Proof.
  unfold pd.fillna. induction df as [|r df IH]; intros Hf; [reflexivity|].
  simpl in Hf. apply andb_prop in Hf as [Hr Hf]. cbn [map]. rewrite IH by exact Hf.
  f_equal. destruct (PrimFloat.eqb (col_delta_mass_positive_g r) 0) eqn:E.
  - destruct (ratio_entry_zero r E) as (-> & _ & ->). reflexivity.
  - destruct (ratio_entry_nonzero r Hr E) as (-> & _ & -> & ->). reflexivity.
Qed.

Lemma ratio_count (df : DataFrame) :
  forallb finite_row df = true ->
  pd.count (map ratio_entry df) = length (List.filter anode_nonzero df).
Proof.
  unfold pd.count. induction df as [|r df IH]; intros Hf; [reflexivity|].
  simpl in Hf. apply andb_prop in Hf as [Hr Hf]. cbn [map List.filter].
  rewrite notna_isna.
  destruct (PrimFloat.eqb (col_delta_mass_positive_g r) 0) eqn:E.
  - destruct (ratio_entry_zero r E) as (-> & -> & _).
    change (pd.isna nan) with true. cbn [negb]. now apply IH.
  - destruct (ratio_entry_nonzero r Hr E) as (-> & -> &  _ & ->).
    cbn [negb length]. now rewrite IH.
Qed.

Lemma no_contribution (df : DataFrame) :
  List.filter anode_nonzero df = [] ->
  forallb (fun x => PrimFloat.eqb x 0) (map ratio_contribution df) = true.
Proof.
  induction df as [|r df IH]; intros H; [reflexivity|].
  cbn [List.filter] in H. unfold anode_nonzero at 1 in H.
  destruct (PrimFloat.eqb (col_delta_mass_positive_g r) 0) eqn:E; [|discriminate].
  cbn [map forallb]. destruct (ratio_entry_zero r E) as (_ & _ & ->).
  now rewrite IH.
Qed.

Lemma zero_div_zero (x : float) :
  PrimFloat.eqb x 0 = true -> PrimFloat.div x 0 = nan.
Proof.
  intros H. apply is_zero_spec in H as [s H]. apply Prim2SF_inj.
  rewrite div_spec, H. reflexivity.
Qed.

(** The mean of the ratio Series divides the sum of the contributions
    by the number of rows whose anode delta is not zero. *)
Lemma ratio_mean (df : DataFrame) :
  forallb finite_row df = true ->
  pd.mean (map ratio_entry df)
  = PrimFloat.div (pd.np_sum (map ratio_contribution df))
                  (pd.float_of_count (length (List.filter anode_nonzero df))).
Proof.
  intros Hf. unfold pd.mean.
  rewrite ratio_count, ratio_fillna by exact Hf.
  destruct (List.filter anode_nonzero df) as [|r l] eqn:E; [|reflexivity].
  cbn [length]. change (0 <? 0)%nat with false. cbv iota.
  change (pd.float_of_count 0) with 0%float. symmetry.
  apply zero_div_zero, sum_zero, no_contribution, E.
Qed.

End ColumnStatistics.

Section OverallStatistics.

Lemma finite_columns (df : DataFrame) :
  forallb finite_row df = true ->
  forallb (fun x => negb (pd.isna x)) (column col_delta_mass_positive_g df) = true /\
  forallb (fun x => negb (pd.isna x)) (column col_delta_mass_negative_g df) = true.
Proof.
  unfold column. induction df as [|r df IH]; simpl; intros H; [auto|].
  apply andb_prop in H as [Hr Hf]. apply andb_prop in Hr as [Ha Hc].
  destruct (IH Hf) as [-> ->].
  now rewrite !isfinite_notna by assumption.
Qed.

Lemma basic_statistics_nonempty (df : DataFrame) :
  df <> [] ->
  basic_statistics df
  = <["ratio_mean_abs"%string := StatFloat (pd.mean (map ratio_entry df))]>
    (<["cathode"%string := StatDict
        (<["mean"%string := pd.mean (column col_delta_mass_negative_g df)]>
        (<["std"%string := pd.std 0 (column col_delta_mass_negative_g df)]>
        (<["max"%string := pd.max (column col_delta_mass_negative_g df)]>
        (<["min"%string := pd.min (column col_delta_mass_negative_g df)]> ∅))))]>
    (<["anode"%string := StatDict
        (<["mean"%string := pd.mean (column col_delta_mass_positive_g df)]>
        (<["std"%string := pd.std 0 (column col_delta_mass_positive_g df)]>
        (<["max"%string := pd.max (column col_delta_mass_positive_g df)]>
        (<["min"%string := pd.min (column col_delta_mass_positive_g df)]> ∅))))]>
     ∅)).
Proof.
  intros Hne. unfold basic_statistics. destruct df as [|r df]; [congruence|].
  cbn [df_empty fold_left]. now rewrite ratio_series.
Qed.

Lemma zero_column_notna (s : list float) :
  forallb (fun x => PrimFloat.eqb x 0) s = true ->
  forallb (fun x => negb (pd.isna x)) s = true.
Proof.
  induction s as [|x s IH]; simpl; intros H; [reflexivity|].
  apply andb_prop in H as [Hx Hs]. now rewrite zero_notna, IH.
Qed.

Lemma mean_zero (s : list float) :
  s <> [] -> (Z.of_nat (length s) < 2 ^ 63)%Z ->
  forallb (fun x => PrimFloat.eqb x 0) s = true ->
  PrimFloat.eqb (pd.mean s) 0 = true.
Proof.
  intros Hne Hlen H. rewrite mean_arithmetic by now apply zero_column_notna.
  apply div_zero_positive.
  - now apply sum_zero.
  - apply count_positive; [|exact Hlen]. destruct s; [congruence | simpl; lia].
Qed.

Lemma std_zero (s : list float) :
  s <> [] -> (Z.of_nat (length s) < 2 ^ 63)%Z ->
  forallb (fun x => PrimFloat.eqb x 0) s = true ->
  PrimFloat.eqb (pd.std 0 s) 0 = true.
Proof.
  intros Hne Hlen H. rewrite std_population by now apply zero_column_notna.
  pose proof (mean_zero s Hne Hlen H) as Hm.
  apply sqrt_zero, div_zero_positive.
  - apply sum_zero.
    apply forallb_forall. intros y Hy. apply in_map_iff in Hy as (x & <- & Hx).
    apply forallb_forall with (x := x) in H; [|exact Hx].
    apply mul_zero; now apply sub_zero.
  - apply count_positive; [|exact Hlen]. destruct s; [congruence | simpl; lia].
Qed.

Lemma ratio_all_nan (df : DataFrame) :
  forallb anode_zero df = true -> pd.mean (map ratio_entry df) = nan.
Proof.
  intros H.
  assert (Hc : pd.count (map ratio_entry df) = 0%nat).
  { unfold pd.count. induction df as [|r df IH]; [reflexivity|].
    simpl in H. apply andb_prop in H as [Hr Hdf]. cbn [map List.filter].
    destruct (ratio_entry_zero r Hr) as (-> & _ & _).
    change (pd.notna nan) with false. cbv iota. now apply IH. }
  unfold pd.mean. now rewrite Hc.
Qed.

Lemma anode_zero_column (df : DataFrame) :
  forallb anode_zero df = true ->
  forallb (fun x => PrimFloat.eqb x 0) (column col_delta_mass_positive_g df) = true.
Proof.
  unfold column. induction df as [|r df IH]; simpl; intros H; [reflexivity|].
  apply andb_prop in H as [Hr Hdf]. unfold anode_zero in Hr. now rewrite Hr, IH.
Qed.

End OverallStatistics.

(** ** Rounding, in real numbers

    Every operation of binary64 returns the exact result rounded: for a
    finite result the error is at most [u_] times the exact result
    (plus [eta] where the result may be subnormal). *)

Module FloatReals.

Local Open Scope R_scope.

Lemma Rabs_bound (a b : R) : Rabs a <= b -> - b <= a <= b.
Proof. unfold Rabs. destruct (Rcase_abs a); lra. Qed.

Lemma bpow_pos (e : Z) : 0 < bpow e.
Proof. apply powerRZ_lt. lra. Qed.

Lemma bpow_add (a b : Z) : bpow (a + b) = bpow a * bpow b.
Proof. apply powerRZ_add. lra. Qed.

Lemma bpow_0 : bpow 0 = 1.
Proof. reflexivity. Qed.

Lemma bpow_1 : bpow 1 = 2.
Proof. unfold bpow. simpl. lra. Qed.

Lemma bpow_opp (a : Z) : bpow (- a) = / bpow a.
Proof. apply powerRZ_neg'. Qed.

Lemma bpow_sub (a b : Z) : bpow (a - b) = bpow a / bpow b.
Proof. unfold Z.sub, Rdiv. now rewrite bpow_add, bpow_opp. Qed.

Lemma bpow_succ (a : Z) : bpow (a + 1) = 2 * bpow a.
Proof. rewrite bpow_add, bpow_1. lra. Qed.

Lemma bpow_IZR (z : Z) : (0 <= z)%Z -> bpow z = IZR (2 ^ z).
Proof.
  intros Hz. unfold bpow. destruct z as [|p|p]; try lia.
  - reflexivity.
  - change (2 ^ Zpos p)%Z with (Z.pow_pos 2 p). now rewrite Zpower_pos_powerRZ.
Qed.

Lemma bpow_le (a b : Z) : (a <= b)%Z -> bpow a <= bpow b.
Proof.
  intros H. replace b with (a + (b - a))%Z by lia. rewrite bpow_add.
  rewrite (bpow_IZR (b - a)) by lia.
  assert (1 <= IZR (2 ^ (b - a))).
  { apply IZR_le. pose proof (Z.pow_pos_nonneg 2 (b - a) ltac:(lia) ltac:(lia)). lia. }
  pose proof (bpow_pos a). nra.
Qed.

Lemma bpow_lt (a b : Z) : (a < b)%Z -> bpow a < bpow b.
Proof.
  intros H. replace b with (a + (b - a))%Z by lia. rewrite bpow_add.
  rewrite (bpow_IZR (b - a)) by lia.
  assert (2 <= IZR (2 ^ (b - a))).
  { apply IZR_le. replace (b - a)%Z with (1 + (b - a - 1))%Z by lia.
    rewrite Z.pow_add_r by lia.
    pose proof (Z.pow_pos_nonneg 2 (b - a - 1) ltac:(lia) ltac:(lia)).
    change (2 ^ 1)%Z with 2%Z. lia. }
  pose proof (bpow_pos a). nra.
Qed.

(** *** Digits *)

Lemma digits2_upper (p : positive) : (Zpos p < 2 ^ Zpos (digits2_pos p))%Z.
Proof.
  induction p as [p IH | p IH |]; simpl digits2_pos.
  - rewrite Pos2Z.inj_succ, Z.pow_succ_r by lia. lia.
  - rewrite Pos2Z.inj_succ, Z.pow_succ_r by lia. lia.
  - simpl. lia.
Qed.

Lemma Zdigits2_bounds (m : Z) :
  (0 < m)%Z -> (2 ^ (Zdigits2 m - 1) <= m < 2 ^ Zdigits2 m)%Z /\ (0 < Zdigits2 m)%Z.
Proof.
  destruct m as [|p|p]; try lia. intros _. simpl Zdigits2.
  pose proof (digits2_lower p). pose proof (digits2_upper p). lia.
Qed.

Lemma Zdigits2_unique (m k : Z) :
  (0 < k)%Z -> (2 ^ (k - 1) <= m < 2 ^ k)%Z -> Zdigits2 m = k.
Proof.
  intros Hk [H1 H2].
  assert (Hm : (0 < m)%Z).
  { pose proof (Z.pow_pos_nonneg 2 (k - 1) ltac:(lia) ltac:(lia)). lia. }
  destruct (Zdigits2_bounds m Hm) as [[H3 H4] H5].
  destruct (Z.lt_trichotomy (Zdigits2 m) k)%Z as [Hlt | [Heq | Hgt]]; [|exact Heq|].
  - assert (2 ^ Zdigits2 m <= 2 ^ (k - 1))%Z by (apply Z.pow_le_mono_r; lia). lia.
  - assert (2 ^ k <= 2 ^ (Zdigits2 m - 1))%Z by (apply Z.pow_le_mono_r; lia). lia.
Qed.

Lemma Zdigits2_nonneg (m : Z) : (0 <= Zdigits2 m)%Z.
Proof. destruct m; simpl; lia. Qed.

(** *** Shifting a mantissa to the right *)

Lemma Rep_bounds (mrs : shr_record) (w : R) :
  Rep mrs w -> IZR (shr_m mrs) <= w < IZR (shr_m mrs) + 1.
Proof.
  unfold Rep. destruct (shr_r mrs), (shr_s mrs); intros H; lra.
Qed.

Lemma Rep_of_loc_exact (m : Z) : Rep (shr_record_of_loc m loc_Exact) (IZR m).
Proof. reflexivity. Qed.

Lemma shr_1_Rep (mrs : shr_record) (w : R) :
  (0 <= shr_m mrs)%Z -> Rep mrs w -> Rep (shr_1 mrs) (w / 2).
Proof.
  destruct mrs as [m r s]. unfold Rep. simpl shr_m. simpl shr_r. simpl shr_s.
  intros Hm H.
  destruct m as [|[p|p|]|p]; try lia; simpl shr_1; cbn [shr_m shr_r shr_s];
    try rewrite (Pos2Z.inj_xI p) in H; try rewrite (Pos2Z.inj_xO p) in H;
    try rewrite plus_IZR in H; try rewrite mult_IZR in H;
    destruct r, s; cbn [orb]; lra.
Qed.

Lemma iter_shr_1_Rep (p : positive) :
  forall (mrs : shr_record) (w : R),
    (0 <= shr_m mrs)%Z -> Rep mrs w ->
    (0 <= shr_m (SpecFloat.iter_pos shr_1 p mrs))%Z /\
    Rep (SpecFloat.iter_pos shr_1 p mrs) (w / bpow (Zpos p)).
Proof.
  induction p as [p IH | p IH |]; intros mrs w Hm H; simpl SpecFloat.iter_pos.
  - pose proof (shr_1_nonneg mrs Hm) as H0. pose proof (shr_1_Rep mrs w Hm H) as H1.
    destruct (IH _ _ H0 H1) as [H2 H3]. destruct (IH _ _ H2 H3) as [H4 H5].
    split; [exact H4|].
    replace (w / bpow (Zpos p~1)) with (w / 2 / bpow (Zpos p) / bpow (Zpos p)); [exact H5|].
    rewrite (Pos2Z.inj_xI p). replace (2 * Zpos p + 1)%Z with (Zpos p + Zpos p + 1)%Z by lia.
    rewrite !bpow_add, bpow_1. pose proof (bpow_pos (Zpos p)). field. lra.
  - destruct (IH _ _ Hm H) as [H2 H3]. destruct (IH _ _ H2 H3) as [H4 H5].
    split; [exact H4|].
    replace (w / bpow (Zpos p~0)) with (w / bpow (Zpos p) / bpow (Zpos p)); [exact H5|].
    rewrite (Pos2Z.inj_xO p). replace (2 * Zpos p)%Z with (Zpos p + Zpos p)%Z by lia.
    rewrite !bpow_add. pose proof (bpow_pos (Zpos p)). field. lra.
  - split; [now apply shr_1_nonneg|]. rewrite bpow_1. now apply shr_1_Rep.
Qed.

Lemma shr_Rep (mrs : shr_record) (e n : Z) (w : R) :
  (0 <= shr_m mrs)%Z -> (0 <= n)%Z -> Rep mrs w ->
  (0 <= shr_m (fst (shr mrs e n)))%Z /\
  Rep (fst (shr mrs e n)) (w / bpow n) /\ snd (shr mrs e n) = (e + n)%Z.
Proof.
  intros Hm Hn H. unfold shr. destruct n as [|p|p]; try lia; cbn [fst snd].
  - rewrite bpow_0, Z.add_0_r. split; [exact Hm|]. split; [|reflexivity].
    now replace (w / 1) with w by field.
  - destruct (iter_shr_1_Rep p mrs w Hm H). auto.
Qed.

Lemma shr_m_of_loc' (m : Z) (l : location) : shr_m (shr_record_of_loc m l) = m.
Proof. destruct l as [|[ | | ]]; reflexivity. Qed.

(** Rounding to nearest moves the mantissa by at most one half. *)
Lemma round_nearest_even_Rep (mrs : shr_record) (w : R) :
  Rep mrs w ->
  let M := round_nearest_even (shr_m mrs) (loc_of_shr_record mrs) in
  (shr_m mrs <= M <= shr_m mrs + 1)%Z /\ Rabs (IZR M - w) <= /2 /\
  (shr_r mrs = false -> shr_s mrs = false -> IZR M = w).
Proof.
  destruct mrs as [m r s]. unfold Rep. cbn [shr_m shr_r shr_s loc_of_shr_record].
  intros H. 
  destruct r, s; cbn [round_nearest_even]; try destruct (Z.even m);
    rewrite ?plus_IZR; (split; [lia|]); (split; [apply Rabs_le; lra|]);
    intros; try discriminate; lra.
Qed.


Lemma fexp_eq (k : Z) : fexp prec emax k = Z.max (k - 53) (-1074).
Proof. reflexivity. Qed.

Lemma shr_nonpos (mrs : shr_record) (e n : Z) : (n <= 0)%Z -> shr mrs e n = (mrs, e).
Proof. intros H. unfold shr. destruct n; try reflexivity. lia. Qed.

Lemma IZR_pow2 (k : Z) : (0 <= k)%Z -> IZR (2 ^ k) = bpow k.
Proof. intros H. now rewrite bpow_IZR. Qed.

(** The second normalisation of [binary_round_aux]: a mantissa of at
    most 53 bits is kept, and 2^53 becomes 2^52 one exponent higher. *)
Lemma shr_fexp_again (M e1 : Z) :
  (0 <= M <= 2 ^ 53)%Z -> (-1074 <= e1)%Z ->
  exists M' e2,
    shr_fexp prec emax M e1 loc_Exact
    = ({| shr_m := M'; shr_r := false; shr_s := false |}, e2) /\
    ((M < 2 ^ 53 /\ M' = M /\ e2 = e1) \/
     (M = 2 ^ 53 /\ M' = 2 ^ 52 /\ e2 = e1 + 1))%Z.
Proof.
  intros [H0 H1] He. unfold shr_fexp. rewrite fexp_eq.
  destruct (Z.eq_dec M (2 ^ 53)%Z)%Z as [-> | Hne].
  - exists (2 ^ 52)%Z, (e1 + 1)%Z. split; [|right; auto].
    change (Zdigits2 (2 ^ 53)) with 54%Z.
    replace (Z.max (54 + e1 - 53) (-1074) - e1)%Z with 1%Z by lia. reflexivity.
  - exists M, e1. split; [|left; lia].
    rewrite shr_nonpos; [reflexivity|].
    destruct (Z.eq_dec M 0%Z)%Z as [-> | Hz]; [simpl Zdigits2; lia|].
    destruct (Zdigits2_bounds M ltac:(lia)) as [[H2 H3] H4].
    assert (Zdigits2 M <= 53)%Z.
    { destruct (Z.le_gt_cases (Zdigits2 M) 53)%Z as [Hle | Hgt]; [exact Hle|].
      assert (2 ^ 53 <= 2 ^ (Zdigits2 M - 1))%Z by (apply Z.pow_le_mono_r; lia). lia. }
    lia.
Qed.

(** *** The rounding step shared by all operations

    [m] and [l] stand for the real mantissa [w], so that the exact
    result is [w * 2^e].  The mantissa must not be shorter than the
    format asks for at this exponent (the callers see to it). *)
Lemma round_aux_model (s : bool) (m e : Z) (l : location) (w : R) :
  (0 <= m)%Z ->
  (e <= fexp prec emax (Zdigits2 m + e))%Z ->
  Rep (shr_record_of_loc m l) w ->
  let x := w * bpow e in
  match binary_round_aux prec emax s m e l with
  | S754_nan => False
  | S754_infinity s' => s' = s /\ bpow 1024 <= x * (1 + u_)
  | S754_zero s' =>
      s' = s /\ x <= eta /\ (l = loc_Exact -> (-1074 <= e)%Z -> x = 0)
  | S754_finite s' m' e' =>
      s' = s /\
      Rabs (IZR (Zpos m') * bpow e' - x) <= u_ * x + eta /\
      (l = loc_Exact -> (-1074 <= e)%Z ->
       Rabs (IZR (Zpos m') * bpow e' - x) <= u_ * x) /\
      (l = loc_Exact -> (fexp prec emax (Zdigits2 m + e) <= e)%Z ->
       IZR (Zpos m') * bpow e' = x)
  end.
Proof.
  intros Hm Hpre HRep x. unfold binary_round_aux.
  set (d := Zdigits2 m) in *. rewrite fexp_eq in Hpre.
  set (e1 := Z.max (d + e - 53) (-1074)) in *.
  assert (Hd : (0 <= d)%Z) by apply Zdigits2_nonneg.
  assert (He1 : (-1074 <= e1)%Z) by (subst e1; lia).
  (* the first shift *)
  pose proof (Rep_bounds _ _ HRep) as Hw. rewrite shr_m_of_loc' in Hw.
  assert (Hshr : shr_fexp prec emax m e l = shr (shr_record_of_loc m l) e (e1 - e))
    by reflexivity.
  destruct (shr_Rep (shr_record_of_loc m l) e (e1 - e) w
              ltac:(rewrite shr_m_of_loc'; exact Hm) ltac:(lia) HRep)
    as (Hm' & HRep' & He').
  rewrite Hshr. destruct (shr (shr_record_of_loc m l) e (e1 - e)) as [mrs' e'] eqn:Eshr.
  cbn [fst snd] in Hm', HRep', He'. replace (e + (e1 - e))%Z with e1 in He' by lia.
  subst e'. set (w' := w / bpow (e1 - e)) in *. set (m' := shr_m mrs') in *.
  assert (Hx : x = w' * bpow e1).
  { subst x w'. rewrite bpow_sub. pose proof (bpow_pos e). pose proof (bpow_pos e1).
    field. lra. }
  pose proof (Rep_bounds _ _ HRep') as Hw'. fold m' in Hw'.
  (* the shifted mantissa has at most 53 bits *)
  assert (Hwd : w < bpow d).
  { destruct (Z.eq_dec m 0)%Z as [E | E].
    - subst d. rewrite E in *. simpl Zdigits2. rewrite bpow_0. lra.
    - destruct (Zdigits2_bounds m ltac:(lia)) as [[_ H2] _]. fold d in H2.
      rewrite <- IZR_pow2 by lia. apply IZR_lt in H2.
      assert (IZR m + 1 <= IZR (2 ^ d)).
      { rewrite <- plus_IZR. apply IZR_le. apply lt_IZR in H2. lia. }
      lra. }
  assert (Hw53 : w' < bpow 53).
  { subst w'. apply Rlt_le_trans with (bpow d / bpow (e1 - e)).
    - pose proof (bpow_pos (e1 - e)). apply Rmult_lt_compat_r; [|exact Hwd].
      now apply Rinv_0_lt_compat.
    - rewrite <- bpow_sub. apply bpow_le. lia. }
  assert (Hm53 : (m' < 2 ^ 53)%Z).
  { apply lt_IZR. rewrite IZR_pow2 by lia. lra. }
  (* above the least exponent it has exactly 53 bits *)
  assert (Hnorm : (-1074 < e1)%Z -> (2 ^ 52 <= m')%Z /\ bpow 52 <= w').
  { intros Hgt.
    assert (Hmpos : (0 < m)%Z).
    { destruct (Z.eq_dec m 0)%Z as [E | E]; [|lia]. exfalso. subst d e1.
      rewrite E in *. simpl Zdigits2 in *. lia. }
    destruct (Zdigits2_bounds m Hmpos) as [[H1 _] H3]. fold d in H1, H3.
    assert (Hw52 : bpow 52 <= w').
    { subst w'. replace 52%Z with ((d - 1) - (e1 - e))%Z by lia.
      rewrite bpow_sub. pose proof (bpow_pos (e1 - e)).
      apply Rmult_le_compat_r; [left; now apply Rinv_0_lt_compat|].
      rewrite <- IZR_pow2 by lia. apply IZR_le in H1. lra. }
    split; [|exact Hw52].
    assert (IZR (2 ^ 52) < IZR (m' + 1)).
    { rewrite IZR_pow2 by lia. rewrite plus_IZR. lra. }
    apply lt_IZR in H. lia. }
  (* rounding *)
  destruct (round_nearest_even_Rep mrs' w' HRep') as (HM & Herr & Hexact).
  fold m' in HM, Herr, Hexact.
  set (M := round_nearest_even m' (loc_of_shr_record mrs')) in *.
  destruct (shr_fexp_again M e1 ltac:(lia) He1) as (M' & e2 & -> & Hcase).
  cbn [shr_m].
  (* the value is unchanged by the second normalisation *)
  assert (Hval : IZR M' * bpow e2 = IZR M * bpow e1).
  { destruct Hcase as [(_ & -> & ->) | (-> & -> & ->)]; [reflexivity|].
    rewrite bpow_succ, !IZR_pow2 by lia.
    change 53%Z with (52 + 1)%Z. rewrite (bpow_succ 52). lra. }
  assert (Hxerr : Rabs (IZR M * bpow e1 - x) <= /2 * bpow e1).
  { rewrite Hx. replace (IZR M * bpow e1 - w' * bpow e1) with ((IZR M - w') * bpow e1) by ring.
    rewrite Rabs_mult, (Rabs_pos_eq (bpow e1)) by (left; apply bpow_pos).
    pose proof (bpow_pos e1). nra. }
  assert (Hw0 : 0 <= w') by (apply IZR_le in Hm'; fold m' in Hm'; lra).
  assert (Hx0 : 0 <= x) by (rewrite Hx; pose proof (bpow_pos e1); nra).
  (* half an ulp against the unit roundoff *)
  assert (Hhalf : /2 * bpow e1 <= u_ * x \/ ((e1 = -1074)%Z /\ /2 * bpow e1 = eta)).
  { destruct (Z.eq_dec e1 (-1074))%Z as [E | E].
    - right. split; [exact E|]. rewrite E. unfold eta.
      change (-1075)%Z with (-1074 - 1)%Z. rewrite bpow_sub, bpow_1. lra.
    - left. destruct (Hnorm ltac:(lia)) as [_ Hw52]. rewrite Hx. unfold u_.
      pose proof (bpow_pos e1).
      assert (bpow (-53) * bpow 52 = /2).
      { rewrite <- bpow_add. change (-53 + 52)%Z with (-1)%Z.
        change (-1)%Z with (- (1))%Z. rewrite bpow_opp, bpow_1. lra. }
      pose proof (bpow_pos (-53)).
      assert (/2 <= bpow (-53) * w') by nra.
      replace (bpow (-53) * (w' * bpow e1)) with (bpow (-53) * w' * bpow e1) by ring.
      apply Rmult_le_compat_r; lra. }
  assert (Hu : 0 < u_) by apply bpow_pos.
  assert (Heta : 0 < eta) by apply bpow_pos.
  assert (Hexact0 : l = loc_Exact -> (e1 <= e)%Z -> IZR M * bpow e1 = x).
  { intros Hl He.
    assert (Hee : (e1 - e <= 0)%Z) by lia.
    rewrite (shr_nonpos _ _ _ Hee) in Eshr. injection Eshr as <- _.
    subst l. cbn [shr_record_of_loc shr_r shr_s] in Hexact.
    now rewrite Hx, (Hexact eq_refl eq_refl). }
  assert (Hexact' : l = loc_Exact -> (-1074 <= e)%Z ->
                    Rabs (IZR M * bpow e1 - x) <= u_ * x).
  { intros Hl He. destruct Hhalf as [Hh | [E Hh]]; [lra|].
    rewrite (Hexact0 Hl ltac:(lia)).
    replace (x - x) with 0 by ring. rewrite Rabs_R0. nra. }
  destruct M' as [|p|p].
  - (* rounded to zero *)
    assert (HM0 : M = 0%Z) by (destruct Hcase as [(_ & E & _) | (_ & E & _)]; lia).
    rewrite HM0 in *. split; [reflexivity|].
    assert (He1' : e1 = (-1074)%Z).
    { destruct (Z.eq_dec e1 (-1074))%Z as [E | E]; [exact E|].
      destruct (Hnorm ltac:(lia)) as [H52 _]. lia. }
    replace (0 * bpow e1 - x) with (- x) in Hxerr, Hexact' by ring.
    rewrite Rabs_Ropp, (Rabs_pos_eq x Hx0) in Hxerr, Hexact'.
    split.
    + destruct Hhalf as [Hh | [_ Hh]]; [|lra].
      assert (u_ < 1).
      { unfold u_. change 1 with (bpow 0). apply bpow_lt. lia. }
      nra.
    + intros Hl He. specialize (Hexact' Hl He).
      assert (u_ < 1).
      { unfold u_. change 1 with (bpow 0). apply bpow_lt. lia. }
      nra.
  - destruct (e2 <=? emax - prec)%Z eqn:Ele.
    + rewrite Hval. split; [reflexivity|]. split; [|split; [exact Hexact' | exact Hexact0]].
      destruct Hhalf as [Hh | [_ Hh]]; nra.
    + split; [reflexivity|]. apply Z.leb_gt in Ele. unfold emax, prec in Ele.
      destruct Hcase as [(Hlt & _ & Ee) | (HM53 & _ & Ee)]; rewrite Ee in Ele.
      * destruct (Hnorm ltac:(lia)) as [_ Hw52]. rewrite Hx.
        apply Rle_trans with (bpow 52 * bpow e1).
        -- rewrite <- bpow_add. apply bpow_le. lia.
        -- pose proof (bpow_pos e1). nra.
      * rewrite Hx.
        assert (Hw53' : bpow 53 - /2 <= w').
        { rewrite HM53, IZR_pow2 in Herr by lia.
          apply Rabs_bound in Herr. lra. }
        assert (H971 : bpow 971 <= bpow e1) by (apply bpow_le; lia).
        assert (H1024 : bpow 1024 = bpow 53 * bpow 971) by (now rewrite <- bpow_add).
        assert (H53 : bpow 53 * bpow (-53) = 1).
        { rewrite <- bpow_add. reflexivity. }
        assert (1 < bpow 53).
        { change 1 with (bpow 0). apply bpow_lt. lia. }
        unfold u_ in *. rewrite H1024.
        pose proof (bpow_pos 971). pose proof (bpow_pos (-53)). pose proof (bpow_pos 53).
        assert (bpow 53 <= (bpow 53 - /2) * (1 + bpow (-53))) by nra.
        apply Rle_trans with ((bpow 53 - /2) * (1 + bpow (-53)) * bpow 971); [nra|].
        apply Rle_trans with (w' * (1 + bpow (-53)) * bpow e1); [|lra].
        apply Rmult_le_compat; nra.
  - exfalso. destruct Hcase as [(_ & E & _) | (_ & E & _)]; lia.
Qed.


(** *** Values of floats *)

Lemma SF2R_finite (s : bool) (m : positive) (e : Z) :
  SF2R (S754_finite s m e) = (if s then -1 else 1) * (IZR (Zpos m) * bpow e).
Proof. unfold SF2R, cond_Zopp. destruct s; [rewrite opp_IZR|]; ring. Qed.

Lemma SF2R_abs (X : spec_float) : SF2R (SFabs X) = Rabs (SF2R X).
Proof.
  destruct X as [s|s| |s m e]; cbn [SFabs SF2R]; try (now rewrite Rabs_R0).
  pose proof (bpow_pos e). assert (0 < IZR (Zpos m)) by (apply IZR_lt; lia).
  destruct s; cbn [cond_Zopp]; [rewrite opp_IZR|].
  - rewrite Rabs_left by nra. ring.
  - rewrite Rabs_pos_eq by nra. reflexivity.
Qed.

Lemma valid_bounded (X : spec_float) (s : bool) (m : positive) (e : Z) :
  valid_binary X = true -> X = S754_finite s m e ->
  (e = Z.max (Zpos (digits2_pos m) + e - 53) (-1074) /\ e <= 971)%Z.
Proof.
  intros Hv ->. cbn in Hv. destruct (bounded_inv m e Hv). split; [symmetry|]; assumption.
Qed.

(** *** Aligning a mantissa to a lower exponent *)

Lemma shl_align_spec (mx : positive) (ex ez : Z) :
  let '(m', e') := shl_align mx ex ez in
  e' = Z.min ex ez /\
  IZR (Zpos m') * bpow e' = IZR (Zpos mx) * bpow ex /\
  (Zpos (digits2_pos m') + e' = Zpos (digits2_pos mx) + ex)%Z /\
  Zpos m' = (Zpos mx * 2 ^ (ex - e'))%Z.
Proof.
  unfold shl_align. destruct (ez - ex)%Z as [|d|d] eqn:E.
  - replace (Z.min ex ez) with ex by lia. rewrite Z.sub_diag, Z.mul_1_r. auto.
  - replace (Z.min ex ez) with ex by lia. rewrite Z.sub_diag, Z.mul_1_r. auto.
  - replace (Z.min ex ez) with ez by lia.
    change (Pos.iter xO mx d) with (shift_pos d mx).
    assert (Hz : Zpos (shift_pos d mx) = (Zpos mx * 2 ^ Zpos d)%Z).
    { rewrite shift_pos_correct. change (Z.pow_pos 2 d) with (2 ^ Zpos d)%Z. lia. }
    assert (Hex : ex = (ez + Zpos d)%Z) by lia.
    split; [reflexivity|]. split; [|split].
    + rewrite Hz, mult_IZR, IZR_pow2 by lia. rewrite Hex, bpow_add. ring.
    + change (Zpos (digits2_pos (shift_pos d mx))) with (Zdigits2 (Zpos (shift_pos d mx))).
      rewrite Hz.
      destruct (Zdigits2_bounds (Zpos mx) ltac:(lia)) as [[H1 H2] H3].
      cbn [Zdigits2] in H1, H2, H3.
      rewrite (Zdigits2_unique _ (Zpos (digits2_pos mx) + Zpos d)); [lia | lia |].
      replace (Zpos (digits2_pos mx) + Zpos d - 1)%Z
        with ((Zpos (digits2_pos mx) - 1) + Zpos d)%Z by lia.
      rewrite !Z.pow_add_r by lia.
      pose proof (Z.pow_pos_nonneg 2 (Zpos d) ltac:(lia) ltac:(lia)). nia.
    + rewrite Hz. f_equal. f_equal. lia.
Qed.

(** *** [binary_round]: rounding an integer multiple of a power of two *)

Lemma binary_round_model (s : bool) (p : positive) (ez : Z) :
  (-1074 <= ez)%Z ->
  let x := IZR (Zpos p) * bpow ez in
  match binary_round prec emax s p ez with
  | S754_finite s' m e =>
      s' = s /\ Rabs (IZR (Zpos m) * bpow e - x) <= u_ * x /\
      ((Zpos p < 2 ^ 53)%Z -> IZR (Zpos m) * bpow e = x)
  | S754_infinity s' => s' = s /\ bpow 1024 <= x * (1 + u_)
  | _ => False
  end.
Proof.
  intros Hez x. unfold binary_round.
  pose proof (shl_align_spec p ez (fexp prec emax (Zpos (digits2_pos p) + ez))) as Hs.
  destruct (shl_align p ez _) as [mz ez'].
  destruct Hs as (He' & Hv & Hd & Hz).
  rewrite fexp_eq in He'.
  assert (Hpre : (ez' <= fexp prec emax (Zdigits2 (Zpos mz) + ez'))%Z).
  { cbn [Zdigits2]. rewrite Hd, fexp_eq. lia. }
  pose proof (round_aux_model s (Zpos mz) ez' loc_Exact (IZR (Zpos mz)) ltac:(lia) Hpre
                (Rep_of_loc_exact _)) as H.
  cbv zeta in H. rewrite Hv in H. fold x in H.
  assert (Hx : 0 < x).
  { subst x. pose proof (bpow_pos ez). assert (0 < IZR (Zpos p)) by (apply IZR_lt; lia). nra. }
  destruct (binary_round_aux prec emax s (Zpos mz) ez' loc_Exact) as [s'|s'| |s' m e].
  - destruct H as (_ & _ & H0). specialize (H0 eq_refl ltac:(lia)). lra.
  - exact H.
  - exact H.
  - destruct H as (Hs & _ & Hrel & Hex). split; [exact Hs|].
    split; [apply Hrel; [reflexivity | lia]|].
    intros Hp. apply Hex; [reflexivity|].
    cbn [Zdigits2]. rewrite Hd, fexp_eq.
    destruct (Zdigits2_bounds (Zpos p) ltac:(lia)) as [[H1 _] _]. cbn [Zdigits2] in H1.
    assert (Zpos (digits2_pos p) <= 53)%Z.
    { destruct (Z.le_gt_cases (Zpos (digits2_pos p)) 53)%Z as [Hle | Hgt]; [exact Hle|].
      assert (2 ^ 53 <= 2 ^ (Zpos (digits2_pos p) - 1))%Z by (apply Z.pow_le_mono_r; lia).
      lia. }
    lia.
Qed.

Lemma binary_normalize_model (k ez : Z) :
  (-1074 <= ez)%Z ->
  let x := IZR k * bpow ez in
  match binary_normalize prec emax k ez false with
  | S754_nan => False
  | S754_infinity _ => bpow 1024 <= Rabs x * (1 + u_)
  | r =>
      Rabs (SF2R r - x) <= u_ * Rabs x /\
      ((Z.abs k < 2 ^ 53)%Z -> SF2R r = x)
  end.
Proof.
  intros Hez x. unfold binary_normalize. destruct k as [|p|p].
  - subst x. cbn [SF2R]. rewrite Rmult_0_l, Rminus_0_r, Rabs_R0. split; [lra | reflexivity].
  - pose proof (binary_round_model false p ez Hez) as H. cbv zeta in H.
    assert (Hx : 0 < x).
    { subst x. pose proof (bpow_pos ez). assert (0 < IZR (Zpos p)) by (apply IZR_lt; lia).
      nra. }
    fold x in H. rewrite (Rabs_pos_eq x) by lra.
    destruct (binary_round prec emax false p ez) as [s'|s'| |s' m e]; try contradiction.
    + apply H.
    + destruct H as (-> & H1 & H2). cbn [SF2R cond_Zopp]. split; [exact H1|].
      intros Hk. apply H2. lia.
  - pose proof (binary_round_model true p ez Hez) as H. cbv zeta in H.
    assert (Hx : x = - (IZR (Zpos p) * bpow ez)).
    { subst x. change (Zneg p) with (- Zpos p)%Z. rewrite opp_IZR. ring. }
    assert (Hpos : 0 < IZR (Zpos p) * bpow ez).
    { pose proof (bpow_pos ez). assert (0 < IZR (Zpos p)) by (apply IZR_lt; lia). nra. }
    rewrite Hx, Rabs_Ropp, (Rabs_pos_eq (IZR (Zpos p) * bpow ez)) by lra.
    destruct (binary_round prec emax true p ez) as [s'|s'| |s' m e]; try contradiction.
    + apply H.
    + destruct H as (-> & H1 & H2). cbn [SF2R cond_Zopp]. rewrite opp_IZR. split.
      * replace (- IZR (Zpos m) * bpow e - - (IZR (Zpos p) * bpow ez))
          with (- (IZR (Zpos m) * bpow e - IZR (Zpos p) * bpow ez)) by ring.
        now rewrite Rabs_Ropp.
      * intros Hk. rewrite <- H2 by lia. ring.
Qed.


(** *** Addition and subtraction *)

Lemma aligned_sum (sx sy : bool) (mx my : positive) (ex ey : Z) (sub : bool) :
  let ez := Z.min ex ey in
  let a := cond_Zopp sx (Zpos (fst (shl_align mx ex ez))) in
  let b := cond_Zopp sy (Zpos (fst (shl_align my ey ez))) in
  let k := (if sub then a - b else a + b)%Z in
  IZR k * bpow ez
  = SF2R (S754_finite sx mx ex)
    + (if sub then - SF2R (S754_finite sy my ey) else SF2R (S754_finite sy my ey)).
Proof.
  intros ez a b k. subst k a b.
  pose proof (shl_align_spec mx ex ez) as Hx. pose proof (shl_align_spec my ey ez) as Hy.
  destruct (shl_align mx ex ez) as [mx' ex'], (shl_align my ey ez) as [my' ey'].
  destruct Hx as (Hex & Hvx & _ & _), Hy as (Hey & Hvy & _ & _). cbn [fst].
  assert (E1 : Z.min ex ez = ez) by (subst ez; lia).
  assert (E2 : Z.min ey ez = ez) by (subst ez; lia).
  rewrite E1 in Hex. rewrite E2 in Hey. subst ex' ey'.
  rewrite !SF2R_finite, <- Hvx, <- Hvy.
  destruct sx, sy, sub; cbn [cond_Zopp]; rewrite ?minus_IZR, ?plus_IZR, ?opp_IZR; ring.
Qed.

Lemma SFadd_model (X Y : spec_float) :
  valid_binary X = true -> valid_binary Y = true ->
  SFfinite X = true -> SFfinite Y = true ->
  let S := SF2R X + SF2R Y in
  match SFadd prec emax X Y with
  | S754_nan => False
  | S754_infinity _ => bpow 1024 <= Rabs S * (1 + u_)
  | r => Rabs (SF2R r - S) <= u_ * Rabs S
  end.
Proof.
  intros HvX HvY HfX HfY S. pose proof (bpow_pos (-53)) as Hu. fold u_ in Hu.
  destruct X as [sx|sx| |sx mx ex], Y as [sy|sy| |sy my ey]; try discriminate;
    cbn [SFadd].
  - subst S. cbn [SF2R].
    destruct sx, sy; cbn [SF2R]; rewrite Rplus_0_l, Rminus_0_r, Rabs_R0; lra.
  - subst S. cbn [SF2R]. rewrite Rplus_0_l, Rminus_diag, Rabs_R0.
    pose proof (Rabs_pos (IZR (cond_Zopp sy (Zpos my)) * bpow ey)). nra.
  - subst S. cbn [SF2R]. rewrite Rplus_0_r, Rminus_diag, Rabs_R0.
    pose proof (Rabs_pos (IZR (cond_Zopp sx (Zpos mx)) * bpow ex)). nra.
  - destruct (valid_bounded _ sx mx ex HvX eq_refl) as [Hex _].
    destruct (valid_bounded _ sy my ey HvY eq_refl) as [Hey _].
    pose proof (aligned_sum sx sy mx my ex ey false) as Hk. cbv zeta in Hk.
    pose proof (binary_normalize_model
                  (cond_Zopp sx (Zpos (fst (shl_align mx ex (Z.min ex ey))))
                   + cond_Zopp sy (Zpos (fst (shl_align my ey (Z.min ex ey)))))
                  (Z.min ex ey) ltac:(lia)) as H.
    cbv zeta in H. rewrite Hk in H. fold S in H.
    destruct (binary_normalize _ _ _ _ _) as [s'|s'| |s' m e]; try exact H; apply H.
Qed.

Lemma SFsub_model (X Y : spec_float) :
  valid_binary X = true -> valid_binary Y = true ->
  SFfinite X = true -> SFfinite Y = true ->
  let S := SF2R X - SF2R Y in
  match SFsub prec emax X Y with
  | S754_nan => False
  | S754_infinity _ => bpow 1024 <= Rabs S * (1 + u_)
  | r => Rabs (SF2R r - S) <= u_ * Rabs S
  end.
Proof.
  intros HvX HvY HfX HfY S. pose proof (bpow_pos (-53)) as Hu. fold u_ in Hu.
  destruct X as [sx|sx| |sx mx ex], Y as [sy|sy| |sy my ey]; try discriminate;
    cbn [SFsub].
  - subst S. cbn [SF2R].
    destruct sx, sy; cbn [SF2R]; rewrite !Rminus_0_r, Rabs_R0; lra.
  - subst S. rewrite !SF2R_finite. cbn [SF2R].
    replace ((if negb sy then -1 else 1) * (IZR (Zpos my) * bpow ey)
             - (0 - (if sy then -1 else 1) * (IZR (Zpos my) * bpow ey))) with 0
      by (destruct sy; cbn [negb]; ring).
    rewrite Rabs_R0. pose proof (Rabs_pos (0 - (if sy then -1 else 1) * (IZR (Zpos my) * bpow ey))).
    nra.
  - subst S. cbn [SF2R]. rewrite Rminus_0_r, Rminus_diag, Rabs_R0.
    pose proof (Rabs_pos (IZR (cond_Zopp sx (Zpos mx)) * bpow ex)). nra.
  - destruct (valid_bounded _ sx mx ex HvX eq_refl) as [Hex _].
    destruct (valid_bounded _ sy my ey HvY eq_refl) as [Hey _].
    pose proof (aligned_sum sx sy mx my ex ey true) as Hk. cbv zeta in Hk.
    pose proof (binary_normalize_model
                  (cond_Zopp sx (Zpos (fst (shl_align mx ex (Z.min ex ey))))
                   - cond_Zopp sy (Zpos (fst (shl_align my ey (Z.min ex ey)))))
                  (Z.min ex ey) ltac:(lia)) as H.
    cbv zeta in H. rewrite Hk in H.
    change (SF2R (S754_finite sx mx ex) + - SF2R (S754_finite sy my ey)) with S in H.
    destruct (binary_normalize _ _ _ _ _) as [s'|s'| |s' m e]; try exact H; apply H.
Qed.

(** *** Multiplication *)

Lemma digits_mul (mx my : positive) :
  (Zpos (digits2_pos mx) + Zpos (digits2_pos my) - 1 <= Zpos (digits2_pos (mx * my)))%Z.
Proof.
  destruct (Zdigits2_bounds (Zpos mx) ltac:(lia)) as [[Hx _] _].
  destruct (Zdigits2_bounds (Zpos my) ltac:(lia)) as [[Hy _] _].
  destruct (Zdigits2_bounds (Zpos (mx * my)) ltac:(lia)) as [[_ Hxy] _].
  cbn [Zdigits2] in *.
  set (dx := Zpos (digits2_pos mx)) in *. set (dy := Zpos (digits2_pos my)) in *.
  set (D := Zpos (digits2_pos (mx * my))) in *.
  destruct (Z.le_gt_cases (dx + dy - 1) D)%Z as [H | H]; [exact H|]. exfalso.
  assert (2 ^ D <= 2 ^ (dx - 1 + (dy - 1)))%Z by (apply Z.pow_le_mono_r; lia).
  rewrite Z.pow_add_r in H0 by lia.
  rewrite Pos2Z.inj_mul in Hxy.
  pose proof (Z.pow_pos_nonneg 2 (dx - 1) ltac:(lia) ltac:(lia)).
  pose proof (Z.pow_pos_nonneg 2 (dy - 1) ltac:(lia) ltac:(lia)). nia.
Qed.

Lemma SFmul_model (X Y : spec_float) :
  valid_binary X = true -> valid_binary Y = true ->
  SFfinite X = true -> SFfinite Y = true ->
  let P := SF2R X * SF2R Y in
  match SFmul prec emax X Y with
  | S754_nan => False
  | S754_infinity _ => bpow 1024 <= Rabs P * (1 + u_)
  | r => Rabs (SF2R r - P) <= u_ * Rabs P + eta
  end.
Proof.
  intros HvX HvY HfX HfY P. pose proof (bpow_pos (-53)) as Hu. fold u_ in Hu.
  pose proof (bpow_pos (-1075)) as Heta. fold eta in Heta.
  destruct X as [sx|sx| |sx mx ex], Y as [sy|sy| |sy my ey]; try discriminate;
    cbn [SFmul];
    try (subst P; cbn [SF2R]; rewrite ?Rmult_0_l, ?Rmult_0_r, Rminus_0_r, Rabs_R0; lra).
  destruct (valid_bounded _ sx mx ex HvX eq_refl) as [Hex _].
  destruct (valid_bounded _ sy my ey HvY eq_refl) as [Hey _].
  pose proof (digits_mul mx my) as HD.
  assert (Hpre : (ex + ey <= fexp prec emax (Zdigits2 (Zpos (mx * my)) + (ex + ey)))%Z).
  { cbn [Zdigits2]. rewrite fexp_eq. lia. }
  pose proof (round_aux_model (xorb sx sy) (Zpos (mx * my)) (ex + ey) loc_Exact
                (IZR (Zpos (mx * my))) ltac:(lia) Hpre (Rep_of_loc_exact _)) as H.
  cbv zeta in H.
  set (x := IZR (Zpos (mx * my)) * bpow (ex + ey)) in *.
  assert (Hx : 0 < x).
  { subst x. pose proof (bpow_pos (ex + ey)).
    assert (0 < IZR (Zpos (mx * my))) by (apply IZR_lt; lia). nra. }
  assert (HP : P = (if xorb sx sy then -1 else 1) * x).
  { subst P x. rewrite !SF2R_finite, Pos2Z.inj_mul, mult_IZR, bpow_add.
    destruct sx, sy; cbn [xorb]; ring. }
  assert (HabsP : Rabs P = x).
  { rewrite HP. destruct (xorb sx sy).
    - rewrite Rabs_left by lra. ring.
    - rewrite Rabs_pos_eq by lra. ring. }
  rewrite HabsP.
  destruct (binary_round_aux _ _ _ _ _ _) as [s'|s'| |s' m e]; try exact H.
  - destruct H as (_ & H1 & _). cbn [SF2R]. rewrite Rminus_0_l, Rabs_Ropp, HabsP. nra.
  - apply H.
  - destruct H as (-> & H1 & _). rewrite SF2R_finite, HP.
    replace ((if xorb sx sy then -1 else 1) * (IZR (Zpos m) * bpow e)
             - (if xorb sx sy then -1 else 1) * x)
      with ((if xorb sx sy then -1 else 1) * (IZR (Zpos m) * bpow e - x)) by ring.
    rewrite Rabs_mult.
    replace (Rabs (if xorb sx sy then -1 else 1)) with 1; [lra|].
    destruct (xorb sx sy); [rewrite Rabs_left by lra; ring | rewrite Rabs_pos_eq by lra; ring].
Qed.


(** *** Division *)

Lemma new_location_Rep (q r my : Z) :
  (0 < my)%Z -> (0 <= r < my)%Z ->
  Rep (shr_record_of_loc q (new_location my r)) (IZR q + IZR r / IZR my).
Proof.
  intros Hmy Hr. assert (Hmy' : 0 < IZR my) by (apply IZR_lt; lia).
  assert (Hr0 : 0 <= IZR r) by (apply IZR_le; lia).
  assert (Hr1 : IZR r < IZR my) by (apply IZR_lt; lia).
  (* the fraction against one half, by cross multiplication *)
  assert (Hlt : 2 * IZR r < IZR my -> IZR r / IZR my < / 2).
  { intros H. apply Rmult_lt_reg_r with (IZR my); [lra|].
    unfold Rdiv. rewrite Rmult_assoc, Rinv_l by lra. lra. }
  assert (Hgt : IZR my < 2 * IZR r -> / 2 < IZR r / IZR my).
  { intros H. apply Rmult_lt_reg_r with (IZR my); [lra|].
    unfold Rdiv. rewrite Rmult_assoc, Rinv_l by lra. lra. }
  assert (Hone : IZR r / IZR my < 1).
  { apply Rmult_lt_reg_r with (IZR my); [lra|].
    unfold Rdiv. rewrite Rmult_assoc, Rinv_l by lra. lra. }
  assert (Hpos : 0 < IZR r -> 0 < IZR r / IZR my).
  { intros H. apply Rdiv_lt_0_compat; lra. }
  unfold new_location.
  destruct (Z.even my) eqn:Eev; unfold new_location_even, new_location_odd;
    (destruct (Z.eqb_spec r 0)%Z as [E0 | Hne];
     [rewrite E0; unfold Rep; cbn [shr_record_of_loc shr_r shr_s shr_m];
      unfold Rdiv; rewrite Rmult_0_l; lra |]).
  - assert (Hrpos : 0 < IZR r) by (apply IZR_lt; lia).
    destruct (Z.compare_spec (2 * r) my) as [E | E | E]; unfold Rep;
      cbn [shr_record_of_loc shr_r shr_s shr_m].
    + rewrite <- E, mult_IZR. field. lra.
    + apply IZR_lt in E. rewrite mult_IZR in E. specialize (Hlt E). specialize (Hpos Hrpos).
      lra.
    + apply IZR_lt in E. rewrite mult_IZR in E. specialize (Hgt E). lra.
  - assert (Hrpos : 0 < IZR r) by (apply IZR_lt; lia).
    assert (Hodd : (2 * r <> my)%Z).
    { intros E. rewrite <- E in Eev. rewrite Z.even_mul in Eev. discriminate. }
    destruct (Z.compare_spec (2 * r + 1) my) as [E | E | E]; unfold Rep;
      cbn [shr_record_of_loc shr_r shr_s shr_m].
    + assert (E' : (2 * r < my)%Z) by lia. apply IZR_lt in E'. rewrite mult_IZR in E'.
      specialize (Hlt E'). specialize (Hpos Hrpos). lra.
    + assert (E' : (2 * r < my)%Z) by lia. apply IZR_lt in E'. rewrite mult_IZR in E'.
      specialize (Hlt E'). specialize (Hpos Hrpos). lra.
    + assert (E' : (my < 2 * r)%Z) by lia. apply IZR_lt in E'. rewrite mult_IZR in E'.
      specialize (Hgt E'). lra.
Qed.

Lemma SFdiv_core_model (mx my : positive) (ex ey : Z) :
  let '(q, e', l) := SFdiv_core_binary prec emax (Zpos mx) ex (Zpos my) ey in
  exists w,
    (0 <= q)%Z /\ (e' <= fexp prec emax (Zdigits2 q + e'))%Z /\
    Rep (shr_record_of_loc q l) w /\
    w * bpow e' = (IZR (Zpos mx) * bpow ex) / (IZR (Zpos my) * bpow ey).
Proof.
  unfold SFdiv_core_binary. cbn [Zdigits2].
  set (d1 := Zpos (digits2_pos mx)). set (d2 := Zpos (digits2_pos my)).
  rewrite fexp_eq.
  set (e' := Z.min (Z.max (d1 + ex - (d2 + ey) - 53) (-1074)) (ex - ey)).
  set (s := (ex - ey - e')%Z).
  assert (Hs : (0 <= s)%Z) by (subst s e'; lia).
  set (m' := match s with Z0 => Zpos mx | Zpos _ => Z.shiftl (Zpos mx) s | Zneg _ => 0%Z end).
  assert (Hm' : m' = (Zpos mx * 2 ^ s)%Z).
  { subst m'. destruct s as [|p|p] eqn:Es; try lia.
    now rewrite Z.shiftl_mul_pow2 by lia. }
  pose proof (Z_div_mod m' (Zpos my) ltac:(lia)) as Hdiv.
  destruct (Z.div_eucl m' (Zpos my)) as [q r]. destruct Hdiv as [Hqr Hr].
  destruct (Zdigits2_bounds (Zpos mx) ltac:(lia)) as [[Hx1 Hx2] _].
  destruct (Zdigits2_bounds (Zpos my) ltac:(lia)) as [[Hy1 Hy2] _].
  cbn [Zdigits2] in Hx1, Hx2, Hy1, Hy2. fold d1 in Hx1, Hx2. fold d2 in Hy1, Hy2.
  assert (Hd1 : (0 < d1)%Z) by (subst d1; lia).
  assert (Hd2 : (0 < d2)%Z) by (subst d2; lia).
  pose proof (Z.pow_pos_nonneg 2 s ltac:(lia) Hs) as H2s.
  assert (Hm'pos : (0 < m')%Z) by (rewrite Hm'; lia).
  assert (Hq0 : (0 <= q)%Z) by nia.
  (* the quotient has 53 bits unless the exponent is the least one *)
  assert (Hq52 : (-1074 < e')%Z -> (2 ^ 52 <= q)%Z).
  { intros He'. assert (Hsd : (53 - d1 + d2 <= s)%Z) by (subst s e'; lia).
    assert (H1 : (2 ^ (d1 - 1) * 2 ^ s <= m')%Z) by (rewrite Hm'; nia).
    assert (H2 : (2 ^ 52 * 2 ^ d2 <= 2 ^ (d1 - 1) * 2 ^ s)%Z).
    { rewrite <- !Z.pow_add_r by lia. apply Z.pow_le_mono_r; lia. }
    pose proof (Z.pow_pos_nonneg 2 52 ltac:(lia) ltac:(lia)).
    pose proof (Z.pow_pos_nonneg 2 d2 ltac:(lia) ltac:(lia)).
    nia. }
  exists (IZR q + IZR r / IZR (Zpos my)). split; [exact Hq0|]. split; [|split].
  - rewrite fexp_eq. destruct (Z.le_gt_cases e' (-1074))%Z as [Hle | Hgt]; [lia|].
    specialize (Hq52 Hgt).
    assert (53 <= Zdigits2 q)%Z; [|lia].
    destruct (Zdigits2_bounds q ltac:(lia)) as [[_ Hq2] _].
    destruct (Z.le_gt_cases 53 (Zdigits2 q))%Z as [H | H]; [exact H|].
    assert (2 ^ Zdigits2 q <= 2 ^ 52)%Z by (apply Z.pow_le_mono_r; lia). lia.
  - apply new_location_Rep; lia.
  - assert (Hmy : 0 < IZR (Zpos my)) by (apply IZR_lt; lia).
    pose proof (bpow_pos ey). pose proof (bpow_pos e').
    assert (Hw : IZR q + IZR r / IZR (Zpos my) = IZR m' / IZR (Zpos my)).
    { rewrite Hqr, plus_IZR, mult_IZR. field. lra. }
    rewrite Hw, Hm', mult_IZR, IZR_pow2 by lia.
    assert (Hbex : bpow ex = bpow s * bpow e' * bpow ey).
    { rewrite <- !bpow_add. f_equal. subst s. lia. }
    rewrite Hbex. field. lra.
Qed.

Lemma SFdiv_model (X Y : spec_float) :
  valid_binary X = true -> valid_binary Y = true ->
  SFfinite X = true -> SFfinite Y = true -> SF2R Y <> 0 ->
  let Q := SF2R X / SF2R Y in
  match SFdiv prec emax X Y with
  | S754_nan => False
  | S754_infinity _ => bpow 1024 <= Rabs Q * (1 + u_)
  | r => Rabs (SF2R r - Q) <= u_ * Rabs Q + eta
  end.
Proof.
  intros HvX HvY HfX HfY HY Q. pose proof (bpow_pos (-53)) as Hu. fold u_ in Hu.
  pose proof (bpow_pos (-1075)) as Heta. fold eta in Heta.
  destruct X as [sx|sx| |sx mx ex], Y as [sy|sy| |sy my ey]; try discriminate;
    cbn [SFdiv]; try (exfalso; apply HY; reflexivity).
  - subst Q. cbn [SF2R]. unfold Rdiv. rewrite Rmult_0_l, Rminus_0_r, Rabs_R0. lra.
  - pose proof (SFdiv_core_model mx my ex ey) as Hc.
    destruct (SFdiv_core_binary prec emax (Zpos mx) ex (Zpos my) ey) as [[q e'] l].
    destruct Hc as (w & Hq & Hpre & HRep & Hval).
    pose proof (round_aux_model (xorb sx sy) q e' l w Hq Hpre HRep) as H.
    cbv zeta in H. rewrite Hval in H.
    set (x := IZR (Zpos mx) * bpow ex / (IZR (Zpos my) * bpow ey)) in *.
    assert (Hx : 0 < x).
    { subst x. pose proof (bpow_pos ex). pose proof (bpow_pos ey).
      assert (0 < IZR (Zpos mx)) by (apply IZR_lt; lia).
      assert (0 < IZR (Zpos my)) by (apply IZR_lt; lia).
      apply Rdiv_lt_0_compat; nra. }
    assert (HQ : Q = (if xorb sx sy then -1 else 1) * x).
    { subst Q x. rewrite !SF2R_finite.
      pose proof (bpow_pos ey). assert (0 < IZR (Zpos my)) by (apply IZR_lt; lia).
      destruct sx, sy; cbn [xorb]; field; nra. }
    assert (HabsQ : Rabs Q = x).
    { rewrite HQ. destruct (xorb sx sy).
      - rewrite Rabs_left by lra. ring.
      - rewrite Rabs_pos_eq by lra. ring. }
    rewrite HabsQ.
    destruct (binary_round_aux _ _ _ _ _ _) as [s'|s'| |s' m e]; try exact H.
    + destruct H as (_ & H1 & _). cbn [SF2R]. rewrite Rminus_0_l, Rabs_Ropp, HabsQ. nra.
    + apply H.
    + destruct H as (-> & H1 & _). rewrite SF2R_finite, HQ.
      replace ((if xorb sx sy then -1 else 1) * (IZR (Zpos m) * bpow e)
               - (if xorb sx sy then -1 else 1) * x)
        with ((if xorb sx sy then -1 else 1) * (IZR (Zpos m) * bpow e - x)) by ring.
      rewrite Rabs_mult.
      replace (Rabs (if xorb sx sy then -1 else 1)) with 1; [lra|].
      destruct (xorb sx sy); [rewrite Rabs_left by lra; ring | rewrite Rabs_pos_eq by lra; ring].
Qed.


(** *** Square root *)

Lemma div2_bounds (a : Z) : (2 * Z.div2 a <= a <= 2 * Z.div2 a + 1)%Z.
Proof. pose proof (Zdiv2_odd_eqn a) as H. destruct (Z.odd a); lia. Qed.

Lemma SFsqrt_core_model (mx : positive) (ex : Z) :
  (-1074 <= ex)%Z ->
  let '(q, e', l) := SFsqrt_core_binary prec emax (Zpos mx) ex in
  exists w,
    (0 <= q)%Z /\ (e' <= fexp prec emax (Zdigits2 q + e'))%Z /\
    Rep (shr_record_of_loc q l) w /\
    w * bpow e' = R_sqrt.sqrt (IZR (Zpos mx) * bpow ex).
Proof.
  intros Hex. unfold SFsqrt_core_binary. cbn [Zdigits2].
  set (d := Zpos (digits2_pos mx)). rewrite fexp_eq.
  set (e' := Z.min (Z.max (Z.div2 (d + ex + 1) - 53) (-1074)) (Z.div2 ex)).
  set (s := (ex - 2 * e')%Z).
  pose proof (div2_bounds ex) as Hdex. pose proof (div2_bounds (d + ex + 1)) as Hdd.
  assert (Hd : (0 < d)%Z) by (subst d; lia).
  assert (Hs : (0 <= s)%Z) by (subst s e'; lia).
  set (m' := match s with Z0 => Zpos mx | Zpos _ => Z.shiftl (Zpos mx) s | Zneg _ => 0%Z end).
  assert (Hm' : m' = (Zpos mx * 2 ^ s)%Z).
  { subst m'. destruct s as [|p|p] eqn:Es; try lia.
    now rewrite Z.shiftl_mul_pow2 by lia. }
  pose proof (Z.pow_pos_nonneg 2 s ltac:(lia) Hs) as H2s.
  assert (Hm'pos : (0 < m')%Z) by (rewrite Hm'; lia).
  pose proof (Z.sqrtrem_spec m' ltac:(lia)) as Hsq.
  destruct (Z.sqrtrem m') as [q r]. destruct Hsq as [Hqr Hr].
  assert (Hq0 : (0 <= q)%Z) by lia.
  destruct (Zdigits2_bounds (Zpos mx) ltac:(lia)) as [[Hx1 _] _].
  cbn [Zdigits2] in Hx1. fold d in Hx1.
  (* the root has 53 bits *)
  assert (He' : (-1074 < e')%Z) by (subst e'; lia).
  assert (Hq52 : (2 ^ 52 <= q)%Z).
  { assert (Hsd : (105 - d <= s)%Z) by (subst s e'; lia).
    assert (H1 : (2 ^ (d - 1) * 2 ^ s <= m')%Z) by (rewrite Hm'; nia).
    assert (H2 : (2 ^ 104 <= 2 ^ (d - 1) * 2 ^ s)%Z).
    { rewrite <- Z.pow_add_r by lia. apply Z.pow_le_mono_r; lia. }
    destruct (Z.le_gt_cases (2 ^ 52) q)%Z as [H | H]; [exact H|]. exfalso.
    assert (q + 1 <= 2 ^ 52)%Z by lia.
    assert ((q + 1) * (q + 1) <= 2 ^ 52 * 2 ^ 52)%Z by (apply Z.mul_le_mono_nonneg; lia).
    change (2 ^ 52 * 2 ^ 52)%Z with (2 ^ 104)%Z in H3. nia. }
  set (W := R_sqrt.sqrt (IZR m')).
  assert (HW0 : 0 <= W) by apply sqrt_pos.
  assert (HWW : W * W = IZR m') by (apply sqrt_sqrt; apply IZR_le; lia).
  assert (HQ0 : 0 <= IZR q) by (apply IZR_le; lia).
  assert (Hmqr : IZR m' = IZR q * IZR q + IZR r).
  { rewrite Hqr, plus_IZR, mult_IZR. reflexivity. }
  assert (HR0 : 0 <= IZR r) by (apply IZR_le; lia).
  assert (HR2 : IZR r <= 2 * IZR q).
  { replace (2 * IZR q) with (IZR (2 * q)) by (rewrite mult_IZR; reflexivity).
    apply IZR_le. lia. }
  exists W. split; [exact Hq0|]. split; [|split].
  - rewrite fexp_eq.
    assert (53 <= Zdigits2 q)%Z; [|lia].
    destruct (Zdigits2_bounds q ltac:(lia)) as [[_ Hq2] _].
    destruct (Z.le_gt_cases 53 (Zdigits2 q))%Z as [H | H]; [exact H|].
    assert (2 ^ Zdigits2 q <= 2 ^ 52)%Z by (apply Z.pow_le_mono_r; lia). lia.
  - destruct (Z.eqb_spec r 0)%Z as [E0 | Hne].
    + unfold Rep. cbn [shr_record_of_loc shr_r shr_s shr_m].
      rewrite E0 in Hmqr. nra.
    + assert (HRpos : 1 <= IZR r) by (apply IZR_le; lia).
      destruct (Z.leb_spec r q)%Z as [Hle | Hgt]; unfold Rep;
        cbn [shr_record_of_loc shr_r shr_s shr_m].
      * assert (IZR r <= IZR q) by (apply IZR_le; lia). split; nra.
      * assert (IZR q + 1 <= IZR r).
        { rewrite <- plus_IZR. apply IZR_le. lia. }
        split; nra.
  - subst W. rewrite Hm', mult_IZR, IZR_pow2 by lia.
    assert (Hbex : bpow ex = bpow s * (bpow e' * bpow e')).
    { rewrite <- !bpow_add. f_equal. subst s. lia. }
    rewrite Hbex.
    replace (IZR (Zpos mx) * (bpow s * (bpow e' * bpow e')))
      with ((IZR (Zpos mx) * bpow s) * (bpow e' * bpow e')) by ring.
    pose proof (bpow_pos s). pose proof (bpow_pos e').
    assert (0 < IZR (Zpos mx)) by (apply IZR_lt; lia).
    rewrite (sqrt_mult (IZR (Zpos mx) * bpow s) (bpow e' * bpow e')) by nra.
    rewrite (sqrt_square (bpow e')) by lra. reflexivity.
Qed.

Lemma SFsqrt_model (X : spec_float) :
  valid_binary X = true -> SFfinite X = true -> 0 <= SF2R X ->
  match SFsqrt prec emax X with
  | S754_nan | S754_infinity _ => False
  | r => Rabs (SF2R r - R_sqrt.sqrt (SF2R X)) <= u_ * R_sqrt.sqrt (SF2R X) + eta
  end.
Proof.
  intros HvX HfX H0. pose proof (bpow_pos (-53)) as Hu. fold u_ in Hu.
  pose proof (bpow_pos (-1075)) as Heta. fold eta in Heta.
  destruct X as [sx|sx| |sx mx ex]; try discriminate; cbn [SFsqrt].
  - cbn [SF2R]. rewrite sqrt_0, Rminus_0_r, Rabs_R0. lra.
  - destruct (valid_bounded _ sx mx ex HvX eq_refl) as [Hex Hex'].
    assert (Hpos : 0 < IZR (Zpos mx) * bpow ex).
    { pose proof (bpow_pos ex). assert (0 < IZR (Zpos mx)) by (apply IZR_lt; lia). nra. }
    destruct sx.
    { exfalso. rewrite SF2R_finite in H0. lra. }
    pose proof (SFsqrt_core_model mx ex ltac:(lia)) as Hc.
    destruct (SFsqrt_core_binary prec emax (Zpos mx) ex) as [[q e'] l].
    destruct Hc as (w & Hq & Hpre & HRep & Hval).
    pose proof (round_aux_model false q e' l w Hq Hpre HRep) as H.
    cbv zeta in H. rewrite Hval in H.
    replace (SF2R (S754_finite false mx ex)) with (IZR (Zpos mx) * bpow ex)
      by (rewrite SF2R_finite; ring).
    set (x := R_sqrt.sqrt (IZR (Zpos mx) * bpow ex)) in *.
    assert (Hx : 0 < x) by (apply sqrt_lt_R0; exact Hpos).
    assert (Hx1024 : x * (1 + u_) < bpow 1024).
    { (* the root of a finite number is far from overflow *)
      assert (Hlt : IZR (Zpos mx) * bpow ex < bpow 1024).
      { destruct (Zdigits2_bounds (Zpos mx) ltac:(lia)) as [[_ Hm2] _].
        cbn [Zdigits2] in Hm2.
        assert (Hm53 : IZR (Zpos mx) < bpow 53).
        { rewrite <- IZR_pow2 by lia. apply IZR_lt.
          assert (2 ^ Zpos (digits2_pos mx) <= 2 ^ 53)%Z by (apply Z.pow_le_mono_r; lia).
          lia. }
        assert (bpow ex <= bpow 971) by (apply bpow_le; lia).
        assert (H1024 : bpow 1024 = bpow 53 * bpow 971) by (now rewrite <- bpow_add).
        rewrite H1024. pose proof (bpow_pos ex). pose proof (bpow_pos 53).
        assert (0 < IZR (Zpos mx)) by (apply IZR_lt; lia). nra. }
      assert (Hx512 : x < bpow 512).
      { replace (bpow 512) with (R_sqrt.sqrt (bpow 1024)).
        - apply sqrt_lt_1; [lra | left; apply bpow_pos | exact Hlt].
        - change 1024%Z with (512 + 512)%Z. rewrite bpow_add.
          apply sqrt_square. left. apply bpow_pos. }
      assert (u_ < 1).
      { unfold u_. change 1 with (bpow 0). apply bpow_lt. lia. }
      assert (2 * bpow 512 <= bpow 1024).
      { change 2 with (bpow 1) at 1 || rewrite <- bpow_1. rewrite <- bpow_add.
        apply bpow_le. lia. }
      pose proof (bpow_pos 512). nra. }
    destruct (binary_round_aux _ _ _ _ _ _) as [s'|s'| |s' m e]; try exact H.
    + destruct H as (_ & H1 & _). cbn [SF2R]. rewrite Rminus_0_l, Rabs_Ropp.
      rewrite Rabs_pos_eq by lra. nra.
    + destruct H as (_ & H1). lra.
    + destruct H as (-> & H1 & _). rewrite SF2R_finite.
      replace (1 * (IZR (Zpos m) * bpow e)) with (IZR (Zpos m) * bpow e) by ring. exact H1.
Qed.

End FloatReals.

(** ** The operations on floats, in real numbers *)

Module FloatModel.

Import FloatReals.

Local Open Scope R_scope.

Lemma u_pos : 0 < u_.
Proof. apply bpow_pos. Qed.

Lemma eta_pos : 0 < eta.
Proof. apply bpow_pos. Qed.

Lemma u_lt_1 : u_ < 1.
Proof. unfold u_. change 1 with (bpow 0). apply bpow_lt. lia. Qed.

Lemma isfinite_SF (x : float) : isfinite x = SFfinite (Prim2SF x).
Proof. reflexivity. Qed.

Lemma SFfinite_not_inf (X : spec_float) :
  match X with S754_nan | S754_infinity _ => False | _ => True end -> SFfinite X = true.
Proof. destruct X; simpl; tauto. Qed.

(** The standard model of the five operations: the result of an
    operation on finite floats is the exact result, up to a relative
    error of [u_] (and an absolute one of [eta] where the result can be
    subnormal), unless it overflows. *)
Lemma add_model (x y : float) :
  isfinite x = true -> isfinite y = true ->
  Rabs (F2R x + F2R y) * (1 + u_) < bpow 1024 ->
  isfinite (PrimFloat.add x y) = true /\
  Rabs (F2R (PrimFloat.add x y) - (F2R x + F2R y)) <= u_ * Rabs (F2R x + F2R y).
Proof.
  intros Hx Hy Hov. rewrite isfinite_SF in *. unfold F2R in *. rewrite add_spec.
  pose proof (SFadd_model _ _ (Prim2SF_valid x) (Prim2SF_valid y) Hx Hy) as H.
  cbv zeta in H. unfold SF64add.
  destruct (SFadd prec emax (Prim2SF x) (Prim2SF y)); try contradiction; try lra; auto.
Qed.

Lemma sub_model (x y : float) :
  isfinite x = true -> isfinite y = true ->
  Rabs (F2R x - F2R y) * (1 + u_) < bpow 1024 ->
  isfinite (PrimFloat.sub x y) = true /\
  Rabs (F2R (PrimFloat.sub x y) - (F2R x - F2R y)) <= u_ * Rabs (F2R x - F2R y).
Proof.
  intros Hx Hy Hov. rewrite isfinite_SF in *. unfold F2R in *. rewrite sub_spec.
  pose proof (SFsub_model _ _ (Prim2SF_valid x) (Prim2SF_valid y) Hx Hy) as H.
  cbv zeta in H. unfold SF64sub.
  destruct (SFsub prec emax (Prim2SF x) (Prim2SF y)); try contradiction; try lra; auto.
Qed.

Lemma mul_model (x y : float) :
  isfinite x = true -> isfinite y = true ->
  Rabs (F2R x * F2R y) * (1 + u_) < bpow 1024 ->
  isfinite (PrimFloat.mul x y) = true /\
  Rabs (F2R (PrimFloat.mul x y) - F2R x * F2R y) <= u_ * Rabs (F2R x * F2R y) + eta.
Proof.
  intros Hx Hy Hov. rewrite isfinite_SF in *. unfold F2R in *. rewrite mul_spec.
  pose proof (SFmul_model _ _ (Prim2SF_valid x) (Prim2SF_valid y) Hx Hy) as H.
  cbv zeta in H. unfold SF64mul.
  destruct (SFmul prec emax (Prim2SF x) (Prim2SF y)); try contradiction; try lra; auto.
Qed.

Lemma div_model (x y : float) :
  isfinite x = true -> isfinite y = true -> F2R y <> 0 ->
  Rabs (F2R x / F2R y) * (1 + u_) < bpow 1024 ->
  isfinite (PrimFloat.div x y) = true /\
  Rabs (F2R (PrimFloat.div x y) - F2R x / F2R y) <= u_ * Rabs (F2R x / F2R y) + eta.
Proof.
  intros Hx Hy Hy0 Hov. rewrite isfinite_SF in *. unfold F2R in *. rewrite div_spec.
  pose proof (SFdiv_model _ _ (Prim2SF_valid x) (Prim2SF_valid y) Hx Hy Hy0) as H.
  cbv zeta in H. unfold SF64div.
  destruct (SFdiv prec emax (Prim2SF x) (Prim2SF y)); try contradiction; try lra; auto.
Qed.

Lemma sqrt_model (x : float) :
  isfinite x = true -> 0 <= F2R x ->
  isfinite (PrimFloat.sqrt x) = true /\
  Rabs (F2R (PrimFloat.sqrt x) - R_sqrt.sqrt (F2R x)) <= u_ * R_sqrt.sqrt (F2R x) + eta.
Proof.
  intros Hx H0. rewrite isfinite_SF in *. unfold F2R in *. rewrite sqrt_spec.
  pose proof (SFsqrt_model _ (Prim2SF_valid x) Hx H0) as H. unfold SF64sqrt.
  destruct (SFsqrt prec emax (Prim2SF x)); try contradiction; auto.
Qed.

Lemma abs_model (x : float) :
  isfinite (PrimFloat.abs x) = isfinite x /\ F2R (PrimFloat.abs x) = Rabs (F2R x).
Proof.
  rewrite !isfinite_SF. unfold F2R. rewrite abs_spec. split; [|apply SF2R_abs].
  now destruct (Prim2SF x).
Qed.

(** A count below 2^53 is converted exactly. *)
Lemma float_of_count_model (n : nat) :
  (Z.of_nat n < 2 ^ 53)%Z ->
  isfinite (pd.float_of_count n) = true /\ F2R (pd.float_of_count n) = INR n.
Proof.
  intros Hn. rewrite isfinite_SF. unfold F2R, pd.float_of_count.
  rewrite of_uint63_spec, Uint63.of_Z_spec, Z.mod_small
    by (change Uint63.wB with (2 ^ 63)%Z; lia).
  pose proof (binary_normalize_model (Z.of_nat n) 0 ltac:(lia)) as H. cbv zeta in H.
  rewrite bpow_0, Rmult_1_r in H.
  assert (Hx : Rabs (IZR (Z.of_nat n)) * (1 + u_) < bpow 1024).
  { rewrite Rabs_pos_eq by (apply IZR_le; lia).
    assert (IZR (Z.of_nat n) < bpow 53).
    { rewrite <- IZR_pow2 by lia. now apply IZR_lt. }
    assert (2 * bpow 53 <= bpow 1024).
    { rewrite <- bpow_1 at 1. rewrite <- bpow_add. apply bpow_le. lia. }
    pose proof u_pos. pose proof u_lt_1. pose proof (bpow_pos 53).
    assert (0 <= IZR (Z.of_nat n)) by (apply IZR_le; lia). nra. }
  rewrite INR_IZR_INZ.
  destruct (binary_normalize prec emax (Z.of_nat n) 0 false); try contradiction; try lra;
    (split; [reflexivity|]); apply H; lia.
Qed.

End FloatModel.

(** ** The error of numpy's pairwise sum *)

Module Summation.

Import FloatReals FloatModel.

Lemma np_sum_instance (a : list float) : pd.np_sum a = np_sum_with PrimFloat.add 0%float a.
Proof. reflexivity. Qed.

(** *** Two pairwise sums over related terms are related *)

Section PairwiseRel.

Context {X Y : Type}.
Variables (addx : X -> X -> X) (zerox : X) (addy : Y -> Y -> Y) (zeroy : Y).
Variable Rel : X -> Y -> Prop.
Hypothesis Rel_zero : Rel zerox zeroy.
Hypothesis Rel_add :
  forall x x' y y', Rel x y -> Rel x' y' -> Rel (addx x x') (addy y y').

Lemma fold_add_rel (a : list X) (b : list Y) :
  Forall2 Rel a b ->
  forall x y, Rel x y -> Rel (fold_left addx a x) (fold_left addy b y).
Proof.
  induction 1 as [|x0 y0 a b H0 H IH]; intros x y Hxy; simpl; auto.
Qed.

Lemma accumulate8_rel (n : nat) :
  forall (a : list X) (b : list Y) r0 r1 r2 r3 r4 r5 r6 r7 q0 q1 q2 q3 q4 q5 q6 q7,
    (length a <= n)%nat -> Forall2 Rel a b ->
    Rel r0 q0 -> Rel r1 q1 -> Rel r2 q2 -> Rel r3 q3 ->
    Rel r4 q4 -> Rel r5 q5 -> Rel r6 q6 -> Rel r7 q7 ->
    match accumulate8_with addx (r0, r1, r2, r3, r4, r5, r6, r7) a,
          accumulate8_with addy (q0, q1, q2, q3, q4, q5, q6, q7) b with
    | ((r0', r1', r2', r3', r4', r5', r6', r7'), a'),
      ((q0', q1', q2', q3', q4', q5', q6', q7'), b') =>
        Rel r0' q0' /\ Rel r1' q1' /\ Rel r2' q2' /\ Rel r3' q3' /\
        Rel r4' q4' /\ Rel r5' q5' /\ Rel r6' q6' /\ Rel r7' q7' /\
        Forall2 Rel a' b'
    end.
Proof.
  induction n as [|n IH]; intros a b r0 r1 r2 r3 r4 r5 r6 r7 q0 q1 q2 q3 q4 q5 q6 q7
    Hlen Hab H0 H1 H2 H3 H4 H5 H6 H7.
  - destruct a; [|simpl in Hlen; lia]. inversion Hab; subst. simpl. repeat split; auto.
  - do 8 (destruct Hab as [|? ? ? ? ? Hab]; [simpl; repeat split; auto; repeat (constructor; auto)|]).
    cbn [accumulate8_with].
    apply IH; auto. simpl in Hlen; lia.
Qed.

Lemma block_sum_rel (a : list X) (b : list Y) :
  Forall2 Rel a b -> Rel (block_sum_with addx zerox a) (block_sum_with addy zeroy b).
Proof.
  intros Hab. unfold block_sum_with.
  do 8 (destruct Hab as [|? ? ? ? ? Hab]; [apply fold_add_rel; auto; repeat (constructor; auto)|]).
  match goal with
  | |- context [accumulate8_with addx (?r0, ?r1, ?r2, ?r3, ?r4, ?r5, ?r6, ?r7) ?a] =>
      match goal with
      | |- context [accumulate8_with addy (?q0, ?q1, ?q2, ?q3, ?q4, ?q5, ?q6, ?q7) ?b] =>
          pose proof (accumulate8_rel (length a) a b r0 r1 r2 r3 r4 r5 r6 r7
                        q0 q1 q2 q3 q4 q5 q6 q7) as Hacc
      end
  end.
  repeat match type of Hacc with
         | _ -> _ => let H := fresh in
                     assert (H : _) by (first [apply Nat.le_refl | assumption]);
                     specialize (Hacc H); clear H
         | ?A -> _ => let H := fresh in assert (H : A) by assumption; specialize (Hacc H)
         end.
  destruct (accumulate8_with addx _ _) as [[[[[[[[r0 r1] r2] r3] r4] r5] r6] r7] rest].
  destruct (accumulate8_with addy _ _) as [[[[[[[[q0 q1] q2] q3] q4] q5] q6] q7] rest'].
  destruct Hacc as (? & ? & ? & ? & ? & ? & ? & ? & ?).
  apply fold_add_rel; auto.
Qed.

Lemma pairwise_sum_rel (depth : nat) :
  forall (a : list X) (b : list Y),
    Forall2 Rel a b ->
    Rel (pairwise_sum_with addx zerox depth a) (pairwise_sum_with addy zeroy depth b).
Proof.
  induction depth as [|depth IH]; intros a b Hab; cbn [pairwise_sum_with];
    rewrite <- (Forall2_length _ _ _ Hab);
    destruct (length a <? 8)%nat;
    try (apply fold_add_rel; auto; fail);
    destruct (length a <=? pd.PW_BLOCKSIZE)%nat;
    try (apply block_sum_rel; assumption).
  apply Rel_add; apply IH; [apply Forall2_take | apply Forall2_drop]; assumption.
Qed.

Lemma np_sum_rel (a : list X) (b : list Y) :
  Forall2 Rel a b -> Rel (np_sum_with addx zerox a) (np_sum_with addy zeroy b).
Proof.
  intros Hab. unfold np_sum_with. rewrite <- (Forall2_length _ _ _ Hab).
  apply Rel_add; [exact Rel_zero | now apply pairwise_sum_rel].
Qed.

End PairwiseRel.

(** *** In a commutative monoid the pairwise sum is the sum *)

Section PairwiseMonoid.

Context {Y : Type}.
Variables (add : Y -> Y -> Y) (zero : Y).
Hypothesis add_assoc : forall x y z, add x (add y z) = add (add x y) z.
Hypothesis add_comm : forall x y, add x y = add y x.
Hypothesis add_zero_l : forall x, add zero x = x.

Lemma add_interchange (a b c d : Y) :
  add (add a b) (add c d) = add (add a c) (add b d).
Proof.
  rewrite <- (add_assoc a b), (add_assoc b c), (add_comm b c), <- (add_assoc c b),
    (add_assoc a c). reflexivity.
Qed.

Lemma fold_left_sum (b : list Y) :
  forall acc, fold_left add b acc = add acc (fold_right add zero b).
Proof.
  induction b as [|x b IH]; intros acc; simpl.
  - now rewrite add_comm, add_zero_l.
  - now rewrite IH, add_assoc.
Qed.

Lemma accumulate8_sum (n : nat) :
  forall (a : list Y) r, (length a <= n)%nat ->
    add (sum8_with add (fst (accumulate8_with add r a)))
        (fold_right add zero (snd (accumulate8_with add r a)))
    = add (sum8_with add r) (fold_right add zero a).
Proof.
  induction n as [|n IH]; intros a r Hlen.
  - destruct a; [reflexivity | simpl in Hlen; lia].
  - destruct a as [|x0 [|x1 [|x2 [|x3 [|x4 [|x5 [|x6 [|x7 a']]]]]]]]; try reflexivity.
    destruct r as [[[[[[[r0 r1] r2] r3] r4] r5] r6] r7].
    cbn [accumulate8_with]. rewrite IH by (simpl in Hlen; lia).
    cbn [sum8_with fold_right].
    rewrite (add_interchange r6 x6), (add_interchange r5 x5), (add_interchange r4 x4),
      (add_interchange r3 x3), (add_interchange r2 x2), (add_interchange r1 x1),
      (add_interchange r0 x0).
    rewrite <- !add_assoc. reflexivity.
Qed.

Lemma block_sum_sum (a : list Y) : block_sum_with add zero a = fold_right add zero a.
Proof.
  unfold block_sum_with.
  destruct a as [|x0 [|x1 [|x2 [|x3 [|x4 [|x5 [|x6 [|x7 a']]]]]]]];
    try (rewrite fold_left_sum; apply add_zero_l).
  pose proof (accumulate8_sum (length a') a' (x0, x1, x2, x3, x4, x5, x6, x7)
                ltac:(lia)) as H.
  destruct (accumulate8_with add _ a') as [[[[[[[[r0 r1] r2] r3] r4] r5] r6] r7] rest].
  cbn [fst snd sum8_with] in H. rewrite fold_left_sum.
  cbn [fold_right]. rewrite !add_assoc in H. rewrite !add_assoc. exact H.
Qed.

Lemma pairwise_sum_sum (depth : nat) :
  forall a : list Y, pairwise_sum_with add zero depth a = fold_right add zero a.
Proof.
  induction depth as [|depth IH]; intros a; cbn [pairwise_sum_with];
    destruct (length a <? 8)%nat;
    try (rewrite fold_left_sum; apply add_zero_l);
    destruct (length a <=? pd.PW_BLOCKSIZE)%nat;
    try apply block_sum_sum.
  rewrite !IH. set (n2 := (_ - _)%nat).
  rewrite <- (take_drop n2 a) at 3. rewrite fold_right_app.
  generalize (fold_right add zero (drop n2 a)). intros w.
  induction (take n2 a) as [|x l IHl]; simpl; [apply add_zero_l|].
  now rewrite <- IHl, add_assoc.
Qed.

Lemma np_sum_sum (a : list Y) : np_sum_with add zero a = fold_right add zero a.
Proof. unfold np_sum_with. now rewrite pairwise_sum_sum, add_zero_l. Qed.

End PairwiseMonoid.

(** *** The error of a floating-point sum *)

Local Open Scope R_scope.

Lemma SF2R_finite_nonzero (s : bool) (m : positive) (e : Z) :
  SF2R (S754_finite s m e) <> 0.
Proof.
  cbn [SF2R]. pose proof (bpow_pos e) as He.
  assert (Hm : 1 <= IZR (Zpos m)) by (apply IZR_le; lia).
  destruct s; cbn [cond_Zopp].
  - change (Z.opp (Zpos m)) with (Zneg m).
    replace (IZR (Zneg m)) with (- IZR (Zpos m)) by (now rewrite <- opp_IZR). nra.
  - nra.
Qed.

Lemma finite_zero_class (x : float) :
  isfinite x = true -> F2R x = 0 -> exists s, Prim2SF x = S754_zero s.
Proof.
  unfold isfinite, F2R. destruct (Prim2SF x) as [s|s| |s m e]; intros H H0; try discriminate.
  - now exists s.
  - now apply SF2R_finite_nonzero in H0.
Qed.

Lemma add_zero_exact_l (x y : float) :
  isfinite x = true -> F2R x = 0 -> isfinite y = true ->
  isfinite (PrimFloat.add x y) = true /\ F2R (PrimFloat.add x y) = F2R y.
Proof.
  intros Hx H0 Hy. destruct (finite_zero_class x Hx H0) as [s Es].
  unfold isfinite, F2R in *. rewrite add_spec, Es. unfold SF64add.
  destruct (Prim2SF y) as [s'|s'| |s' m' e']; try discriminate; cbn [SFadd].
  - destruct s, s'; auto.
  - auto.
Qed.

Lemma add_zero_exact_r (x y : float) :
  isfinite x = true -> isfinite y = true -> F2R y = 0 ->
  isfinite (PrimFloat.add x y) = true /\ F2R (PrimFloat.add x y) = F2R x.
Proof.
  intros Hx Hy H0. destruct (finite_zero_class y Hy H0) as [s Es].
  unfold isfinite, F2R in *. rewrite add_spec, Es. unfold SF64add.
  destruct (Prim2SF x) as [s'|s'| |s' m' e']; try discriminate; cbn [SFadd].
  - destruct s, s'; auto.
  - auto.
Qed.

Lemma pow_1u_ge_1 (k : nat) : 1 <= (1 + u_) ^ k.
Proof. apply pow_R1_Rle. pose proof u_pos. lra. Qed.

Lemma pow_1u_mono (j k : nat) : (j <= k)%nat -> (1 + u_) ^ j <= (1 + u_) ^ k.
Proof. intros H. apply Rle_pow; [pose proof u_pos; lra | exact H]. Qed.

Lemma tracked_zero : tracked 0%float (0, 0, 0%nat).
Proof.
  cbn. repeat split; try reflexivity.
  - rewrite Rabs_R0. lra.
  - unfold F2R. change (Prim2SF 0) with (S754_zero false). cbn [SF2R].
    rewrite Rminus_diag, Rabs_R0. lra.
Qed.

Lemma tracked_leaf_ok (x : float) : isfinite x = true -> tracked x (tracked_leaf x).
Proof.
  intros Hx. cbn. repeat split; try lra; try discriminate; try assumption.
  rewrite Rminus_diag, Rabs_R0. lra.
Qed.

Lemma tracked_add_ok (x y : float) (t1 t2 : R * R * nat) :
  tracked x t1 -> tracked y t2 -> tracked (PrimFloat.add x y) (tracked_add t1 t2).
Proof.
  destruct t1 as [[S1 A1] k1], t2 as [[S2 A2] k2].
  intros (HS1 & Hz1 & H1) (HS2 & Hz2 & H2). cbn [tracked tracked_add].
  pose proof (Rabs_pos S1) as HS1p. pose proof (Rabs_pos S2) as HS2p.
  pose proof u_pos as Hu.
  split; [|split].
  - eapply Rle_trans; [apply Rabs_triang | lra].
  - intros Hk. rewrite Hz1, Hz2 by lia. lra.
  - intros Hov.
    pose proof (pow_1u_ge_1 k1) as Hp1. pose proof (pow_1u_ge_1 k2) as Hp2.
    pose proof (pow_1u_mono k1 (k1 + k2) ltac:(lia)) as Hm1.
    pose proof (pow_1u_mono k2 (k1 + k2) ltac:(lia)) as Hm2.
    assert (H1' : (1 + u_) ^ k1 * A1 < bpow 1024).
    { eapply Rle_lt_trans; [|exact Hov].
      apply Rle_trans with ((1 + u_) ^ (k1 + k2) * A1).
      - apply Rmult_le_compat_r; lra.
      - apply Rmult_le_compat_l; lra. }
    assert (H2' : (1 + u_) ^ k2 * A2 < bpow 1024).
    { eapply Rle_lt_trans; [|exact Hov].
      apply Rle_trans with ((1 + u_) ^ (k1 + k2) * A2).
      - apply Rmult_le_compat_r; lra.
      - apply Rmult_le_compat_l; lra. }
    destruct (H1 H1') as [Fx Ex]. destruct (H2 H2') as [Fy Ey]. clear H1 H2.
    destruct k1 as [|k1].
    { rewrite (Hz1 eq_refl) in *. assert (S1 = 0) by (apply Rabs_bound in HS1; lra). subst S1.
      assert (F2R x = 0).
      { rewrite Rmult_0_r in Ex. apply Rabs_bound in Ex. lra. }
      destruct (add_zero_exact_l x y Fx H Fy) as [F E]. split; [exact F|].
      rewrite E, !Rplus_0_l. exact Ey. }
    destruct k2 as [|k2].
    { rewrite (Hz2 eq_refl) in *. assert (S2 = 0) by (apply Rabs_bound in HS2; lra). subst S2.
      assert (F2R y = 0).
      { rewrite Rmult_0_r in Ey. apply Rabs_bound in Ey. lra. }
      destruct (add_zero_exact_r x y Fx Fy H) as [F E]. split; [exact F|].
      rewrite E, !Rplus_0_r. replace (S k1 + 0 - 1)%nat with (S k1 - 1)%nat by lia.
      exact Ex. }
    replace (S k1 - 1)%nat with k1 in Ex by lia.
    replace (S k2 - 1)%nat with k2 in Ey by lia.
    replace (S k1 + S k2 - 1)%nat with (S (k1 + k2)) by lia.
    replace (S k1 + S k2)%nat with (S (S (k1 + k2))) in Hov by lia.
    cbn [pow] in Hov |- *.
    set (P := (1 + u_) ^ (k1 + k2)) in *.
    pose proof (pow_1u_mono k1 (k1 + k2) ltac:(lia)) as Hq1.
    pose proof (pow_1u_mono k2 (k1 + k2) ltac:(lia)) as Hq2.
    pose proof (pow_1u_ge_1 k1) as Hg1. pose proof (pow_1u_ge_1 k2) as Hg2.
    fold P in Hq1, Hq2.
    set (P1 := (1 + u_) ^ k1) in *. set (P2 := (1 + u_) ^ k2) in *.
    apply Rabs_bound in Ex, Ey, HS1, HS2.
    assert (Ex' : Rabs (F2R x - S1) <= (P - 1) * A1).
    { apply Rabs_le. split; nra. }
    assert (Ey' : Rabs (F2R y - S2) <= (P - 1) * A2).
    { apply Rabs_le. split; nra. }
    assert (Hxy : Rabs (F2R x + F2R y) <= P * (A1 + A2)).
    { apply Rabs_bound in Ex', Ey'. apply Rabs_le. split; nra. }
    destruct (add_model x y Fx Fy) as [F E].
    { apply Rle_lt_trans with (P * (A1 + A2) * (1 + u_)).
      - apply Rmult_le_compat_r; lra.
      - assert (0 <= P * (A1 + A2)) by nra. nra. }
    split; [exact F|].
    replace (F2R (PrimFloat.add x y) - (S1 + S2))
      with ((F2R (PrimFloat.add x y) - (F2R x + F2R y)) + (F2R x - S1) + (F2R y - S2)) by ring.
    eapply Rle_trans; [apply Rabs_triang|].
    eapply Rle_trans; [apply Rplus_le_compat_r, Rabs_triang|].
    assert (u_ * Rabs (F2R x + F2R y) <= u_ * (P * (A1 + A2))) by (apply Rmult_le_compat_l; lra).
    nra.
Qed.

Lemma tracked_add_assoc (x y z : R * R * nat) :
  tracked_add x (tracked_add y z) = tracked_add (tracked_add x y) z.
Proof.
  destruct x as [[? ?] ?], y as [[? ?] ?], z as [[? ?] ?]. cbn.
  f_equal; [f_equal; ring | lia].
Qed.

Lemma tracked_add_comm (x y : R * R * nat) : tracked_add x y = tracked_add y x.
Proof.
  destruct x as [[? ?] ?], y as [[? ?] ?]. cbn. f_equal; [f_equal; ring | lia].
Qed.

Lemma tracked_add_zero_l (x : R * R * nat) : tracked_add (0, 0, 0%nat) x = x.
Proof. destruct x as [[? ?] ?]. cbn. f_equal; f_equal; ring. Qed.

Lemma tracked_sum (a : list float) :
  fold_right tracked_add (0, 0, 0%nat) (map tracked_leaf a)
  = (Rsum (map F2R a), Rsum (map (fun x => Rabs (F2R x)) a), length a).
Proof.
  induction a as [|x a IH]; [reflexivity|].
  cbn [map fold_right]. rewrite IH. reflexivity.
Qed.

(** The computed sum of [n] finite floats differs from their exact sum
    by at most [(1 + u)^(n - 1) - 1] times the sum of their
    magnitudes, and is finite, when that sum is far enough from the
    largest float. *)
Lemma np_sum_model (a : list float) :
  Forall (fun x => isfinite x = true) a ->
  (1 + u_) ^ length a * Rsum (map (fun x => Rabs (F2R x)) a) < bpow 1024 ->
  isfinite (pd.np_sum a) = true /\
  Rabs (F2R (pd.np_sum a) - Rsum (map F2R a))
  <= ((1 + u_) ^ (length a - 1) - 1) * Rsum (map (fun x => Rabs (F2R x)) a).
Proof.
  intros Ha Hov.
  assert (H : tracked (pd.np_sum a)
                (np_sum_with tracked_add (0, 0, 0%nat) (map tracked_leaf a))).
  { rewrite np_sum_instance.
    apply (np_sum_rel PrimFloat.add 0%float tracked_add (0, 0, 0%nat) tracked).
    - exact tracked_zero.
    - apply tracked_add_ok.
    - clear Hov. induction Ha as [|x a Hx Ha IH]; simpl; constructor;
        auto using tracked_leaf_ok. }
  rewrite (np_sum_sum _ _ tracked_add_assoc tracked_add_comm tracked_add_zero_l) in H.
  rewrite tracked_sum in H. cbn [tracked] in H. destruct H as (_ & _ & H). auto.
Qed.

End Summation.

(** ** Comparisons of floats and of the numbers they denote *)

Module FloatOrder.

Import FloatReals FloatModel Summation.

Local Open Scope R_scope.

Lemma finite_mantissa_bounds (s : bool) (m : positive) (e : Z) :
  valid_binary (S754_finite s m e) = true ->
  (-1074 <= e)%Z /\ IZR (Zpos m) < bpow 53 /\
  ((-1074 < e)%Z -> bpow 52 <= IZR (Zpos m)).
Proof.
  intros Hv. destruct (valid_bounded _ s m e Hv eq_refl) as [He _].
  destruct (Zdigits2_bounds (Zpos m) ltac:(lia)) as [[Hlo Hhi] Hd].
  change (Zdigits2 (Zpos m)) with (Zpos (digits2_pos m)) in *.
  set (d := Zpos (digits2_pos m)) in *.
  split; [lia|]. split.
  - rewrite bpow_IZR by lia. apply IZR_lt.
    eapply Z.lt_le_trans; [exact Hhi|]. apply Z.pow_le_mono_r; lia.
  - intros Hgt. assert (d = 53%Z) by lia.
    rewrite bpow_IZR by lia. apply IZR_le.
    replace 52%Z with (d - 1)%Z by lia. exact Hlo.
Qed.

Lemma finite_lt_exponent (s1 s2 : bool) (m1 m2 : positive) (e1 e2 : Z) :
  valid_binary (S754_finite s1 m1 e1) = true ->
  valid_binary (S754_finite s2 m2 e2) = true ->
  (e1 < e2)%Z -> IZR (Zpos m1) * bpow e1 < IZR (Zpos m2) * bpow e2.
Proof.
  intros H1 H2 He.
  destruct (finite_mantissa_bounds _ _ _ H1) as (Hl1 & Hu1 & _).
  destruct (finite_mantissa_bounds _ _ _ H2) as (_ & _ & Hb2).
  specialize (Hb2 ltac:(lia)).
  pose proof (bpow_pos e1) as Hp1. pose proof (bpow_pos e2) as Hp2.
  apply Rlt_le_trans with (bpow 53 * bpow e1).
  - apply Rmult_lt_compat_r; assumption.
  - apply Rle_trans with (bpow 52 * bpow e2).
    + rewrite <- !bpow_add. apply bpow_le. lia.
    + apply Rmult_le_compat_r; lra.
Qed.

Lemma finite_le_same_sign (s1 s2 : bool) (m1 m2 : positive) (e1 e2 : Z) :
  valid_binary (S754_finite s1 m1 e1) = true ->
  valid_binary (S754_finite s2 m2 e2) = true ->
  match (e1 ?= e2)%Z with
  | Lt => true
  | Gt => false
  | Eq => match Pos.compare_cont Eq m1 m2 with Gt => false | _ => true end
  end = true ->
  IZR (Zpos m1) * bpow e1 <= IZR (Zpos m2) * bpow e2.
Proof.
  intros H1 H2 H. destruct (Z.compare_spec e1 e2) as [E | E | E]; try discriminate.
  - subst e2. apply Rmult_le_compat_r; [pose proof (bpow_pos e1); lra|].
    apply IZR_le. change (Pos.compare_cont Eq m1 m2) with (Pos.compare m1 m2) in H.
    destruct (Pos.compare_spec m1 m2); try discriminate; lia.
  - left. now apply (finite_lt_exponent s1 s2).
Qed.

Lemma SFleb_real (X Y : spec_float) :
  valid_binary X = true -> valid_binary Y = true ->
  SFfinite X = true -> SFfinite Y = true ->
  SFleb X Y = true -> SF2R X <= SF2R Y.
Proof.
  intros HX HY FX FY. unfold SFleb, SFcompare.
  destruct X as [sx|sx| |sx mx ex], Y as [sy|sy| |sy my ey]; try discriminate;
    rewrite ?SF2R_finite; cbn [SF2R].
  - lra.
  - pose proof (bpow_pos ey). assert (1 <= IZR (Zpos my)) by (apply IZR_le; lia).
    destruct sy; [discriminate|]. nra.
  - pose proof (bpow_pos ex). assert (1 <= IZR (Zpos mx)) by (apply IZR_le; lia).
    destruct sx; [|discriminate]. nra.
  - pose proof (bpow_pos ex). pose proof (bpow_pos ey).
    assert (1 <= IZR (Zpos mx)) by (apply IZR_le; lia).
    assert (1 <= IZR (Zpos my)) by (apply IZR_le; lia).
    destruct sx, sy; try discriminate; intros Hc.
    + assert (IZR (Zpos my) * bpow ey <= IZR (Zpos mx) * bpow ex); [|lra].
      apply (finite_le_same_sign true true); try assumption.
      rewrite Z.compare_antisym.
      destruct (ex ?= ey)%Z; cbn [CompOpp] in *; try discriminate; try reflexivity.
      change (Pos.compare_cont Eq my mx) with (Pos.compare my mx).
      rewrite Pos.compare_antisym.
      change (Pos.compare_cont Eq mx my) with (Pos.compare mx my) in Hc.
      destruct (Pos.compare mx my); cbn [CompOpp] in *; try discriminate; reflexivity.
    + nra.
    + assert (IZR (Zpos mx) * bpow ex <= IZR (Zpos my) * bpow ey); [|lra].
      apply (finite_le_same_sign false false); try assumption.
      destruct (ex ?= ey)%Z; try discriminate; try reflexivity.
      destruct (Pos.compare_cont Eq mx my); try discriminate; reflexivity.
Qed.

Lemma leb_F2R (x y : float) :
  isfinite x = true -> isfinite y = true ->
  PrimFloat.leb x y = true -> F2R x <= F2R y.
Proof.
  intros Hx Hy H. rewrite leb_spec in H.
  apply SFleb_real; auto using Prim2SF_valid.
Qed.

Lemma abs_leb_finite (x b : float) :
  isfinite b = true -> PrimFloat.leb (PrimFloat.abs x) b = true -> isfinite x = true.
Proof.
  unfold isfinite. rewrite leb_spec, abs_spec. unfold SFleb, SFcompare.
  destruct (Prim2SF x) as [s|s| |s m e], (Prim2SF b) as [s'|s'| |s' m' e'];
    cbn [SFabs]; try discriminate; try reflexivity.
Qed.

(** A float at most [b] in magnitude denotes a number at most [b]. *)
Lemma abs_leb_F2R (x b : float) :
  isfinite b = true -> PrimFloat.leb (PrimFloat.abs x) b = true ->
  isfinite x = true /\ Rabs (F2R x) <= F2R b.
Proof.
  intros Hb H. pose proof (abs_leb_finite x b Hb H) as Hx. split; [exact Hx|].
  destruct (abs_model x) as [Fa Ea]. rewrite <- Ea.
  apply leb_F2R; congruence.
Qed.

Lemma leb_abs_F2R (b x : float) :
  isfinite b = true -> isfinite x = true ->
  PrimFloat.leb b (PrimFloat.abs x) = true -> F2R b <= Rabs (F2R x).
Proof.
  intros Hb Hx H. destruct (abs_model x) as [Fa Ea]. rewrite <- Ea.
  apply leb_F2R; congruence.
Qed.

Lemma eqb_zero_F2R (x : float) : PrimFloat.eqb x 0 = true -> F2R x = 0.
Proof.
  intros H. apply is_zero_spec in H as [s H]. unfold F2R. now rewrite H.
Qed.

Lemma eqb_nonzero_F2R (x : float) :
  isfinite x = true -> PrimFloat.eqb x 0 = false -> F2R x <> 0.
Proof.
  intros Hx H H0. destruct (finite_zero_class x Hx H0) as [s Es].
  assert (PrimFloat.eqb x 0 = true) by (apply is_zero_spec; now exists s).
  congruence.
Qed.

(** A finite float above minus the least positive float is not
    negative. *)
Lemma F2R_near_nonneg (x : float) :
  isfinite x = true -> - bpow (-1074) < F2R x -> 0 <= F2R x.
Proof.
  unfold isfinite, F2R. pose proof (Prim2SF_valid x) as Hv.
  destruct (Prim2SF x) as [s|s| |s m e]; try discriminate; intros _; cbn [SF2R]; [lra|].
  destruct (finite_mantissa_bounds _ _ _ Hv) as (He & _ & _).
  pose proof (bpow_le _ _ He) as Hb. pose proof (bpow_pos (-1074)).
  assert (1 <= IZR (Zpos m)) by (apply IZR_le; lia).
  destruct s; cbn [cond_Zopp].
  - change (Z.opp (Zpos m)) with (Zneg m).
    replace (IZR (Zneg m)) with (- IZR (Zpos m)) by (now rewrite <- opp_IZR). nra.
  - nra.
Qed.

End FloatOrder.

(** ** The accuracy of a sum divided by a count *)

Module SumDiv.

Import FloatReals FloatModel Summation FloatOrder.

Local Open Scope R_scope.

Lemma Rsum_abs_nonneg (a : list float) : 0 <= Rsum (map (fun x => Rabs (F2R x)) a).
Proof.
  induction a as [|x a IH]; simpl; [lra|]. pose proof (Rabs_pos (F2R x)). lra.
Qed.

Lemma Rsum_abs_triang (a : list float) :
  Rabs (Rsum (map F2R a)) <= Rsum (map (fun x => Rabs (F2R x)) a).
Proof.
  induction a as [|x a IH]; simpl; [rewrite Rabs_R0; lra|].
  eapply Rle_trans; [apply Rabs_triang | lra].
Qed.

Lemma Rsum_abs_of_nonneg (a : list float) :
  Forall (fun x => 0 <= F2R x) a ->
  Rsum (map (fun x => Rabs (F2R x)) a) = Rsum (map F2R a).
Proof.
  induction 1 as [|x a Hx Ha IH]; simpl; [reflexivity|].
  rewrite IH, Rabs_pos_eq by exact Hx. reflexivity.
Qed.

Lemma INR_count_bound (k : nat) (e : Z) :
  (0 <= e)%Z -> (Z.of_nat k <= 2 ^ e)%Z -> INR k <= bpow e.
Proof.
  intros He H. rewrite INR_IZR_INZ, bpow_IZR by exact He. now apply IZR_le.
Qed.

(** [(1 + u)^k] is at most [1 + 2 k u] for [k] up to 2^52. *)
Lemma pow_1u_linear (k : nat) :
  (Z.of_nat k <= 2 ^ 52)%Z -> (1 + u_) ^ k <= 1 + 2 * INR k * u_.
Proof.
  pose proof u_pos as Hu. induction k as [|k IH]; intros Hk.
  - simpl. lra.
  - assert (Hk' : (Z.of_nat k <= 2 ^ 52)%Z) by lia. specialize (IH Hk').
    pose proof (INR_count_bound k 52 ltac:(lia) Hk') as Hb.
    assert (Hub : bpow 52 * u_ = / 2).
    { unfold u_. rewrite <- bpow_add. change (52 + -53)%Z with (-1)%Z.
      unfold bpow. simpl. lra. }
    assert (Hku : INR k * u_ <= / 2).
    { rewrite <- Hub. apply Rmult_le_compat_r; lra. }
    pose proof (pos_INR k) as Hk0.
    rewrite S_INR. cbn [pow]. 
    apply Rle_trans with ((1 + u_) * (1 + 2 * INR k * u_)).
    + apply Rmult_le_compat_l; lra.
    + nra.
Qed.

Lemma pow_1u_le_2 (k : nat) : (Z.of_nat k <= 2 ^ 52)%Z -> (1 + u_) ^ k <= 2.
Proof.
  intros Hk. eapply Rle_trans; [now apply pow_1u_linear|].
  pose proof (INR_count_bound k 52 ltac:(lia) Hk) as Hb.
  assert (Hub : bpow 52 * u_ = / 2).
  { unfold u_. rewrite <- bpow_add. change (52 + -53)%Z with (-1)%Z.
    unfold bpow. simpl. lra. }
  pose proof u_pos.
  assert (INR k * u_ <= / 2) by (rewrite <- Hub; apply Rmult_le_compat_r; lra).
  lra.
Qed.

Lemma eta_lt_least : eta < bpow (-1074).
Proof. unfold eta. apply bpow_lt. lia. Qed.

Lemma sum_div_model (ts : list float) (m : nat) (S0 A0 g H : R) :
  Forall (fun t => isfinite t = true) ts ->
  (1 <= length ts)%nat -> (1 <= m)%nat -> (Z.of_nat m < 2 ^ 53)%Z ->
  0 <= g -> 0 <= H -> 0 <= A0 ->
  Rabs (Rsum (map F2R ts) - S0) <= g * A0 + H ->
  Rsum (map (fun t => Rabs (F2R t)) ts) <= (1 + g) * A0 + H ->
  (1 + u_) ^ (length ts + 1) * ((1 + g) * A0 + H) < bpow 1024 ->
  let r := PrimFloat.div (pd.np_sum ts) (pd.float_of_count m) in
  let P := (1 + u_) ^ length ts in
  isfinite r = true /\
  Rabs (F2R r - S0 / INR m)
  <= ((1 + g) * P - 1) * (A0 / INR m) + (P * (H / INR m) + eta) /\
  Rabs (F2R r) <= P * (((1 + g) * A0 + H) / INR m) + eta /\
  (Forall (fun t => 0 <= F2R t) ts -> P <= 2 -> 0 <= F2R r).
Proof.
  intros Hfin HN Hm Hm53 Hg HH HA0 Herr Habs Hov r P.
  pose proof u_pos as Hu. pose proof eta_pos as Heta.
  destruct (length ts) as [|N'] eqn:EN; [lia|]. clear HN.
  set (Q := (1 + u_) ^ N').
  assert (HQ1 : 1 <= Q) by apply pow_1u_ge_1.
  assert (HP : P = (1 + u_) * Q) by reflexivity.
  replace (S N' + 1)%nat with (S (S N')) in Hov by lia.
  change ((1 + u_) ^ S (S N')) with ((1 + u_) * ((1 + u_) * Q)) in Hov.
  set (C := (1 + g) * A0 + H) in *.
  assert (HC : 0 <= C) by (subst C; nra).
  set (At := Rsum (map (fun t => Rabs (F2R t)) ts)) in *.
  pose proof (Rsum_abs_nonneg ts) as HAt0. fold At in HAt0.
  pose proof (Rsum_abs_triang ts) as HT. fold At in HT.
  set (T := Rsum (map F2R ts)) in *.
  assert (HQC : Q * At <= Q * C) by (apply Rmult_le_compat_l; lra).
  assert (HQC0 : 0 <= Q * C) by nra.
  destruct (np_sum_model ts Hfin) as [FS ES].
  { rewrite EN. fold At. change ((1 + u_) ^ S N') with ((1 + u_) * Q).
    apply Rle_lt_trans with ((1 + u_) * (Q * C)); [nra|].
    apply Rle_lt_trans with ((1 + u_) * ((1 + u_) * Q) * C); [nra | exact Hov]. }
  rewrite EN in ES. replace (S N' - 1)%nat with N' in ES by lia. fold At T Q in ES.
  set (s := F2R (pd.np_sum ts)) in *.
  destruct (float_of_count_model m Hm53) as [Fm Em].
  assert (HM : 1 <= INR m).
  { change 1 with (INR 1). apply le_INR. exact Hm. }
  set (M := INR m) in *. set (iM := / M).
  assert (HiM : 0 < iM <= 1).
  { subst iM. split; [apply Rinv_0_lt_compat; lra|].
    rewrite <- Rinv_1. apply Rinv_le_contravar; lra. }
  apply Rabs_bound in ES, HT, Herr.
  assert (Hs : Rabs s <= Q * C).
  { apply Rabs_le. split; nra. }
  assert (HsS : Rabs (s - S0) <= Q * C - A0).
  { apply Rabs_le. subst C. split; nra. }
  assert (Hy : Rabs (s * iM) <= Q * C * iM).
  { rewrite Rabs_mult, (Rabs_pos_eq iM) by lra.
    apply Rmult_le_compat_r; lra. }
  assert (HyS : Rabs (s * iM - S0 * iM) <= (Q * C - A0) * iM).
  { replace (s * iM - S0 * iM) with ((s - S0) * iM) by ring.
    rewrite Rabs_mult, (Rabs_pos_eq iM) by lra.
    apply Rmult_le_compat_r; lra. }
  assert (HY0 : 0 <= Q * C * iM) by nra.
  assert (HY1 : Q * C * iM <= Q * C) by nra.
  destruct (div_model (pd.np_sum ts) (pd.float_of_count m) FS Fm) as [Fr Er].
  { rewrite Em. fold M. lra. }
  { rewrite Em. fold s M. change (s / M) with (s * iM).
    apply Rle_lt_trans with (Q * C * (1 + u_)).
    - apply Rmult_le_compat_r; lra.
    - apply Rle_lt_trans with ((1 + u_) * ((1 + u_) * Q) * C); [nra | exact Hov]. }
  rewrite Em in Er. fold s M r in Er, Fr. change (s / M) with (s * iM) in Er.
  change (S0 / M) with (S0 * iM). change (A0 / M) with (A0 * iM).
  change (H / M) with (H * iM). change (C / M) with (C * iM).
  assert (HuY : u_ * Rabs (s * iM) <= u_ * (Q * C * iM))
    by (apply Rmult_le_compat_l; lra).
  apply Rabs_bound in Er.
  split; [exact Fr|]. split; [|split].
  - apply Rabs_bound in HyS. rewrite HP.
    apply Rabs_le. subst C. split; nra.
  - apply Rabs_bound in Hy. rewrite HP. apply Rabs_le. split; nra.
  - intros Hpos HP2.
    apply F2R_near_nonneg; [exact Fr|]. fold r.
    pose proof eta_lt_least as Hl.
    assert (HTA : T = At) by (subst T At; symmetry; now apply Rsum_abs_of_nonneg).
    assert (HQ2 : Q <= 2) by nra.
    assert (Hs0 : 0 <= s) by nra.
    assert (Hy0 : 0 <= s * iM) by nra.
    rewrite (Rabs_pos_eq (s * iM)) in Er by exact Hy0.
    assert (u_ * (s * iM) <= s * iM).
    { pose proof u_lt_1. nra. }
    lra.
Qed.

End SumDiv.

(** ** The accuracy of the mean and of the standard deviation *)

Module Accuracy.

Import FloatReals FloatModel Summation FloatOrder SumDiv.

Local Open Scope R_scope.

Lemma bpow_mul_le (x y : R) (a b : Z) :
  0 <= x <= bpow a -> 0 <= y <= bpow b -> 0 <= x * y <= bpow (a + b).
Proof.
  intros Hx Hy. rewrite bpow_add. pose proof (bpow_pos a). pose proof (bpow_pos b).
  split; nra.
Qed.

Lemma bpow_add_le (x y : R) (a : Z) :
  x <= bpow a -> y <= bpow a -> x + y <= bpow (a + 1).
Proof. intros Hx Hy. rewrite bpow_add, bpow_1. lra. Qed.

Lemma bpow_weaken (x : R) (a b : Z) : x <= bpow a -> (a <= b)%Z -> x <= bpow b.
Proof. intros Hx Hab. eapply Rle_trans; [exact Hx | now apply bpow_le]. Qed.

Lemma eta_le_bpow (a : Z) : (-1075 <= a)%Z -> eta <= bpow a.
Proof. intros H. unfold eta. now apply bpow_le. Qed.

Lemma bpow_2 : bpow 2 = 4.
Proof. unfold bpow. simpl. lra. Qed.

Lemma two_bpow (a : Z) : 2 * bpow a = bpow (a + 1).
Proof. rewrite bpow_add, bpow_1. ring. Qed.

Lemma Rsum_abs_le (s : list float) (B : R) :
  Forall (fun x => isfinite x = true /\ Rabs (F2R x) <= B) s ->
  Rsum (map (fun x => Rabs (F2R x)) s) <= INR (length s) * B.
Proof.
  induction 1 as [|x s [_ Hx] Hs IH]; [simpl; lra|].
  cbn [map Rsum fold_right length]. rewrite S_INR. unfold Rsum in IH. lra.
Qed.

Lemma Forall_finite (s : list float) (B : R) :
  Forall (fun x => isfinite x = true /\ Rabs (F2R x) <= B) s ->
  Forall (fun x => isfinite x = true) s.
Proof. apply List.Forall_impl. tauto. Qed.

Lemma finite_all_notna (s : list float) :
  Forall (fun x => isfinite x = true) s ->
  forallb (fun x => negb (pd.isna x)) s = true.
Proof.
  induction 1 as [|x s Hx Hs IH]; [reflexivity|].
  cbn [forallb]. now rewrite (isfinite_notna x Hx), IH.
Qed.

Lemma mean_of_magnitudes (s : list float) :
  arithmetic_mean (map Rabs (map F2R s))
  = Rsum (map (fun x => Rabs (F2R x)) s) / INR (length s).
Proof. unfold arithmetic_mean. now rewrite map_map, !length_map. Qed.

Lemma sum_squares_shift (xs : list R) (a mu : R) :
  Rsum (map (fun x => (a - x) * (a - x)) xs)
  = Rsum (map (fun x => (x - mu) * (x - mu)) xs)
    + 2 * (a - mu) * (INR (length xs) * mu - Rsum xs)
    + INR (length xs) * ((a - mu) * (a - mu)).
Proof.
  induction xs as [|x xs IH].
  - simpl. ring.
  - cbn [map Rsum fold_right length]. rewrite S_INR. unfold Rsum in IH. rewrite IH. ring.
Qed.

(** The mean of the squared distances to [a] is the population
    variance plus the squared distance from [a] to the mean. *)
Lemma variance_shift (xs : list R) (a : R) :
  xs <> [] ->
  Rsum (map (fun x => (a - x) * (a - x)) xs) / INR (length xs)
  = population_variance xs + (a - arithmetic_mean xs) * (a - arithmetic_mean xs).
Proof.
  intros Hne. rewrite (sum_squares_shift xs a (arithmetic_mean xs)).
  unfold population_variance.
  assert (Hn : INR (length xs) <> 0).
  { destruct xs; [congruence|]. cbn [length]. rewrite S_INR.
    pose proof (pos_INR (length xs)). lra. }
  unfold arithmetic_mean. field. exact Hn.
Qed.

Lemma population_variance_nonneg (xs : list R) : 0 <= population_variance xs.
Proof.
  unfold population_variance. apply Rmult_le_pos.
  - generalize (arithmetic_mean xs). intros mu.
    induction xs as [|x xs IH]; [simpl; lra|].
    cbn [map Rsum fold_right]. unfold Rsum in IH.
    pose proof (Rle_0_sqr (x - mu)) as Hsq. unfold Rsqr in Hsq. lra.
  - destruct xs as [|x xs]; [simpl; rewrite Rinv_0; lra|].
    left. apply Rinv_0_lt_compat. cbn [length]. rewrite S_INR.
    pose proof (pos_INR (length xs)). lra.
Qed.

(** One squared deviation: two roundings of the difference and one of
    the product. *)
Lemma square_model (a x : float) :
  isfinite a = true -> isfinite x = true ->
  Rabs (F2R a - F2R x) <= bpow 402 ->
  let z := F2R a - F2R x in
  let q := PrimFloat.mul (PrimFloat.sub a x) (PrimFloat.sub a x) in
  isfinite q = true /\
  Rabs (F2R q - z * z) <= ((1 + u_) ^ 3 - 1) * (z * z) + eta /\
  0 <= F2R q.
Proof.
  intros Fa Fx Hz z q. pose proof u_pos as Hu. pose proof u_lt_1 as Hu1.
  pose proof eta_pos as Heta. fold z in Hz.
  destruct (sub_model a x Fa Fx) as [Fd Ed].
  { fold z. apply Rle_lt_trans with (bpow 402 * 2).
    - pose proof (Rabs_pos z). nra.
    - rewrite Rmult_comm, two_bpow. apply bpow_lt. lia. }
  fold z in Ed. set (d := F2R (PrimFloat.sub a x)) in *.
  set (t := z * z).
  assert (Ht : 0 <= t) by (subst t; nra).
  assert (Hd : (1 - u_) * (1 - u_) * t <= d * d <= (1 + u_) * (1 + u_) * t).
  { assert (Hsq : forall w e : R, 0 <= w -> (1 - u_) * w <= e <= (1 + u_) * w ->
                   (1 - u_) * (1 - u_) * (w * w) <= e * e <= (1 + u_) * (1 + u_) * (w * w)).
    { intros w e Hw [Hl Hh].
      assert (0 <= (1 - u_) * w) by (apply Rmult_le_pos; lra).
      pose proof (Rmult_le_compat _ _ _ _ H H Hl Hl).
      assert (0 <= e) by lra.
      pose proof (Rmult_le_compat _ _ _ _ H1 H1 Hh Hh).
      split; lra. }
    apply Rabs_bound in Ed. subst t. unfold Rabs in Ed.
    destruct (Rcase_abs z) as [Hneg | Hpos].
    - replace (z * z) with ((- z) * (- z)) by ring.
      replace (d * d) with ((- d) * (- d)) by ring.
      apply Hsq; [lra|]. split; lra.
    - apply Hsq; [lra|]. split; lra. }
  assert (Ht804 : t <= bpow 804).
  { subst t. apply Rabs_bound in Hz. pose proof (bpow_pos 402).
    replace 804%Z with (402 + 402)%Z by lia. rewrite bpow_add. nra. }
  assert (Hdd : 0 <= d * d <= bpow 806).
  { split; [nra|]. replace 806%Z with (804 + 2)%Z by lia. rewrite bpow_add.
    rewrite bpow_2.
    assert (H4 : (1 + u_) * (1 + u_) <= 4) by nra.
    pose proof (Rmult_le_compat_r t _ _ Ht H4). lra. }
  destruct (mul_model _ _ Fd Fd) as [Fq Eq].
  { fold d. rewrite Rabs_pos_eq by lra.
    apply Rle_lt_trans with (bpow 806 * 2); [nra|].
    rewrite Rmult_comm, two_bpow. apply bpow_lt. lia. }
  fold d q in Eq, Fq. rewrite (Rabs_pos_eq (d * d)) in Eq by lra.
  apply Rabs_bound in Eq.
  assert (Hud : u_ * (d * d) <= u_ * ((1 + u_) * (1 + u_) * t))
    by (apply Rmult_le_compat_l; lra).
  assert (Hud' : u_ * ((1 - u_) * (1 - u_) * t) <= u_ * (d * d))
    by (apply Rmult_le_compat_l; lra).
  split; [exact Fq|]. split.
  - apply Rabs_le. simpl. split; nra.
  - apply F2R_near_nonneg; [exact Fq|]. fold q. pose proof eta_lt_least.
    assert (u_ * (d * d) <= d * d) by nra. lra.
Qed.

(** The squared deviations of a Series from a float [a], summed. *)
Lemma squares_model (a : float) (l : list float) :
  isfinite a = true ->
  Forall (fun x => isfinite x = true /\ Rabs (F2R a - F2R x) <= bpow 402) l ->
  let sq := fun x => PrimFloat.mul (PrimFloat.sub a x) (PrimFloat.sub a x) in
  let Z0 := Rsum (map (fun x => (F2R a - F2R x) * (F2R a - F2R x)) l) in
  let g := (1 + u_) ^ 3 - 1 in
  Forall (fun t => isfinite t = true) (map sq l) /\
  Forall (fun t => 0 <= F2R t) (map sq l) /\
  Rabs (Rsum (map F2R (map sq l)) - Z0) <= g * Z0 + INR (length l) * eta /\
  Rsum (map (fun t => Rabs (F2R t)) (map sq l)) <= (1 + g) * Z0 + INR (length l) * eta /\
  0 <= Z0 <= INR (length l) * bpow 804.
Proof.
  intros Fa Hl sq Z0 g. subst Z0.
  induction Hl as [|x l [Fx Hx] Hl IH].
  - simpl. rewrite Rminus_diag, Rabs_R0. repeat split; try constructor; lra.
  - destruct IH as (IH1 & IH2 & IH3 & IH4 & IH5).
    destruct (square_model a x Fa Fx Hx) as (Fq & Eq & Pq). cbv zeta in Fq, Eq, Pq.
    cbn [map Rsum fold_right length]. rewrite S_INR. unfold Rsum in *.
    fold (sq x) in Fq, Eq, Pq. fold g in Eq.
    set (z2 := (F2R a - F2R x) * (F2R a - F2R x)) in *.
    assert (Hz2 : 0 <= z2 <= bpow 804).
    { subst z2. apply Rabs_bound in Hx. pose proof (bpow_pos 402).
      replace 804%Z with (402 + 402)%Z by lia. rewrite bpow_add.
      generalize dependent (F2R a - F2R x). intros zz. intros. split; nra. }
    split; [constructor; assumption|]. split; [constructor; assumption|].
    rewrite (Rabs_pos_eq (F2R (sq x))) by exact Pq.
    apply Rabs_bound in Eq, IH3.
    split; [apply Rabs_le; split; lra|]. split; [lra|]. split; nra.
Qed.

Lemma rounding_bound (k : nat) :
  (Z.of_nat k <= 2 ^ 52)%Z -> 0 <= rounding k <= 1.
Proof.
  intros Hk. unfold rounding. pose proof u_pos. pose proof (pos_INR k).
  pose proof (INR_count_bound k 52 ltac:(lia) Hk) as Hb.
  assert (Hub : bpow 52 * u_ = / 2).
  { unfold u_. rewrite <- bpow_add. change (52 + -53)%Z with (-1)%Z.
    unfold bpow. simpl. lra. }
  assert (INR k * u_ <= / 2) by (rewrite <- Hub; apply Rmult_le_compat_r; lra).
  split; nra.
Qed.

Section Bounded.

Variables (s : list float) (B : R).
Hypothesis Hne : s <> [].
Hypothesis Hlen : (Z.of_nat (length s) <= 2 ^ 50)%Z.
Hypothesis Hs : Forall (fun x => isfinite x = true /\ Rabs (F2R x) <= B) s.
Hypothesis HB : 0 <= B <= bpow 400.

Let n := length s.
Let xs := map F2R s.

Lemma count_facts :
  (1 <= n)%nat /\ 1 <= INR n <= bpow 50 /\ (Z.of_nat n < 2 ^ 53)%Z.
Proof.
  assert (H1 : (1 <= n)%nat) by (subst n; destruct s; [congruence | simpl; lia]).
  split; [exact H1|]. split; [split|].
  - change 1 with (INR 1). now apply le_INR.
  - apply INR_count_bound; [lia | exact Hlen].
  - subst n. lia.
Qed.

Lemma magnitude_sum_bound :
  0 <= Rsum (map (fun x => Rabs (F2R x)) s) <= INR n * B /\
  Rsum (map (fun x => Rabs (F2R x)) s) / INR n <= B.
Proof.
  destruct count_facts as (_ & [Hn1 _] & _).
  pose proof (Rsum_abs_nonneg s) as H0. pose proof (Rsum_abs_le s B Hs) as H1.
  fold n in H1. split; [lra|].
  apply Rmult_le_reg_r with (INR n); [lra|].
  unfold Rdiv. rewrite Rmult_assoc, Rinv_l by lra. lra.
Qed.

(** The computed mean of a Series of moderate values is finite and
    within [mean_error] of the arithmetic mean. *)
Lemma mean_model :
  isfinite (pd.mean s) = true /\
  Rabs (F2R (pd.mean s) - arithmetic_mean xs) <= mean_error xs /\
  Rabs (F2R (pd.mean s)) <= 2 * B + eta.
Proof.
  destruct count_facts as (Hn & [Hn1 Hn50] & Hn53).
  destruct magnitude_sum_bound as [[HA0 HAB] HAm].
  pose proof u_pos as Hu. pose proof eta_pos as Heta.
  rewrite mean_arithmetic by (apply finite_all_notna, (Forall_finite s B Hs)).
  set (At := Rsum (map (fun x => Rabs (F2R x)) s)) in *.
  assert (HP2 : (1 + u_) ^ (n + 1) <= 2) by (apply pow_1u_le_2; subst n; lia).
  assert (HP : (1 + u_) ^ n <= 1 + rounding n).
  { unfold rounding. apply pow_1u_linear. subst n. lia. }
  pose proof (pow_1u_ge_1 n) as HP1.
  assert (HPn : (1 + u_) ^ n <= 2).
  { apply pow_1u_le_2. subst n. lia. }
  destruct (sum_div_model s n (Rsum xs) At 0 0 (Forall_finite s B Hs) Hn Hn Hn53)
    as (F & E & M & _); try lra.
  - subst xs. rewrite Rminus_diag, Rabs_R0. lra.
  - fold At. lra.
  - fold n At. replace ((1 + 0) * At + 0) with At by ring.
    apply Rle_lt_trans with (2 * (bpow 50 * bpow 400)).
    + assert (At <= bpow 50 * bpow 400).
      { apply Rle_trans with (INR n * B); [lra|].
        apply Rmult_le_compat; lra. }
      pose proof (pow_1u_ge_1 (n + 1)). nra.
    + rewrite <- bpow_add, two_bpow. apply bpow_lt. lia.
  - fold n in E, M, F. split; [exact F|].
    assert (HAm0 : 0 <= At / INR n).
    { apply Rmult_le_pos; [lra|]. left. apply Rinv_0_lt_compat. lra. }
    split.
    + unfold mean_error. subst xs. rewrite mean_of_magnitudes. fold At n.
      unfold arithmetic_mean. rewrite length_map. fold n.
      eapply Rle_trans; [exact E|].
      replace (0 / INR n) with 0 by (unfold Rdiv; ring).
      assert (((1 + 0) * (1 + u_) ^ n - 1) * (At / INR n) <= rounding n * (At / INR n)).
      { apply Rmult_le_compat_r; lra. }
      lra.
    + eapply Rle_trans; [exact M|].
      replace (((1 + 0) * At + 0) / INR n) with (At / INR n) by (unfold Rdiv; ring).
      assert ((1 + u_) ^ n * (At / INR n) <= 2 * B) by nra. lra.
Qed.

Lemma deviation_bound :
  Forall (fun x => isfinite x = true /\ Rabs (F2R (pd.mean s) - F2R x) <= bpow 402) s.
Proof.
  destruct mean_model as (_ & _ & Ha).
  eapply List.Forall_impl; [|exact Hs]. cbv beta. intros x [Fx Hx]. split; [exact Fx|].
  eapply Rle_trans; [apply Rabs_triang|]. rewrite Rabs_Ropp.
  pose proof (eta_le_bpow 400 ltac:(lia)).
  replace 402%Z with (400 + 2)%Z by lia. rewrite bpow_add, bpow_2. lra.
Qed.

(** The computed population standard deviation of a Series of moderate
    values is finite and lies between [std_lower] and [std_upper]. *)
Lemma std_model :
  isfinite (pd.std 0 s) = true /\
  std_lower xs <= F2R (pd.std 0 s) <= std_upper xs.
Proof.
  destruct count_facts as (Hn & [Hn1 Hn50] & Hn53).
  destruct mean_model as (Fa & Ea & Ma).
  pose proof u_pos as Hu. pose proof u_lt_1 as Hu1. pose proof eta_pos as Heta.
  rewrite std_population by (apply finite_all_notna, (Forall_finite s B Hs)).
  set (a := pd.mean s) in *.
  set (sq := fun x => PrimFloat.mul (PrimFloat.sub a x) (PrimFloat.sub a x)).
  destruct (squares_model a s Fa deviation_bound) as (Hf & Hp & He & Hab & [HZ0 HZ1]).
  fold sq in Hf, Hp, He, Hab. fold n in He, Hab, HZ1.
  set (Z0 := Rsum (map (fun x => (F2R a - F2R x) * (F2R a - F2R x)) s)) in *.
  set (g := (1 + u_) ^ 3 - 1) in *.
  assert (Hg3 : (1 + u_) ^ 3 <= 2) by (apply pow_1u_le_2; lia).
  pose proof (pow_1u_ge_1 3) as Hg1.
  assert (Hg : 0 <= g <= 1) by (subst g; lra).
  assert (HP2 : (1 + u_) ^ (n + 1) <= 2) by (apply pow_1u_le_2; subst n; lia).
  pose proof (pow_1u_ge_1 (n + 1)) as HP1.
  assert (HPn : (1 + u_) ^ n <= 2) by (apply pow_1u_le_2; subst n; lia).
  pose proof (pow_1u_ge_1 n) as HPn1.
  assert (Hneta : 0 <= INR n * eta <= bpow 854).
  { split; [nra|]. pose proof (eta_le_bpow 804 ltac:(lia)).
    replace 854%Z with (50 + 804)%Z by lia. rewrite bpow_add.
    apply Rmult_le_compat; lra. }
  assert (HZ854 : Z0 <= bpow 854).
  { replace 854%Z with (50 + 804)%Z by lia. rewrite bpow_add.
    eapply Rle_trans; [exact HZ1|]. pose proof (bpow_pos 804).
    apply Rmult_le_compat_r; lra. }
  destruct (sum_div_model (map sq s) n Z0 Z0 g (INR n * eta) Hf) as (Fv & Ev & _ & Pv);
    rewrite ?length_map; fold n; try lra; try assumption.
  { apply Rle_lt_trans with (2 * (4 * bpow 854)).
    - assert ((1 + g) * Z0 + INR n * eta <= 4 * bpow 854) by nra.
      assert (0 <= (1 + g) * Z0 + INR n * eta) by nra.
      nra.
    - rewrite <- bpow_2, <- bpow_add, two_bpow. apply bpow_lt. lia. }
  rewrite length_map in Ev, Pv. fold n in Ev, Pv.
  specialize (Pv Hp HPn).
  set (v := PrimFloat.div (pd.np_sum (map sq s)) (pd.float_of_count n)) in *.
  fold n. fold sq. fold v.
  (* the exact mean of the squared distances *)
  assert (HW : Z0 / INR n
               = population_variance xs
                 + (F2R a - arithmetic_mean xs) * (F2R a - arithmetic_mean xs)).
  { subst Z0 xs. rewrite <- (variance_shift (map F2R s) (F2R a)).
    - now rewrite map_map, length_map.
    - destruct s; [congruence | discriminate]. }
  set (W := Z0 / INR n) in *.
  pose proof (population_variance_nonneg xs) as Hvar.
  set (var := population_variance xs) in *.
  set (eps := F2R a - arithmetic_mean xs) in *.
  set (E := mean_error xs) in *.
  assert (Heps : eps * eps <= E * E).
  { apply Rabs_bound in Ea. nra. }
  assert (HW0 : 0 <= W) by (rewrite HW; nra).
  (* the rounding factors *)
  assert (Hrho : (1 + g) * (1 + u_) ^ n <= 1 + rounding (n + 3)).
  { subst g. replace (1 + ((1 + u_) ^ 3 - 1)) with ((1 + u_) ^ 3) by ring.
    rewrite <- pow_add, Nat.add_comm. unfold rounding. apply pow_1u_linear. subst n. lia. }
  destruct (rounding_bound (n + 3) ltac:(subst n; lia)) as [Hr0 Hr1].
  set (rho := rounding (n + 3)) in *.
  assert (Hv : Rabs (F2R v - W) <= rho * W + 3 * eta).
  { eapply Rle_trans; [exact Ev|]. fold W.
    replace (INR n * eta / INR n) with eta by (field; lra).
    assert (((1 + g) * (1 + u_) ^ n - 1) * W <= rho * W)
      by (apply Rmult_le_compat_r; lra).
    nra. }
  apply Rabs_bound in Hv.
  destruct (sqrt_model v Fv Pv) as [Fs Es]. split; [exact Fs|].
  apply Rabs_bound in Es.
  pose proof (sqrt_pos (F2R v)) as Hsv.
  unfold std_lower, std_upper. subst xs. rewrite !length_map. fold n rho var E.
  split.
  - assert (Hlow : (1 - rho) * var - 3 * eta <= F2R v) by nra.
    apply sqrt_le_1_alt in Hlow.
    assert ((1 - u_) * R_sqrt.sqrt ((1 - rho) * var - 3 * eta)
            <= (1 - u_) * R_sqrt.sqrt (F2R v))
      by (apply Rmult_le_compat_l; lra).
    lra.
  - assert (Hup : F2R v <= (1 + rho) * (var + E * E) + 3 * eta) by nra.
    apply sqrt_le_1_alt in Hup.
    assert ((1 + u_) * R_sqrt.sqrt (F2R v)
            <= (1 + u_) * R_sqrt.sqrt ((1 + rho) * (var + E * E) + 3 * eta))
      by (apply Rmult_le_compat_l; lra).
    lra.
Qed.

End Bounded.

End Accuracy.

(** ** The accuracy of the mean ratio *)

Module RatioAccuracy.

Import FloatReals FloatModel Summation FloatOrder SumDiv Accuracy.

Local Open Scope R_scope.

Lemma large_bound : isfinite 1e100 = true /\ F2R 1e100 <= bpow 333.
Proof.
  split; [reflexivity|]. unfold F2R.
  replace (Prim2SF 1e100) with (S754_finite false 5147557589468029 280)
    by (vm_compute; reflexivity).
  cbn [SF2R cond_Zopp]. replace 333%Z with (53 + 280)%Z by lia. rewrite bpow_add.
  apply Rmult_le_compat_r; [pose proof (bpow_pos 280); lra|].
  rewrite bpow_IZR by lia. apply IZR_le. vm_compute. discriminate.
Qed.

Lemma small_bound : isfinite 1e-100 = true /\ bpow (-333) <= F2R 1e-100.
Proof.
  split; [reflexivity|]. unfold F2R.
  replace (Prim2SF 1e-100) with (S754_finite false 7880401239278896 (-385))
    by (vm_compute; reflexivity).
  cbn [SF2R cond_Zopp]. replace (-333)%Z with (52 + -385)%Z by lia. rewrite bpow_add.
  apply Rmult_le_compat_r; [pose proof (bpow_pos (-385)); lra|].
  rewrite bpow_IZR by lia. apply IZR_le. vm_compute. discriminate.
Qed.

Lemma moderate_bound (x : float) :
  moderate x = true -> isfinite x = true /\ Rabs (F2R x) <= bpow 333.
Proof.
  intros H. destruct large_bound as [Fb Hb].
  destruct (abs_leb_F2R x 1e100 Fb H) as [Fx Hx]. split; [exact Fx | lra].
Qed.

Lemma row_bounds (r : Row) :
  in_range r = true ->
  isfinite (col_delta_mass_positive_g r) = true /\
  isfinite (col_delta_mass_negative_g r) = true /\
  Rabs (F2R (col_delta_mass_positive_g r)) <= bpow 333 /\
  Rabs (F2R (col_delta_mass_negative_g r)) <= bpow 333 /\
  (PrimFloat.eqb (col_delta_mass_positive_g r) 0 = false ->
   bpow (-333) <= Rabs (F2R (col_delta_mass_positive_g r))).
Proof.
  unfold in_range. intros H. apply andb_prop in H as [H Hz].
  apply andb_prop in H as [Ha Hc].
  destruct (moderate_bound _ Ha) as [Fa Ba]. destruct (moderate_bound _ Hc) as [Fc Bc].
  repeat split; try assumption.
  intros E. rewrite E in Hz. cbn [orb] in Hz.
  destruct small_bound as [Fs Hs].
  pose proof (leb_abs_F2R _ _ Fs Fa Hz). lra.
Qed.

Lemma in_range_finite (df : DataFrame) :
  forallb in_range df = true -> forallb finite_row df = true.
Proof.
  intros H. apply forallb_forall. intros r Hr.
  apply forallb_forall with (x := r) in H; [|exact Hr].
  destruct (row_bounds r H) as (Fa & Fc & _). unfold finite_row. now rewrite Fa, Fc.
Qed.

(** One ratio: a single rounding of the quotient. *)
Lemma ratio_row (r : Row) :
  in_range r = true -> PrimFloat.eqb (col_delta_mass_positive_g r) 0 = false ->
  let rho := Rabs (F2R (col_delta_mass_negative_g r))
             / Rabs (F2R (col_delta_mass_positive_g r)) in
  isfinite (abs_ratio r) = true /\
  Rabs (F2R (abs_ratio r) - rho) <= u_ * rho + eta /\
  0 <= rho <= bpow 666.
Proof.
  intros Hr Hz rho. destruct (row_bounds r Hr) as (Fa & Fc & Ba & Bc & Hlow).
  specialize (Hlow Hz). pose proof u_pos as Hu. pose proof u_lt_1 as Hu1.
  destruct (abs_model (col_delta_mass_positive_g r)) as [Fa' Ea].
  destruct (abs_model (col_delta_mass_negative_g r)) as [Fc' Ec].
  rewrite Fa in Fa'. rewrite Fc in Fc'.
  set (c := Rabs (F2R (col_delta_mass_negative_g r))) in *.
  set (a := Rabs (F2R (col_delta_mass_positive_g r))) in *.
  pose proof (bpow_pos (-333)) as Hp. pose proof (bpow_pos 333) as Hp'.
  assert (Hc0 : 0 <= c) by apply Rabs_pos.
  assert (Hia : 0 < / a <= bpow 333).
  { split; [apply Rinv_0_lt_compat; lra|].
    replace 333%Z with (- (-333))%Z by lia. rewrite bpow_opp.
    apply Rinv_le_contravar; lra. }
  assert (Hrho : 0 <= rho <= bpow 666).
  { subst rho. unfold Rdiv. replace 666%Z with (333 + 333)%Z by lia.
    rewrite bpow_add. split; [nra|]. apply Rmult_le_compat; lra. }
  unfold abs_ratio.
  destruct (div_model _ _ Fc' Fa') as [F E].
  - rewrite Ea. lra.
  - rewrite Ea, Ec. fold rho. rewrite Rabs_pos_eq by lra.
    apply Rle_lt_trans with (bpow 666 * 2).
    + pose proof (bpow_pos 666). nra.
    + rewrite Rmult_comm, two_bpow. apply bpow_lt. lia.
  - rewrite Ea, Ec in E. fold rho in E. rewrite (Rabs_pos_eq rho) in E by lra.
    auto.
Qed.

(** The contributions of the rows to the sum of the ratios. *)
Lemma contributions_model (df : DataFrame) :
  forallb in_range df = true ->
  let ts := map ratio_contribution df in
  let m := length (List.filter anode_nonzero df) in
  let A0 := Rsum (abs_ratios df) in
  Forall (fun t => isfinite t = true) ts /\
  Rabs (Rsum (map F2R ts) - A0) <= u_ * A0 + INR m * eta /\
  Rsum (map (fun t => Rabs (F2R t)) ts) <= (1 + u_) * A0 + INR m * eta /\
  0 <= A0 <= INR m * bpow 666.
Proof.
  intros H. cbv zeta. unfold abs_ratios. pose proof u_pos as Hu. pose proof eta_pos as He.
  induction df as [|r df IH].
  - simpl. rewrite Rminus_diag, Rabs_R0. repeat split; try constructor; lra.
  - cbn [forallb] in H. apply andb_prop in H as [Hr Hdf].
    destruct (IH Hdf) as (IH1 & IH2 & IH3 & IH4). clear IH.
    destruct (PrimFloat.eqb (col_delta_mass_positive_g r) 0) eqn:E.
    + assert (E1 : anode_nonzero r = false) by (unfold anode_nonzero; now rewrite E).
      assert (E2 : ratio_contribution r = 0%float)
        by (unfold ratio_contribution; now rewrite E).
      cbn [map List.filter]. rewrite E1, E2.
      cbn [map Rsum fold_right]. unfold Rsum in *.
      change (F2R 0) with (SF2R (S754_zero false)). cbn [SF2R].
      rewrite Rabs_R0, !Rplus_0_l.
      split; [constructor; [reflexivity | assumption]|]. auto.
    + destruct (ratio_row r Hr E) as (F1 & E1 & R1). cbv zeta in E1, R1.
      assert (E3 : anode_nonzero r = true) by (unfold anode_nonzero; now rewrite E).
      assert (E2 : ratio_contribution r = abs_ratio r)
        by (unfold ratio_contribution; now rewrite E).
      cbn [map List.filter]. rewrite E3, E2.
      cbn [map Rsum fold_right length]. rewrite S_INR. unfold Rsum in *.
      set (rho := Rabs (F2R (col_delta_mass_negative_g r))
                  / Rabs (F2R (col_delta_mass_positive_g r))) in *.
      split; [constructor; assumption|].
      assert (Ht : Rabs (F2R (abs_ratio r)) <= rho + (u_ * rho + eta)).
      { apply Rabs_bound in E1. apply Rabs_le. split; nra. }
      apply Rabs_bound in E1, IH2.
      split; [apply Rabs_le; split; lra|]. split; [lra|]. split; nra.
Qed.

Lemma filter_length_le {A} (f : A -> bool) (l : list A) :
  (length (List.filter f l) <= length l)%nat.
Proof. induction l as [|x l IH]; simpl; [lia|]. destruct (f x); simpl; lia. Qed.

(** The computed mean of the ratios is finite and is the mean of the
    ratios of the rows with a non-zero anode delta, up to rounding. *)
Lemma ratio_model (df : DataFrame) :
  (Z.of_nat (length df) <= 2 ^ 50)%Z ->
  forallb in_range df = true ->
  List.filter anode_nonzero df <> [] ->
  isfinite (pd.mean (map ratio_entry df)) = true /\
  Rabs (F2R (pd.mean (map ratio_entry df)) - mean_abs_ratio df)
  <= rounding (length df + 1) * mean_abs_ratio df + 3 * eta.
Proof.
  intros Hlen Hr Hnz. pose proof u_pos as Hu. pose proof eta_pos as He.
  rewrite ratio_mean by now apply in_range_finite.
  destruct (contributions_model df Hr) as (Hf & Herr & Habs & [HA0 HA1]).
  set (ts := map ratio_contribution df) in *.
  set (m := length (List.filter anode_nonzero df)) in *.
  set (A0 := Rsum (abs_ratios df)) in *.
  assert (Hm1 : (1 <= m)%nat).
  { subst m. destruct (List.filter anode_nonzero df); [congruence | simpl; lia]. }
  assert (Hmn : (m <= length df)%nat) by apply filter_length_le.
  assert (HN : length ts = length df) by (subst ts; apply length_map).
  assert (Hm : 1 <= INR m <= bpow 50).
  { split; [change 1 with (INR 1); now apply le_INR|].
    apply INR_count_bound; lia. }
  assert (HP2 : (1 + u_) ^ (length df + 1) <= 2) by (apply pow_1u_le_2; lia).
  pose proof (pow_1u_ge_1 (length df + 1)) as HP1.
  assert (HPn : (1 + u_) ^ length df <= 2) by (apply pow_1u_le_2; lia).
  pose proof (pow_1u_ge_1 (length df)) as HPn1.
  assert (HA716 : A0 <= bpow 716).
  { replace 716%Z with (50 + 666)%Z by lia. rewrite bpow_add.
    eapply Rle_trans; [exact HA1|]. pose proof (bpow_pos 666).
    apply Rmult_le_compat_r; lra. }
  assert (Hme : 0 <= INR m * eta <= bpow 716).
  { split; [nra|]. pose proof (eta_le_bpow 666 ltac:(lia)).
    replace 716%Z with (50 + 666)%Z by lia. rewrite bpow_add.
    apply Rmult_le_compat; lra. }
  destruct (sum_div_model ts m A0 A0 u_ (INR m * eta) Hf) as (F & E & _ & _);
    rewrite ?HN; try lra; try lia; try assumption.
  { apply Rle_lt_trans with (2 * (4 * bpow 716)).
    - pose proof u_lt_1.
      assert ((1 + u_) * A0 + INR m * eta <= 4 * bpow 716) by nra.
      assert (0 <= (1 + u_) * A0 + INR m * eta) by nra.
      nra.
    - rewrite <- bpow_2, <- bpow_add, two_bpow. apply bpow_lt. lia. }
  rewrite HN in E. split; [exact F|].
  assert (Hmean : mean_abs_ratio df = A0 / INR m).
  { unfold mean_abs_ratio, arithmetic_mean, abs_ratios. now rewrite length_map. }
  rewrite Hmean. eapply Rle_trans; [exact E|].
  assert (HAm : 0 <= A0 / INR m).
  { apply Rmult_le_pos; [lra|]. left. apply Rinv_0_lt_compat. lra. }
  assert (Hrho : (1 + u_) * (1 + u_) ^ length df <= 1 + rounding (length df + 1)).
  { replace ((1 + u_) * (1 + u_) ^ length df) with ((1 + u_) ^ (length df + 1))
      by (rewrite Nat.add_comm; reflexivity).
    unfold rounding. apply pow_1u_linear. lia. }
  replace (INR m * eta / INR m) with eta by (field; lra).
  assert (((1 + u_) * (1 + u_) ^ length df - 1) * (A0 / INR m)
          <= rounding (length df + 1) * (A0 / INR m))
    by (apply Rmult_le_compat_r; lra).
  nra.
Qed.

End RatioAccuracy.

(** ** The entries of [basic_statistics] *)

Module Entries.

Import FloatReals FloatModel Summation FloatOrder SumDiv Accuracy RatioAccuracy.

Local Open Scope R_scope.

Lemma column_nonempty (c : Row -> float) (df : DataFrame) :
  df <> [] -> column c df <> [].
Proof. unfold column. destruct df; [congruence | discriminate]. Qed.

Lemma column_length (c : Row -> float) (df : DataFrame) :
  length (column c df) = length df.
Proof. apply length_map. Qed.

Lemma moderate_column (s : pd.Series) :
  forallb moderate s = true ->
  Forall (fun x => isfinite x = true /\ Rabs (F2R x) <= bpow 333) s.
Proof.
  intros H. apply List.Forall_forall. intros x Hx.
  apply forallb_forall with (x := x) in H; [|exact Hx]. now apply moderate_bound.
Qed.

Lemma in_range_columns (df : DataFrame) :
  forallb in_range df = true ->
  forallb moderate (column col_delta_mass_positive_g df) = true /\
  forallb moderate (column col_delta_mass_negative_g df) = true.
Proof.
  unfold column. induction df as [|r df IH]; [auto|].
  cbn [forallb map]. intros H. apply andb_prop in H as [Hr Hdf].
  destruct (IH Hdf) as [-> ->]. unfold in_range in Hr.
  apply andb_prop in Hr as [Hr _]. apply andb_prop in Hr as [-> ->]. auto.
Qed.

(** The entries of a column of moderate values. *)
Lemma column_summary (s : pd.Series) :
  s <> [] -> (Z.of_nat (length s) <= 2 ^ 50)%Z -> forallb moderate s = true ->
  summarises s (pd.mean s) (pd.std 0 s).
Proof.
  intros Hne Hlen Hs. pose proof (moderate_column s Hs) as HB.
  assert (Hb : 0 <= bpow 333 <= bpow 400).
  { split; [pose proof (bpow_pos 333); lra | apply bpow_le; lia]. }
  destruct (mean_model s (bpow 333) Hne Hlen HB Hb) as (Fm & Em & _).
  destruct (std_model s (bpow 333) Hne Hlen HB Hb) as (Fs & Es).
  unfold summarises. cbv zeta. repeat split; try assumption; apply Es.
Qed.

Lemma some_anode_nonzero (df : DataFrame) :
  forallb anode_zero df = false -> List.filter anode_nonzero df <> [].
Proof.
  induction df as [|r df IH]; [discriminate|].
  cbn [forallb List.filter]. unfold anode_zero at 1, anode_nonzero at 1.
  destruct (PrimFloat.eqb (col_delta_mass_positive_g r) 0); cbn [negb andb];
    [exact IH | discriminate].
Qed.

Lemma ratio_summary (df : DataFrame) :
  (Z.of_nat (length df) <= 2 ^ 50)%Z -> forallb in_range df = true ->
  summarises_ratio df (pd.mean (map ratio_entry df)).
Proof.
  intros Hlen Hr. unfold summarises_ratio.
  destruct (forallb anode_zero df) eqn:E.
  - now apply ratio_all_nan.
  - apply ratio_model; auto using some_anode_nonzero.
Qed.

Lemma element_finite (m : float) (s : pd.Series) :
  In m s -> forallb isfinite s = true -> isfinite m = true.
Proof. intros Hin H. apply forallb_forall with (x := m) in H; auto. Qed.

Lemma finite_cathode (df : DataFrame) :
  forallb finite_row df = true ->
  forallb isfinite (column col_delta_mass_negative_g df) = true.
Proof.
  unfold column. induction df as [|r df IH]; [auto|].
  cbn [forallb map]. intros H. apply andb_prop in H as [Hr Hdf].
  unfold finite_row in Hr. apply andb_prop in Hr as [_ ->]. now rewrite IH.
Qed.

End Entries.

(** ** Claims about the anomaly rule engine *)

(** C1. Rule A (High Cathode Loss).  [detect_anomalies] returns a list,
    and its HIGH_CATHODE_LOSS findings are, in input order, exactly one
    finding per record on which Rule A fires, attributed to that
    record's identifier: the records whose anode delta is non-zero and
    whose ratio |cathode delta| / |anode delta| reaches the merged
    [cathode_loss_ratio_threshold].  A record whose anode delta is zero
    never fires the rule, and the division never raises. *)
Theorem rule_a_high_cathode_loss (exps : list Experiment)
    (th : option (gmap string float)) :
  exists fs,
    detect_anomalies exps th = Ok fs /\
    List.filter (has_type HIGH_CATHODE_LOSS) fs
    = map (finding_a (cathode_loss_ratio_threshold th))
          (List.filter
             (fun e =>
                if PrimFloat.eqb (delta_mass_positive_g e) 0 then false
                else ge (PrimFloat.div (PrimFloat.abs (delta_mass_negative_g e))
                                       (PrimFloat.abs (delta_mass_positive_g e)))
                        (cathode_loss_ratio_threshold th))
             exps).
Proof.
  eexists. split; [apply detect_anomalies_shape|].
  rewrite filter_type_a. f_equal. apply filter_ext. intros e.
  unfold fires_rule_a, cathode_ratio, ge.
  destruct (PrimFloat.eqb (delta_mass_positive_g e) 0); reflexivity.
Qed.

(** C4. Empty input.  For the empty record sequence the overall
    statistics and the grouped statistics are the empty dictionary and,
    for every threshold configuration, [detect_anomalies] returns the
    empty list without raising. *)
Theorem empty_input_degenerates (th : option (gmap string float)) :
  basic_statistics (experiments_to_dataframe []) = ∅ /\
  grouped_statistics (experiments_to_dataframe []) = ∅ /\
  detect_anomalies [] th = Ok [].
Proof.
  split; [reflexivity|]. split; [reflexivity|].
  rewrite detect_anomalies_shape. reflexivity.
Qed.

(** C5. Finding order.  The returned list is the concatenation, in the
    iteration order of the input records, of each record's findings
    (its Rule A finding, when it fires, immediately before its Rule B
    finding, when it fires), followed by the group-level findings; no
    per-record finding is an UNSTABLE_RESULTS finding and every
    group-level finding is one. *)
Theorem finding_order (exps : list Experiment) (th : option (gmap string float)) :
  let la := cathode_loss_ratio_threshold th in
  let lb := anode_loss_threshold_g th in
  exists per_group,
    detect_anomalies exps th
    = Ok (flat_map
            (fun e =>
               (if fires_rule_a la e then [finding_a la e] else [])
               ++ (if fires_rule_b lb e then [finding_b lb e] else []))
            exps
          ++ per_group) /\
    forallb (fun a => has_type UNSTABLE_RESULTS a) per_group = true /\
    forallb (fun a => negb (has_type UNSTABLE_RESULTS a))
      (flat_map (record_findings la lb) exps) = true.
Proof.
  intros la lb. eexists. split; [apply detect_anomalies_shape|]. split.
  - apply forallb_forall. intros a Ha. apply in_flat_map in Ha as (g & _ & Ha).
    unfold group_findings in Ha. destruct (fires_rule_c _ g); [|contradiction].
    destruct Ha as [<- | []]. reflexivity.
  - apply forallb_forall. intros a Ha. apply in_flat_map in Ha as (e & _ & Ha).
    unfold record_findings in Ha. apply in_app_or in Ha as [Ha | Ha].
    + destruct (fires_rule_a la e); [|contradiction]. destruct Ha as [<- | []]. reflexivity.
    + destruct (fires_rule_b lb e); [|contradiction]. destruct Ha as [<- | []]. reflexivity.
Qed.

(** C6. Threshold independence.  Two threshold configurations that
    agree on every key other than [anode_loss_threshold_g] give the same
    HIGH_CATHODE_LOSS findings and the same UNSTABLE_RESULTS findings,
    in the same order. *)
Theorem anode_threshold_independence (exps : list Experiment)
    (th1 th2 : option (gmap string float))
    (Hagree : forall key : string,
        key <> "anode_loss_threshold_g"%string ->
        or_empty th1 !! key = or_empty th2 !! key) :
  exists fs1 fs2,
    detect_anomalies exps th1 = Ok fs1 /\
    detect_anomalies exps th2 = Ok fs2 /\
    List.filter (has_type HIGH_CATHODE_LOSS) fs1
    = List.filter (has_type HIGH_CATHODE_LOSS) fs2 /\
    List.filter (has_type UNSTABLE_RESULTS) fs1
    = List.filter (has_type UNSTABLE_RESULTS) fs2.
Proof.
  do 2 eexists. split; [apply detect_anomalies_shape|].
  split; [apply detect_anomalies_shape|].
  assert (Ha : cathode_loss_ratio_threshold th1 = cathode_loss_ratio_threshold th2).
  { unfold cathode_loss_ratio_threshold, merged_threshold. now rewrite Hagree. }
  assert (Hc : std_dev_instability_threshold_g th1 = std_dev_instability_threshold_g th2).
  { unfold std_dev_instability_threshold_g, merged_threshold. now rewrite Hagree. }
  rewrite !filter_type_a, !filter_type_c, Ha, Hc. split; reflexivity.
Qed.

Lemma anode_threshold_independence_witness :
  (forall key : string,
      key <> "anode_loss_threshold_g"%string ->
      or_empty None !! key
      = or_empty (Some {[ "anode_loss_threshold_g"%string := 0.2%float ]}) !! key) /\
  exists fs1 fs2,
    detect_anomalies [sample_experiment "E1" "KOH" "CV" 0.12 (-0.02)] None = Ok fs1 /\
    detect_anomalies [sample_experiment "E1" "KOH" "CV" 0.12 (-0.02)]
      (Some {[ "anode_loss_threshold_g"%string := 0.2%float ]}) = Ok fs2 /\
    List.filter (has_type HIGH_CATHODE_LOSS) fs1
    = List.filter (has_type HIGH_CATHODE_LOSS) fs2 /\
    List.filter (has_type UNSTABLE_RESULTS) fs1
    = List.filter (has_type UNSTABLE_RESULTS) fs2.
Proof.
  assert (H : forall key : string,
             key <> "anode_loss_threshold_g"%string ->
             or_empty None !! key
             = or_empty (Some {[ "anode_loss_threshold_g"%string := 0.2%float ]}) !! key).
  { intros key Hk. simpl. rewrite lookup_empty. symmetry.
    apply lookup_singleton_ne. congruence. }
  split; [exact H|].
  exact (anode_threshold_independence _ None _ H).
Defined.

(** C9. The combined summary uses the default thresholds.
    [summarize_analysis] returns a bundle whose [anomalies] field is the
    flattened result of [detect_anomalies] without overrides, that is
    the findings under the limits 0.5, 0.1 and 0.05. *)
Theorem summary_uses_default_thresholds (repr : string -> string)
    (exps : list Experiment) :
  exists s fs,
    summarize_analysis repr exps = Ok s /\
    detect_anomalies exps None = Ok fs /\
    anomalies s = map asdict fs /\
    fs = flat_map (record_findings 0.5 0.1) exps
         ++ flat_map (group_findings 0.05) (groupby (experiments_to_dataframe exps)).
Proof.
  unfold summarize_analysis. rewrite detect_anomalies_shape.
  do 2 eexists. split; [reflexivity|]. split; [reflexivity|].
  split; reflexivity.
Qed.

(** C7. Exact boundary.  For two records of group ("KOH", "CV") with
    anode deltas 0.10 and 0.20 and an instability threshold of 0.05, the
    population standard deviation of the group's anode deltas is 0.05
    and [detect_anomalies] emits the UNSTABLE_RESULTS finding of
    GROUP-KOH-CV. *)
Theorem boundary_scenario (e1 e2 : Experiment) (th : option (gmap string float))
    (Hel1 : electrolyte e1 = "KOH"%string) (Hmo1 : mode e1 = "CV"%string)
    (Hel2 : electrolyte e2 = "KOH"%string) (Hmo2 : mode e2 = "CV"%string)
    (Hd1 : delta_mass_positive_g e1 = 0.10%float)
    (Hd2 : delta_mass_positive_g e2 = 0.20%float)
    (Hth : or_empty th !! "std_dev_instability_threshold_g"%string = Some 0.05%float) :
  pd.std 0 [0.10; 0.20]%float = 0.05%float /\
  exists fs,
    detect_anomalies [e1; e2] th = Ok fs /\
    In {| anomaly_experiment_id := "GROUP-KOH-CV";
          anomaly_type := UNSTABLE_RESULTS;
          message := MsgUnstable "KOH" "CV" 0.05 0.05 |} fs.
Proof.
  split; [reflexivity|].
  eexists. split; [apply detect_anomalies_shape|].
  apply in_or_app. right.
  unfold std_dev_instability_threshold_g, merged_threshold. rewrite Hth.
  destruct e1, e2. simpl in *. subst.
  unfold groupby, group_keys, experiments_to_dataframe. simpl.
  left. reflexivity.
Qed.

Lemma boundary_scenario_witness :
  let e1 := sample_experiment "E3" "KOH" "CV" 0.10 0 in
  let e2 := sample_experiment "E4" "KOH" "CV" 0.20 0 in
  let th := Some {[ "std_dev_instability_threshold_g"%string := 0.05%float ]} in
  (electrolyte e1 = "KOH"%string /\ mode e1 = "CV"%string /\
   electrolyte e2 = "KOH"%string /\ mode e2 = "CV"%string /\
   delta_mass_positive_g e1 = 0.10%float /\ delta_mass_positive_g e2 = 0.20%float /\
   or_empty th !! "std_dev_instability_threshold_g"%string = Some 0.05%float) /\
  pd.std 0 [0.10; 0.20]%float = 0.05%float /\
  exists fs,
    detect_anomalies [e1; e2] th = Ok fs /\
    In {| anomaly_experiment_id := "GROUP-KOH-CV";
          anomaly_type := UNSTABLE_RESULTS;
          message := MsgUnstable "KOH" "CV" 0.05 0.05 |} fs.
Proof.
  intros e1 e2 th.
  split; [repeat split|].
  apply (boundary_scenario e1 e2 th); reflexivity.
Defined.

(** *** Rule C and the size of a group *)

Lemma groupby_members (df : DataFrame) (g : GroupKey * DataFrame) :
  In g (groupby df) ->
  snd g = List.filter (fun r => key_eqb (row_key r) (fst g)) df.
Proof.
  unfold groupby. intros H. apply in_map_iff in H as (k & <- & _). reflexivity.
Qed.

Lemma rule_c_silent_on_short_group (lc : float) (g : GroupKey * DataFrame) :
  PrimFloat.ltb 0 lc = true -> (length (snd g) <= 1)%nat ->
  fires_rule_c lc g = false.
Proof.
  intros Hpos Hlen. unfold fires_rule_c, group_std.
  destruct (FloatFacts.std_short (column col_delta_mass_positive_g (snd g))) as [-> | ->].
  - unfold column. now rewrite length_map.
  - now apply FloatFacts.ltb_zero_not_leb.
  - apply FloatFacts.leb_nan_r.
Qed.

(** C3, as stated, fails: with an instability threshold of zero the
    single record of group ("KOH", "CV") has standard deviation 0, which
    reaches the threshold, and Rule C fires for that one-member group. *)
Lemma rule_c_fires_on_single_member_group :
  let exps := [sample_experiment "E1" "KOH" "CV" 0.05 0] in
  let th := Some {[ "std_dev_instability_threshold_g"%string := 0%float ]} in
  length (List.filter (fun r => key_eqb (row_key r) ("KOH", "CV")%string)
                      (experiments_to_dataframe exps)) = 1%nat /\
  detect_anomalies exps th
  = Ok [ {| anomaly_experiment_id := "GROUP-KOH-CV";
            anomaly_type := UNSTABLE_RESULTS;
            message := MsgUnstable "KOH" "CV" 0 0 |} ].
Proof.
  split; [reflexivity|]. vm_compute. reflexivity.
Qed.

(** C3, amended.  When the merged [std_dev_instability_threshold_g] is
    strictly positive, the UNSTABLE_RESULTS findings of
    [detect_anomalies] are exactly the findings of the groups that have
    at least two members and on which Rule C fires; a group is the rows
    sharing its (electrolyte, mode) key, so a group with exactly one
    member never yields a finding. *)
Theorem rule_c_needs_two_members (exps : list Experiment)
    (th : option (gmap string float))
    (Hpos : PrimFloat.ltb 0 (std_dev_instability_threshold_g th) = true) :
  let lc := std_dev_instability_threshold_g th in
  let df := experiments_to_dataframe exps in
  exists fs,
    detect_anomalies exps th = Ok fs /\
    List.filter (has_type UNSTABLE_RESULTS) fs
    = map (finding_c lc)
          (List.filter (fun g => (2 <=? length (snd g))%nat && fires_rule_c lc g)
                       (groupby df)) /\
    Forall (fun g => snd g = List.filter (fun r => key_eqb (row_key r) (fst g)) df)
           (groupby df).
Proof.
  intros lc df. eexists. split; [apply detect_anomalies_shape|]. split.
  - rewrite filter_type_c. f_equal. apply filter_ext. intros g.
    fold lc. destruct (2 <=? length (snd g))%nat eqn:E; [reflexivity|].
    apply Nat.leb_gt in E. simpl.
    apply rule_c_silent_on_short_group; [exact Hpos | lia].
  - apply List.Forall_forall. intros g Hg. now apply groupby_members.
Qed.

Lemma rule_c_needs_two_members_witness :
  let exps := [sample_experiment "E1" "KOH" "CV" 0.05 0;
               sample_experiment "E2" "KOH" "CC" 0.10 0;
               sample_experiment "E3" "KOH" "CC" 0.30 0] in
  let th : option (gmap string float) := None in
  PrimFloat.ltb 0 (std_dev_instability_threshold_g th) = true /\
  let lc := std_dev_instability_threshold_g th in
  let df := experiments_to_dataframe exps in
  exists fs,
    detect_anomalies exps th = Ok fs /\
    List.filter (has_type UNSTABLE_RESULTS) fs
    = map (finding_c lc)
          (List.filter (fun g => (2 <=? length (snd g))%nat && fires_rule_c lc g)
                       (groupby df)) /\
    Forall (fun g => snd g = List.filter (fun r => key_eqb (row_key r) (fst g)) df)
           (groupby df).
Proof.
  split; [reflexivity|].
  apply (rule_c_needs_two_members _ None). reflexivity.
Defined.

(** ** Claims about the overall statistics *)

(** C2, as stated, fails: the entries are floats, and the sums behind
    them round and overflow.  On three rows with anode delta 0.1 the
    mean entry is 0.10000000000000002: it is not the arithmetic mean of
    the column, 0.1, and exceeds the maximum; the standard deviation
    entry is not zero, the population standard deviation of three equal
    values.  Two finite cathode deltas of 1.5e308 give an infinite
    cathode mean and standard deviation, and an anode delta of 1e-320
    under a cathode delta of 1 gives an infinite [ratio_mean_abs]. *)
Lemma statistics_round_and_overflow :
  (let A := column col_delta_mass_positive_g tenths_table in
   basic_statistics tenths_table
   = <["ratio_mean_abs"%string := StatFloat 0.5]>
     (<["cathode"%string := StatDict
         (<["mean"%string := (-0.05000000000000001)%float]>
         (<["std"%string := 6.9388939039072284e-18%float]>
         (<["max"%string := (-0.05)%float]>
         (<["min"%string := (-0.05)%float]> ∅))))]>
     (<["anode"%string := StatDict
         (<["mean"%string := 0.10000000000000002%float]>
         (<["std"%string := 1.3877787807814457e-17%float]>
         (<["max"%string := 0.1%float]>
         (<["min"%string := 0.1%float]> ∅))))]>
      ∅)) /\
   arithmetic_mean (map F2R A) = F2R 0.1 /\
   (F2R 0.1 < F2R 0.10000000000000002)%R /\
   PrimFloat.ltb (pd.max A) 0.10000000000000002 = true /\
   population_std (map F2R A) = 0%R /\
   (0 < F2R 1.3877787807814457e-17)%R) /\
  (forallb finite_row overflow_table = true /\
   pd.mean (column col_delta_mass_negative_g overflow_table) = infinity /\
   pd.std 0 (column col_delta_mass_negative_g overflow_table) = infinity) /\
  (forallb finite_row tiny_anode_table = true /\
   basic_statistics tiny_anode_table
   = <["ratio_mean_abs"%string := StatFloat infinity]>
     (<["cathode"%string := StatDict
         (<["mean"%string := 1%float]>
         (<["std"%string := 0%float]>
         (<["max"%string := 1%float]>
         (<["min"%string := 1%float]> ∅))))]>
     (<["anode"%string := StatDict
         (<["mean"%string := 1e-320%float]>
         (<["std"%string := 0%float]>
         (<["max"%string := 1e-320%float]>
         (<["min"%string := 1e-320%float]> ∅))))]>
      ∅))) /\
  isfinite infinity = false.
Proof.
  assert (E1 : Prim2SF 0.1 = S754_finite false 7205759403792794 (-56)) by reflexivity.
  assert (E2 : Prim2SF 0.10000000000000002 = S754_finite false 7205759403792795 (-56))
    by reflexivity.
  assert (E3 : Prim2SF 1.3877787807814457e-17 = S754_finite false 4503599627370496 (-108))
    by reflexivity.
  pose proof (FloatReals.bpow_pos (-56)) as Hp. pose proof (FloatReals.bpow_pos (-108)) as Hq.
  split; [|split; [|split]].
  - cbv zeta. split; [by_vm|].
    change (column col_delta_mass_positive_g tenths_table)
      with [0.1%float; 0.1%float; 0.1%float].
    assert (Hmean : arithmetic_mean (map F2R [0.1%float; 0.1%float; 0.1%float]) = F2R 0.1).
    { unfold arithmetic_mean. simpl. field. }
    split; [exact Hmean|]. split; [|split; [reflexivity|split]].
    + unfold F2R. rewrite E1, E2. cbn [SF2R cond_Zopp].
      apply Rmult_lt_compat_r; [exact Hp|]. apply IZR_lt. lia.
    + unfold population_std, population_variance. rewrite Hmean. simpl.
      replace ((F2R 0.1 - F2R 0.1) * (F2R 0.1 - F2R 0.1))%R with 0%R by ring.
      replace ((0 + (0 + (0 + 0))) / (1 + 1 + 1))%R with 0%R by field.
      apply sqrt_0.
    + unfold F2R. rewrite E3. cbn [SF2R cond_Zopp].
      apply Rmult_lt_0_compat; [apply IZR_lt; lia | exact Hq].
  - split; [reflexivity|]. split; by_vm.
  - split; [reflexivity|]. by_vm.
  - reflexivity.
Qed.

(** C2, amended.  For every non-empty table of finite deltas,
    [basic_statistics] returns, for the anode and for the cathode
    column, a mean, a standard deviation, a greatest and a least
    element of the column, and [ratio_mean_abs]; no division raises.
    On a table of at most 2^50 rows: when the deltas of a column are
    at most 1e100 in magnitude its mean is a finite float within
    [mean_error] of the arithmetic mean of the column, and its standard
    deviation a finite float between [std_lower] and [std_upper] of the
    population standard deviation (the sum of the squared deviations
    from the mean divided by the count, not by the count minus one);
    when moreover the anode deltas are zero or at least 1e-100 in
    magnitude, [ratio_mean_abs] is the mean of |cathode delta| /
    |anode delta| over the rows whose anode delta is not zero, up to
    rounding, or NaN when there is no such row. *)
Theorem overall_statistics (df : DataFrame)
    (Hne : df <> []) (Hfin : forallb finite_row df = true) :
  let A := column col_delta_mass_positive_g df in
  let C := column col_delta_mass_negative_g df in
  exists mA sA xA nA mC sC xC nC r : float,
    basic_statistics df
    = <["ratio_mean_abs"%string := StatFloat r]>
      (<["cathode"%string := StatDict
          (<["mean"%string := mC]>
          (<["std"%string := sC]>
          (<["max"%string := xC]>
          (<["min"%string := nC]> ∅))))]>
      (<["anode"%string := StatDict
          (<["mean"%string := mA]>
          (<["std"%string := sA]>
          (<["max"%string := xA]>
          (<["min"%string := nA]> ∅))))]>
       ∅)) /\
    is_maximum xA A /\ is_minimum nA A /\ is_maximum xC C /\ is_minimum nC C /\
    ((Z.of_nat (length df) <= 2 ^ 50)%Z ->
     (forallb moderate A = true -> summarises A mA sA) /\
     (forallb moderate C = true -> summarises C mC sC) /\
     (forallb in_range df = true -> summarises_ratio df r)).
Proof.
  intros A C. destruct (finite_columns df Hfin) as [HA HC]. fold A in HA. fold C in HC.
  assert (HneA : A <> []) by now apply Entries.column_nonempty.
  assert (HneC : C <> []) by now apply Entries.column_nonempty.
  exists (pd.mean A), (pd.std 0 A), (pd.max A), (pd.min A),
         (pd.mean C), (pd.std 0 C), (pd.max C), (pd.min C),
         (pd.mean (map ratio_entry df)).
  split; [now apply basic_statistics_nonempty|].
  split; [now apply max_is_maximum|]. split; [now apply min_is_minimum|].
  split; [now apply max_is_maximum|]. split; [now apply min_is_minimum|].
  intros Hlen.
  assert (HlenA : (Z.of_nat (length A) <= 2 ^ 50)%Z)
    by (subst A; now rewrite Entries.column_length).
  assert (HlenC : (Z.of_nat (length C) <= 2 ^ 50)%Z)
    by (subst C; now rewrite Entries.column_length).
  split; [|split].
  - intros Hm. now apply Entries.column_summary.
  - intros Hm. now apply Entries.column_summary.
  - intros Hr. now apply Entries.ratio_summary.
Qed.

Lemma overall_statistics_witness :
  sample_table <> [] /\ forallb finite_row sample_table = true /\
  (Z.of_nat (length sample_table) <= 2 ^ 50)%Z /\
  forallb in_range sample_table = true /\
  let A := column col_delta_mass_positive_g sample_table in
  let C := column col_delta_mass_negative_g sample_table in
  exists mA sA xA nA mC sC xC nC r : float,
    basic_statistics sample_table
    = <["ratio_mean_abs"%string := StatFloat r]>
      (<["cathode"%string := StatDict
          (<["mean"%string := mC]>
          (<["std"%string := sC]>
          (<["max"%string := xC]>
          (<["min"%string := nC]> ∅))))]>
      (<["anode"%string := StatDict
          (<["mean"%string := mA]>
          (<["std"%string := sA]>
          (<["max"%string := xA]>
          (<["min"%string := nA]> ∅))))]>
       ∅)) /\
    is_maximum xA A /\ is_minimum nA A /\ is_maximum xC C /\ is_minimum nC C /\
    summarises A mA sA /\ summarises C mC sC /\ summarises_ratio sample_table r.
Proof.
  assert (Hne : sample_table <> []) by discriminate.
  assert (Hfin : forallb finite_row sample_table = true) by reflexivity.
  assert (Hlen : (Z.of_nat (length sample_table) <= 2 ^ 50)%Z) by (vm_compute; discriminate).
  assert (Hr : forallb in_range sample_table = true) by reflexivity.
  split; [exact Hne|]. split; [exact Hfin|]. split; [exact Hlen|]. split; [exact Hr|].
  destruct (overall_statistics sample_table Hne Hfin)
    as (mA & sA & xA & nA & mC & sC & xC & nC & r & E & H1 & H2 & H3 & H4 & H).
  destruct (H Hlen) as (HA & HC & HR).
  exists mA, sA, xA, nA, mC, sC, xC, nC, r.
  split; [exact E|]. split; [exact H1|]. split; [exact H2|]. split; [exact H3|].
  split; [exact H4|].
  split; [apply HA; reflexivity|]. split; [apply HC; reflexivity | apply HR; exact Hr].
Defined.

(** C10, as stated, fails on its last part: the statistics of the
    cathode column are not always real numbers.  With an all-zero anode
    column and two finite cathode deltas of 1.5e308 the cathode sum
    overflows, and the cathode mean and standard deviation are
    infinite, while the maximum and the minimum are 1.5e308. *)
Lemma cathode_statistics_overflow :
  overflow_table <> [] /\
  forallb anode_zero overflow_table = true /\
  forallb finite_row overflow_table = true /\
  basic_statistics overflow_table
  = <["ratio_mean_abs"%string := StatFloat nan]>
    (<["cathode"%string := StatDict
        (<["mean"%string := infinity]>
        (<["std"%string := infinity]>
        (<["max"%string := 1.5e308%float]>
        (<["min"%string := 1.5e308%float]> ∅))))]>
    (<["anode"%string := StatDict
        (<["mean"%string := 0%float]>
        (<["std"%string := 0%float]>
        (<["max"%string := 0%float]>
        (<["min"%string := 0%float]> ∅))))]>
     ∅)) /\
  isfinite infinity = false.
Proof.
  split; [discriminate|]. split; [reflexivity|]. split; [reflexivity|].
  split; [by_vm | reflexivity].
Qed.

(** C10, amended.  On a non-empty table (of fewer than 2^63 rows) of
    finite deltas in which every row's anode delta is zero,
    [basic_statistics] returns a statistics dictionary without raising;
    its [ratio_mean_abs] is NaN, the mean of an empty set of
    contributions; the anode mean, standard deviation, maximum and
    minimum are all zero; the cathode maximum and minimum are a
    greatest and a least element of the cathode column, finite floats;
    and when the table has at most 2^50 rows and the cathode deltas are
    at most 1e100 in magnitude, the cathode mean and standard deviation
    are finite floats too, the arithmetic mean and the population
    standard deviation of the column up to rounding. *)
Theorem degenerate_anode_statistics (df : DataFrame)
    (Hne : df <> []) (Hzero : forallb anode_zero df = true)
    (Hlen : (Z.of_nat (length df) < 2 ^ 63)%Z)
    (Hfin : forallb finite_row df = true) :
  let C := column col_delta_mass_negative_g df in
  exists m s mx mn cm cs cmx cmn : float,
    basic_statistics df
    = <["ratio_mean_abs"%string := StatFloat nan]>
      (<["cathode"%string := StatDict
          (<["mean"%string := cm]>
          (<["std"%string := cs]>
          (<["max"%string := cmx]>
          (<["min"%string := cmn]> ∅))))]>
      (<["anode"%string := StatDict
          (<["mean"%string := m]>
          (<["std"%string := s]>
          (<["max"%string := mx]>
          (<["min"%string := mn]> ∅))))]>
       ∅)) /\
    PrimFloat.eqb m 0 = true /\ PrimFloat.eqb s 0 = true /\
    PrimFloat.eqb mx 0 = true /\ PrimFloat.eqb mn 0 = true /\
    is_maximum cmx C /\ is_minimum cmn C /\
    isfinite cmx = true /\ isfinite cmn = true /\
    ((Z.of_nat (length df) <= 2 ^ 50)%Z -> forallb moderate C = true ->
     summarises C cm cs).
Proof.
  intros C. set (A := column col_delta_mass_positive_g df).
  pose proof (anode_zero_column df Hzero) as HA. fold A in HA.
  pose proof (zero_column_notna A HA) as HnA.
  assert (HneA : A <> []) by now apply Entries.column_nonempty.
  assert (HneC : C <> []) by now apply Entries.column_nonempty.
  assert (HlenA : (Z.of_nat (length A) < 2 ^ 63)%Z)
    by (subst A; now rewrite Entries.column_length).
  destruct (finite_columns df Hfin) as [_ HnC]. fold C in HnC.
  pose proof (Entries.finite_cathode df Hfin) as HfC. fold C in HfC.
  destruct (max_is_maximum C HneC HnC) as [HxC1 HxC2].
  destruct (min_is_minimum C HneC HnC) as [HmC1 HmC2].
  exists (pd.mean A), (pd.std 0 A), (pd.max A), (pd.min A),
         (pd.mean C), (pd.std 0 C), (pd.max C), (pd.min C).
  split.
  { rewrite basic_statistics_nonempty by exact Hne. now rewrite ratio_all_nan. }
  split; [now apply mean_zero|]. split; [now apply std_zero|].
  destruct (max_is_maximum A HneA HnA) as [Hmx _].
  destruct (min_is_minimum A HneA HnA) as [Hmn _].
  split; [eapply forallb_forall in HA; eauto|].
  split; [eapply forallb_forall in HA; eauto|].
  split; [now split|]. split; [now split|].
  split; [now apply (Entries.element_finite _ C)|].
  split; [now apply (Entries.element_finite _ C)|].
  intros Hlen50 HC. apply Entries.column_summary; [exact HneC | | exact HC].
  subst C. now rewrite Entries.column_length.
Qed.

Lemma degenerate_anode_statistics_witness :
  zero_anode_table <> [] /\
  forallb anode_zero zero_anode_table = true /\
  (Z.of_nat (length zero_anode_table) < 2 ^ 63)%Z /\
  forallb finite_row zero_anode_table = true /\
  let C := column col_delta_mass_negative_g zero_anode_table in
  (Z.of_nat (length zero_anode_table) <= 2 ^ 50)%Z /\
  forallb moderate C = true /\
  exists m s mx mn cm cs cmx cmn : float,
    basic_statistics zero_anode_table
    = <["ratio_mean_abs"%string := StatFloat nan]>
      (<["cathode"%string := StatDict
          (<["mean"%string := cm]>
          (<["std"%string := cs]>
          (<["max"%string := cmx]>
          (<["min"%string := cmn]> ∅))))]>
      (<["anode"%string := StatDict
          (<["mean"%string := m]>
          (<["std"%string := s]>
          (<["max"%string := mx]>
          (<["min"%string := mn]> ∅))))]>
       ∅)) /\
    PrimFloat.eqb m 0 = true /\ PrimFloat.eqb s 0 = true /\
    PrimFloat.eqb mx 0 = true /\ PrimFloat.eqb mn 0 = true /\
    is_maximum cmx C /\ is_minimum cmn C /\
    isfinite cmx = true /\ isfinite cmn = true /\
    summarises C cm cs.
Proof.
  assert (Hne : zero_anode_table <> []) by discriminate.
  assert (Hz : forallb anode_zero zero_anode_table = true) by reflexivity.
  assert (Hlen : (Z.of_nat (length zero_anode_table) < 2 ^ 63)%Z) by reflexivity.
  assert (Hlen50 : (Z.of_nat (length zero_anode_table) <= 2 ^ 50)%Z)
    by (vm_compute; discriminate).
  assert (Hfin : forallb finite_row zero_anode_table = true) by reflexivity.
  split; [exact Hne|]. split; [exact Hz|]. split; [exact Hlen|]. split; [exact Hfin|].
  cbv zeta. split; [exact Hlen50|]. split; [reflexivity|].
  destruct (degenerate_anode_statistics zero_anode_table Hne Hz Hlen Hfin)
    as (m & s & mx & mn & cm & cs & cmx & cmn & E & H1 & H2 & H3 & H4 & H5 & H6 & H7 & H8 & HC).
  exists m, s, mx, mn, cm, cs, cmx, cmn.
  repeat (split; [assumption|]). apply HC; [exact Hlen50 | reflexivity].
Defined.

(** ** Claims about the record editor *)

Module RecorderProps.

Import Recorder.

(** *** Dictionaries in insertion order *)

Lemma dict_get_set_eq (d : list (string * pyval)) (k : string) (v : pyval) :
  dict_get (dict_set d k v) k = Some v.
Proof.
  induction d as [|[k' v'] d IH]; cbn [dict_set dict_get].
  - now rewrite String.eqb_refl.
  - destruct (String.eqb k' k) eqn:E; cbn [dict_get]; now rewrite E.
Qed.

Lemma dict_get_set_ne (d : list (string * pyval)) (k k' : string) (v : pyval) :
  k <> k' -> dict_get (dict_set d k v) k' = dict_get d k'.
Proof.
  intros Hne. induction d as [|[k0 v0] d IH]; cbn [dict_set dict_get].
  - apply String.eqb_neq in Hne. now rewrite Hne.
  - destruct (String.eqb k0 k) eqn:E; cbn [dict_get]; [|now rewrite IH].
    apply String.eqb_eq in E. subst k0.
    apply String.eqb_neq in Hne. now rewrite Hne.
Qed.

Lemma dict_set_keys (d : list (string * pyval)) (k k' : string) (v : pyval) :
  In k' (map fst (dict_set d k v)) <-> k' = k \/ In k' (map fst d).
Proof.
  induction d as [|[k0 v0] d IH]; cbn [dict_set map fst In].
  - intuition.
  - destruct (String.eqb k0 k) eqn:E; cbn [map fst In].
    + apply String.eqb_eq in E. subst k0. intuition.
    + rewrite IH. intuition.
Qed.

Lemma dict_set_NoDup (d : list (string * pyval)) (k : string) (v : pyval) :
  List.NoDup (map fst d) -> List.NoDup (map fst (dict_set d k v)).
Proof.
  induction d as [|[k0 v0] d IH]; cbn [dict_set map fst]; intros H.
  - constructor; [intros []|constructor].
  - apply List.NoDup_cons_iff in H as [Hn H].
    destruct (String.eqb k0 k) eqn:E; cbn [map fst].
    + now constructor.
    + constructor; [|now apply IH].
      rewrite dict_set_keys. intros [-> | Hin]; [|contradiction].
      now rewrite String.eqb_refl in E.
Qed.

Lemma dict_get_None (d : list (string * pyval)) (k : string) :
  ~ In k (map fst d) -> dict_get d k = None.
Proof.
  induction d as [|[k0 v0] d IH]; cbn [map fst In dict_get]; intros H; [reflexivity|].
  destruct (String.eqb k0 k) eqn:E.
  - apply String.eqb_eq in E. tauto.
  - apply IH. tauto.
Qed.

Lemma dict_get_In (d : list (string * pyval)) (k : string) (v : pyval) :
  dict_get d k = Some v -> In k (map fst d).
Proof.
  induction d as [|[k0 v0] d IH]; cbn [map fst In dict_get]; [discriminate|].
  destruct (String.eqb k0 k) eqn:E; [apply String.eqb_eq in E; auto | auto].
Qed.

Section Invariant.

Variable float_of_str : string -> option float.
Variable fromisoformat : string -> option Z.
Variable orm : Orm.

Lemma delta_invariant_split (o : obj) :
  delta_invariant o <->
  delta_ok "initial_mass_positive_g" "final_mass_positive_g" "delta_mass_positive_g" o /\
  delta_ok "initial_mass_negative_g" "final_mass_negative_g" "delta_mass_negative_g" o.
Proof.
  unfold delta_invariant, delta_ok. split.
  - intros (ip & fp & ineg & fneg & ? & ? & ? & ? & ? & ?). split; eauto 6.
  - intros [(ip & fp & ? & ? & ?) (ineg & fneg & ? & ? & ?)].
    exists ip, fp, ineg, fneg. auto 10.
Qed.

Lemma parse_float_ok (v w : pyval) :
  _parse_float float_of_str v = Ok w -> numeric_ok (Some w).
Proof.
  unfold _parse_float, numeric_ok.
  destruct v as [|s|x|t|d]; try discriminate.
  - intros [= <-]. auto.
  - destruct s; [intros [= <-]; auto|].
    destruct (float_of_str _); [|discriminate]. intros [= <-]. eauto.
  - intros [= <-]. eauto.
Qed.

Lemma calculate_delta_float (a b d : pyval) :
  numeric_ok (Some a) -> numeric_ok (Some b) ->
  _calculate_delta a b = Ok d ->
  exists i f, a = PyFloat i /\ b = PyFloat f /\ d = PyFloat (PrimFloat.sub f i).
Proof.
  intros [Ha | [Ha | [i Ha]]] [Hb | [Hb | [f Hb]]]; try discriminate;
    injection Ha as ->; injection Hb as ->; try discriminate.
  intros [= <-]. eauto.
Qed.

Lemma numeric_ok_getattr (o : obj) (k : string) :
  numeric_ok (o !! k) -> numeric_ok (Some (getattr o k)).
Proof.
  unfold getattr, numeric_ok. intros [-> | [-> | [x ->]]]; eauto.
Qed.

Lemma mem_true (k : string) (ks : list string) : mem k ks = true -> In k ks.
Proof.
  unfold mem. intros H. apply existsb_exists in H as (x & Hx & E).
  apply String.eqb_eq in E. now subst.
Qed.

Lemma has_key_cons (k key : string) (value : pyval) (changes : list (string * pyval)) :
  has_key k ((key, value) :: changes) = false ->
  k <> key /\ has_key k changes = false.
Proof.
  unfold has_key. cbn [existsb fst]. intros H. apply orb_false_elim in H as [H1 H2].
  apply String.eqb_neq in H1. auto.
Qed.

(** An assignment that raises nothing stores the value of a column and
    leaves the columns alone otherwise. *)
Lemma setattr_inv (o : obj) (f : list (string * pyval)) (key : string) (value : pyval)
    (o' : obj) (f' : list (string * pyval)) :
  setattr orm (o, f) key value = Ok (o', f') ->
  (mem key COLUMNS = true /\ o' = <[key := value]> o /\ f' = f) \/
  (mem key COLUMNS = false /\ o' = o /\ f' = f ++ [(key, value)]).
Proof.
  unfold setattr. destruct (mem key COLUMNS); cbn [andb].
  - destruct (plain f); [|destruct (setattr_raises orm f key value); [discriminate|]];
      intros [= <- <-]; auto.
  - destruct (setattr_raises orm f key value); [discriminate|].
    intros [= <- <-]; auto.
Qed.

Lemma setattr_lookup (st st' : obj * list (string * pyval)) (key : string) (value : pyval) :
  setattr orm st key value = Ok st' ->
  forall k, k <> key -> fst st' !! k = fst st !! k.
Proof.
  destruct st as [o f], st' as [o' f']. intros H k Hk.
  apply setattr_inv in H as [(_ & -> & _) | (_ & -> & _)]; cbn [fst];
    [now rewrite lookup_insert_ne | reflexivity].
Qed.

(** An assignment to a column of an instance on which no other
    attribute was set. *)
Lemma setattr_column (o : obj) (key : string) (value : pyval) :
  mem key COLUMNS = true -> setattr orm (o, []) key value = Ok (<[key := value]> o, []).
Proof. intros H. unfold setattr. now rewrite H. Qed.

(** The loop of [edit_experiment] leaves alone every attribute that is
    not a key of [changes], and keeps the numeric attributes numeric. *)
Lemma apply_changes_spec (changes : list (string * pyval)) :
  forall st st' : obj * list (string * pyval),
    for_each changes (apply_change float_of_str orm) st = Ok st' ->
    (forall k, has_key k changes = false -> fst st' !! k = fst st !! k) /\
    (forall k, mem k NUMERIC_FIELDS = true ->
               numeric_ok (fst st !! k) -> numeric_ok (fst st' !! k)).
Proof.
  induction changes as [|[key value] changes IH]; intros st st' H.
  - injection H as <-. auto.
  - cbn [for_each] in H.
    destruct (apply_change float_of_str orm st (key, value)) as [st1|] eqn:E1;
      [|discriminate].
    cbn in H. destruct (IH st1 st' H) as [IHa IHb]. clear IH H.
    unfold apply_change in E1.
    assert (Hst1 : exists w,
               (mem key NUMERIC_FIELDS = true -> numeric_ok (Some w)) /\
               (st1 = st \/ setattr orm st key w = Ok st1)).
    { destruct (mem key NUMERIC_FIELDS) eqn:Enum.
      - destruct (_parse_float float_of_str value) as [w|] eqn:Ew; [|discriminate].
        cbn [mbind result_bind] in E1. exists w. split.
        + intros _. now apply parse_float_ok in Ew.
        + destruct (hasattr orm key); [now right | left; congruence].
      - cbn [mbind result_bind] in E1. exists value. split; [discriminate|].
        destruct (hasattr orm key); [now right | left; congruence]. }
    destruct Hst1 as (w & Hw & [-> | Hset]).
    + split.
      * intros k Hk. apply has_key_cons in Hk as [Hne Hk]. now apply IHa.
      * intros k Hk Hok. now apply IHb.
    + split.
      * intros k Hk. apply has_key_cons in Hk as [Hne Hk].
        rewrite IHa by exact Hk. now apply (setattr_lookup _ _ _ _ Hset).
      * intros k Hk Hok. apply IHb; [exact Hk|].
        destruct st as [o f], st1 as [o1 f1].
        apply setattr_inv in Hset as [(_ & -> & _) | (_ & -> & _)]; cbn [fst] in *;
          [|exact Hok].
        destruct (decide (key = k)) as [<- | Hne].
        -- rewrite lookup_insert_eq. now apply Hw.
        -- now rewrite lookup_insert_ne.
Qed.

(** After the loop, a recomputed delta agrees with the masses, and an
    electrode none of whose keys is in [changes] keeps its invariant. *)
Lemma recompute_delta_ok (changes : list (string * pyval)) (initial final delta : string)
    (st st' : obj * list (string * pyval)) :
  numeric_ok (fst st !! initial) -> numeric_ok (fst st !! final) ->
  initial <> delta -> final <> delta -> mem delta COLUMNS = true ->
  (existsb (fun k => has_key k changes) [initial; final] = false ->
   delta_ok initial final delta (fst st)) ->
  recompute orm changes initial final delta st = Ok st' ->
  delta_ok initial final delta (fst st') /\
  (forall k, k <> delta -> fst st' !! k = fst st !! k).
Proof.
  intros Hi Hf Hid Hfd Hcol Hkeep H. unfold recompute in H.
  destruct (existsb (fun k => has_key k changes) [initial; final]).
  - destruct (_calculate_delta (getattr (fst st) initial) (getattr (fst st) final))
      as [d|] eqn:E; [|discriminate].
    cbn [mbind result_bind] in H.
    apply calculate_delta_float in E as (i & f & Ei & Ef & ->);
      [|now apply numeric_ok_getattr..].
    destruct st as [o fo], st' as [o' fo']. cbn [fst] in *.
    apply setattr_inv in H as [(_ & -> & _) | (Hc & _)]; [|congruence].
    split.
    + exists i, f. rewrite !lookup_insert_ne, lookup_insert_eq by congruence.
      unfold getattr in Ei, Ef.
      destruct (o !! initial) as [vi|]; [|discriminate].
      destruct (o !! final) as [vf|]; [|discriminate]. now subst.
    + intros k Hk. now rewrite lookup_insert_ne.
  - injection H as <-. auto.
Qed.

Lemma delta_ok_ext (initial final delta : string) (o o' : obj) :
  o' !! initial = o !! initial -> o' !! final = o !! final -> o' !! delta = o !! delta ->
  delta_ok initial final delta o -> delta_ok initial final delta o'.
Proof.
  intros Hi Hf Hd (i & f & ? & ? & ?). exists i, f. rewrite Hi, Hf, Hd. auto.
Qed.

Lemma delta_ok_numeric (initial final delta : string) (o : obj) :
  delta_ok initial final delta o -> numeric_ok (o !! initial) /\ numeric_ok (o !! final).
Proof.
  intros (i & f & -> & -> & _). unfold numeric_ok. split; right; right; eauto.
Qed.

(** What a successful [edit_experiment] went through. *)
Lemma edit_experiment_inv (session : list obj) (experiment_id : string)
    (changes : list (string * pyval)) (e' : obj) (session' : list obj) :
  edit_experiment float_of_str orm session experiment_id changes = Ok (e', session') ->
  exists o st1 st2 f3,
    List.filter (is_experiment experiment_id) session = [o] /\
    for_each changes (apply_change float_of_str orm) (o, []) = Ok st1 /\
    recompute orm changes "initial_mass_positive_g" "final_mass_positive_g"
      "delta_mass_positive_g" st1 = Ok st2 /\
    recompute orm changes "initial_mass_negative_g" "final_mass_negative_g"
      "delta_mass_negative_g" st2 = Ok (e', f3) /\
    session' = store experiment_id e' session.
Proof.
  unfold edit_experiment. intros H.
  destruct (has_key "experiment_id" changes); [discriminate|].
  destruct (List.filter (is_experiment experiment_id) session) as [|o [|? ?]] eqn:Ef;
    try discriminate.
  destruct (for_each changes (apply_change float_of_str orm) (o, [])) as [st1|] eqn:E1;
    [|discriminate].
  cbn [mbind result_bind] in H.
  destruct (recompute orm changes "initial_mass_positive_g" "final_mass_positive_g"
              "delta_mass_positive_g" st1) as [st2|] eqn:E2; [|discriminate].
  cbn [mbind result_bind] in H.
  destruct (recompute orm changes "initial_mass_negative_g" "final_mass_negative_g"
              "delta_mass_negative_g" st2) as [[o3 f3]|] eqn:E3; [|discriminate].
  cbn [mbind result_bind] in H.
  match type of H with
  | match ?c with _ => _ end = _ => destruct c; [discriminate|]
  end.
  injection H as <- <-. exists o, st1, st2, f3. auto.
Qed.

(** X13.  An edit that names no delta key keeps the invariant: a
    changed mass forces the recomputation of its delta. *)
Theorem edit_experiment_keeps_invariant (session : list obj) (experiment_id : string)
    (changes : list (string * pyval)) (e' : obj) (session' : list obj) :
  Forall delta_invariant session ->
  has_key "delta_mass_positive_g" changes = false ->
  has_key "delta_mass_negative_g" changes = false ->
  edit_experiment float_of_str orm session experiment_id changes = Ok (e', session') ->
  delta_invariant e'.
Proof.
  intros Hall Hdp Hdn H.
  apply edit_experiment_inv in H as (o & st1 & st2 & f3 & Ef & E1 & E2 & E3 & _).
  assert (Ho : delta_invariant o).
  { rewrite List.Forall_forall in Hall. apply Hall.
    apply (proj1 (filter_In (is_experiment experiment_id) o session)).
    rewrite Ef. now left. }
  apply delta_invariant_split in Ho as [Hp Hn].
  destruct (apply_changes_spec changes _ _ E1) as [Hsame Hnum]. cbn [fst] in Hsame, Hnum.
  destruct (delta_ok_numeric _ _ _ _ Hp) as [Hpi Hpf].
  destruct (delta_ok_numeric _ _ _ _ Hn) as [Hni Hnf].
  apply recompute_delta_ok in E2 as [Hp2 Hsame2];
    [| now apply Hnum | now apply Hnum | discriminate | discriminate | reflexivity |].
  2:{ intros Hrp. cbn [existsb] in Hrp.
      apply orb_false_elim in Hrp as [Hk1 Hrp]. apply orb_false_elim in Hrp as [Hk2 _].
      apply (delta_ok_ext _ _ _ o); auto. }
  apply recompute_delta_ok in E3 as [Hn3 Hsame3];
    [| rewrite Hsame2 by discriminate; now apply Hnum
     | rewrite Hsame2 by discriminate; now apply Hnum
     | discriminate | discriminate | reflexivity |].
  2:{ intros Hrn. cbn [existsb] in Hrn.
      apply orb_false_elim in Hrn as [Hk1 Hrn]. apply orb_false_elim in Hrn as [Hk2 _].
      apply (delta_ok_ext _ _ _ o); rewrite ?Hsame2 by discriminate; auto. }
  cbn [fst] in Hn3, Hsame3.
  apply delta_invariant_split. split; [|exact Hn3].
  apply (delta_ok_ext _ _ _ (fst st2)); auto; apply Hsame3; discriminate.
Qed.

(** The loop over [data.items()] keeps the keys distinct and the
    numeric fields numeric. *)
Lemma parse_items_numeric (data : list (string * pyval)) :
  forall parsed parsed' : list (string * pyval),
    for_each data (parse_item float_of_str) parsed = Ok parsed' ->
    List.NoDup (map fst parsed) ->
    (forall k, mem k NUMERIC_FIELDS = true -> numeric_ok (dict_get parsed k)) ->
    List.NoDup (map fst parsed') /\
    forall k, mem k NUMERIC_FIELDS = true -> numeric_ok (dict_get parsed' k).
Proof.
  induction data as [|[key value] data IH]; intros parsed parsed' H Hnd Hok.
  - injection H as <-. auto.
  - cbn [for_each] in H.
    destruct (parse_item float_of_str parsed (key, value)) as [p1|] eqn:E1; [|discriminate].
    cbn [mbind result_bind] in H. apply (IH p1 parsed' H); clear IH H.
    + unfold parse_item in E1. destruct (mem key NUMERIC_FIELDS).
      * destruct (_parse_float float_of_str value); [|discriminate].
        injection E1 as <-. now apply dict_set_NoDup.
      * injection E1 as <-. now apply dict_set_NoDup.
    + unfold parse_item in E1. intros k Hk.
      destruct (mem key NUMERIC_FIELDS) eqn:Enum.
      * destruct (_parse_float float_of_str value) as [w|] eqn:Ew; [|discriminate].
        cbn in E1. injection E1 as <-. apply parse_float_ok in Ew.
        destruct (decide (key = k)) as [<- | Hne];
          [now rewrite dict_get_set_eq | rewrite dict_get_set_ne by exact Hne; auto].
      * injection E1 as <-. rewrite dict_get_set_ne; [auto|]. intros ->. congruence.
Qed.

Lemma required_float (parsed : list (string * pyval)) (k : string) :
  numeric_ok (dict_get parsed k) -> is_none (get parsed k) = false ->
  exists x, dict_get parsed k = Some (PyFloat x).
Proof.
  unfold get. intros [E | [E | [x E]]]; rewrite E; try discriminate. eauto.
Qed.

(** The constructor stores the value of each keyword that is a column,
    and sets no other column. *)
Lemma init_columns (kwargs : list (string * pyval)) :
  forall st st' : obj * list (string * pyval),
    List.NoDup (map fst kwargs) ->
    for_each kwargs
      (fun instance '(k, v) =>
         if hasattr_class orm k then setattr orm instance k v else Raise TypeError)
      st = Ok st' ->
    forall k,
      fst st' !! k
      = if mem k COLUMNS then
          match dict_get kwargs k with
          | Some v => Some v
          | None => fst st !! k
          end
        else fst st !! k.
Proof.
  induction kwargs as [|[k0 v0] kwargs IH]; intros st st' Hnd H k.
  - injection H as <-. cbn [dict_get]. now destruct (mem k COLUMNS).
  - cbn [map fst] in Hnd. apply List.NoDup_cons_iff in Hnd as [Hn Hnd].
    cbn [for_each] in H. destruct (hasattr_class orm k0); [|discriminate].
    destruct (setattr orm st k0 v0) as [st1|] eqn:E1; [|discriminate].
    cbn [mbind result_bind] in H. rewrite (IH st1 st' Hnd H k). clear IH H.
    cbn [dict_get]. destruct st as [o f], st1 as [o1 f1]. cbn [fst].
    destruct (String.eqb k0 k) eqn:E.
    + apply String.eqb_eq in E. subst k0. rewrite (dict_get_None kwargs k Hn).
      apply setattr_inv in E1 as [(Hc & -> & _) | (Hc & -> & _)]; rewrite Hc;
        [apply lookup_insert_eq | reflexivity].
    + apply String.eqb_neq in E.
      pose proof (setattr_lookup _ _ _ _ E1 k ltac:(congruence)) as Hl.
      cbn [fst] in Hl. now rewrite Hl.
Qed.

(** What a successful [add_experiment] went through. *)
Lemma add_experiment_inv (session : list obj) (data : list (string * pyval))
    (e : obj) (session' : list obj) :
  add_experiment float_of_str fromisoformat orm session data = Ok (e, session') ->
  exists parsed ip fp ineg fneg,
    dict_get parsed "initial_mass_positive_g" = Some (PyFloat ip) /\
    dict_get parsed "final_mass_positive_g" = Some (PyFloat fp) /\
    dict_get parsed "initial_mass_negative_g" = Some (PyFloat ineg) /\
    dict_get parsed "final_mass_negative_g" = Some (PyFloat fneg) /\
    (forall k, k <> "date_time"%string -> mem k COLUMNS = true ->
       e !! k
       = dict_get (dict_set (dict_set parsed "delta_mass_positive_g"
                               (PyFloat (PrimFloat.sub fp ip)))
                     "delta_mass_negative_g" (PyFloat (PrimFloat.sub fneg ineg))) k) /\
    session' = session ++ [e].
Proof.
  unfold add_experiment. intros H.
  destruct (for_each data (parse_item float_of_str) []) as [parsed|] eqn:E1; [|discriminate].
  cbn [mbind result_bind] in H.
  destruct (parse_items_numeric data [] parsed E1 ltac:(constructor)
              ltac:(intros k _; now left)) as [Hnd Hnum].
  cbn [for_each required_fields mbind result_bind] in H.
  repeat match type of H with
         | context [is_none (get parsed ?k)] =>
             let E := fresh "Ereq" in
             destruct (is_none (get parsed k)) eqn:E; [discriminate|];
             apply required_float in E; [|apply Hnum; reflexivity];
             cbn [mbind result_bind] in H
         end.
  destruct Ereq as [ip Eip], Ereq0 as [fp Efp], Ereq1 as [ineg Eineg], Ereq2 as [fneg Efneg].
  unfold dict_getitem in H. rewrite Eip, Efp in H.
  cbn [mbind result_bind _calculate_delta] in H.
  rewrite !dict_get_set_ne, Eineg, Efneg in H by discriminate.
  cbn [mbind result_bind _calculate_delta] in H.
  set (p2 := dict_set (dict_set parsed _ _) _ _) in H.
  assert (Hnd2 : List.NoDup (map fst p2)) by (subst p2; now do 2 apply dict_set_NoDup).
  match type of H with
  | mbind _ ?c = _ => destruct c as [p3|] eqn:E3; [|discriminate]
  end.
  cbn [mbind result_bind] in H.
  assert (Hp3 : List.NoDup (map fst p3) /\
                forall k, k <> "date_time"%string -> dict_get p3 k = dict_get p2 k).
  { destruct (get p2 "date_time") as [|s| | |]; try (injection E3 as <-; auto).
    destruct (fromisoformat s); [|discriminate]. injection E3 as <-.
    split; [now apply dict_set_NoDup|]. intros k Hk. now rewrite dict_get_set_ne. }
  destruct Hp3 as [Hnd3 Hsame].
  destruct (Experiment_init orm p3) as [[o3 f3]|] eqn:E4; [|discriminate].
  cbn [mbind result_bind] in H.
  destruct (commit orm session o3 f3); [discriminate|]. injection H as <- <-.
  exists parsed, ip, fp, ineg, fneg. do 4 (split; [assumption|]).
  split; [|reflexivity]. intros k Hk Hc.
  pose proof (init_columns p3 _ _ Hnd3 E4 k) as Hinit. cbn [fst] in Hinit.
  rewrite Hinit, Hc, lookup_empty, Hsame by exact Hk. subst p2.
  match goal with |- match ?x with _ => _ end = _ => now destruct x end.
Qed.

(** X12.  [add_experiment] establishes the invariant: whenever it
    returns a record, the four masses are floats and each stored delta
    is the final minus the initial mass. *)
Theorem add_experiment_invariant (session : list obj) (data : list (string * pyval))
    (e : obj) (session' : list obj) :
  add_experiment float_of_str fromisoformat orm session data = Ok (e, session') ->
  delta_invariant e.
Proof.
  intros H.
  apply add_experiment_inv in H
    as (parsed & ip & fp & ineg & fneg & Eip & Efp & Eineg & Efneg & He & _).
  exists ip, fp, ineg, fneg.
  rewrite !He by (discriminate || reflexivity).
  rewrite dict_get_set_eq, !dict_get_set_ne by discriminate.
  rewrite dict_get_set_eq. auto 10.
Qed.

End Invariant.

(** C8.  [add_experiment] establishes the delta-mass invariant, but
    [edit_experiment] called with the key [delta_mass_positive_g] alone
    stores the given value without recomputation: the record created
    with masses 1.0 and 0.9 (delta about -0.1) is returned and stored
    with the same masses and a delta of 5.0, so the invariant is lost. *)
Theorem edit_experiment_delta_drift (float_of_str : string -> option float)
    (fromisoformat : string -> option Z) (orm : Orm) :
  add_experiment float_of_str fromisoformat orm [] sample_data
  = Ok (sample_record, [sample_record]) /\
  delta_invariant sample_record /\
  edit_experiment float_of_str orm [sample_record] "E1"
    [("delta_mass_positive_g"%string, PyFloat 5.0)]
  = Ok (drifted_record, [drifted_record]) /\
  drifted_record !! "initial_mass_positive_g"%string = Some (PyFloat 1.0) /\
  drifted_record !! "final_mass_positive_g"%string = Some (PyFloat 0.9) /\
  drifted_record !! "delta_mass_positive_g"%string = Some (PyFloat 5.0) /\
  ~ delta_invariant drifted_record.
Proof.
  assert (Hi1 : drifted_record !! "initial_mass_positive_g"%string = Some (PyFloat 1.0))
    by by_vm.
  assert (Hf1 : drifted_record !! "final_mass_positive_g"%string = Some (PyFloat 0.9))
    by by_vm.
  assert (Hd1 : drifted_record !! "delta_mass_positive_g"%string = Some (PyFloat 5.0))
    by by_vm.
  split; [by_vm|].
  split.
  { exists 1.0%float, 0.9%float, 2.0%float, 2.05%float. repeat split; by_vm. }
  split; [by_vm|].
  do 3 (split; [assumption|]).
  intros (ip & fp & ineg & fneg & Hi & Hf & _ & _ & Hd & _).
  rewrite Hi1 in Hi. rewrite Hf1 in Hf. rewrite Hd1 in Hd.
  assert (ip = 1.0%float) as -> by congruence.
  assert (fp = 0.9%float) as -> by congruence.
  assert (Hd' : 5.0%float = PrimFloat.sub 0.9 1.0) by congruence.
  apply (f_equal Prim2SF) in Hd'. vm_compute in Hd'. discriminate.
Qed.

End RecorderProps.

(** * Further properties of the code *)

(** ** Signs of binary64 results *)

Section FloatSigns.

Local Open Scope Z_scope.

Lemma leb_true_notna (x y : float) :
  PrimFloat.leb x y = true -> pd.isna x = false /\ pd.isna y = false.
Proof.
  rewrite leb_spec, !isna_false. unfold SFleb, SFcompare.
  destruct (Prim2SF x), (Prim2SF y); try discriminate; split; discriminate.
Qed.

Lemma leb_lower (l l' x : float) :
  PrimFloat.leb l l' = true -> PrimFloat.leb l' x = true -> PrimFloat.leb l x = true.
Proof.
  intros H1 H2. destruct (leb_true_notna _ _ H1), (leb_true_notna _ _ H2).
  now apply (leb_trans l l' x).
Qed.

Lemma binary_round_aux_sign (s : bool) (m e : Z) (l : location) :
  0 <= m ->
  match binary_round_aux prec emax s m e l with
  | S754_zero s' | S754_finite s' _ _ | S754_infinity s' => s' = s
  | S754_nan => False
  end.
Proof.
  intros Hm. unfold binary_round_aux.
  pose proof (shr_fexp_nonneg m e l Hm) as H1.
  destruct (shr_fexp prec emax m e l) as [mrs' e']. simpl fst in H1.
  pose proof (round_nearest_even_nonneg _ (loc_of_shr_record mrs') H1) as H2.
  pose proof (shr_fexp_nonneg _ e' loc_Exact H2) as H3.
  destruct (shr_fexp prec emax _ e' loc_Exact) as [mrs'' e'']. simpl fst in H3.
  destruct (shr_m mrs'') as [|q|q]; try lia; try reflexivity.
  destruct (e'' <=? emax - prec); reflexivity.
Qed.

Lemma not_negative_leb (x : float) :
  SFnot_negative (Prim2SF x) -> pd.isna x = false -> PrimFloat.leb 0 x = true.
Proof.
  rewrite isna_false, leb_spec. change (Prim2SF 0) with (S754_zero false).
  destruct (Prim2SF x) as [s|s| |s m e]; simpl; intros Hs Hn; try congruence;
    subst; reflexivity.
Qed.

Lemma leb_not_negative (x : float) :
  PrimFloat.leb 0 x = true -> SFnot_negative (Prim2SF x).
Proof.
  rewrite leb_spec. change (Prim2SF 0) with (S754_zero false).
  destruct (Prim2SF x) as [s|s| |s m e]; simpl; try destruct s; try discriminate; auto.
Qed.

Lemma sqrt_not_negative (x : float) : SFnot_negative (Prim2SF (PrimFloat.sqrt x)).
Proof.
  rewrite sqrt_spec. unfold SF64sqrt, SFsqrt.
  destruct (Prim2SF x) as [s|s| |s m e]; simpl; auto.
  - destruct s; simpl; auto.
  - destruct s; simpl; auto.
    unfold SFsqrt_core_binary.
    set (m' := match _ with Z0 => Zpos m | Zpos _ => _ | Zneg _ => 0 end).
    destruct (Z.sqrtrem m') as [q r] eqn:Eq.
    assert (Hq : 0 <= q).
    { pose proof (Z.sqrtrem_sqrt m') as E. rewrite Eq in E. simpl in E. subst q.
      apply Z.sqrt_nonneg. }
    set (loc := if r =? 0 then _ else _).
    pose proof (binary_round_aux_sign false q
                  (Z.min (fexp prec emax (Z.div2 (Zdigits2 (Zpos m) + e + 1))) (Z.div2 e))
                  loc Hq) as H.
    destruct (binary_round_aux _ _ _ _ _ _); simpl; auto.
Qed.

Lemma std_not_negative (s : pd.Series) :
  pd.isna (pd.std 0 s) = false -> PrimFloat.leb 0 (pd.std 0 s) = true.
Proof. apply not_negative_leb, sqrt_not_negative. Qed.

Lemma not_negative_spec (x : float) :
  not_negative x = true <-> SFnot_negative (Prim2SF x).
Proof.
  unfold not_negative. split.
  - intros H. apply orb_prop in H as [H | H].
    + apply isna_true in H. subst x. exact I.
    + now apply leb_not_negative.
  - intros H. destruct (pd.isna x) eqn:E; [reflexivity|]. now apply not_negative_leb.
Qed.

Lemma SFplus_not_negative (X : spec_float) : SFplus X -> SFnot_negative X.
Proof. destruct X; simpl; auto. Qed.

Lemma binary_round_sign (s : bool) (m : positive) (e : Z) :
  match binary_round prec emax s m e with
  | S754_zero s' | S754_finite s' _ _ | S754_infinity s' => s' = s
  | S754_nan => False
  end.
Proof.
  unfold binary_round. destruct (shl_align _ _ _) as [mz ez].
  apply binary_round_aux_sign. lia.
Qed.

Lemma SFadd_not_negative (X Y : spec_float) :
  SFnot_negative X -> SFnot_negative Y -> SFnot_negative (SFadd prec emax X Y).
Proof.
  destruct X as [sx|sx| |sx mx ex], Y as [sy|sy| |sy my ey]; simpl;
    intros HX HY; subst; try reflexivity; try exact I;
    try (destruct sx; exact I); try (destruct sx, sy; exact I).
  unfold binary_normalize. cbv [cond_Zopp].
  destruct (Z.pos _ + Z.pos _) eqn:E; try lia; try exact I.
  pose proof (binary_round_sign false p (Z.min ex ey)) as H.
  destruct (binary_round _ _ _ _ _); simpl; auto.
Qed.

Lemma SFmul_not_negative (X Y : spec_float) :
  SFnot_negative X -> SFnot_negative Y -> SFnot_negative (SFmul prec emax X Y).
Proof.
  destruct X as [sx|sx| |sx mx ex], Y as [sy|sy| |sy my ey]; simpl;
    intros HX HY; subst; try reflexivity; try exact I.
  pose proof (binary_round_aux_sign false (Zpos (mx * my)) (ex + ey) loc_Exact ltac:(lia)) as H.
  destruct (binary_round_aux _ _ _ _ _ _); simpl; auto.
Qed.

Lemma SFdiv_not_negative (X Y : spec_float) :
  SFnot_negative X -> SFplus Y -> SFnot_negative (SFdiv prec emax X Y).
Proof.
  destruct X as [sx|sx| |sx mx ex], Y as [sy|sy| |sy my ey]; simpl;
    intros HX HY; subst; try reflexivity; try exact I.
  pose proof (SFdiv_core_nonneg mx ex my ey) as Hq.
  destruct (SFdiv_core_binary _ _ _ _ _ _) as [[mz ez] lz]. simpl in Hq.
  pose proof (binary_round_aux_sign false mz ez lz Hq) as H.
  destruct (binary_round_aux _ _ _ _ _ _); simpl; auto.
Qed.

Lemma float_of_count_plus (n : nat) : SFplus (Prim2SF (pd.float_of_count n)).
Proof.
  unfold pd.float_of_count. rewrite of_uint63_spec.
  pose proof (Uint63.to_Z_bounded (Uint63.of_Z (Z.of_nat n))) as Hb.
  unfold binary_normalize.
  destruct (Uint63.to_Z (Uint63.of_Z (Z.of_nat n))) as [|p|p]; try lia; [reflexivity|].
  pose proof (binary_round_sign false p 0) as H.
  destruct (binary_round _ _ _ _ _); simpl; auto.
Qed.

Lemma add_not_negative (x y : float) :
  not_negative x = true -> not_negative y = true ->
  not_negative (PrimFloat.add x y) = true.
Proof. rewrite !not_negative_spec, add_spec. apply SFadd_not_negative. Qed.

Lemma sum_not_negative (s : list float) :
  Forall (fun x => not_negative x = true) s -> not_negative (pd.np_sum s) = true.
Proof.
  apply (np_sum_closed (fun x => not_negative x = true));
    [reflexivity | apply add_not_negative].
Qed.

Lemma mean_not_negative (s : pd.Series) :
  Forall (fun x => not_negative x = true) s -> not_negative (pd.mean s) = true.
Proof.
  intros H. unfold pd.mean. destruct (0 <? pd.count s)%nat; [|reflexivity].
  apply not_negative_spec. rewrite div_spec.
  apply SFdiv_not_negative; [|apply float_of_count_plus].
  apply not_negative_spec, sum_not_negative.
  unfold pd.fillna. apply List.Forall_forall. intros y Hy.
  apply in_map_iff in Hy as (x & <- & Hx).
  rewrite List.Forall_forall in H. destruct (pd.isna x); [reflexivity | now apply H].
Qed.

Lemma ratio_entry_not_negative (r : Row) : not_negative (ratio_entry r) = true.
Proof.
  unfold ratio_entry. destruct (PrimFloat.eqb (col_delta_mass_positive_g r) 0) eqn:E;
    [reflexivity|].
  apply not_negative_spec. unfold abs_ratio. rewrite div_spec, !abs_spec.
  apply SFdiv_not_negative.
  - destruct (Prim2SF (col_delta_mass_negative_g r)); simpl; auto.
  - destruct (Prim2SF (col_delta_mass_positive_g r)); simpl; auto.
Qed.

Lemma std_is_not_negative (s : pd.Series) : not_negative (pd.std 0 s) = true.
Proof. apply not_negative_spec, sqrt_not_negative. Qed.

End FloatSigns.

(** ** The partition into groups *)

Section GroupBy.

Lemma ascii_compare_lt_trans (a b c : Ascii.ascii) :
  Ascii.compare a b = Lt -> Ascii.compare b c = Lt -> Ascii.compare a c = Lt.
Proof.
  unfold Ascii.compare. rewrite !N.compare_lt_iff. apply N.lt_trans.
Qed.

Lemma string_compare_refl (s : string) : String.compare s s = Eq.
Proof.
  induction s as [|a s IH]; simpl; [reflexivity|].
  unfold Ascii.compare. now rewrite N.compare_refl.
Qed.

Lemma string_compare_lt_trans (s1 : string) :
  forall s2 s3,
    String.compare s1 s2 = Lt -> String.compare s2 s3 = Lt -> String.compare s1 s3 = Lt.
Proof.
  induction s1 as [|a s1 IH]; intros [|b s2] [|c s3]; simpl; try discriminate; auto.
  destruct (Ascii.compare a b) eqn:Eab; try discriminate;
    destruct (Ascii.compare b c) eqn:Ebc; try discriminate; intros H1 H2.
  - apply Ascii.compare_eq_iff in Eab, Ebc. subst.
    unfold Ascii.compare. rewrite N.compare_refl. eauto.
  - apply Ascii.compare_eq_iff in Eab. subst. now rewrite Ebc.
  - apply Ascii.compare_eq_iff in Ebc. subst. now rewrite Eab.
  - now rewrite (ascii_compare_lt_trans a b c).
Qed.

Lemma string_ltb_trans (s1 s2 s3 : string) :
  String.ltb s1 s2 = true -> String.ltb s2 s3 = true -> String.ltb s1 s3 = true.
Proof.
  unfold String.ltb. intros H1 H2.
  destruct (String.compare s1 s2) eqn:E1; try discriminate.
  destruct (String.compare s2 s3) eqn:E2; try discriminate.
  now rewrite (string_compare_lt_trans s1 s2 s3).
Qed.

Lemma string_ltb_irrefl (s : string) : String.ltb s s = false.
Proof. unfold String.ltb. now rewrite string_compare_refl. Qed.

Lemma string_trichotomy (s1 s2 : string) :
  String.ltb s1 s2 = false -> String.eqb s1 s2 = false -> String.ltb s2 s1 = true.
Proof.
  unfold String.ltb. rewrite (String.compare_antisym s2 s1). intros H1 H2.
  destruct (String.compare s1 s2) eqn:E; try discriminate; [|reflexivity].
  apply String.compare_eq_iff in E. apply String.eqb_neq in H2. contradiction.
Qed.

Lemma key_eqb_eq (a b : GroupKey) : key_eqb a b = true <-> a = b.
Proof.
  destruct a as [a1 a2], b as [b1 b2]. unfold key_eqb. simpl.
  rewrite andb_true_iff, !String.eqb_eq. split; [intros [-> ->] | intros [= -> ->]]; auto.
Qed.

Lemma key_eqb_refl (a : GroupKey) : key_eqb a a = true.
Proof. now apply key_eqb_eq. Qed.

Lemma key_lt_irrefl (a : GroupKey) : ~ key_lt a a.
Proof.
  unfold key_lt, key_ltb. rewrite !string_ltb_irrefl, andb_false_r. discriminate.
Qed.

Lemma key_lt_trans (a b c : GroupKey) : key_lt a b -> key_lt b c -> key_lt a c.
Proof.
  destruct a as [a1 a2], b as [b1 b2], c as [c1 c2]. unfold key_lt, key_ltb. simpl.
  rewrite !orb_true_iff, !andb_true_iff, !String.eqb_eq.
  intros [H1 | [-> H1]] [H2 | [-> H2]]; eauto using string_ltb_trans.
Qed.

Lemma key_trichotomy (a b : GroupKey) :
  key_eqb a b = false -> key_ltb a b = false -> key_lt b a.
Proof.
  destruct a as [a1 a2], b as [b1 b2]. unfold key_lt, key_eqb, key_ltb. simpl.
  intros He Hl. apply orb_false_elim in Hl as [Hl1 Hl2].
  destruct (String.eqb a1 b1) eqn:E1.
  - apply String.eqb_eq in E1. subst b1. simpl in *.
    rewrite String.eqb_refl, string_ltb_irrefl. simpl.
    now apply string_trichotomy.
  - rewrite (string_trichotomy a1 b1 Hl1 E1). reflexivity.
Qed.

Lemma insert_key_In (k k' : GroupKey) (ks : list GroupKey) :
  In k' (insert_key k ks) <-> k' = k \/ In k' ks.
Proof.
  induction ks as [|h ks IH]; simpl; [intuition|].
  destruct (key_eqb k h) eqn:E.
  - apply key_eqb_eq in E. subst h. simpl. intuition.
  - destruct (key_ltb k h); simpl; rewrite ?IH; intuition.
Qed.

Lemma insert_key_sorted (k : GroupKey) (ks : list GroupKey) :
  StronglySorted key_lt ks -> StronglySorted key_lt (insert_key k ks).
Proof.
  induction 1 as [|h ks Hs IH Hh]; simpl.
  - repeat constructor.
  - destruct (key_eqb k h) eqn:E; [now constructor|].
    destruct (key_ltb k h) eqn:L.
    + constructor; [now constructor|]. constructor; [exact L|].
      eapply List.Forall_impl; [|exact Hh]. intros x Hx. now apply (key_lt_trans k h x).
    + constructor; [exact IH|]. apply List.Forall_forall. intros x Hx.
      apply insert_key_In in Hx as [-> | Hx].
      * now apply key_trichotomy.
      * rewrite List.Forall_forall in Hh. now apply Hh.
Qed.

Lemma insert_key_length (k : GroupKey) (ks : list GroupKey) :
  (length (insert_key k ks) <= S (length ks))%nat.
Proof.
  induction ks as [|h ks IH]; simpl; [lia|].
  destruct (key_eqb k h); [simpl; lia|]. destruct (key_ltb k h); simpl; lia.
Qed.

Lemma group_keys_fold (df : DataFrame) :
  forall ks,
    StronglySorted key_lt ks ->
    let ks' := fold_left (fun ks r => insert_key (row_key r) ks) df ks in
    StronglySorted key_lt ks' /\
    (forall k, In k ks' <-> In k ks \/ exists r, In r df /\ row_key r = k) /\
    (length ks' <= length ks + length df)%nat.
Proof.
  induction df as [|r df IH]; intros ks Hs; simpl.
  - split; [exact Hs|]. split; [|lia]. intros k. split; [auto|].
    intros [H | (r & [] & _)]. exact H.
  - destruct (IH (insert_key (row_key r) ks) (insert_key_sorted _ _ Hs)) as (H1 & H2 & H3).
    split; [exact H1|]. split.
    + intros k. rewrite H2, insert_key_In. split.
      * intros [[-> | H] | (r' & Hr' & E)]; eauto 6.
      * intros [H | (r' & [<- | Hr'] & E)]; eauto 6.
    + pose proof (insert_key_length (row_key r) ks). lia.
Qed.

Lemma group_keys_sorted (df : DataFrame) : StronglySorted key_lt (group_keys df).
Proof. apply (group_keys_fold df []). constructor. Qed.

Lemma group_keys_In (df : DataFrame) (k : GroupKey) :
  In k (group_keys df) <-> exists r, In r df /\ row_key r = k.
Proof.
  destruct (group_keys_fold df [] ltac:(constructor)) as (_ & H & _).
  unfold group_keys. rewrite H. simpl. intuition.
Qed.

Lemma group_keys_length (df : DataFrame) : (length (group_keys df) <= length df)%nat.
Proof.
  destruct (group_keys_fold df [] ltac:(constructor)) as (_ & _ & H). exact H.
Qed.

Lemma sorted_NoDup (ks : list GroupKey) : StronglySorted key_lt ks -> List.NoDup ks.
Proof.
  induction 1 as [|h ks Hs IH Hh]; constructor; [|exact IH].
  intros Hin. rewrite List.Forall_forall in Hh. apply (key_lt_irrefl h). now apply Hh.
Qed.

End GroupBy.

Section Partition.

Lemma filter_split {A} (p : A -> bool) (l : list A) :
  Permutation (List.filter p l ++ List.filter (fun x => negb (p x)) l) l.
Proof.
  induction l as [|x l IH]; simpl; [constructor|].
  destruct (p x); simpl.
  - now constructor.
  - apply Permutation_sym, Permutation_cons_app, Permutation_sym, IH.
Qed.

Lemma filter_filter_comm {A} (p q : A -> bool) (l : list A) :
  List.filter p (List.filter q l) = List.filter (fun x => p x && q x) l.
Proof.
  induction l as [|x l IH]; simpl; [reflexivity|].
  destruct (q x); simpl; rewrite ?andb_true_r, ?andb_false_r;
    [destruct (p x)|]; now rewrite IH.
Qed.

Lemma flat_map_ext_members {A B} (f g : A -> list B) (l : list A) :
  (forall x, In x l -> f x = g x) -> flat_map f l = flat_map g l.
Proof.
  induction l as [|x l IH]; intros H; simpl; [reflexivity|].
  rewrite (H x (or_introl eq_refl)), IH; [reflexivity|].
  intros y Hy. apply H. now right.
Qed.

Lemma rows_partition (ks : list GroupKey) :
  forall df : DataFrame,
    List.NoDup ks ->
    (forall r, In r df -> In (row_key r) ks) ->
    Permutation (flat_map (fun k => rows_of k df) ks) df.
Proof.
  induction ks as [|k ks IH]; intros df Hnd Hin; simpl.
  - destruct df as [|r df]; [constructor|]. destruct (Hin r (or_introl eq_refl)).
  - inversion Hnd as [|? ? Hk Hnd']; subst.
    set (rest := List.filter (fun r => negb (key_eqb (row_key r) k)) df).
    assert (E : flat_map (fun k' => rows_of k' df) ks
                = flat_map (fun k' => rows_of k' rest) ks).
    { apply flat_map_ext_members. intros k' Hk'. unfold rows_of, rest.
      rewrite filter_filter_comm. apply filter_ext. intros r.
      destruct (key_eqb (row_key r) k') eqn:E1; [|reflexivity].
      destruct (key_eqb (row_key r) k) eqn:E2; [|reflexivity].
      apply key_eqb_eq in E1, E2. congruence. }
    rewrite E. etransitivity; [|apply (filter_split (fun r => key_eqb (row_key r) k))].
    apply Permutation_app_head. apply IH; [exact Hnd'|].
    intros r Hr. apply List.filter_In in Hr as [Hr Hne].
    destruct (Hin r Hr) as [Ek | H]; [|exact H].
    cbv beta in Hne. now rewrite <- Ek, key_eqb_refl in Hne.
Qed.

Lemma groupby_keys (df : DataFrame) : map fst (groupby df) = group_keys df.
Proof.
  unfold groupby. rewrite List.map_map. simpl. apply List.map_id.
Qed.

Lemma groupby_rows (df : DataFrame) :
  flat_map snd (groupby df) = flat_map (fun k => rows_of k df) (group_keys df).
Proof.
  unfold groupby. generalize (group_keys df). intros ks.
  induction ks as [|k ks IH]; simpl; [reflexivity|]. now rewrite IH.
Qed.

(** X1.  The groups of [df.groupby] on (electrolyte, mode), over which
    [grouped_statistics] and Rule C iterate, partition the rows: the
    keys come in strictly increasing order, so no key comes twice; the
    groups together hold exactly the rows of the table; every group is
    non-empty; and a group holds the rows that carry its key, in row
    order. *)
Theorem groupby_partitions_rows (df : DataFrame) :
  StronglySorted key_lt (map fst (groupby df)) /\
  Permutation (flat_map snd (groupby df)) df /\
  Forall (fun g => snd g <> [] /\
                   snd g = List.filter (fun r => key_eqb (row_key r) (fst g)) df)
         (groupby df).
Proof.
  split; [rewrite groupby_keys; apply group_keys_sorted|]. split.
  - rewrite groupby_rows. apply rows_partition.
    + apply sorted_NoDup, group_keys_sorted.
    + intros r Hr. apply group_keys_In. eauto.
  - apply List.Forall_forall. intros g Hg. pose proof (groupby_members df g Hg) as E.
    split; [|exact E].
    assert (Hk : In (fst g) (group_keys df)) by (rewrite <- groupby_keys; now apply in_map).
    apply group_keys_In in Hk as (r & Hr & Hk).
    assert (Hin : In r (snd g)).
    { rewrite E. apply List.filter_In. split; [exact Hr|]. now apply key_eqb_eq. }
    intros Hnil. rewrite Hnil in Hin. destruct Hin.
Qed.

Lemma fold_insert_lookup (f : DataFrame -> Stats) (gs : list (GroupKey * DataFrame)) :
  forall (m : gmap GroupKey Stats) (k : GroupKey),
    List.NoDup (map fst gs) ->
    fold_left (fun (results : gmap GroupKey Stats) '((electrolyte, mode), group) =>
                 <[(electrolyte, mode) := f group]> results) gs m !! k
    = match List.find (fun g => key_eqb (fst g) k) gs with
      | Some g => Some (f (snd g))
      | None => m !! k
      end.
Proof.
  induction gs as [|[[el mo] group] gs IH]; intros m k Hnd; simpl; [reflexivity|].
  inversion Hnd as [|? ? Hk Hnd']; subst. rewrite IH by exact Hnd'.
  destruct (List.find (fun g => key_eqb (fst g) k) gs) as [g|] eqn:Ef.
  - apply List.find_some in Ef as [Hin Hg]. apply key_eqb_eq in Hg.
    destruct (key_eqb (el, mo) k) eqn:E; [|reflexivity].
    apply key_eqb_eq in E. exfalso. apply Hk. rewrite E, <- Hg.
    now apply in_map.
  - destruct (key_eqb (el, mo) k) eqn:E.
    + apply key_eqb_eq in E. subst k. now rewrite lookup_insert_eq.
    + rewrite lookup_insert_ne; [reflexivity|]. intros Heq. now rewrite Heq, key_eqb_refl in E.
Qed.

Lemma find_group (df : DataFrame) (k : GroupKey) :
  List.find (fun g => key_eqb (fst g) k) (groupby df)
  = if existsb (fun r => key_eqb (row_key r) k) df then Some (k, rows_of k df) else None.
Proof.
  destruct (existsb (fun r => key_eqb (row_key r) k) df) eqn:Ex.
  - apply existsb_exists in Ex as (r & Hr & Hk). apply key_eqb_eq in Hk.
    assert (Hin : In k (group_keys df)) by (apply group_keys_In; eauto).
    unfold groupby. revert Hin. generalize (group_keys df). intros ks.
    induction ks as [|k' ks IH]; intros Hin; [destruct Hin|]. simpl.
    destruct (key_eqb k' k) eqn:E.
    + apply key_eqb_eq in E. now subst.
    + destruct Hin as [-> | Hin]; [now rewrite key_eqb_refl in E | auto].
  - destruct (List.find _ (groupby df)) as [g|] eqn:Ef; [|reflexivity].
    apply List.find_some in Ef as [Hin Hg]. apply key_eqb_eq in Hg.
    assert (Hk : In k (group_keys df)).
    { rewrite <- groupby_keys, <- Hg. now apply in_map. }
    apply group_keys_In in Hk as (r & Hr & Hk).
    assert (existsb (fun r => key_eqb (row_key r) k) df = true).
    { apply existsb_exists. exists r. split; [exact Hr|]. now apply key_eqb_eq. }
    congruence.
Qed.

Lemma grouped_statistics_at (df : DataFrame) (k : GroupKey) :
  grouped_statistics df !! k
  = if existsb (fun r => key_eqb (row_key r) k) df
    then Some (basic_statistics (List.filter (fun r => key_eqb (row_key r) k) df))
    else None.
Proof.
  unfold grouped_statistics. destruct df as [|r0 df]; [reflexivity|].
  cbn [df_empty].
  rewrite (fold_insert_lookup basic_statistics).
  - rewrite find_group, lookup_empty.
    destruct (existsb _ (r0 :: df)); reflexivity.
  - rewrite groupby_keys. apply sorted_NoDup, group_keys_sorted.
Qed.

End Partition.

(** ** More on the rule engine *)

Section Findings.

(** X2.  Rule B (High Anode Loss).  The HIGH_ANODE_LOSS findings of
    [detect_anomalies] are, in input order, exactly one finding per
    record whose signed anode delta reaches the merged
    [anode_loss_threshold_g]; the rule reads no other field and does not
    depend on Rule A. *)
Theorem rule_b_high_anode_loss (exps : list Experiment)
    (th : option (gmap string float)) :
  exists fs,
    detect_anomalies exps th = Ok fs /\
    List.filter (has_type HIGH_ANODE_LOSS) fs
    = map (finding_b (anode_loss_threshold_g th))
          (List.filter (fun e => ge (delta_mass_positive_g e) (anode_loss_threshold_g th))
                       exps).
Proof.
  eexists. split; [apply detect_anomalies_shape|].
  rewrite filter_type_b. reflexivity.
Qed.

(** X3.  Rule C (Unstable Results), for every threshold.  The
    UNSTABLE_RESULTS findings are exactly one finding per group whose
    population standard deviation of the anode deltas reaches the merged
    [std_dev_instability_threshold_g], in the order of the groups, which
    is the strictly increasing order of their (electrolyte, mode)
    keys. *)
Theorem rule_c_unstable_groups (exps : list Experiment)
    (th : option (gmap string float)) :
  let lc := std_dev_instability_threshold_g th in
  let df := experiments_to_dataframe exps in
  exists fs,
    detect_anomalies exps th = Ok fs /\
    List.filter (has_type UNSTABLE_RESULTS) fs
    = map (finding_c lc)
          (List.filter
             (fun g => ge (pd.std 0 (column col_delta_mass_positive_g (snd g))) lc)
             (groupby df)) /\
    StronglySorted key_lt (map fst (groupby df)).
Proof.
  intros lc df. eexists. split; [apply detect_anomalies_shape|].
  split; [rewrite filter_type_c; reflexivity|].
  rewrite groupby_keys. apply group_keys_sorted.
Qed.

(** X4.  Unrecognised threshold keys are ignored: two override
    dictionaries that agree on the three recognised keys give the same
    result, whatever else they hold.  A misspelt key therefore leaves
    the default in force. *)
Theorem unrecognised_threshold_keys_ignored (exps : list Experiment)
    (th1 th2 : option (gmap string float))
    (Ha : or_empty th1 !! "cathode_loss_ratio_threshold"%string
          = or_empty th2 !! "cathode_loss_ratio_threshold"%string)
    (Hb : or_empty th1 !! "anode_loss_threshold_g"%string
          = or_empty th2 !! "anode_loss_threshold_g"%string)
    (Hc : or_empty th1 !! "std_dev_instability_threshold_g"%string
          = or_empty th2 !! "std_dev_instability_threshold_g"%string) :
  detect_anomalies exps th1 = detect_anomalies exps th2.
Proof.
  rewrite !detect_anomalies_shape.
  unfold cathode_loss_ratio_threshold, anode_loss_threshold_g,
    std_dev_instability_threshold_g, merged_threshold.
  now rewrite Ha, Hb, Hc.
Qed.

Lemma unrecognised_threshold_keys_ignored_witness :
  let exps := [sample_experiment "E1" "KOH" "CV" 0.12 (-0.02)] in
  let th1 := Some ({[ "anode_loss_threshold"%string := 0.01%float ]} : gmap string float) in
  or_empty th1 !! "cathode_loss_ratio_threshold"%string
  = or_empty None !! "cathode_loss_ratio_threshold"%string /\
  or_empty th1 !! "anode_loss_threshold_g"%string
  = or_empty None !! "anode_loss_threshold_g"%string /\
  or_empty th1 !! "std_dev_instability_threshold_g"%string
  = or_empty None !! "std_dev_instability_threshold_g"%string /\
  detect_anomalies exps th1 = detect_anomalies exps None.
Proof.
  intros exps th1.
  split; [reflexivity|]. split; [reflexivity|]. split; [reflexivity|].
  apply (unrecognised_threshold_keys_ignored exps th1 None); reflexivity.
Defined.

Lemma flat_map_length_le {A B} (f : A -> list B) (c : nat) (l : list A) :
  (forall x, length (f x) <= c)%nat -> (length (flat_map f l) <= c * length l)%nat.
Proof.
  intros H. induction l as [|x l IH]; simpl; [lia|].
  rewrite length_app. pose proof (H x). lia.
Qed.

(** X5.  The number of findings is bounded: at most two per-record
    findings for each record, at most one finding for each group, and no
    more groups than records; the list is never longer than three times
    the input. *)
Theorem findings_bounded (exps : list Experiment) (th : option (gmap string float)) :
  exists fs,
    detect_anomalies exps th = Ok fs /\
    (length (List.filter (fun a => negb (has_type UNSTABLE_RESULTS a)) fs)
       <= 2 * length exps)%nat /\
    (length (List.filter (has_type UNSTABLE_RESULTS) fs)
       <= length (groupby (experiments_to_dataframe exps)))%nat /\
    (length (groupby (experiments_to_dataframe exps)) <= length exps)%nat /\
    (length fs <= 3 * length exps)%nat.
Proof.
  eexists. split; [apply detect_anomalies_shape|].
  set (la := cathode_loss_ratio_threshold th). set (lb := anode_loss_threshold_g th).
  set (lc := std_dev_instability_threshold_g th).
  set (gs := groupby (experiments_to_dataframe exps)).
  assert (Hrec : (length (flat_map (record_findings la lb) exps) <= 2 * length exps)%nat).
  { apply flat_map_length_le. intros e. unfold record_findings.
    destruct (fires_rule_a la e), (fires_rule_b lb e); simpl; lia. }
  assert (Hgrp : (length (flat_map (group_findings lc) gs) <= 1 * length gs)%nat).
  { apply flat_map_length_le. intros g. unfold group_findings.
    destruct (fires_rule_c lc g); simpl; lia. }
  assert (Hgs : (length gs <= length exps)%nat).
  { subst gs. unfold groupby. rewrite length_map, <- (experiments_to_dataframe_length exps).
    apply group_keys_length. }
  split; [|split; [|split]].
  - rewrite List.filter_app, length_app.
    pose proof (List.filter_length_le (fun a => negb (has_type UNSTABLE_RESULTS a))
                  (flat_map (record_findings la lb) exps)).
    assert (E : List.filter (fun a => negb (has_type UNSTABLE_RESULTS a))
                  (flat_map (group_findings lc) gs) = []).
    { rewrite filter_flat_map. apply flat_map_nil. intros g. unfold group_findings.
      destruct (fires_rule_c lc g); reflexivity. }
    rewrite E. simpl. lia.
  - rewrite filter_type_c, length_map.
    etransitivity; [apply List.filter_length_le|]. lia.
  - exact Hgs.
  - rewrite length_app. lia.
Qed.

Lemma map_flat_map {A B C} (h : B -> C) (f : A -> list B) (l : list A) :
  map h (flat_map f l) = flat_map (fun x => map h (f x)) l.
Proof.
  induction l as [|x l IH]; simpl; [reflexivity|]. now rewrite map_app, IH.
Qed.

Lemma sublist_flat_map {A B} (f g : A -> list B) (l : list A) :
  (forall x, sublist (f x) (g x)) -> sublist (flat_map f l) (flat_map g l).
Proof.
  intros H. induction l as [|x l IH]; simpl; [constructor|].
  now apply sublist_app.
Qed.

(** X6.  Raising thresholds only removes findings.  If each of the
    three merged limits of [th] is at most the corresponding limit of
    [th'], then the (identifier, type) pairs reported under [th'] are a
    subsequence of those reported under [th]. *)
Theorem raising_thresholds_drops_findings (exps : list Experiment)
    (th th' : option (gmap string float))
    (Ha : PrimFloat.leb (cathode_loss_ratio_threshold th)
                        (cathode_loss_ratio_threshold th') = true)
    (Hb : PrimFloat.leb (anode_loss_threshold_g th) (anode_loss_threshold_g th') = true)
    (Hc : PrimFloat.leb (std_dev_instability_threshold_g th)
                        (std_dev_instability_threshold_g th') = true) :
  exists fs fs',
    detect_anomalies exps th = Ok fs /\
    detect_anomalies exps th' = Ok fs' /\
    sublist (map finding_key fs') (map finding_key fs).
Proof.
  do 2 eexists. split; [apply detect_anomalies_shape|].
  split; [apply detect_anomalies_shape|].
  rewrite !map_app, !map_flat_map. apply sublist_app; apply sublist_flat_map.
  - intros e. unfold record_findings, fires_rule_a, fires_rule_b.
    destruct (PrimFloat.eqb (delta_mass_positive_g e) 0); cbn [negb andb app].
    + destruct (PrimFloat.leb (anode_loss_threshold_g th') (delta_mass_positive_g e)) eqn:E';
        [rewrite (leb_lower _ _ _ Hb E'); reflexivity|].
      destruct (PrimFloat.leb (anode_loss_threshold_g th) (delta_mass_positive_g e)); simpl;
        [apply sublist_nil_l | constructor].
    + destruct (PrimFloat.leb (cathode_loss_ratio_threshold th') (cathode_ratio e)) eqn:Ea';
        [rewrite (leb_lower _ _ _ Ha Ea')|];
        (destruct (PrimFloat.leb (anode_loss_threshold_g th') (delta_mass_positive_g e)) eqn:Eb';
         [rewrite (leb_lower _ _ _ Hb Eb')|]).
      * reflexivity.
      * destruct (PrimFloat.leb (anode_loss_threshold_g th) (delta_mass_positive_g e)); simpl;
          repeat first [apply sublist_skip | apply sublist_nil_l].
      * destruct (PrimFloat.leb (cathode_loss_ratio_threshold th) (cathode_ratio e)); simpl;
          repeat first [apply sublist_skip | apply sublist_cons | apply sublist_nil_l].
      * apply sublist_nil_l.
  - intros g. unfold group_findings, fires_rule_c.
    destruct (PrimFloat.leb (std_dev_instability_threshold_g th') (group_std g)) eqn:E';
      [rewrite (leb_lower _ _ _ Hc E'); reflexivity|].
    apply sublist_nil_l.
Qed.

Lemma raising_thresholds_drops_findings_witness :
  let exps := [sample_experiment "E1" "KOH" "CV" 0.12 (-0.02);
               sample_experiment "E2" "KOH" "CV" 0.02 (-0.03)] in
  let th' := Some ({[ "anode_loss_threshold_g"%string := 0.2%float ]} : gmap string float) in
  PrimFloat.leb (cathode_loss_ratio_threshold None) (cathode_loss_ratio_threshold th') = true /\
  PrimFloat.leb (anode_loss_threshold_g None) (anode_loss_threshold_g th') = true /\
  PrimFloat.leb (std_dev_instability_threshold_g None)
                (std_dev_instability_threshold_g th') = true /\
  exists fs fs',
    detect_anomalies exps None = Ok fs /\
    detect_anomalies exps th' = Ok fs' /\
    sublist (map finding_key fs') (map finding_key fs).
Proof.
  intros exps th'.
  split; [reflexivity|]. split; [reflexivity|]. split; [reflexivity|].
  apply (raising_thresholds_drops_findings exps None th'); reflexivity.
Defined.

(** X7.  A non-positive instability threshold flags every group whose
    spread is a number: when the merged
    [std_dev_instability_threshold_g] is at most zero, the
    UNSTABLE_RESULTS findings are exactly those of the groups whose
    standard deviation is not NaN, because a standard deviation is never
    below zero. *)
Theorem nonpositive_instability_threshold (exps : list Experiment)
    (th : option (gmap string float))
    (Hle : PrimFloat.leb (std_dev_instability_threshold_g th) 0 = true) :
  let lc := std_dev_instability_threshold_g th in
  let df := experiments_to_dataframe exps in
  exists fs,
    detect_anomalies exps th = Ok fs /\
    List.filter (has_type UNSTABLE_RESULTS) fs
    = map (finding_c lc)
          (List.filter
             (fun g => pd.notna (pd.std 0 (column col_delta_mass_positive_g (snd g))))
             (groupby df)).
Proof.
  intros lc df. eexists. split; [apply detect_anomalies_shape|].
  rewrite filter_type_c. f_equal. apply filter_ext. intros g.
  unfold fires_rule_c, group_std. fold lc.
  set (s := pd.std 0 _).
  destruct (pd.isna s) eqn:E.
  - assert (pd.notna s = false) as -> by (unfold pd.isna in E; unfold pd.notna; now destruct (PrimFloat.eqb s s)).
    apply isna_true in E. rewrite E. apply leb_nan_r.
  - assert (pd.notna s = true) as -> by (unfold pd.isna in E; unfold pd.notna; now destruct (PrimFloat.eqb s s)).
    apply (leb_lower lc 0 s Hle). now apply std_not_negative.
Qed.

Lemma nonpositive_instability_threshold_witness :
  let exps := [sample_experiment "E1" "KOH" "CV" 0.05 0] in
  let th := Some ({[ "std_dev_instability_threshold_g"%string := 0%float ]} : gmap string float) in
  PrimFloat.leb (std_dev_instability_threshold_g th) 0 = true /\
  exists fs,
    detect_anomalies exps th = Ok fs /\
    List.filter (has_type UNSTABLE_RESULTS) fs
    = map (finding_c (std_dev_instability_threshold_g th))
          (List.filter
             (fun g => pd.notna (pd.std 0 (column col_delta_mass_positive_g (snd g))))
             (groupby (experiments_to_dataframe exps))).
Proof.
  intros exps th. split; [reflexivity|].
  apply (nonpositive_instability_threshold exps th). reflexivity.
Defined.

End Findings.

(** ** More on the statistics *)

Section MoreStatistics.

(** X8.  On every non-empty table, whatever the deltas, the standard
    deviations of the anode and of the cathode column and
    [ratio_mean_abs] are never negative: each is NaN or compares at or
    above zero. *)
Theorem spread_and_ratio_never_negative (df : DataFrame) (Hne : df <> []) :
  exists (a c : gmap string float) (sa sc r : float),
    basic_statistics df !! "anode"%string = Some (StatDict a) /\
    basic_statistics df !! "cathode"%string = Some (StatDict c) /\
    basic_statistics df !! "ratio_mean_abs"%string = Some (StatFloat r) /\
    a !! "std"%string = Some sa /\ c !! "std"%string = Some sc /\
    not_negative sa = true /\ not_negative sc = true /\ not_negative r = true.
Proof.
  rewrite basic_statistics_nonempty by exact Hne.
  do 5 eexists.
  split; [rewrite lookup_insert_ne, lookup_insert_ne, lookup_insert_eq by discriminate; reflexivity|].
  split; [rewrite lookup_insert_ne, lookup_insert_eq by discriminate; reflexivity|].
  split; [rewrite lookup_insert_eq; reflexivity|].
  split; [rewrite lookup_insert_ne, lookup_insert_eq by discriminate; reflexivity|].
  split; [rewrite lookup_insert_ne, lookup_insert_eq by discriminate; reflexivity|].
  split; [apply std_is_not_negative|]. split; [apply std_is_not_negative|].
  apply mean_not_negative. apply List.Forall_forall. intros y Hy.
  apply in_map_iff in Hy as (x & <- & Hx). apply ratio_entry_not_negative.
Qed.

Lemma spread_and_ratio_never_negative_witness :
  sample_table <> [] /\
  exists (a c : gmap string float) (sa sc r : float),
    basic_statistics sample_table !! "anode"%string = Some (StatDict a) /\
    basic_statistics sample_table !! "cathode"%string = Some (StatDict c) /\
    basic_statistics sample_table !! "ratio_mean_abs"%string = Some (StatFloat r) /\
    a !! "std"%string = Some sa /\ c !! "std"%string = Some sc /\
    not_negative sa = true /\ not_negative sc = true /\ not_negative r = true.
Proof.
  assert (Hne : sample_table <> []) by discriminate.
  split; [exact Hne|].
  exact (spread_and_ratio_never_negative sample_table Hne).
Defined.

Lemma mean_singleton (x : float) :
  pd.isna x = false -> PrimFloat.eqb (pd.mean [x]) x = true.
Proof.
  intros Ena.
  assert (Hn : pd.notna x = true).
  { unfold pd.isna in Ena. unfold pd.notna. now destruct (PrimFloat.eqb x x). }
  unfold pd.mean, pd.count, pd.fillna. cbn [List.filter map]. rewrite Hn, Ena.
  cbn [length]. change (0 <? 1)%nat with true. cbv iota. rewrite np_sum_1.
  change (pd.float_of_count 1) with 1%float.
  apply isna_false in Ena.
  rewrite FloatAxioms.eqb_spec, div_spec, !add_spec.
  destruct (Prim2SF x) as [s|s| |s m e] eqn:E; [| | congruence |].
  - destruct s; reflexivity.
  - destruct s; reflexivity.
  - change (SF64add (Prim2SF 0) (SF64add (Prim2SF 0) (S754_finite s m e)))
      with (S754_finite s m e).
    unfold SF64div. rewrite (SFdiv_one s m e) by (eapply valid_finite; exact E).
    apply SFeqb_refl. discriminate.
Qed.

Lemma std_singleton_finite (x : float) : isfinite x = true -> pd.std 0 [x] = 0%float.
Proof.
  intros Hfin. destruct (std_singleton x) as [H | H]; [exact H|].
  exfalso. revert H.
  pose proof (isfinite_notna x Hfin) as Ena.
  assert (Hn : pd.notna x = true).
  { unfold pd.isna in Ena. unfold pd.notna. now destruct (PrimFloat.eqb x x). }
  unfold pd.std, pd.var, pd.count, pd.fillna.
  cbn [List.filter map]. rewrite Hn, Ena. cbn [length zip_with].
  change (1 <=? 0)%nat with false. cbv iota beta. rewrite Ena, !np_sum_1.
  change (pd.float_of_count 1) with 1%float.
  change (PrimFloat.sub 1 (pd.float_of_count 0)) with 1%float.
  intros H. apply (f_equal Prim2SF) in H.
  rewrite sqrt_spec, div_spec, !add_spec, mul_spec, sub_spec, div_spec, !add_spec in H.
  unfold isfinite in Hfin.
  destruct (Prim2SF x) as [s|s| |s m e] eqn:E; try discriminate.
  - destruct s; discriminate.
  - change (SF64add (Prim2SF 0) (SF64add (Prim2SF 0) (S754_finite s m e)))
      with (S754_finite s m e) in H.
    unfold SF64div, SF64sub in H.
    rewrite (SFdiv_one s m e) in H by (eapply valid_finite; exact E).
    rewrite (SFsub_diag s m e) in H. discriminate.
Qed.

Lemma max_singleton (x : float) : pd.isna x = false -> pd.max [x] = x.
Proof.
  intros Ena. unfold pd.max, pd.fillna, pd.count. cbn [map List.filter].
  rewrite notna_isna, Ena. reflexivity.
Qed.

Lemma min_singleton (x : float) : pd.isna x = false -> pd.min [x] = x.
Proof.
  intros Ena. unfold pd.min, pd.fillna, pd.count. cbn [map List.filter].
  rewrite notna_isna, Ena. reflexivity.
Qed.

(** X9.  A table of one record with finite deltas: the mean of each
    column equals the record's delta, the standard deviation is exactly
    zero, the maximum and the minimum are the delta itself, and
    [ratio_mean_abs] equals the record's |cathode delta| / |anode delta|,
    or is NaN when its anode delta is zero. *)
Theorem single_record_statistics (r : Row) (Hfin : finite_row r = true) :
  let x := col_delta_mass_positive_g r in
  let y := col_delta_mass_negative_g r in
  exists mx my ratio,
    basic_statistics [r]
    = <["ratio_mean_abs"%string := StatFloat ratio]>
      (<["cathode"%string := StatDict
          (<["mean"%string := my]>
          (<["std"%string := 0%float]>
          (<["max"%string := y]>
          (<["min"%string := y]> ∅))))]>
      (<["anode"%string := StatDict
          (<["mean"%string := mx]>
          (<["std"%string := 0%float]>
          (<["max"%string := x]>
          (<["min"%string := x]> ∅))))]>
       ∅)) /\
    PrimFloat.eqb mx x = true /\ PrimFloat.eqb my y = true /\
    (if PrimFloat.eqb x 0 then pd.isna ratio = true
     else PrimFloat.eqb ratio (abs_ratio r) = true).
Proof.
  intros x y. pose proof Hfin as Hfin'. apply andb_prop in Hfin' as [Hx Hy].
  fold x in Hx. fold y in Hy.
  exists (pd.mean [x]), (pd.mean [y]), (pd.mean [ratio_entry r]).
  split; [|split; [|split]].
  - rewrite basic_statistics_nonempty by discriminate. unfold column. cbn [map].
    fold x y.
    now rewrite !std_singleton_finite, !max_singleton, !min_singleton
      by auto using isfinite_notna.
  - apply mean_singleton. now apply isfinite_notna.
  - apply mean_singleton. now apply isfinite_notna.
  - destruct (PrimFloat.eqb x 0) eqn:E.
    + destruct (ratio_entry_zero r E) as (-> & _ & _). reflexivity.
    + destruct (ratio_entry_nonzero r Hfin E) as (-> & _ & _ & Hn).
      now apply mean_singleton.
Qed.

Lemma single_record_statistics_witness :
  let r := {| col_id := 1; col_date_time := 0; col_experiment_id := "E1"; col_mode := "CV";
              col_voltage_V := None; col_current_A := None; col_electrolyte := "KOH";
              col_duration_min := None; col_delta_mass_positive_g := 0.12;
              col_delta_mass_negative_g := (-0.02); col_notes := "" |} in
  finite_row r = true /\
  exists mx my ratio,
    basic_statistics [r]
    = <["ratio_mean_abs"%string := StatFloat ratio]>
      (<["cathode"%string := StatDict
          (<["mean"%string := my]>
          (<["std"%string := 0%float]>
          (<["max"%string := (-0.02)%float]>
          (<["min"%string := (-0.02)%float]> ∅))))]>
      (<["anode"%string := StatDict
          (<["mean"%string := mx]>
          (<["std"%string := 0%float]>
          (<["max"%string := 0.12%float]>
          (<["min"%string := 0.12%float]> ∅))))]>
       ∅)) /\
    PrimFloat.eqb mx 0.12 = true /\ PrimFloat.eqb my (-0.02) = true /\
    (if PrimFloat.eqb 0.12 0 then pd.isna ratio = true
     else PrimFloat.eqb ratio (abs_ratio r) = true).
Proof.
  intros r. split; [reflexivity|].
  exact (single_record_statistics r eq_refl).
Defined.

(** X10.  [grouped_statistics] maps the (electrolyte, mode) key of
    every row to [basic_statistics] of the rows that share this key, in
    row order, and holds no other key; its entries are the statistics
    of the groups of the partition. *)
Theorem grouped_statistics_per_group (df : DataFrame) :
  (forall r, In r df ->
     grouped_statistics df !! row_key r
     = Some (basic_statistics
               (List.filter (fun r' => key_eqb (row_key r') (row_key r)) df))) /\
  (forall k, (forall r, In r df -> row_key r <> k) -> grouped_statistics df !! k = None) /\
  Forall (fun g => grouped_statistics df !! fst g = Some (basic_statistics (snd g)))
         (groupby df).
Proof.
  split; [|split].
  - intros r Hr. rewrite grouped_statistics_at.
    assert (E : existsb (fun r' => key_eqb (row_key r') (row_key r)) df = true).
    { apply existsb_exists. exists r. split; [exact Hr | apply key_eqb_refl]. }
    now rewrite E.
  - intros k Hk. rewrite grouped_statistics_at.
    destruct (existsb _ df) eqn:E; [|reflexivity].
    apply existsb_exists in E as (r & Hr & E). apply key_eqb_eq in E.
    now destruct (Hk r Hr).
  - apply List.Forall_forall. intros g Hg.
    rewrite (groupby_members df g Hg), grouped_statistics_at.
    assert (Hk : In (fst g) (group_keys df)) by (rewrite <- groupby_keys; now apply in_map).
    apply group_keys_In in Hk as (r & Hr & Hk).
    assert (E : existsb (fun r' => key_eqb (row_key r') (fst g)) df = true).
    { apply existsb_exists. exists r. split; [exact Hr | now apply key_eqb_eq]. }
    now rewrite E.
Qed.

(** X11.  When every row of a non-empty table carries the same
    (electrolyte, mode) key, [grouped_statistics] is the one-entry
    dictionary that maps this key to the overall [basic_statistics] of
    the table. *)
Theorem single_group_statistics (df : DataFrame) (k : GroupKey)
    (Hne : df <> []) (Hkey : forallb (fun r => key_eqb (row_key r) k) df = true) :
  grouped_statistics df = {[ k := basic_statistics df ]}.
Proof.
  apply map_eq. intros k'. rewrite grouped_statistics_at.
  assert (Hall : List.filter (fun r => key_eqb (row_key r) k) df = df).
  { clear Hne. induction df as [|r df IH]; [reflexivity|].
    cbn [forallb] in Hkey. apply andb_prop in Hkey as [H1 H2].
    cbn [List.filter]. now rewrite H1, IH. }
  destruct (decide (k = k')) as [<- | Hk].
  - rewrite lookup_singleton_eq, Hall.
    destruct df as [|r df]; [congruence|]. cbn [forallb] in Hkey.
    apply andb_prop in Hkey as [H1 _]. cbn [existsb]. now rewrite H1.
  - rewrite lookup_singleton_ne by exact Hk.
    destruct (existsb _ df) eqn:E; [|reflexivity].
    apply existsb_exists in E as (r & Hr & E). apply key_eqb_eq in E.
    rewrite forallb_forall in Hkey. apply Hkey in Hr. apply key_eqb_eq in Hr. congruence.
Qed.

Lemma single_group_statistics_witness :
  zero_anode_table <> [] /\
  forallb (fun r => key_eqb (row_key r) ("KOH", "CV")%string) zero_anode_table = true /\
  grouped_statistics zero_anode_table
  = {[ ("KOH", "CV")%string := basic_statistics zero_anode_table ]}.
Proof.
  assert (Hne : zero_anode_table <> []) by discriminate.
  split; [exact Hne|]. split; [reflexivity|].
  exact (single_group_statistics zero_anode_table ("KOH", "CV")%string Hne eq_refl).
Defined.

End MoreStatistics.

(** ** What the analysis reads *)

Section ReadsOnly.

Lemma same_rows (exps1 exps2 : list Experiment) :
  Forall2 same_evidence exps1 exps2 ->
  Forall2 same_row (experiments_to_dataframe exps1) (experiments_to_dataframe exps2).
Proof.
  intros H.
  assert (E : forall exps, experiments_to_dataframe exps
            = map (fun exp =>
                {| col_id := pk_id exp; col_date_time := date_time exp;
                   col_experiment_id := experiment_id exp; col_mode := mode exp;
                   col_voltage_V := voltage_V exp; col_current_A := current_A exp;
                   col_electrolyte := electrolyte exp; col_duration_min := duration_min exp;
                   col_delta_mass_positive_g := delta_mass_positive_g exp;
                   col_delta_mass_negative_g := delta_mass_negative_g exp;
                   col_notes := notes exp |}) exps).
  { intros exps. unfold experiments_to_dataframe. now destruct exps. }
  rewrite !E. induction H as [|e1 e2 l1 l2 (Hid & Hel & Hmo & Hp & Hn) _ IH]; cbn [map];
    constructor; [|exact IH].
  unfold same_row, row_key. cbn. now rewrite Hel, Hmo, Hp, Hn.
Qed.

Lemma same_rows_columns (df1 df2 : DataFrame) :
  Forall2 same_row df1 df2 ->
  map row_key df1 = map row_key df2 /\
  column col_delta_mass_positive_g df1 = column col_delta_mass_positive_g df2 /\
  column col_delta_mass_negative_g df1 = column col_delta_mass_negative_g df2.
Proof.
  unfold column. induction 1 as [|r1 r2 l1 l2 (Hk & Hp & Hn) _ (IH1 & IH2 & IH3)]; cbn [map];
    [auto|]. now rewrite Hk, Hp, Hn, IH1, IH2, IH3.
Qed.

Lemma same_rows_filter (k : GroupKey) (df1 df2 : DataFrame) :
  Forall2 same_row df1 df2 ->
  Forall2 same_row (rows_of k df1) (rows_of k df2).
Proof.
  unfold rows_of. induction 1 as [|r1 r2 l1 l2 Hr _ IH]; cbn [List.filter]; [constructor|].
  destruct Hr as (Hk & Hp & Hn). rewrite Hk.
  destruct (key_eqb (row_key r2) k); [constructor; [split|]|]; auto.
Qed.

Lemma same_rows_statistics (df1 df2 : DataFrame) :
  Forall2 same_row df1 df2 -> basic_statistics df1 = basic_statistics df2.
Proof.
  intros H. destruct (same_rows_columns df1 df2 H) as (_ & Hp & Hn).
  unfold basic_statistics. cbn [fold_left]. rewrite Hp, Hn.
  now destruct H.
Qed.

Lemma group_keys_map (df : DataFrame) :
  forall ks, fold_left (fun ks r => insert_key (row_key r) ks) df ks
             = fold_left (fun ks k => insert_key k ks) (map row_key df) ks.
Proof. induction df as [|r df IH]; intros ks; cbn [fold_left map]; auto. Qed.

Lemma same_rows_group_keys (df1 df2 : DataFrame) :
  Forall2 same_row df1 df2 -> group_keys df1 = group_keys df2.
Proof.
  intros H. destruct (same_rows_columns df1 df2 H) as (Hk & _ & _).
  unfold group_keys. now rewrite !group_keys_map, Hk.
Qed.

Lemma same_rows_existsb (k : GroupKey) (df1 df2 : DataFrame) :
  Forall2 same_row df1 df2 ->
  existsb (fun r => key_eqb (row_key r) k) df1 = existsb (fun r => key_eqb (row_key r) k) df2.
Proof.
  induction 1 as [|r1 r2 l1 l2 (Hk & _) _ IH]; cbn [existsb]; [reflexivity|].
  now rewrite Hk, IH.
Qed.

(** X26.  The analysis reads only the identifier, the (electrolyte,
    mode) key and the two deltas of a record: two inputs that agree on
    these, record by record, get the same findings, the same overall
    statistics and the same grouped statistics, whatever their voltages,
    currents, durations, masses, dates and notes. *)
Theorem analysis_reads_only_keys_and_deltas (exps1 exps2 : list Experiment)
    (th : option (gmap string float))
    (Hsame : Forall2 same_evidence exps1 exps2) :
  detect_anomalies exps1 th = detect_anomalies exps2 th /\
  basic_statistics (experiments_to_dataframe exps1)
  = basic_statistics (experiments_to_dataframe exps2) /\
  grouped_statistics (experiments_to_dataframe exps1)
  = grouped_statistics (experiments_to_dataframe exps2).
Proof.
  pose proof (same_rows exps1 exps2 Hsame) as Hrows.
  split; [|split].
  - rewrite !detect_anomalies_shape. f_equal. f_equal.
    + clear Hrows.
      induction Hsame as [|e1 e2 l1 l2 (Hid & Hel & Hmo & Hp & Hn) _ IH]; cbn [flat_map];
        [reflexivity|].
      rewrite IH. f_equal.
      unfold record_findings, fires_rule_a, fires_rule_b, finding_a, finding_b, cathode_ratio.
      now rewrite Hid, Hp, Hn.
    + unfold groupby. rewrite (same_rows_group_keys _ _ Hrows).
      rewrite !flat_map_concat_map, !List.map_map. f_equal.
      apply map_ext. intros k. fold (rows_of k (experiments_to_dataframe exps1)).
      fold (rows_of k (experiments_to_dataframe exps2)).
      pose proof (same_rows_filter k _ _ Hrows) as Hk.
      destruct (same_rows_columns _ _ Hk) as (_ & Hp & _).
      unfold group_findings, fires_rule_c, finding_c, group_std. cbn [fst snd].
      now rewrite Hp.
  - now apply same_rows_statistics.
  - apply map_eq. intros k. rewrite !grouped_statistics_at.
    rewrite (same_rows_existsb k _ _ Hrows).
    destruct (existsb _ (experiments_to_dataframe exps2)); [|reflexivity].
    f_equal. apply same_rows_statistics. now apply same_rows_filter.
Qed.

Lemma analysis_reads_only_keys_and_deltas_witness :
  let e1 := sample_experiment "E1" "KOH" "CV" 0.12 (-0.02) in
  let e2 := {| pk_id := 7; date_time := 86400; experiment_id := "E1"; mode := "CV";
               voltage_V := Some 3.0%float; current_A := None; electrolyte := "KOH";
               duration_min := Some 30%float;
               initial_mass_positive_g := 1; final_mass_positive_g := 1.12;
               delta_mass_positive_g := 0.12;
               initial_mass_negative_g := 2; final_mass_negative_g := 1.98;
               delta_mass_negative_g := (-0.02);
               notes := "repeat" |} in
  Forall2 same_evidence [e1] [e2] /\
  detect_anomalies [e1] None = detect_anomalies [e2] None /\
  basic_statistics (experiments_to_dataframe [e1])
  = basic_statistics (experiments_to_dataframe [e2]) /\
  grouped_statistics (experiments_to_dataframe [e1])
  = grouped_statistics (experiments_to_dataframe [e2]).
Proof.
  intros e1 e2.
  assert (H : Forall2 same_evidence [e1] [e2]).
  { constructor; [|constructor]. unfold same_evidence. repeat split; reflexivity. }
  split; [exact H|].
  exact (analysis_reads_only_keys_and_deltas [e1] [e2] None H).
Defined.

End ReadsOnly.

(** ** More on the record editor *)

Module RecorderLaws.

Import Recorder.

Section Delete.

Variable float_of_str : string -> option float.
Variable orm : Orm.

Lemma filter_unique_head (experiment_id : string) (o x : obj) (session : list obj) :
  List.filter (is_experiment experiment_id) (x :: session) = [o] ->
  (is_experiment experiment_id x = true /\ x = o /\
   List.filter (is_experiment experiment_id) session = []) \/
  (is_experiment experiment_id x = false /\
   List.filter (is_experiment experiment_id) session = [o]).
Proof.
  cbn [List.filter]. destruct (is_experiment experiment_id x); intros H.
  - left. injection H as -> H. auto.
  - right. auto.
Qed.

Lemma filter_none (experiment_id : string) (session : list obj) :
  List.filter (is_experiment experiment_id) session = [] ->
  List.filter (fun o => negb (is_experiment experiment_id o)) session = session.
Proof.
  induction session as [|x session IH]; cbn [List.filter]; [reflexivity|].
  destruct (is_experiment experiment_id x); [discriminate|].
  intros H. cbn [negb]. now rewrite IH.
Qed.

Lemma session_delete_unique (experiment_id : string) (o : obj) (session : list obj) :
  List.filter (is_experiment experiment_id) session = [o] ->
  session_delete experiment_id session
  = List.filter (fun x => negb (is_experiment experiment_id x)) session.
Proof.
  induction session as [|x session IH]; [discriminate|].
  intros H. apply filter_unique_head in H as [(Hx & _ & Hs) | (Hx & Hs)];
    cbn [session_delete List.filter]; rewrite Hx; cbn [negb].
  - now rewrite filter_none.
  - now rewrite IH.
Qed.

Lemma store_unique (experiment_id : string) (o updated : obj) (session : list obj) :
  List.filter (is_experiment experiment_id) session = [o] ->
  store experiment_id updated session
  = map (fun x => if is_experiment experiment_id x then updated else x) session.
Proof.
  induction session as [|x session IH]; [discriminate|].
  intros H. apply filter_unique_head in H as [(Hx & _ & Hs) | (Hx & Hs)];
    cbn [store map]; rewrite Hx.
  - f_equal. clear IH. induction session as [|y session IH]; [reflexivity|].
    cbn [List.filter] in Hs. destruct (is_experiment experiment_id y) eqn:Hy; [discriminate|].
    cbn [map]. rewrite Hy. now rewrite <- IH.
  - now rewrite IH.
Qed.

Lemma filter_negb_none (experiment_id : string) (session : list obj) :
  List.filter (is_experiment experiment_id)
    (List.filter (fun x => negb (is_experiment experiment_id x)) session) = [].
Proof.
  induction session as [|x session IH]; [reflexivity|]. cbn [List.filter].
  destruct (is_experiment experiment_id x) eqn:E; cbn [negb List.filter]; [exact IH|].
  now rewrite E.
Qed.

Lemma filter_length_split {A} (p : A -> bool) (l : list A) :
  length l = (length (List.filter p l) + length (List.filter (fun x => negb (p x)) l))%nat.
Proof.
  induction l as [|x l IH]; simpl; [reflexivity|]. destruct (p x); simpl; lia.
Qed.

(** X18.  [delete_experiment] on the identifier of exactly one stored
    record removes that record and nothing else, keeping the order of
    the others; afterwards both [delete_experiment] and
    [edit_experiment] report the identifier as not found (an
    [edit_experiment] that Python accepts: the keyword [experiment_id]
    among the changes is a [TypeError] before anything is looked up). *)
Theorem delete_experiment_removes_record (session : list obj) (experiment_id : string)
    (o : obj)
    (Hone : List.filter (is_experiment experiment_id) session = [o]) :
  let session' := List.filter (fun x => negb (is_experiment experiment_id x)) session in
  delete_experiment session experiment_id = Ok session' /\
  length session = S (length session') /\
  delete_experiment session' experiment_id
  = Raise (ValidationError "Experiment not found") /\
  forall changes,
    edit_experiment float_of_str orm session' experiment_id changes
    = if has_key "experiment_id" changes then Raise TypeError
      else Raise (ValidationError "Experiment not found").
Proof.
  intros session'. split; [|split; [|split]].
  - unfold delete_experiment. rewrite Hone. f_equal. now apply (session_delete_unique _ o).
  - rewrite (filter_length_split (is_experiment experiment_id) session), Hone. reflexivity.
  - unfold delete_experiment. subst session'. now rewrite filter_negb_none.
  - intros changes. unfold edit_experiment. subst session'. now rewrite filter_negb_none.
Qed.

End Delete.

Section Edit.

Variable float_of_str : string -> option float.
Variable orm : Orm.

(** X15.  A successful [edit_experiment] touches one record: exactly
    one stored record has the identifier, the session keeps its length
    and order, that record is replaced by the returned one, and every
    other record is left as it was. *)
Theorem edit_experiment_touches_one_record (session : list obj) (experiment_id : string)
    (changes : list (string * pyval)) (e' : obj) (session' : list obj)
    (Hedit : edit_experiment float_of_str orm session experiment_id changes
             = Ok (e', session')) :
  session' = map (fun x => if is_experiment experiment_id x then e' else x) session /\
  length session' = length session /\
  length (List.filter (is_experiment experiment_id) session) = 1%nat.
Proof.
  apply RecorderProps.edit_experiment_inv in Hedit
    as (o & st1 & st2 & f3 & Ef & _ & _ & _ & ->).
  rewrite (store_unique _ o) by exact Ef. rewrite Ef.
  split; [reflexivity|]. split; [apply length_map | reflexivity].
Qed.

Lemma numeric_column (key : string) :
  mem key NUMERIC_FIELDS = true -> mem key COLUMNS = true.
Proof.
  intros H. apply RecorderProps.mem_true in H. cbn [NUMERIC_FIELDS In] in H.
  repeat (destruct H as [<- | H]; [reflexivity|]). destruct H.
Qed.

Lemma column_hasattr (key : string) : mem key COLUMNS = true -> hasattr orm key = true.
Proof. intros H. unfold hasattr. now rewrite H. Qed.

Lemma has_key_false (k : string) (changes : list (string * pyval)) :
  hasattr orm k = true ->
  forallb (fun kv => negb (hasattr orm (fst kv))) changes = true ->
  has_key k changes = false.
Proof.
  intros Hk. unfold has_key. induction changes as [|[key value] changes IH];
    cbn [forallb existsb fst]; [reflexivity|].
  intros H. apply andb_prop in H as [H1 H2]. rewrite IH by exact H2.
  rewrite orb_false_r. destruct (String.eqb k key) eqn:E; [|reflexivity].
  apply String.eqb_eq in E. subst key. rewrite Hk in H1. discriminate.
Qed.

Lemma apply_unknown_changes (changes : list (string * pyval))
    (st : obj * list (string * pyval)) :
  forallb (fun kv => negb (hasattr orm (fst kv))) changes = true ->
  for_each changes (apply_change float_of_str orm) st = Ok st.
Proof.
  induction changes as [|[key value] changes IH]; cbn [forallb for_each fst]; [reflexivity|].
  intros H. apply andb_prop in H as [H1 H2]. apply negb_true_iff in H1.
  unfold apply_change. destruct (mem key NUMERIC_FIELDS) eqn:En.
  - apply numeric_column, column_hasattr in En. congruence.
  - cbn [mbind result_bind]. rewrite H1. cbn [mbind result_bind]. now apply IH.
Qed.

Lemma no_attribute_changed (changes : list (string * pyval)) :
  forallb (fun kv => negb (hasattr orm (fst kv))) changes = true ->
  existsb (fun kv => hasattr orm (fst kv)) changes = false.
Proof.
  induction changes as [|kv changes IH]; cbn [forallb existsb]; [reflexivity|].
  intros H. apply andb_prop in H as [H1 H2]. apply negb_true_iff in H1.
  now rewrite H1, IH.
Qed.

Lemma store_same (experiment_id : string) (o : obj) (session : list obj) :
  List.filter (is_experiment experiment_id) session = [o] ->
  store experiment_id o session = session.
Proof.
  induction session as [|x session IH]; [discriminate|].
  intros H. apply filter_unique_head in H as [(Hx & -> & Hs) | (Hx & Hs)];
    cbn [store]; rewrite Hx; [reflexivity|]. now rewrite IH.
Qed.

(** X16.  [edit_experiment] silently ignores the keys that are not
    attributes of the record: when [hasattr] is false of every key of
    [changes], the call succeeds and returns the stored record
    unchanged, and the session is unchanged. *)
Theorem edit_experiment_ignores_unknown_keys (session : list obj) (experiment_id : string)
    (o : obj) (changes : list (string * pyval))
    (Hone : List.filter (is_experiment experiment_id) session = [o])
    (Hunknown : forallb (fun kv => negb (hasattr orm (fst kv))) changes = true) :
  edit_experiment float_of_str orm session experiment_id changes = Ok (o, session).
Proof.
  unfold edit_experiment, recompute.
  rewrite (has_key_false "experiment_id" changes) by (reflexivity || exact Hunknown).
  rewrite Hone, apply_unknown_changes by exact Hunknown.
  cbn [mbind result_bind existsb].
  rewrite !(has_key_false _ changes) by (reflexivity || exact Hunknown).
  cbn [orb mbind result_bind].
  rewrite no_attribute_changed by exact Hunknown. now rewrite store_same.
Qed.

Lemma parse_float_blank (v : pyval) :
  blank v = true -> _parse_float float_of_str v = Ok PyNone.
Proof. destruct v as [|[|? ?]| | |]; try discriminate; reflexivity. Qed.

Lemma calculate_delta_none_l (x : pyval) : _calculate_delta PyNone x = Raise TypeError.
Proof. reflexivity. Qed.

Lemma calculate_delta_none_r (x : pyval) : _calculate_delta x PyNone = Raise TypeError.
Proof. destruct x; reflexivity. Qed.

Lemma getattr_insert (o : obj) (k : string) (v : pyval) : getattr (<[k := v]> o) k = v.
Proof. unfold getattr. now rewrite lookup_insert_eq. Qed.

Lemma touched_single (keys : list string) (field : string) (value : pyval) :
  existsb (fun k => has_key k [(field, value)]) keys = mem field keys.
Proof.
  induction keys as [|k keys IH]; [reflexivity|].
  change (has_key k [(field, value)] || existsb (fun k => has_key k [(field, value)]) keys
          = String.eqb field k || mem field keys).
  rewrite IH. f_equal. unfold has_key. cbn [existsb fst].
  now rewrite orb_false_r, String.eqb_sym.
Qed.

(** X17.  Blanking a mass through [edit_experiment] raises [TypeError],
    not [ValidationError]: a single change that sets one of the four
    mass fields to [None] or to the empty string stores [None], and the
    recomputation of the delta then subtracts with [None]. *)
Theorem edit_experiment_blank_mass_raises (session : list obj) (experiment_id : string)
    (o : obj) (field : string) (value : pyval)
    (Hone : List.filter (is_experiment experiment_id) session = [o])
    (Hfield : In field required_fields)
    (Hblank : blank value = true) :
  edit_experiment float_of_str orm session experiment_id [(field, value)] = Raise TypeError.
Proof.
  unfold edit_experiment, recompute.
  assert (Hid : has_key "experiment_id" [(field, value)] = false).
  { cbn [required_fields In] in Hfield.
    destruct Hfield as [<- | [<- | [<- | [<- | []]]]]; reflexivity. }
  rewrite Hid, Hone. cbn [for_each]. unfold apply_change.
  assert (Hnum : mem field NUMERIC_FIELDS = true).
  { cbn [required_fields In] in Hfield.
    repeat (destruct Hfield as [<- | Hfield]; [reflexivity|]). destruct Hfield. }
  rewrite Hnum, (parse_float_blank value Hblank).
  rewrite (column_hasattr field (numeric_column field Hnum)).
  cbn [mbind result_bind].
  rewrite (RecorderProps.setattr_column orm o field PyNone (numeric_column field Hnum)).
  cbn [mbind result_bind fst].
  rewrite !touched_single.
  cbn [required_fields In] in Hfield.
  destruct Hfield as [<- | [<- | [<- | [<- | []]]]];
    cbv [mem existsb String.eqb Ascii.eqb Bool.eqb orb andb];
    cbn [mbind result_bind fst];
    now rewrite getattr_insert, ?calculate_delta_none_l, ?calculate_delta_none_r.
Qed.

End Edit.

Section Add.

Variable float_of_str : string -> option float.
Variable fromisoformat : string -> option Z.
Variable orm : Orm.

Lemma required_numeric (field : string) :
  In field required_fields -> mem field NUMERIC_FIELDS = true.
Proof.
  cbn [required_fields In]. intros H.
  repeat (destruct H as [<- | H]; [reflexivity|]). destruct H.
Qed.

Lemma get_set_eq (d : list (string * pyval)) (k : string) (v : pyval) :
  get (dict_set d k v) k = v.
Proof. unfold get. now rewrite RecorderProps.dict_get_set_eq. Qed.

Lemma get_set_ne (d : list (string * pyval)) (k k' : string) (v : pyval) :
  k <> k' -> get (dict_set d k v) k' = get d k'.
Proof. intros H. unfold get. now rewrite RecorderProps.dict_get_set_ne. Qed.

(** The loop over [data.items()] raises nothing but [ValidationError],
    and leaves a field blank whose every given value is blank. *)
Lemma parse_items_blank (field : string) (data : list (string * pyval)) :
  mem field NUMERIC_FIELDS = true ->
  forallb (fun kv => negb (String.eqb (fst kv) field) || blank (snd kv)) data = true ->
  forall parsed : list (string * pyval),
    get parsed field = PyNone ->
    match for_each data (parse_item float_of_str) parsed with
    | Ok parsed' => get parsed' field = PyNone
    | Raise e => exists what, e = ValidationError what
    end.
Proof.
  intros Hnum. induction data as [|[key value] data IH]; cbn [forallb for_each fst snd];
    intros Hb parsed Hp; [exact Hp|].
  apply andb_prop in Hb as [H1 H2]. unfold parse_item.
  destruct (mem key NUMERIC_FIELDS) eqn:En.
  - destruct (String.eqb key field) eqn:E.
    + apply String.eqb_eq in E. subst key. cbn [negb orb] in H1.
      rewrite (parse_float_blank float_of_str value H1). cbn [mbind result_bind].
      apply IH; [exact H2|]. apply get_set_eq.
    + apply String.eqb_neq in E.
      destruct (_parse_float float_of_str value) as [w|e] eqn:Ew; cbn [mbind result_bind].
      * apply IH; [exact H2|]. now rewrite get_set_ne.
      * revert Ew. unfold _parse_float.
        destruct value as [|[|? ?]| | |]; try discriminate;
          try (destruct (float_of_str _); try discriminate);
          intros [= <-]; eauto.
  - cbn [mbind result_bind]. apply IH; [exact H2|].
    rewrite get_set_ne; [exact Hp|]. intros ->. congruence.
Qed.

(** X14.  [add_experiment] rejects a record that lacks one of the four
    masses: when a required mass field is absent, or every value given
    for it is [None] or the empty string, the call raises
    [ValidationError]. *)
Theorem add_experiment_requires_masses (session : list obj) (data : list (string * pyval))
    (field : string)
    (Hfield : In field required_fields)
    (Hblank : forallb (fun kv => negb (String.eqb (fst kv) field) || blank (snd kv)) data
              = true) :
  exists what,
    add_experiment float_of_str fromisoformat orm session data
    = Raise (ValidationError what).
Proof.
  unfold add_experiment.
  pose proof (parse_items_blank field data (required_numeric field Hfield) Hblank []
                eq_refl) as Hp.
  destruct (for_each data (parse_item float_of_str) []) as [parsed|e].
  2:{ destruct Hp as [what ->]. cbn [mbind result_bind]. eauto. }
  cbn [mbind result_bind for_each required_fields].
  cbn [required_fields In] in Hfield.
  destruct Hfield as [<- | [<- | [<- | [<- | []]]]];
    repeat match goal with
           | |- context [is_none (get parsed ?k)] =>
               first [ rewrite Hp; cbn [is_none mbind result_bind]
                     | destruct (is_none (get parsed k)); cbn [mbind result_bind] ]
           end; eauto.
Qed.

(** X19.  Adding then deleting is a round trip: after [add_experiment]
    has stored a record under an identifier not yet in use, the record
    is the last of the session, an edit without changes returns it as
    stored, and [delete_experiment] of the identifier restores the
    session as it was. *)
Theorem add_then_delete_restores (session : list obj) (data : list (string * pyval))
    (e : obj) (session' : list obj) (experiment_id : string)
    (Hadd : add_experiment float_of_str fromisoformat orm session data
            = Ok (e, session'))
    (Hid : is_experiment experiment_id e = true)
    (Hfresh : List.filter (is_experiment experiment_id) session = []) :
  session' = session ++ [e] /\
  edit_experiment float_of_str orm session' experiment_id [] = Ok (e, session') /\
  delete_experiment session' experiment_id = Ok session.
Proof.
  apply RecorderProps.add_experiment_inv in Hadd as (? & ? & ? & ? & ? & _ & _ & _ & _ & _ & ->).
  assert (Hone : List.filter (is_experiment experiment_id) (session ++ [e]) = [e]).
  { rewrite List.filter_app, Hfresh. cbn [List.filter app]. now rewrite Hid. }
  split; [reflexivity|]. split.
  - unfold edit_experiment, recompute. rewrite Hone.
    cbn [for_each mbind result_bind existsb has_key orb].
    now rewrite (store_same _ e).
  - unfold delete_experiment. rewrite Hone. f_equal.
    rewrite (session_delete_unique _ e) by exact Hone.
    rewrite List.filter_app, filter_none by exact Hfresh.
    cbn [List.filter]. rewrite Hid. apply app_nil_r.
Qed.

End Add.

Section AddSucceeds.

Variable float_of_str : string -> option float.
Variable fromisoformat : string -> option Z.
Variable orm : Orm.

(** The items of [data] assigned to a dictionary one after the other. *)
Lemma parse_floats (data : list (string * pyval)) :
  forallb (fun kv => negb (mem (fst kv) NUMERIC_FIELDS) || is_float (snd kv)) data = true ->
  forall parsed : list (string * pyval),
    for_each data (parse_item float_of_str) parsed
    = Ok (fold_left (fun d kv => dict_set d (fst kv) (snd kv)) data parsed).
Proof.
  induction data as [|[key value] data IH]; cbn [forallb for_each fold_left fst snd];
    intros H parsed; [reflexivity|].
  apply andb_prop in H as [H1 H2]. unfold parse_item.
  destruct (mem key NUMERIC_FIELDS); cbn [negb orb] in H1.
  - destruct value; try discriminate. cbn [_parse_float mbind result_bind]. now apply IH.
  - cbn [mbind result_bind]. now apply IH.
Qed.

(** The dictionary in insertion order and the same dictionary as a map
    hold the same values. *)
Lemma dict_set_fold (data : list (string * pyval)) :
  forall (d : list (string * pyval)) (m : obj),
    (forall k, dict_get d k = m !! k) ->
    forall k,
      dict_get (fold_left (fun d kv => dict_set d (fst kv) (snd kv)) data d) k
      = fold_left (fun (d : obj) kv => <[fst kv := snd kv]> d) data m !! k.
Proof.
  induction data as [|[key value] data IH]; intros d m H k; cbn [fold_left fst snd];
    [apply H|].
  apply IH. intros k'. destruct (decide (key = k')) as [<- | Hne].
  - now rewrite RecorderProps.dict_get_set_eq, lookup_insert_eq.
  - rewrite RecorderProps.dict_get_set_ne, lookup_insert_ne by exact Hne. apply H.
Qed.

Lemma dict_set_fold_keys (data : list (string * pyval)) :
  forall (d : list (string * pyval)) (k : string),
    In k (map fst (fold_left (fun d kv => dict_set d (fst kv) (snd kv)) data d)) ->
    In k (map fst data) \/ In k (map fst d).
Proof.
  induction data as [|[key value] data IH]; intros d k; cbn [fold_left fst snd map In];
    [auto|].
  intros H. apply IH in H as [H | H]; [auto|].
  apply RecorderProps.dict_set_keys in H as [-> | H]; auto.
Qed.

Lemma dict_set_fold_NoDup (data : list (string * pyval)) :
  forall d : list (string * pyval),
    List.NoDup (map fst d) ->
    List.NoDup (map fst (fold_left (fun d kv => dict_set d (fst kv) (snd kv)) data d)).
Proof.
  induction data as [|[key value] data IH]; intros d H; cbn [fold_left fst snd];
    [exact H|].
  apply IH. now apply RecorderProps.dict_set_NoDup.
Qed.

Lemma fold_insert_lookup_key (data : list (string * pyval)) (k : string) :
  forall parsed : obj,
    (has_key k data = true ->
     exists v, In (k, v) data /\
       fold_left (fun (d : obj) kv => <[fst kv := snd kv]> d) data parsed !! k = Some v) /\
    (has_key k data = false ->
     fold_left (fun (d : obj) kv => <[fst kv := snd kv]> d) data parsed !! k = parsed !! k).
Proof.
  induction data as [|[key value] data IH]; intros parsed.
  - split; [discriminate | reflexivity].
  - cbn [fold_left fst snd]. destruct (IH (<[key := value]> parsed)) as [IH1 IH2].
    unfold has_key in *. cbn [existsb fst].
    destruct (existsb (fun kv => String.eqb k (fst kv)) data) eqn:E.
    + split; [|rewrite orb_true_r; discriminate].
      intros _. destruct (IH1 eq_refl) as (v & Hin & Hv). exists v. split; [now right | exact Hv].
    + rewrite orb_false_r. destruct (String.eqb k key) eqn:Ek.
      * apply String.eqb_eq in Ek. subst key. split; [|discriminate].
        intros _. exists value. split; [now left|].
        rewrite IH2 by reflexivity. apply lookup_insert_eq.
      * apply String.eqb_neq in Ek. split; [discriminate|].
        intros _. rewrite IH2 by reflexivity. now apply lookup_insert_ne.
Qed.

Lemma dict_of_lookup (data : list (string * pyval)) (k : string) (v : pyval) :
  dict_of data !! k = Some v -> In (k, v) data.
Proof.
  unfold dict_of. intros H.
  destruct (fold_insert_lookup_key data k ∅) as [H1 H2].
  destruct (has_key k data) eqn:E.
  - destruct (H1 eq_refl) as (w & Hin & Hw). congruence.
  - rewrite H2, lookup_empty in H by reflexivity. discriminate.
Qed.

Lemma dict_of_required (data : list (string * pyval)) (field : string) :
  forallb (fun kv => negb (mem (fst kv) NUMERIC_FIELDS) || is_float (snd kv)) data = true ->
  mem field NUMERIC_FIELDS = true -> has_key field data = true ->
  exists x, dict_of data !! field = Some (PyFloat x).
Proof.
  intros Hnum Hf Hk.
  destruct (fold_insert_lookup_key data field ∅) as [H1 _].
  destruct (H1 Hk) as (v & Hin & Hv). fold (dict_of data) in Hv.
  rewrite forallb_forall in Hnum. apply Hnum in Hin. cbn [fst snd] in Hin.
  rewrite Hf in Hin. destruct v; try discriminate. eauto.
Qed.

(** Keywords that are all columns are stored without asking anything
    of the class. *)
Lemma init_plain (kwargs : list (string * pyval)) :
  Forall (fun k => mem k COLUMNS = true) (map fst kwargs) ->
  forall o : obj, exists o', 
    for_each kwargs
      (fun instance '(k, v) =>
         if hasattr_class orm k then setattr orm instance k v else Raise TypeError)
      (o, []) = Ok (o', []).
Proof.
  induction kwargs as [|[k v] kwargs IH]; cbn [map fst for_each]; intros H o.
  - eauto.
  - apply Forall_cons_1 in H as [Hk H]. unfold hasattr_class. rewrite Hk. cbn [orb].
    rewrite (RecorderProps.setattr_column orm o k v Hk). cbn [mbind result_bind].
    apply IH. exact H.
Qed.

(** X24.  [add_experiment] raises nothing before the commit when every
    key is a mapped column, every numeric field holds a float, the four
    masses are given and [date_time] is not a string: the row handed to
    the session holds the given values with the two deltas set to final
    minus initial mass, and the outcome of the call is that of the
    commit of this row.  In particular the call returns the row as the
    last record of the session when it is plain, has a value in every
    NOT NULL column and an identifier that is not in use, and raises
    [IntegrityError] (storing nothing) when it is plain but lacks its
    identifier. *)
Theorem add_experiment_stores_record (session : list obj) (data : list (string * pyval))
    (Hcols : forallb (fun kv => mem (fst kv) COLUMNS) data = true)
    (Hnum : forallb (fun kv => negb (mem (fst kv) NUMERIC_FIELDS) || is_float (snd kv)) data
            = true)
    (Hreq : forallb (fun field => has_key field data) required_fields = true)
    (Hdate : forallb (fun kv => negb (String.eqb (fst kv) "date_time" && is_str (snd kv)))
                     data = true) :
  exists ip fp ineg fneg,
    dict_of data !! "initial_mass_positive_g"%string = Some (PyFloat ip) /\
    dict_of data !! "final_mass_positive_g"%string = Some (PyFloat fp) /\
    dict_of data !! "initial_mass_negative_g"%string = Some (PyFloat ineg) /\
    dict_of data !! "final_mass_negative_g"%string = Some (PyFloat fneg) /\
    let e := with_deltas (dict_of data) ip fp ineg fneg in
    let call := add_experiment float_of_str fromisoformat orm session data in
    call = match commit orm session e [] with
           | Some err => Raise err
           | None => Ok (e, session ++ [e])
           end /\
    (storable session e = true -> call = Ok (e, session ++ [e])) /\
    (well_kinded e = true -> has_key "experiment_id" data = false ->
     call = Raise IntegrityError).
Proof.
  cbn [forallb required_fields] in Hreq.
  apply andb_prop in Hreq as [R1 Hreq]. apply andb_prop in Hreq as [R2 Hreq].
  apply andb_prop in Hreq as [R3 Hreq]. apply andb_prop in Hreq as [R4 _].
  destruct (dict_of_required data "initial_mass_positive_g" Hnum eq_refl R1) as [ip Eip].
  destruct (dict_of_required data "final_mass_positive_g" Hnum eq_refl R2) as [fp Efp].
  destruct (dict_of_required data "initial_mass_negative_g" Hnum eq_refl R3) as [ineg Eineg].
  destruct (dict_of_required data "final_mass_negative_g" Hnum eq_refl R4) as [fneg Efneg].
  exists ip, fp, ineg, fneg. do 4 (split; [assumption|]).
  intros e call.
  assert (Hcall : call = match commit orm session e [] with
                         | Some err => Raise err
                         | None => Ok (e, session ++ [e])
                         end).
  { subst call. unfold add_experiment.
    rewrite parse_floats by exact Hnum.
    set (parsed := fold_left _ data []).
    assert (Hget : forall k, dict_get parsed k = dict_of data !! k).
    { intros k. subst parsed. unfold dict_of. apply dict_set_fold. intros k'.
      now rewrite lookup_empty. }
    assert (Hnd : List.NoDup (map fst parsed))
      by (subst parsed; apply dict_set_fold_NoDup; constructor).
    assert (Hkeys : forall k, In k (map fst parsed) -> mem k COLUMNS = true).
    { intros k Hk. subst parsed. apply dict_set_fold_keys in Hk as [Hk | []].
      apply in_map_iff in Hk as ([k' v] & <- & Hin).
      rewrite forallb_forall in Hcols. apply (Hcols _ Hin). }
    cbn [mbind result_bind for_each required_fields]. unfold get, dict_getitem.
    rewrite !Hget, Eip, Efp. cbn [is_none mbind result_bind].
    rewrite Eineg, Efneg. cbn [is_none mbind result_bind _calculate_delta].
    rewrite !RecorderProps.dict_get_set_ne, !Hget by discriminate. rewrite Eineg, Efneg.
    cbn [mbind result_bind _calculate_delta].
    set (p2 := dict_set (dict_set parsed _ _) _ _).
    assert (Hget2 : forall k, dict_get p2 k = e !! k).
    { intros k. subst p2 e. unfold with_deltas.
      destruct (decide ("delta_mass_negative_g"%string = k)) as [<- | N1];
        [now rewrite RecorderProps.dict_get_set_eq, lookup_insert_eq|].
      rewrite RecorderProps.dict_get_set_ne, lookup_insert_ne by exact N1.
      destruct (decide ("delta_mass_positive_g"%string = k)) as [<- | N2];
        [now rewrite RecorderProps.dict_get_set_eq, lookup_insert_eq|].
      rewrite RecorderProps.dict_get_set_ne, lookup_insert_ne by exact N2. apply Hget. }
    assert (Hnd2 : List.NoDup (map fst p2))
      by (subst p2; now do 2 apply RecorderProps.dict_set_NoDup).
    assert (Hkeys2 : Forall (fun k => mem k COLUMNS = true) (map fst p2)).
    { apply List.Forall_forall. intros k Hk. subst p2.
      apply RecorderProps.dict_set_keys in Hk as [-> | Hk]; [reflexivity|].
      apply RecorderProps.dict_set_keys in Hk as [-> | Hk]; [reflexivity|]. auto. }
    assert (Hd : match dict_get p2 "date_time" with
                 | Some (PyStr _) => False
                 | _ => True
                 end).
    { rewrite Hget2. subst e. unfold with_deltas. rewrite !lookup_insert_ne by discriminate.
      destruct (dict_of data !! "date_time"%string) as [v|] eqn:Ev; [|exact I].
      apply dict_of_lookup in Ev. rewrite forallb_forall in Hdate. apply Hdate in Ev.
      cbn [fst snd] in Ev. destruct v; try exact I. discriminate. }
    destruct (init_plain p2 Hkeys2 ∅) as [o' Einit].
    assert (o' = e) as ->.
    { apply map_eq. intros k.
      pose proof (RecorderProps.init_columns orm p2 _ _ Hnd2 Einit k) as Hk.
      cbn [fst] in Hk. rewrite Hk, lookup_empty, Hget2.
      destruct (mem k COLUMNS) eqn:Ec; [now destruct (e !! k)|].
      symmetry. rewrite <- Hget2. apply RecorderProps.dict_get_None. intros Hin.
      rewrite List.Forall_forall in Hkeys2. apply Hkeys2 in Hin. congruence. }
    destruct (dict_get p2 "date_time") as [[|s| | |]|]; try contradiction;
      cbn [mbind result_bind]; unfold Experiment_init; rewrite Einit; reflexivity. }
  split; [exact Hcall|]. split.
  - intros Hs. rewrite Hcall. unfold storable in Hs. unfold commit.
    apply andb_prop in Hs as [Hs Hdup]. apply andb_prop in Hs as [Hwk Hnull].
    apply negb_true_iff in Hdup, Hnull. cbn [plain andb]. now rewrite Hwk, Hnull, Hdup.
  - intros Hwk Hid. rewrite Hcall. unfold commit. cbn [plain andb]. rewrite Hwk.
    cbn [negb].
    assert (Hnull : null_violation e = true).
    { unfold null_violation. cbn [TEXT_NOT_NULL app existsb].
      assert (He : getattr e "experiment_id" = PyNone).
      { unfold getattr. subst e. unfold with_deltas, dict_of.
        rewrite !lookup_insert_ne by discriminate.
        destruct (fold_insert_lookup_key data "experiment_id" ∅) as [_ H2].
        now rewrite H2, lookup_empty by exact Hid. }
      now rewrite He. }
    now rewrite Hnull.
Qed.

End AddSucceeds.

Section EditSucceeds.

Variable float_of_str : string -> option float.
Variable orm : Orm.

(** A key that is a column or no attribute at all. *)
Lemma apply_float_changes (changes : list (string * pyval)) :
  forallb (fun kv => negb (mem (fst kv) NUMERIC_FIELDS) || is_float (snd kv)) changes = true ->
  forallb (fun kv => mem (fst kv) COLUMNS || negb (instance_attribute orm (fst kv)))
          changes = true ->
  forall o : obj,
    exists o1,
      for_each changes (apply_change float_of_str orm) (o, []) = Ok (o1, []) /\
      forall k, mem k NUMERIC_FIELDS = true ->
                (exists x, o !! k = Some (PyFloat x)) -> exists x, o1 !! k = Some (PyFloat x).
Proof.
  induction changes as [|[key value] changes IH]; cbn [forallb for_each fst snd];
    intros H Hk o.
  - exists o. auto.
  - apply andb_prop in H as [H1 H2]. apply andb_prop in Hk as [K1 K2].
    unfold apply_change, hasattr.
    destruct (mem key COLUMNS) eqn:Ec; cbn [orb negb] in K1 |- *.
    + assert (Hv : (if mem key NUMERIC_FIELDS then _parse_float float_of_str value
                    else Ok value) = Ok value).
      { destruct (mem key NUMERIC_FIELDS); [|reflexivity]. cbn [negb orb] in H1.
        now destruct value. }
      rewrite Hv. cbn [mbind result_bind].
      rewrite (RecorderProps.setattr_column orm o key value Ec). cbn [mbind result_bind].
      destruct (IH H2 K2 (<[key := value]> o)) as (o1 & E1 & Hf). exists o1.
      split; [exact E1|]. intros k Hnk Hx. apply Hf; [exact Hnk|].
      destruct (decide (key = k)) as [<- | Hne].
      * rewrite lookup_insert_eq. rewrite Hnk in H1. cbn [negb orb] in H1.
        destruct value; try discriminate. eauto.
      * now rewrite lookup_insert_ne.
    + apply negb_true_iff in K1. rewrite K1.
      assert (En : mem key NUMERIC_FIELDS = false).
      { destruct (mem key NUMERIC_FIELDS) eqn:En; [|reflexivity].
        apply numeric_column in En. congruence. }
      rewrite En. cbn [mbind result_bind]. now apply IH.
Qed.

Lemma recompute_floats (changes : list (string * pyval)) (initial final delta : string)
    (o : obj) :
  (exists x, o !! initial = Some (PyFloat x)) ->
  (exists x, o !! final = Some (PyFloat x)) ->
  mem delta COLUMNS = true ->
  exists o',
    recompute orm changes initial final delta (o, []) = Ok (o', []) /\
    forall k, k <> delta -> o' !! k = o !! k.
Proof.
  intros [i Hi] [f Hf] Hc. unfold recompute.
  destruct (existsb (fun k => has_key k changes) [initial; final]).
  - unfold getattr. cbn [fst]. rewrite Hi, Hf. cbn [_calculate_delta mbind result_bind].
    rewrite (RecorderProps.setattr_column orm o delta _ Hc).
    eexists. split; [reflexivity|]. intros k Hk. now rewrite lookup_insert_ne.
  - exists o. auto.
Qed.

Lemma column_changed (changes : list (string * pyval)) :
  forallb (fun kv => mem (fst kv) COLUMNS || negb (instance_attribute orm (fst kv)))
          changes = true ->
  existsb (fun kv => hasattr orm (fst kv)) changes
  = existsb (fun kv => mem (fst kv) COLUMNS) changes.
Proof.
  induction changes as [|[key value] changes IH]; cbn [forallb existsb fst]; [reflexivity|].
  intros H. apply andb_prop in H as [K1 K2]. rewrite IH by exact K2. f_equal.
  unfold hasattr. destruct (mem key COLUMNS); [reflexivity|].
  cbn [orb] in K1 |- *. now apply negb_true_iff in K1.
Qed.

(** X25.  [edit_experiment] raises nothing before the commit when it is
    called on the identifier of exactly one stored record that
    satisfies the invariant, with changes that do not name
    [experiment_id], whose numeric fields hold floats and whose keys are
    columns or no attributes at all: the changed row differs from the
    stored one only in the keys of the changes and in the deltas, and
    the outcome of the call is that of the commit of this row, or
    success when no key is a column.  In particular the call replaces
    that record alone when the changed row is plain, has a value in
    every NOT NULL column and shares its identifier with no other
    row. *)
Theorem edit_experiment_accepts_floats (session : list obj) (experiment_id : string)
    (o : obj) (changes : list (string * pyval))
    (Hone : List.filter (is_experiment experiment_id) session = [o])
    (Hinv : delta_invariant o)
    (Hid : has_key "experiment_id" changes = false)
    (Hnum : forallb (fun kv => negb (mem (fst kv) NUMERIC_FIELDS) || is_float (snd kv))
                    changes = true)
    (Hknown : forallb (fun kv => mem (fst kv) COLUMNS
                                 || negb (instance_attribute orm (fst kv)))
                      changes = true) :
  exists e',
    let call := edit_experiment float_of_str orm session experiment_id changes in
    let session' := map (fun x => if is_experiment experiment_id x then e' else x) session in
    (forall k, has_key k changes = false ->
               k <> "delta_mass_positive_g"%string -> k <> "delta_mass_negative_g"%string ->
               e' !! k = o !! k) /\
    call = match
             (if existsb (fun kv => mem (fst kv) COLUMNS) changes
              then commit orm (others_of experiment_id session) e' [] else None)
           with
           | Some err => Raise err
           | None => Ok (e', session')
           end /\
    (storable (others_of experiment_id session) e' = true -> call = Ok (e', session')).
Proof.
  destruct Hinv as (ip & fp & ineg & fneg & Hip & Hfp & Hineg & Hfneg & _ & _).
  destruct (apply_float_changes changes Hnum Hknown o) as (o1 & E1 & Hf).
  pose proof (RecorderProps.apply_changes_spec float_of_str orm changes _ _ E1)
    as [Hsame _]. cbn [fst] in Hsame.
  destruct (recompute_floats changes "initial_mass_positive_g" "final_mass_positive_g"
              "delta_mass_positive_g" o1)
    as (o2 & E2 & Hs2); [apply Hf; [reflexivity | eauto].. | reflexivity |].
  destruct (recompute_floats changes "initial_mass_negative_g" "final_mass_negative_g"
              "delta_mass_negative_g" o2)
    as (o3 & E3 & Hs3);
    [rewrite Hs2 by discriminate; apply Hf; [reflexivity | eauto].. | reflexivity |].
  exists o3. intros call session'.
  assert (Hcall : call = match
             (if existsb (fun kv => mem (fst kv) COLUMNS) changes
              then commit orm (others_of experiment_id session) o3 [] else None)
           with
           | Some err => Raise err
           | None => Ok (o3, session')
           end).
  { subst call session'. unfold edit_experiment. rewrite Hid, Hone, E1.
    cbn [mbind result_bind]. rewrite E2. cbn [mbind result_bind]. rewrite E3.
    cbn [mbind result_bind]. rewrite column_changed by exact Hknown.
    now rewrite (store_unique _ o) by exact Hone. }
  split; [|split; [exact Hcall|]].
  - intros k Hk N1 N2. now rewrite Hs3, Hs2, Hsame.
  - intros Hs. rewrite Hcall. unfold storable in Hs. unfold commit.
    apply andb_prop in Hs as [Hs Hdup]. apply andb_prop in Hs as [Hwk Hnull].
    apply negb_true_iff in Hdup, Hnull. cbn [plain andb]. rewrite Hwk, Hnull, Hdup.
    now destruct (existsb _ changes).
Qed.

End EditSucceeds.

(** *** The properties at the sample record *)

Lemma sample_record_invariant : delta_invariant sample_record.
Proof.
  exists 1.0%float, 0.9%float, 2.0%float, 2.05%float. repeat split; by_vm.
Qed.

Lemma sample_record_found :
  List.filter (is_experiment "E1") [sample_record] = [sample_record].
Proof. by_vm. Qed.

Lemma add_experiment_invariant_witness :
  add_experiment no_float no_datetime columns_only [] sample_data
  = Ok (sample_record, [sample_record]) /\
  delta_invariant sample_record.
Proof.
  assert (H : add_experiment no_float no_datetime columns_only [] sample_data
              = Ok (sample_record, [sample_record])) by by_vm.
  split; [exact H|].
  exact (RecorderProps.add_experiment_invariant no_float no_datetime columns_only []
           sample_data sample_record [sample_record] H).
Defined.

Lemma edit_experiment_keeps_invariant_witness :
  let changes := [("final_mass_positive_g"%string, PyFloat 0.8)] in
  Forall delta_invariant [sample_record] /\
  has_key "delta_mass_positive_g" changes = false /\
  has_key "delta_mass_negative_g" changes = false /\
  edit_experiment no_float columns_only [sample_record] "E1" changes
  = Ok (edited_record, [edited_record]) /\
  delta_invariant edited_record.
Proof.
  intros changes.
  assert (Hall : Forall delta_invariant [sample_record])
    by (constructor; [exact sample_record_invariant | constructor]).
  assert (H : edit_experiment no_float columns_only [sample_record] "E1" changes
              = Ok (edited_record, [edited_record])) by by_vm.
  split; [exact Hall|]. split; [reflexivity|]. split; [reflexivity|]. split; [exact H|].
  exact (RecorderProps.edit_experiment_keeps_invariant no_float columns_only
           [sample_record] "E1" changes edited_record [edited_record]
           Hall eq_refl eq_refl H).
Defined.

Lemma delete_experiment_removes_record_witness :
  List.filter (is_experiment "E1") [sample_record] = [sample_record] /\
  let session' := List.filter (fun x => negb (is_experiment "E1" x)) [sample_record] in
  delete_experiment [sample_record] "E1" = Ok session' /\
  length [sample_record] = S (length session') /\
  delete_experiment session' "E1" = Raise (ValidationError "Experiment not found") /\
  forall changes,
    edit_experiment no_float columns_only session' "E1" changes
    = if has_key "experiment_id" changes then Raise TypeError
      else Raise (ValidationError "Experiment not found").
Proof.
  split; [exact sample_record_found|].
  exact (delete_experiment_removes_record no_float columns_only [sample_record] "E1"
           sample_record sample_record_found).
Defined.

Lemma edit_experiment_touches_one_record_witness :
  let changes := [("final_mass_positive_g"%string, PyFloat 0.8)] in
  edit_experiment no_float columns_only [sample_record] "E1" changes
  = Ok (edited_record, [edited_record]) /\
  [edited_record]
  = map (fun x => if is_experiment "E1" x then edited_record else x) [sample_record] /\
  length [edited_record] = length [sample_record] /\
  length (List.filter (is_experiment "E1") [sample_record]) = 1%nat.
Proof.
  intros changes.
  assert (H : edit_experiment no_float columns_only [sample_record] "E1" changes
              = Ok (edited_record, [edited_record])) by by_vm.
  split; [exact H|].
  exact (edit_experiment_touches_one_record no_float columns_only [sample_record] "E1"
           changes edited_record [edited_record] H).
Defined.

Lemma edit_experiment_ignores_unknown_keys_witness :
  let changes := [("voltage"%string, PyStr "3.0")] in
  List.filter (is_experiment "E1") [sample_record] = [sample_record] /\
  forallb (fun kv => negb (hasattr columns_only (fst kv))) changes = true /\
  edit_experiment no_float columns_only [sample_record] "E1" changes
  = Ok (sample_record, [sample_record]).
Proof.
  intros changes. split; [exact sample_record_found|]. split; [reflexivity|].
  exact (edit_experiment_ignores_unknown_keys no_float columns_only [sample_record] "E1"
           sample_record changes sample_record_found eq_refl).
Defined.

Lemma edit_experiment_blank_mass_raises_witness :
  List.filter (is_experiment "E1") [sample_record] = [sample_record] /\
  In "final_mass_positive_g"%string required_fields /\
  blank (PyStr "") = true /\
  edit_experiment no_float columns_only [sample_record] "E1"
    [("final_mass_positive_g"%string, PyStr "")]
  = Raise TypeError.
Proof.
  assert (Hin : In "final_mass_positive_g"%string required_fields)
    by (simpl; auto).
  split; [exact sample_record_found|]. split; [exact Hin|]. split; [reflexivity|].
  exact (edit_experiment_blank_mass_raises no_float columns_only [sample_record] "E1"
           sample_record "final_mass_positive_g" (PyStr "") sample_record_found Hin eq_refl).
Defined.

Lemma add_experiment_requires_masses_witness :
  let data := [("experiment_id"%string, PyStr "E2");
               ("initial_mass_positive_g"%string, PyFloat 1.0);
               ("final_mass_positive_g"%string, PyStr "")] in
  In "final_mass_positive_g"%string required_fields /\
  forallb (fun kv => negb (String.eqb (fst kv) "final_mass_positive_g") || blank (snd kv))
          data = true /\
  exists what,
    add_experiment no_float no_datetime columns_only [] data = Raise (ValidationError what).
Proof.
  intros data.
  assert (Hin : In "final_mass_positive_g"%string required_fields)
    by (simpl; auto).
  split; [exact Hin|]. split; [reflexivity|].
  exact (add_experiment_requires_masses no_float no_datetime columns_only [] data
           "final_mass_positive_g" Hin eq_refl).
Defined.

Lemma add_then_delete_restores_witness :
  add_experiment no_float no_datetime columns_only [] sample_data
  = Ok (sample_record, [sample_record]) /\
  is_experiment "E1" sample_record = true /\
  List.filter (is_experiment "E1") [] = [] /\
  [sample_record] = [] ++ [sample_record] /\
  edit_experiment no_float columns_only [sample_record] "E1" []
  = Ok (sample_record, [sample_record]) /\
  delete_experiment [sample_record] "E1" = Ok [].
Proof.
  assert (H : add_experiment no_float no_datetime columns_only [] sample_data
              = Ok (sample_record, [sample_record])) by by_vm.
  assert (Hid : is_experiment "E1" sample_record = true) by by_vm.
  split; [exact H|]. split; [exact Hid|]. split; [reflexivity|].
  exact (add_then_delete_restores no_float no_datetime columns_only [] sample_data
           sample_record [sample_record] "E1" H Hid eq_refl).
Defined.

Lemma add_experiment_stores_record_witness :
  forallb (fun kv => mem (fst kv) COLUMNS) sample_data = true /\
  forallb (fun kv => negb (mem (fst kv) NUMERIC_FIELDS) || is_float (snd kv)) sample_data
  = true /\
  forallb (fun field => has_key field sample_data) required_fields = true /\
  forallb (fun kv => negb (String.eqb (fst kv) "date_time" && is_str (snd kv))) sample_data
  = true /\
  exists ip fp ineg fneg,
    dict_of sample_data !! "initial_mass_positive_g"%string = Some (PyFloat ip) /\
    dict_of sample_data !! "final_mass_positive_g"%string = Some (PyFloat fp) /\
    dict_of sample_data !! "initial_mass_negative_g"%string = Some (PyFloat ineg) /\
    dict_of sample_data !! "final_mass_negative_g"%string = Some (PyFloat fneg) /\
    let e := with_deltas (dict_of sample_data) ip fp ineg fneg in
    let call := add_experiment no_float no_datetime columns_only [] sample_data in
    call = match commit columns_only [] e [] with
           | Some err => Raise err
           | None => Ok (e, [] ++ [e])
           end /\
    (storable [] e = true -> call = Ok (e, [] ++ [e])) /\
    (well_kinded e = true -> has_key "experiment_id" sample_data = false ->
     call = Raise IntegrityError).
Proof.
  split; [reflexivity|]. split; [reflexivity|]. split; [reflexivity|]. split; [reflexivity|].
  exact (add_experiment_stores_record no_float no_datetime columns_only [] sample_data
           eq_refl eq_refl eq_refl eq_refl).
Defined.

Lemma edit_experiment_accepts_floats_witness :
  let changes := [("final_mass_positive_g"%string, PyFloat 0.8)] in
  List.filter (is_experiment "E1") [sample_record] = [sample_record] /\
  delta_invariant sample_record /\
  has_key "experiment_id" changes = false /\
  forallb (fun kv => negb (mem (fst kv) NUMERIC_FIELDS) || is_float (snd kv)) changes = true /\
  forallb (fun kv => mem (fst kv) COLUMNS || negb (instance_attribute columns_only (fst kv)))
          changes = true /\
  exists e',
    let call := edit_experiment no_float columns_only [sample_record] "E1" changes in
    let session' := map (fun x => if is_experiment "E1" x then e' else x) [sample_record] in
    (forall k, has_key k changes = false ->
               k <> "delta_mass_positive_g"%string -> k <> "delta_mass_negative_g"%string ->
               e' !! k = sample_record !! k) /\
    call = match
             (if existsb (fun kv => mem (fst kv) COLUMNS) changes
              then commit columns_only (others_of "E1" [sample_record]) e' [] else None)
           with
           | Some err => Raise err
           | None => Ok (e', session')
           end /\
    (storable (others_of "E1" [sample_record]) e' = true -> call = Ok (e', session')).
Proof.
  intros changes.
  split; [exact sample_record_found|]. split; [exact sample_record_invariant|].
  split; [reflexivity|]. split; [reflexivity|]. split; [reflexivity|].
  exact (edit_experiment_accepts_floats no_float columns_only [sample_record] "E1"
           sample_record changes sample_record_found sample_record_invariant
           eq_refl eq_refl eq_refl).
Defined.

End RecorderLaws.

(** ** The reagent calculator *)

Module ReagentProps.

Import reagent_calc.

Lemma molar_mass_plus (formula : string) (m : float) :
  MOLAR_MASSES !! formula = Some m ->
  SFplus (Prim2SF m) /\ pd.isna m = false /\ PrimFloat.eqb m 0 = false.
Proof.
  intros H. apply elem_of_list_to_map_2 in H. apply list_elem_of_In in H.
  cbn [In] in H.
  repeat (destruct H as [H | H]; [injection H as <- <-; repeat split|]).
  destruct H.
Qed.

Lemma calc_solid_mass_value (formula : string) (volume_ml molarity m : float) :
  MOLAR_MASSES !! formula = Some m ->
  calc_solid_mass formula volume_ml molarity
  = Ok (PrimFloat.mul (PrimFloat.mul (PrimFloat.div volume_ml 1000) molarity) m).
Proof.
  intros H. unfold calc_solid_mass, contains, getitem. rewrite H. reflexivity.
Qed.

Lemma calc_h2so4_volume_value (volume_ml molarity : float) :
  calc_h2so4_volume volume_ml molarity
  = Ok (PrimFloat.div
          (PrimFloat.div
             (PrimFloat.mul (PrimFloat.mul (PrimFloat.div volume_ml 1000) molarity) 98.079)
             H2SO4_PURITY)
          H2SO4_DENSITY_G_ML).
Proof. reflexivity. Qed.

(** X20.  [calc_solid_mass] fails only on an unknown formula: for a
    formula of [MOLAR_MASSES] it returns a mass, raising neither
    [KeyError] nor [ZeroDivisionError], and for any other formula it
    raises [ValueError]. *)
Theorem calc_solid_mass_unknown_formula (formula : string) (volume_ml molarity : float) :
  match MOLAR_MASSES !! formula with
  | Some _ => exists grams, calc_solid_mass formula volume_ml molarity = Ok grams
  | None => calc_solid_mass formula volume_ml molarity = Raise ValueError
  end.
Proof.
  destruct (MOLAR_MASSES !! formula) as [m|] eqn:E.
  - rewrite (calc_solid_mass_value _ _ _ m E). eauto.
  - unfold calc_solid_mass, contains. now rewrite E.
Qed.

Lemma mul_not_negative (x y : float) :
  not_negative x = true -> not_negative y = true ->
  not_negative (PrimFloat.mul x y) = true.
Proof. rewrite !not_negative_spec, mul_spec. apply SFmul_not_negative. Qed.

Lemma div_not_negative (x y : float) :
  not_negative x = true -> SFplus (Prim2SF y) ->
  not_negative (PrimFloat.div x y) = true.
Proof. rewrite !not_negative_spec, div_spec. apply SFdiv_not_negative. Qed.

Lemma leb_zero_not_negative (x : float) :
  PrimFloat.leb 0 x = true -> not_negative x = true.
Proof. intros H. unfold not_negative. rewrite H. apply orb_true_r. Qed.

Lemma mul_zero_finite (x y : float) :
  PrimFloat.eqb x 0 = true -> isfinite y = true ->
  PrimFloat.eqb (PrimFloat.mul x y) 0 = true.
Proof.
  rewrite !is_zero_spec, mul_spec. unfold isfinite. intros [sx ->].
  destruct (Prim2SF y) as [s|s| |s m e]; try discriminate; intros _; eexists; reflexivity.
Qed.

Lemma molar_mass_finite (formula : string) (m : float) :
  MOLAR_MASSES !! formula = Some m -> isfinite m = true /\ SFpositive (Prim2SF m).
Proof.
  intros H. apply elem_of_list_to_map_2 in H. apply list_elem_of_In in H.
  cbn [In] in H.
  repeat (destruct H as [H | H]; [injection H as <- <-; split; reflexivity|]).
  destruct H.
Qed.

(** X21.  The two calculators agree on sulfuric acid:
    [calc_h2so4_volume] never raises, and its result is the mass that
    [calc_solid_mass] gives for H2SO4, divided by the purity 0.98 and
    then by the density 1.84. *)
Theorem h2so4_volume_from_mass (volume_ml molarity : float) :
  exists grams,
    calc_solid_mass "H2SO4" volume_ml molarity = Ok grams /\
    calc_h2so4_volume volume_ml molarity
    = Ok (PrimFloat.div (PrimFloat.div grams H2SO4_PURITY) H2SO4_DENSITY_G_ML).
Proof.
  eexists. split; [apply (calc_solid_mass_value _ _ _ 98.079); reflexivity|].
  apply calc_h2so4_volume_value.
Qed.

(** X22.  Non-negative inputs never give a negative amount: for a
    volume and a molarity that compare at or above zero, the mass of
    [calc_solid_mass] and the volume of [calc_h2so4_volume] are NaN or
    compare at or above zero, and [calc_solid_mass] raises nothing but
    the [ValueError] of an unknown formula. *)
Theorem reagent_amounts_never_negative (formula : string) (volume_ml molarity : float)
    (Hv : PrimFloat.leb 0 volume_ml = true) (Hm : PrimFloat.leb 0 molarity = true) :
  match calc_solid_mass formula volume_ml molarity with
  | Ok grams => not_negative grams = true
  | Raise e => e = ValueError
  end /\
  exists ml,
    calc_h2so4_volume volume_ml molarity = Ok ml /\ not_negative ml = true.
Proof.
  assert (Hmoles : not_negative (PrimFloat.mul (PrimFloat.div volume_ml 1000) molarity) = true).
  { apply mul_not_negative; [|now apply leb_zero_not_negative].
    apply div_not_negative; [now apply leb_zero_not_negative | reflexivity]. }
  split.
  - destruct (MOLAR_MASSES !! formula) as [m|] eqn:E.
    + rewrite (calc_solid_mass_value _ _ _ m E).
      apply mul_not_negative; [exact Hmoles|].
      apply not_negative_spec, SFplus_not_negative, (molar_mass_plus formula m E).
    + unfold calc_solid_mass, contains. now rewrite E.
  - eexists. split; [apply calc_h2so4_volume_value|].
    apply div_not_negative; [|reflexivity].
    apply div_not_negative; [|reflexivity].
    apply mul_not_negative; [exact Hmoles | reflexivity].
Qed.

Lemma reagent_amounts_never_negative_witness :
  PrimFloat.leb 0 250 = true /\ PrimFloat.leb 0 0.5 = true /\
  match calc_solid_mass "KNO3" 250 0.5 with
  | Ok grams => not_negative grams = true
  | Raise e => e = ValueError
  end /\
  exists ml, calc_h2so4_volume 250 0.5 = Ok ml /\ not_negative ml = true.
Proof.
  split; [reflexivity|]. split; [reflexivity|].
  apply (reagent_amounts_never_negative "KNO3" 250 0.5); reflexivity.
Defined.

(** X23.  Zero volume needs no reagent: for a volume equal to zero and
    a finite molarity, the mass of every formula of the table and the
    volume of concentrated acid are zero. *)
Theorem no_volume_needs_no_reagent (formula : string) (volume_ml molarity m : float)
    (Hknown : MOLAR_MASSES !! formula = Some m)
    (Hv : PrimFloat.eqb volume_ml 0 = true) (Hm : isfinite molarity = true) :
  exists grams ml,
    calc_solid_mass formula volume_ml molarity = Ok grams /\
    calc_h2so4_volume volume_ml molarity = Ok ml /\
    PrimFloat.eqb grams 0 = true /\ PrimFloat.eqb ml 0 = true.
Proof.
  assert (Hmoles : PrimFloat.eqb (PrimFloat.mul (PrimFloat.div volume_ml 1000) molarity) 0
                   = true).
  { apply mul_zero_finite; [|exact Hm]. apply div_zero_positive; [exact Hv | reflexivity]. }
  do 2 eexists. split; [apply (calc_solid_mass_value _ _ _ m Hknown)|].
  split; [apply calc_h2so4_volume_value|]. split.
  - apply mul_zero_finite; [exact Hmoles | apply (molar_mass_finite formula m Hknown)].
  - apply div_zero_positive; [|reflexivity].
    apply div_zero_positive; [|reflexivity].
    apply mul_zero_finite; [exact Hmoles | reflexivity].
Qed.

Lemma no_volume_needs_no_reagent_witness :
  MOLAR_MASSES !! "KNO3"%string = Some 101.1032%float /\
  PrimFloat.eqb 0 0 = true /\ isfinite 0.5 = true /\
  exists grams ml,
    calc_solid_mass "KNO3" 0 0.5 = Ok grams /\
    calc_h2so4_volume 0 0.5 = Ok ml /\
    PrimFloat.eqb grams 0 = true /\ PrimFloat.eqb ml 0 = true.
Proof.
  split; [reflexivity|]. split; [reflexivity|]. split; [reflexivity|].
  apply (no_volume_needs_no_reagent "KNO3" 0 0.5 101.1032); reflexivity.
Defined.

End ReagentProps.
